(* ===== verification/_CoqProject ===== *)
-Q . S2P
Prelude.v
Codec.v
Platform.v
LogEntry.v
ContextStore.v
ContextStoreFacts.v
StoreTheorems.v
NodeUtil.v
RaftTypes.v
OtherNode.v
StateMachine.v
Lifecycle.v
Node.v
StateMachineInterface.v
RaftContext.v
RaftContextFacts.v
RaftStateMachine.v
RaftStateMachineFacts.v
ClusterNodeOptions.v
ClusterNodeImpl.v
ClusterNode.v
ClusterNodeInterfaces.v
Examples.v
Election.v
VoteFacts.v
ElectionRefinement.v
NodeInvariant.v
Demo.v
AppendEntries.v
Journal.v
Kept.v
Widths.v
Crash.v
Cluster.v
ReplicationTheorems.v
Replication.v
VoteTheorems.v
CommitTheorems.v
NodeTheorems.v
PeerFacts.v
PeerTheorems.v
ReplicationRefinement.v
LogCluster.v
LogMatching.v
CommitCall.v
CatchUp.v
CommitRound.v
ExampleTheorems.v
ParameterTheorems.v
Campaign.v
Alone.v
TestSuites.v
TestTheorems.v
Double.v
RaftInspector.v
Monitor.v
MonitorProcess.v
MonitorFacts.v
MonitorTheorems.v
LockSystem.v
Threads.v
Locks.v
LockTheorems.v
