(* ===== verification/Prelude.v ===== *)
(** * foros: verification of a RAFT based failover framework for ROS 2

    foros makes a ROS 2 node part of a cluster: the nodes elect a leader with
    RAFT, replicate commands through it, and only the node that leads is active,
    that is, publishes and serves requests.

    ** The program and its model

    A class of the sources is a file here, its members a record, its methods
    functions that keep their names.  Paths are those of [foros/src] unless
    another directory is named.

    - Store.  [raft/context_store.cpp] keeps term, vote and log in LevelDB and in
      memory: ContextStore.v, with the byte layout of the values in Codec.v.  The
      database and the random generator are the class [Platform] of Platform.v;
      [PlatformSpec] is LevelDB's documented behaviour, [CrashHistory] what the
      database held after each write, where a crash may leave it, and [mem_platform]
      a concrete database whose writes fail on demand.
    - Values.  [command.cpp], [raft/log_entry.hpp]: LogEntry.v.
      [raft/pending_commit.hpp], [raft/event.hpp], [raft/state_type.hpp] and the
      services of [foros_msgs]: RaftTypes.v, with the outputs of a node and what
      ends its process.
    - Peers.  [raft/other_node.cpp]: OtherNode.v; names of services,
      [common/node_util.cpp]: NodeUtil.v.
    - Context.  [raft/context.cpp], the core: RaftContext.v on the state of
      Node.v.  A method takes and returns the whole node, because it may call the
      state machine, which changes the node.
    - State machines.  [common/observable.hpp] and [common/state_machine.hpp]:
      StateMachine.v, generic in the states and in the world they act on.
      [raft/state.cpp], [raft/state/*], [raft/state_machine.cpp]:
      RaftStateMachine.v.  [lifecycle/*]: Lifecycle.v.
    - Clustered node.  [cluster_node_impl.cpp], [cluster_node.cpp] and the gating
      of [cluster_node_publisher.hpp] and [cluster_node_service.hpp]:
      ClusterNodeImpl.v; options: ClusterNodeOptions.v.  [run_input] there is the
      executor: what may call into a node from outside, one callback at a time.
    - Public class.  What [cluster_node.cpp] and [cluster_node_template.hpp] do
      beyond forwarding to [ClusterNodeImpl]: creation of publishers and services,
      parameters: ClusterNode.v.  rclcpp's parameters are a record of operations,
      what the theorems need of it the class [ParametersLaws].  The members, the order
      in which they are made and released, and the calls passed on to rclcpp's
      graph, clock, timers, clients and callback groups: ClusterNodeInterfaces.v.
    - Threads.  For every method of the store, the peers, the context, the state
      machines and the node: the mutexes it locks, the shared members it uses and the
      calls it makes, in order, Locks.v, in the language of LockSystem.v; threads that
      interleave such code: Threads.v.  [commit_command] step by step, next to the
      inputs of the executor: CommitCall.v.
    - Programs.  [foros_examples/src]: Examples.v, the arguments with
      [std::stoul], what each program registers, and its timers.  [foros/test]:
      TestSuites.v, each test as a computation that collects its expectations.
    - Inspectors.  [raft/inspector.cpp] and the message it publishes:
      RaftInspector.v.  [foros_inspector/src/inspector.cpp], the monitor that
      shows the messages: Monitor.v, down to the calls it makes on its window;
      its [main], and how the screen is opened and closed: MonitorProcess.v.
      Both compute with doubles: Double.v.

    The context calls the state machine and the state machine the context.  The
    first direction goes through the class [StateMachineInterface], as in the
    sources; lemmas about the context use [StateMachineContract], which
    RaftStateMachineFacts.v proves of the machine.  The machine notifies its
    observers through [StateObserver], whose contract ElectionRefinement.v proves
    of the clustered node.

    ** What the theorems show

    - Elections (Election.v, VoteFacts.v, ElectionRefinement.v, Cluster.v,
      VoteTheorems.v): a cluster of these nodes simulates an abstract election
      protocol in which a term has one leader, whatever messages are delayed,
      reordered, lost, repeated or forged (vote requests and append-entries
      traffic of any content), whenever nodes restart from what they wrote and
      wherever in a handler they crash.
      A node votes once per term; the answer to a vote request on every branch.
      Campaign.v: a candidate that enough willing peers answer leads.  Alone.v: a
      node alone in its cluster leads from its first timeout on.
    - Replication (AppendEntries.v, ReplicationTheorems.v, PeerFacts.v,
      PeerTheorems.v): the handler of append-entries requests implements a
      function on logs; what it cannot touch, what success means, repeated
      delivery, what a leader sends and how it takes the answers.  CatchUp.v: a
      leader and a follower that exchange broadcasts and answers end with the same
      log, unless a command has no data.  CommitRound.v: from there, in a cluster of
      any size, a command goes into the logs of the leader and of a majority, and its
      promise is answered with success; but it is too when a majority refuses it.
    - Crashes (Journal.v, Crash.v): the process may end after any write of any
      handler.  Journal.v adds the history of its database to any platform and
      follows the store through its writes; Crash.v does so for every input of a
      node: what a restart finds has kept the term, the vote and the log.
    - The logs of a cluster (Replication.v, Kept.v, ReplicationRefinement.v,
      LogCluster.v, LogMatching.v): a cluster whose append-entries requests are genuine
      simulates an abstract replication protocol, in which two logs that agree on the
      term of a position agree up to it.  The theorem [log_matching] needs that no
      leader is given an entry of its own or an earlier term ([harmless]) and that the
      databases accept writes ([writable]); [stale_entry_breaks_matching] shows what
      happens without the first, and [committed_command_lost] that even so a
      committed command may be overwritten.
    - Threads (LockTheorems.v, CommitCall.v): with the mutexes as they are taken no
      interleaving of the executor and of user threads deadlocks, whatever user
      callbacks call, and every shared member but three is free of data races; promises
      are answered at most once however calls are interrupted; a call that is
      interrupted by a change of leader breaks log matching.
    - Commits (CommitTheorems.v): committing a command, the answers of the peers one
      by one.
    - The node as a whole (NodeInvariant.v, NodeTheorems.v): an invariant of every
      reachable state; active exactly while leading; the machine against its
      diagram; timers; promises answered at most once; restart.  Widths.v: every
      integer stays in the range of its type.
    - The public class and the programs (ParameterTheorems.v, ExampleTheorems.v):
      what declaring parameters leaves when it returns and when it throws; the
      arguments of the examples; what they publish, answer and commit.
    - The test suites (TestTheorems.v): the tests of the repository pass on the
      model, most of them by computation.
    - The store (ContextStoreFacts.v, StoreTheorems.v): recovery of what was
      written, crashes in the middle of [push_log], shape of the log, failures.
    - The monitor (MonitorFacts.v, MonitorTheorems.v): its refresh against a
      definition without loops, consistency of its data, a fresh message is shown.

    Some theorems state behaviour that departs from RAFT or from what the code
    means to do, at a concrete node: requests of old terms that are processed, a
    majority of failures that commits, entries sent under their old term, the
    last term ignored in votes, a second vote at the last 64-bit term, null and
    empty commands, commits dropped without an answer, committed commands that are
    lost, members that are raced, votes granted though they were not written, ignored
    read and write failures.

    ** Bounds and fuel

    - Unsigned integers are [N]; an operation that may leave the width wraps
      ([wrap64], [wrap32] below).
    - [init_logs] counts to a 64-bit number found in the database: it runs by
      [run_pow2] below with [2 ^ 64] steps at most, and
      [StoreTheorems.init_logs_longest_prefix] shows that it ends before.
    - The recursion between context and machine is followed to depth 2
      ([RaftStateMachine.max_depth]); [NodeTheorems.handle_event_depth] shows that
      no more depth changes a result from a reachable state.
    - Election safety assumes that an election timer does not fire at the term
      [2 ^ 64 - 1] ([Crash.term_left]): [VoteTheorems.last_term_votes_twice]
      shows what happens there.

    - A run of the code of Locks.v is any finite sequence of its actions: loops and
      recursion have no bound there.  [LockSystem.perform] computes runs for the
      witnesses, with fuel 100.

    ** What is not modelled

    - Interleavings inside a callback of the executor, as far as values are concerned:
      Locks.v has them with the members used but not their values, CommitCall.v with
      values but a callback at a time.  User callbacks are outputs outside Locks.v:
      they do not call back into the node.  In Locks.v they call any method of the node;
      what else user code does, and mutexes of its own, are not modelled.
    - The middleware: requests are outputs, arrivals are inputs, timers fire when
      the environment says so.  rclcpp's objects are parameters; the mutexes it locks
      by itself are left out.
    - Reads of the database that fail for a moment: between two writes a read of the
      same key has the same outcome.
    - The clock within one handler of the monitor, which Monitor.v reads once.
    - What the base classes of publishers and services do with a message that is
      let through, except that a service runs its callback on the request.
    - A crash ends the process, and what was written before it is found again: a
      machine that loses what LevelDB has not yet synchronised is not modelled (the
      sources write without [sync]).  A crash of Crash.v is in a handler whose writes
      all succeed and whose integers do not wrap ([room]); one without is
      [VoteTheorems.unwritten_vote_elects_two].
    - Logging (but for what the examples print), what ncurses draws, destructors that
      only free memory, and the tests of what rclcpp alone does (names, namespaces,
      parameters, loggers).  What else is left of the sources is declarations,
      comments and documentation.

    ** What may follow

    Values in the interleavings of Locks.v; replication of a command while other
    commands wait and answers get lost; the layout of the monitor's table. *)

From stdpp Require Export base tactics option list numbers strings gmap sorting.
From Stdlib Require Export Lia.

(** ** Machine integers

    Unsigned integers are values of [N]; every addition of the sources that may
    leave the width of its type goes through one of these functions. *)

Definition u64_size : N := 18446744073709551616.
Definition u32_size : N := 4294967296.

Definition wrap64 (x : N) : N := (x mod u64_size)%N.
Definition wrap32 (x : N) : N := (x mod u32_size)%N.

(** ** Bounded loops

    A loop whose number of iterations is only bounded by the range of a 64-bit
    counter runs [step] at most [2 ^ n] times, and stops as soon as [step]
    returns [inr]: structural recursion on [n] makes it executable without a
    unary number of that size. *)

Fixpoint run_pow2 {S R : Type} (step : S → S + R) (n : nat) (s : S) : S + R :=
  match n with
  | O => step s
  | S n' =>
      match run_pow2 step n' s with
      | inr r => inr r
      | inl s' => run_pow2 step n' s'
      end
  end.

(** ** Ordered maps

    [std::map] is a [gmap]; a range-based [for] over it visits the keys in
    ascending order. *)

Definition map_ids {A : Type} (m : gmap N A) : list N :=
  merge_sort N.le (map_to_list m).*1.

(** ** Tactics and hints *)

Create HintDb foros.
Create Rewrite HintDb foros.

(** Case analysis on the test of an [if] or the scrutinee of a [match] in the
    goal, comparisons of [N] being turned into inequalities. *)

Ltac case_test :=
  match goal with
  | |- context [ (?x <? ?y)%N ] => destruct (N.ltb_spec x y)
  | |- context [ (?x <=? ?y)%N ] => destruct (N.leb_spec x y)
  | |- context [ (?x =? ?y)%N ] => destruct (N.eqb_spec x y)
  | |- context [ if ?b then _ else _ ] => destruct b eqn:?
  end.

(** The same in a hypothesis. *)

Ltac case_test_in H :=
  match type of H with
  | context [ (?x <? ?y)%N ] => destruct (N.ltb_spec x y)
  | context [ (?x <=? ?y)%N ] => destruct (N.leb_spec x y)
  | context [ (?x =? ?y)%N ] => destruct (N.eqb_spec x y)
  | context [ if ?b then _ else _ ] => destruct b eqn:?
  end.

(** A closed decidable goal, decided by computing its decision only: the value that an
    [is_Some] speaks of does not become part of the proof. *)

Ltac compute_decision := apply (bool_decide_unpack _); vm_compute; exact I.

(** Name the components of a call that returns a pair. *)

Ltac split_call :=
  match goal with
  | |- context [ let '(_, _) := ?c in _ ] => destruct c eqn:?
  end.

(** ** Lemmas on machine integers *)

Lemma wrap64_small (x : N) : (x < u64_size)%N → wrap64 x = x.
Proof. apply N.mod_small. Qed.

Lemma wrap32_small (x : N) : (x < u32_size)%N → wrap32 x = x.
Proof. apply N.mod_small. Qed.

Lemma wrap64_lt (x : N) : (wrap64 x < u64_size)%N.
Proof. by apply N.mod_lt. Qed.

Lemma wrap32_lt (x : N) : (wrap32 x < u32_size)%N.
Proof. by apply N.mod_lt. Qed.

#[export] Hint Resolve wrap64_lt wrap32_lt : foros.
#[export] Hint Rewrite wrap64_small wrap32_small using lia : foros.

(** ** Lemmas on bounded loops *)

Section run_pow2.
  Context {S R : Type} (step : S → S + R).
  Context (I : S → Prop) (Q : R → Prop) (m : S → N).

  (** One iteration keeps the invariant [I] and decreases the measure [m], or
      returns a result that satisfies [Q]. *)
  Hypothesis step_ok : ∀ s, I s →
    match step s with
    | inl s' => I s' ∧ (m s' < m s)%N
    | inr r => Q r
    end.

Lemma run_pow2_progress n s : I s →
    (∃ r, run_pow2 step n s = inr r ∧ Q r) ∨
    (∃ s', run_pow2 step n s = inl s' ∧ I s' ∧ (m s' + 2 ^ N.of_nat n <= m s)%N).
  Proof.
    revert s; induction n as [|n IH]; intros s Hs; cbn [run_pow2].
    - pose proof (step_ok s Hs) as H. destruct (step s) as [s'|r]; [right|left]; eauto.
      destruct H as [? ?]. exists s'. rewrite N.pow_0_r. split_and!; [done..|lia].
    - replace (2 ^ N.of_nat (Datatypes.S n))%N with (2 ^ N.of_nat n + 2 ^ N.of_nat n)%N
        by (rewrite Nat2N.inj_succ, N.pow_succ_r'; lia).
      destruct (IH s Hs) as [(r & -> & ?)|(s' & -> & Hs' & ?)]; [by eauto|].
      destruct (IH s' Hs') as [(r & -> & ?)|(s'' & -> & ? & ?)]; [by eauto|].
      right. exists s''. split_and!; [done..|lia].
  Qed.

  (** The rule for total correctness. *)
Lemma run_pow2_total n s : I s → (m s < 2 ^ N.of_nat n)%N →
    ∃ r, run_pow2 step n s = inr r ∧ Q r.
  Proof.
    intros Hs Hm.
    destruct (run_pow2_progress n s Hs) as [?|(s' & _ & _ & ?)]; [done|lia].
  Qed.
End run_pow2.

(** ** Lemmas on ordered maps *)

Lemma map_ids_perm {A} (m : gmap N A) : map_ids m ≡ₚ (map_to_list m).*1.
Proof. apply merge_sort_Permutation. Qed.

Lemma elem_of_map_ids {A} (m : gmap N A) k : k ∈ map_ids m ↔ is_Some (m !! k).
Proof.
  rewrite map_ids_perm, list_elem_of_fmap. split.
  - intros ([k' x] & -> & Hx). exists x. by apply elem_of_map_to_list in Hx.
  - intros [x Hx]. exists (k, x). split; [done|]. by apply elem_of_map_to_list.
Qed.

Lemma map_ids_NoDup {A} (m : gmap N A) : NoDup (map_ids m).
Proof. rewrite map_ids_perm. apply NoDup_fst_map_to_list. Qed.

Lemma map_ids_length {A} (m : gmap N A) : length (map_ids m) = size m.
Proof. by rewrite map_ids_perm, length_fmap, length_map_to_list. Qed.

Lemma map_ids_sorted {A} (m : gmap N A) : Sorted N.le (map_ids m).
Proof. apply Sorted_merge_sort. intros x y. lia. Qed.

(** ** Lemmas on sets *)

Lemma size_list_to_set_le (l : list N) : size (list_to_set l : gset N) ≤ length l.
Proof.
  induction l as [|x l IH]; [done|]. simpl.
  pose proof (size_union_alt ({[x]} : gset N) (list_to_set l)) as E.
  rewrite E, size_singleton.
  pose proof (subseteq_size (list_to_set l ∖ {[x]} : gset N) (list_to_set l)). set_solver by lia.
Qed.
