(* ===== verification/Codec.v ===== *)
(** * Byte codec of the values that the store writes

    [ContextStore] writes integers and booleans to the database as the bytes of
    their memory representation ([reinterpret_cast<const char *>(&term)]) and
    reads them back the same way.  The representation modelled is the
    little-endian one of the platforms ROS 2 supports. *)

From Stdlib Require Export Strings.Byte.
From S2P Require Import Prelude.

Local Open Scope N_scope.

Definition byte_of_N (x : N) : byte := default x00 (Byte.of_N (x mod 256)).

Fixpoint le_encode (n : nat) (x : N) : list byte :=
  match n with
  | O => []
  | S n' => byte_of_N x :: le_encode n' (x / 256)
  end.

Fixpoint le_decode (bs : list byte) : N :=
  match bs with
  | [] => 0
  | b :: bs' => Byte.to_N b + 256 * le_decode bs'
  end.

(** [sizeof(uint64_t)], [sizeof(uint32_t)] and [sizeof(bool)]. *)
Definition sizeof_u64 : nat := 8.
Definition sizeof_u32 : nat := 4.
Definition sizeof_bool : nat := 1.

Definition encode_u64 (x : N) : list byte := le_encode sizeof_u64 x.
Definition encode_u32 (x : N) : list byte := le_encode sizeof_u32 x.
Definition encode_bool (b : bool) : list byte := [if b then x01 else x00].

(** [*(reinterpret_cast<const uint64_t *>(slice.data()))] reads the first bytes
    of the slice. *)
Definition decode_u64 (bs : list byte) : N := le_decode (take sizeof_u64 bs).
Definition decode_u32 (bs : list byte) : N := le_decode (take sizeof_u32 bs).
Definition decode_bool (bs : list byte) : bool :=
  negb (le_decode (take sizeof_bool bs) =? 0).

#[export] Instance byte_eq_decision : EqDecision byte := Byte.byte_eq_dec.

(** ** Lemmas *)

Lemma byte_of_N_to_N x : Byte.to_N (byte_of_N x) = x mod 256.
Proof.
  unfold byte_of_N. destruct (Byte.of_N (x mod 256)) as [b|] eqn:E; simpl.
  - by apply Byte.to_of_N.
  - apply Byte.of_N_None_iff in E. pose proof (N.mod_lt x 256). lia.
Qed.

Lemma byte_of_to_N b : byte_of_N (Byte.to_N b) = b.
Proof.
  unfold byte_of_N. rewrite N.mod_small; [by rewrite Byte.of_to_N|].
  pose proof (Byte.to_N_bounded b). lia.
Qed.

Lemma byte_of_N_mod x : byte_of_N (x mod 256) = byte_of_N x.
Proof. unfold byte_of_N. by rewrite N.Div0.mod_mod. Qed.

Lemma length_le_encode n x : length (le_encode n x) = n.
Proof. revert x; induction n as [|n IH]; intros x; simpl; [done|]. by rewrite IH. Qed.

Lemma le_decode_encode n x : le_decode (le_encode n x) = x mod 256 ^ N.of_nat n.
Proof.
  revert x; induction n as [|n IH]; intros x; cbn [le_encode le_decode].
  - by rewrite N.pow_0_r, N.mod_1_r.
  - rewrite IH, byte_of_N_to_N, Nat2N.inj_succ, N.pow_succ_r', N.Div0.mod_mul_r. lia.
Qed.

Lemma le_encode_decode bs : le_encode (length bs) (le_decode bs) = bs.
Proof.
  induction bs as [|b bs IH]; cbn [le_decode le_encode length]; [done|].
  pose proof (Byte.to_N_bounded b).
  f_equal.
  - rewrite <-byte_of_N_mod, N.mul_comm, N.Div0.mod_add.
    rewrite N.mod_small by lia. apply byte_of_to_N.
  - rewrite N.mul_comm, N.div_add, N.div_small by lia. by rewrite N.add_0_l.
Qed.

Lemma length_encode_u64 x : length (encode_u64 x) = sizeof_u64.
Proof. apply length_le_encode. Qed.

Lemma length_encode_u32 x : length (encode_u32 x) = sizeof_u32.
Proof. apply length_le_encode. Qed.

Lemma length_encode_bool b : length (encode_bool b) = sizeof_bool.
Proof. done. Qed.

Lemma decode_encode_u64 x : decode_u64 (encode_u64 x) = wrap64 x.
Proof.
  unfold decode_u64. rewrite take_ge by (rewrite length_encode_u64; done).
  apply le_decode_encode.
Qed.

Lemma decode_encode_u32 x : decode_u32 (encode_u32 x) = wrap32 x.
Proof.
  unfold decode_u32. rewrite take_ge by (rewrite length_encode_u32; done).
  apply le_decode_encode.
Qed.

Lemma decode_encode_bool b : decode_bool (encode_bool b) = b.
Proof. by destruct b. Qed.

Lemma le_decode_lt n bs : le_decode (take n bs) < 256 ^ N.of_nat n.
Proof.
  set (l := take n bs). pose proof (le_decode_encode (length l) (le_decode l)) as H.
  rewrite le_encode_decode in H. rewrite H.
  assert (length l ≤ n)%nat by (subst l; rewrite length_take; lia).
  eapply N.lt_le_trans; [by apply N.mod_lt, N.pow_nonzero|].
  apply N.pow_le_mono_r; lia.
Qed.

Lemma decode_u64_lt bs : decode_u64 bs < u64_size.
Proof. apply (le_decode_lt sizeof_u64). Qed.

Lemma decode_u32_lt bs : decode_u32 bs < u32_size.
Proof. apply (le_decode_lt sizeof_u32). Qed.

#[export] Hint Rewrite length_encode_u64 length_encode_u32 length_encode_bool
  decode_encode_u64 decode_encode_u32 decode_encode_bool : foros.
#[export] Hint Resolve decode_u64_lt : foros.
