(* ===== verification/Platform.v ===== *)
(** * The platform: what the library code under the sources provides

    LevelDB ([leveldb::DB]) and the random generator behind
    [std::uniform_int_distribution] are not part of the repository: the model
    takes them as the class [Platform].  What the sources rely on is the class
    [PlatformSpec], whose fields are LevelDB's documented behaviour.
    [mem_platform] is a concrete platform on which the model computes, with a
    database whose writes fail on demand. *)

From S2P Require Import Prelude Codec.

(** The part of [leveldb::Status] that the sources distinguish on a read. *)
Inductive GetStatus := GetOk | GetNotFound | GetError.

Class Platform := {
  (** An open database handle: contents and whatever decides on failures. *)
  DB : Type;
  (** [Get(ReadOptions(), key, &value)]: the status, and the string that [value] holds
      after the call, given what it held before.  The sources read only while they
      open a store.  Reading does not change [DB]: a read that fails does so until the
      next write, whereas LevelDB may fail for a moment, between two reads of the size
      that [init_logs] makes. *)
  db_get : DB → string → list byte → GetStatus * list byte;
  (** [Put(WriteOptions(), key, value)]: [status.ok()] and the database. *)
  db_put : DB → string → list byte → bool * DB;
  (** The state of [random_generator_]. *)
  RNG : Type;
  (** [uniform_int_distribution(min, max)(generator)]. *)
  uniform_int : RNG → N → N → N * RNG;
}.

Class PlatformSpec `{Platform} := {
  (** The entries of the database. *)
  db_contents : DB → gmap string (list byte);
  db_get_ok db k old v :
    db_get db k old = (GetOk, v) → db_contents db !! k = Some v;
  (** "If there is no entry for key leave *value unchanged". *)
  db_get_notfound db k old v :
    db_get db k old = (GetNotFound, v) → db_contents db !! k = None ∧ v = old;
  (** "Set the database entry for key to value. Returns OK on success". *)
  db_put_ok db k v db' :
    db_put db k v = (true, db') → db_contents db' = <[k := v]> (db_contents db);
  (** A write, failed or not, concerns the entry of its key only. *)
  db_put_other db k v b db' j :
    db_put db k v = (b, db') → j ≠ k → db_contents db' !! j = db_contents db !! j;
  (** A draw lies in the closed interval of the distribution. *)
  uniform_int_range g lo hi : (lo ≤ hi)%N →
    (lo ≤ (uniform_int g lo hi).1 ≤ hi)%N;
}.

(** No read of [db] fails: every entry can be read back. *)
Definition db_readable `{PlatformSpec} (db : DB) : Prop :=
  ∀ k old, (db_get db k old).1 ≠ GetError.

Lemma db_readable_get `{PlatformSpec} db k old : db_readable db →
  db_get db k old =
    match db_contents db !! k with
    | Some v => (GetOk, v)
    | None => (GetNotFound, old)
    end.
Proof.
  intros Hr. specialize (Hr k old).
  destruct (db_get db k old) as [[] v] eqn:E; simpl in Hr.
  - apply db_get_ok in E. by rewrite E.
  - apply db_get_notfound in E as [-> ->]. done.
  - done.
Qed.

(** *** Crashes

    The process may end between any two writes.  [snapshots] are what the database
    held after each write so far, in order: what the next start may find.  No
    operation reads them.  [Journal.journaled] adds them to any platform. *)

Class CrashHistory `{PlatformSpec} := {
  snapshots : DB → list DB;
  (** A write, failed or not, adds what the database holds after it. *)
  snapshots_put d k v b d' : db_put d k v = (b, d') →
    ∃ e, snapshots d' = snapshots d ++ [e] ∧ db_contents e = db_contents d';
}.

(** What a crash may leave, once [d] has become [d']. *)
Definition crash_points `{CrashHistory} (d d' : DB) : list DB :=
  drop (length (snapshots d)) (snapshots d').

(** ** A platform in memory *)

(** [faults] says for the next writes whether they fail; a write beyond it
    succeeds.  [held] is what the database held after each write. *)
Record MemDB := mkMemDB {
  mem : gmap string (list byte);
  faults : list bool;
  held : list (gmap string (list byte));
}.

Definition mem_get (db : MemDB) (k : string) (old : list byte) : GetStatus * list byte :=
  match mem db !! k with
  | Some v => (GetOk, v)
  | None => (GetNotFound, old)
  end.

Definition mem_put (db : MemDB) (k : string) (v : list byte) : bool * MemDB :=
  match faults db with
  | true :: fs => (false, mkMemDB (mem db) fs (held db ++ [mem db]))
  | _ =>
      let m := <[k := v]> (mem db) in
      (true, mkMemDB m (tail (faults db)) (held db ++ [m]))
  end.

(** A generator that cycles through the interval. *)
Definition mem_uniform (g lo hi : N) : N * N :=
  ((lo + g mod (hi - lo + 1))%N, (g + 7)%N).

#[export] Instance mem_platform : Platform := {|
  DB := MemDB;
  db_get := mem_get;
  db_put := mem_put;
  RNG := N;
  uniform_int := mem_uniform;
|}.

#[export] Instance mem_platform_spec : PlatformSpec.
Proof.
  refine {| db_contents := mem : DB → _ |}; simpl.
  - intros db k old v. unfold mem_get. destruct (mem db !! k); naive_solver.
  - intros db k old v. unfold mem_get. destruct (mem db !! k); naive_solver.
  - intros db k v db'. unfold mem_put. destruct (faults db) as [|[] ?]; naive_solver.
  - intros db k v b db' j. unfold mem_put. intros Hp Hj.
    destruct (faults db) as [|[] ?]; simplify_eq/=; by rewrite ?lookup_insert_ne.
  - intros g lo hi Hle. unfold mem_uniform; simpl.
    pose proof (N.mod_lt g (hi - lo + 1) ltac:(lia)). unfold RNG in *; simpl in *. revert H. generalize (g `mod` (hi - lo + 1))%N. lia.
Defined.

#[export] Instance mem_platform_history : CrashHistory.
Proof.
  refine {| snapshots db := (λ m, mkMemDB m [] []) <$> held db : list DB |}.
  intros db k v b db'. simpl. unfold mem_put. intros Hp. exists (mkMemDB (mem db') [] []).
  destruct (faults db) as [|[] ?]; simplify_eq/=; by rewrite fmap_app.
Defined.

Lemma mem_platform_readable (db : DB (Platform := mem_platform)) : db_readable db.
Proof. intros k old. simpl. unfold mem_get. by destruct (mem db !! k). Qed.

(** A database created by [create_if_missing], whose writes all succeed. *)
Definition empty_db : @DB mem_platform := mkMemDB ∅ [] [].
