(* ===== verification/LogEntry.v ===== *)
(** * Commands, commit responses and log entries

    The value classes of [include/akit/failover/foros/command.hpp],
    [src/command.cpp] and [src/raft/log_entry.hpp].  A [SharedPtr] that may be
    null is an [option]; the objects are immutable, so sharing is not
    observable. *)

From S2P Require Import Prelude Codec.

Record Command := mkCommand { data_ : list byte }.

(** [Command(const char *data, uint64_t size)]: the first [size] bytes. *)
Definition Command_of_buffer (data : list byte) (size : N) : Command :=
  mkCommand (take (N.to_nat size) data).

Definition data (c : Command) : list byte := data_ c.

Record CommandCommitResponse := mkCommandCommitResponse {
  response_id_ : N;
  response_command_ : option Command;
  response_result_ : bool;
}.

Record LogEntry := mkLogEntry {
  id_ : N;
  term_ : N;
  command_ : option Command;
}.

#[export] Instance Command_eq_dec : EqDecision Command.
Proof. solve_decision. Defined.

#[export] Instance LogEntry_eq_dec : EqDecision LogEntry.
Proof. solve_decision. Defined.

#[export] Instance CommandCommitResponse_eq_dec : EqDecision CommandCommitResponse.
Proof. solve_decision. Defined.

Lemma Command_of_buffer_all (d : list byte) :
  Command_of_buffer d (N.of_nat (length d)) = mkCommand d.
Proof. unfold Command_of_buffer. by rewrite Nat2N.id, firstn_all. Qed.
