(* ===== verification/ContextStore.v ===== *)
(** * The persistent store of a RAFT node

    [src/raft/context_store.cpp]: the in-memory copy of the current term, the
    vote and the log, written through to a LevelDB database.  Every method that
    writes returns the boolean of the source and the store after the call; the
    locks are left out, a method being one atomic step of the model. *)

From stdpp Require Export pretty.
From S2P Require Import Prelude Codec Platform LogEntry.

Local Open Scope N_scope.

(** ** Keys *)

Definition kCurrentTermKey : string := "current_term".
Definition kVotedForKey : string := "voted_for".
Definition kVotedKey : string := "voted".
Definition kLogKeyPrefix : string := "log/".
Definition kLogDataKeySuffix : string := "/data".
Definition kLogTermKeySuffix : string := "/term".
Definition kLogSizeKey : string := "log_size".

(** [std::to_string] of an unsigned integer is [pretty]. *)
Definition get_log_data_key (id : N) : string :=
  kLogKeyPrefix +:+ pretty id +:+ kLogDataKeySuffix.

Definition get_log_term_key (id : N) : string :=
  kLogKeyPrefix +:+ pretty id +:+ kLogTermKeySuffix.

Section ContextStore.
  Context `{Platform}.

(** ** State *)

Record ContextStore := mkContextStore {
  db_ : option DB;
  current_term_ : N;
  voted_for_ : N;
  voted_ : bool;
  vote_received_ : N;
  logs_ : list LogEntry;
}.

Definition with_db (d : option DB) (s : ContextStore) : ContextStore :=
  mkContextStore d (current_term_ s) (voted_for_ s) (voted_ s) (vote_received_ s) (logs_ s).
Definition with_current_term (t : N) (s : ContextStore) : ContextStore :=
  mkContextStore (db_ s) t (voted_for_ s) (voted_ s) (vote_received_ s) (logs_ s).
Definition with_voted_for (v : N) (s : ContextStore) : ContextStore :=
  mkContextStore (db_ s) (current_term_ s) v (voted_ s) (vote_received_ s) (logs_ s).
Definition with_voted (v : bool) (s : ContextStore) : ContextStore :=
  mkContextStore (db_ s) (current_term_ s) (voted_for_ s) v (vote_received_ s) (logs_ s).
Definition with_vote_received (v : N) (s : ContextStore) : ContextStore :=
  mkContextStore (db_ s) (current_term_ s) (voted_for_ s) (voted_ s) v (logs_ s).
Definition with_logs (l : list LogEntry) (s : ContextStore) : ContextStore :=
  mkContextStore (db_ s) (current_term_ s) (voted_for_ s) (voted_ s) (vote_received_ s) l.

(** The pattern of every write: a null database is an error, otherwise the
    result is the one of [Put]. *)
Definition put (k : string) (v : list byte) (s : ContextStore) : bool * ContextStore :=
  match db_ s with
  | None => (false, s)
  | Some d => let '(ok, d') := db_put d k v in (ok, with_db (Some d') s)
  end.

(** The overloads [current_term(term)], [voted_for(id)], [voted(voted)] are the
    functions [set_...]; the getters keep the names of the source. *)

Definition set_current_term (term : N) (s : ContextStore) : bool * ContextStore :=
  put kCurrentTermKey (encode_u64 term) (with_current_term term s).

Definition current_term (s : ContextStore) : N := current_term_ s.

Definition set_voted_for (id : N) (s : ContextStore) : bool * ContextStore :=
  put kVotedForKey (encode_u32 id) (with_voted_for id s).

Definition voted_for (s : ContextStore) : N := voted_for_ s.

Definition set_voted (voted : bool) (s : ContextStore) : bool * ContextStore :=
  put kVotedKey (encode_bool voted) (with_voted voted s).

Definition voted (s : ContextStore) : bool := voted_ s.

Definition vote_received (s : ContextStore) : N := vote_received_ s.

Definition increase_vote_received (s : ContextStore) : bool * ContextStore :=
  (true, with_vote_received (wrap32 (vote_received_ s + 1)) s).

Definition reset_vote_received (s : ContextStore) : bool * ContextStore :=
  (true, with_vote_received 0 s).

(** ** Reading the log *)

Definition logs_size (s : ContextStore) : N := N.of_nat (length (logs_ s)).

(** [log(id)] *)
Definition log (id : N) (s : ContextStore) : option LogEntry :=
  if logs_size s <=? id then None else logs_ s !! N.to_nat id.

(** [log()] *)
Definition last_log (s : ContextStore) : option LogEntry := last (logs_ s).

(** ** Writing the log *)

Definition store_logs_size (size : N) (s : ContextStore) : bool * ContextStore :=
  put kLogSizeKey (encode_u64 size) s.

Definition store_log_term (id term : N) (s : ContextStore) : bool * ContextStore :=
  put (get_log_term_key id) (encode_u64 term) s.

Definition store_log_data (id : N) (data : list byte) (s : ContextStore) : bool * ContextStore :=
  put (get_log_data_key id) data s.

Definition push_log (log : option LogEntry) (s : ContextStore) : bool * ContextStore :=
  match log with
  | None => (false, s)
  | Some log =>
      match command_ log with
      | None => (false, s)
      | Some command =>
          if negb (id_ log =? logs_size s) then (false, s) else
          let '(ok, s) := store_log_term (id_ log) (term_ log) s in
          if negb ok then (false, s) else
          let '(ok, s) := store_log_data (id_ log) (data command) s in
          if negb ok then (false, s) else
          let '(ok, s) := store_logs_size (wrap64 (logs_size s + 1)) s in
          if negb ok then (false, s) else
          (true, with_logs (logs_ s ++ [log]) s)
      end
  end.

Definition revert_log (id : N) (s : ContextStore) : bool * ContextStore :=
  if logs_size s <=? id then (false, s) else
  let s := with_logs (take (N.to_nat id) (logs_ s)) s in
  let '(_, s) := store_logs_size id s in
  (true, s).

(** ** Opening the store *)

(** [init_current_term], [init_voted_for] and [init_voted] read one value with
    the same steps: a failed read or a value of the wrong size gives the
    default. *)
Definition init_value {A} (d : DB) (k : string) (size : nat)
    (decode : list byte → A) (default : A) : A :=
  match db_get d k [] with
  | (GetOk, value) => if negb (length value =? size)%nat then default else decode value
  | _ => default
  end.

Definition init_current_term (d : DB) (s : ContextStore) : ContextStore :=
  with_current_term (init_value d kCurrentTermKey sizeof_u64 decode_u64 0) s.

Definition init_voted_for (d : DB) (s : ContextStore) : ContextStore :=
  with_voted_for (init_value d kVotedForKey sizeof_u32 decode_u32 0) s.

Definition init_voted (d : DB) (s : ContextStore) : ContextStore :=
  with_voted (init_value d kVotedKey sizeof_bool decode_bool false) s.

Definition load_logs_size (s : ContextStore) : N :=
  match db_ s with
  | None => 0
  | Some d => init_value d kLogSizeKey sizeof_u64 decode_u64 0
  end.

(** The status of the second read is not tested: [value] keeps what the first
    read left in it when the data entry is missing. *)
Definition load_log (id : N) (s : ContextStore) : option LogEntry :=
  match db_ s with
  | None => None
  | Some d =>
      match db_get d (get_log_term_key id) [] with
      | (GetOk, value) =>
          if (length value <? sizeof_u64)%nat then None else
          let term := decode_u64 value in
          let '(_, value) := db_get d (get_log_data_key id) value in
          Some (mkLogEntry id term
                  (Some (Command_of_buffer value (N.of_nat (length value)))))
      | _ => None
      end
  end.

(** One iteration of the loop of [init_logs]: the bound is read again each
    time, and a missing entry truncates the stored size. *)
Definition init_logs_step (st : N * ContextStore) : N * ContextStore + ContextStore :=
  let '(i, s) := st in
  if i <? load_logs_size s then
    match load_log i s with
    | None => inr (store_logs_size i s).2
    | Some log => inl (wrap64 (i + 1), with_logs (logs_ s ++ [log]) s)
    end
  else inr s.

(** The counter has 64 bits: [2 ^ 64] iterations are enough
    ([StoreTheorems.init_logs_longest_prefix]). *)
Definition init_logs (s : ContextStore) : ContextStore :=
  match run_pow2 init_logs_step 64 (0, with_logs [] s) with
  | inr s' => s'
  | inl (_, s') => s'
  end.

(** The constructor, given the outcome of [leveldb::DB::Open]: [None] is a
    status that is not OK, for which LevelDB leaves a null handle. *)
Definition new_ContextStore (opened : option DB) : ContextStore :=
  let s := mkContextStore opened 0 0 false 0 [] in
  match opened with
  | None => s
  | Some d => init_logs (init_voted d (init_voted_for d (init_current_term d s)))
  end.

End ContextStore.
