(* ===== verification/ContextStoreFacts.v ===== *)
(** * Correctness of the persistent store

    Well-formedness of the log, the relation between the memory of the store
    and the database, what reopening a database gives, and what a crash in the
    middle of [push_log] can leave behind. *)

From S2P Require Import Prelude Codec Platform LogEntry ContextStore.

Local Open Scope N_scope.

(** ** Specification *)

Section spec.
  Context `{PlatformSpec}.

(** Position [i] of the log holds the entry with identifier [i], and every
    entry has a command. *)
Definition log_wf (l : list LogEntry) : Prop :=
  ∀ i e, l !! i = Some e → id_ e = N.of_nat i ∧ is_Some (command_ e).

(** The database holds [v] under [k], or nothing and [v] is the default. *)
Definition value_on_disk {A} (c : gmap string (list byte)) (k : string)
    (encode : A → list byte) (default v : A) : Prop :=
  c !! k = Some (encode v) ∨ c !! k = None ∧ v = default.

Definition entry_on_disk (c : gmap string (list byte)) (i : nat) (e : LogEntry) : Prop :=
  ∃ cmd, e = mkLogEntry (N.of_nat i) (term_ e) (Some cmd) ∧
    term_ e < u64_size ∧
    c !! get_log_term_key (N.of_nat i) = Some (encode_u64 (term_ e)) ∧
    c !! get_log_data_key (N.of_nat i) = Some (data_ cmd).

Definition log_on_disk (c : gmap string (list byte)) (l : list LogEntry) : Prop :=
  N.of_nat (length l) < u64_size ∧
  value_on_disk c kLogSizeKey encode_u64 0 (N.of_nat (length l)) ∧
  ∀ i e, l !! i = Some e → entry_on_disk c i e.

(** What the store holds in memory is what its database holds. *)
Record persisted (s : ContextStore) (d : DB) : Prop := {
  persisted_db : db_ s = Some d;
  persisted_term_lt : current_term_ s < u64_size;
  persisted_voted_for_lt : voted_for_ s < u32_size;
  persisted_term :
    value_on_disk (db_contents d) kCurrentTermKey encode_u64 0 (current_term_ s);
  persisted_voted_for :
    value_on_disk (db_contents d) kVotedForKey encode_u32 0 (voted_for_ s);
  persisted_voted :
    value_on_disk (db_contents d) kVotedKey encode_bool false (voted_ s);
  persisted_logs : log_on_disk (db_contents d) (logs_ s);
}.

End spec.

(** ** Keys *)

Lemma list_ascii_of_string_app (s t : string) :
  String.list_ascii_of_string (s +:+ t) =
  String.list_ascii_of_string s ++ String.list_ascii_of_string t.
Proof. induction s as [|c s IH]; simpl; [done|]. by rewrite IH. Qed.

Lemma list_ascii_of_string_inj (s t : string) :
  String.list_ascii_of_string s = String.list_ascii_of_string t → s = t.
Proof.
  intros Hst. rewrite <-(String.string_of_list_ascii_of_string s), Hst.
  apply String.string_of_list_ascii_of_string.
Qed.

(** Two strings with suffixes of the same length. *)
Lemma string_app_suffix_inj (s t u v : string) :
  length (String.list_ascii_of_string u) = length (String.list_ascii_of_string v) →
  s +:+ u = t +:+ v → s = t ∧ u = v.
Proof.
  intros Hlen Heq%(f_equal String.list_ascii_of_string).
  rewrite !list_ascii_of_string_app in Heq.
  apply app_inj_2 in Heq as [? ?]; [|done].
  eauto using list_ascii_of_string_inj.
Qed.

Lemma get_log_term_key_inj i j : get_log_term_key i = get_log_term_key j → i = j.
Proof.
  unfold get_log_term_key. intros Heq%(inj (String.append kLogKeyPrefix)).
  apply string_app_suffix_inj in Heq as [Heq _]; [|done]. by apply (inj pretty) in Heq.
Qed.

Lemma get_log_data_key_inj i j : get_log_data_key i = get_log_data_key j → i = j.
Proof.
  unfold get_log_data_key. intros Heq%(inj (String.append kLogKeyPrefix)).
  apply string_app_suffix_inj in Heq as [Heq _]; [|done]. by apply (inj pretty) in Heq.
Qed.

Lemma get_log_term_data_key i j : get_log_term_key i ≠ get_log_data_key j.
Proof.
  unfold get_log_term_key, get_log_data_key.
  intros Heq%(inj (String.append kLogKeyPrefix)).
  by apply string_app_suffix_inj in Heq as [_ Heq].
Qed.

(** Any two keys of the store with different roles or indices differ. *)
Ltac key_neq :=
  solve
    [ discriminate
    | apply get_log_term_data_key
    | apply not_eq_sym, get_log_term_data_key
    | intros ?%get_log_term_key_inj; simplify_eq/=; lia
    | intros ?%get_log_data_key_inj; simplify_eq/=; lia ].

(** ** Frames *)

Section facts.
  Context `{PlatformSpec}.
  Implicit Types (s : ContextStore) (d : DB) (c : gmap string (list byte)).

Lemma put_inv k v s b s' : put k v s = (b, s') →
  (db_ s = None ∧ b = false ∧ s' = s) ∨
  ∃ d d', db_ s = Some d ∧ db_put d k v = (b, d') ∧ s' = with_db (Some d') s.
Proof.
  unfold put. destruct (db_ s) as [d|]; [|naive_solver].
  destruct (db_put d k v) eqn:?; naive_solver.
Qed.

Lemma put_open k v s d b s' : db_ s = Some d → put k v s = (b, s') →
  ∃ d', db_put d k v = (b, d') ∧ s' = with_db (Some d') s.
Proof. intros Hd [(?&?&?)|(?&d'&?&?&?)]%put_inv; naive_solver. Qed.

(** A write changes nothing of the store but the database. *)
Lemma put_frame k v s : (put k v s).2 = with_db (db_ (put k v s).2) s.
Proof.
  destruct (put k v s) as [b s'] eqn:E; simpl.
  apply put_inv in E as [(?&?&->)|(?&?&?&?&->)]; by destruct s.
Qed.

Lemma db_put_lookup d k v d' :
  db_put d k v = (true, d') → db_contents d' !! k = Some v.
Proof. intros ->%db_put_ok. apply lookup_insert_eq. Qed.

Lemma value_on_disk_agree {A} c c' k (enc : A → list byte) def v :
  c' !! k = c !! k → value_on_disk c k enc def v → value_on_disk c' k enc def v.
Proof. unfold value_on_disk. by intros ->. Qed.

Lemma entry_on_disk_agree c c' i e :
  c' !! get_log_term_key (N.of_nat i) = c !! get_log_term_key (N.of_nat i) →
  c' !! get_log_data_key (N.of_nat i) = c !! get_log_data_key (N.of_nat i) →
  entry_on_disk c i e → entry_on_disk c' i e.
Proof. unfold entry_on_disk. by intros -> ->. Qed.

Lemma log_on_disk_agree c c' l :
  c' !! kLogSizeKey = c !! kLogSizeKey →
  (∀ i, (i < length l)%nat →
    c' !! get_log_term_key (N.of_nat i) = c !! get_log_term_key (N.of_nat i) ∧
    c' !! get_log_data_key (N.of_nat i) = c !! get_log_data_key (N.of_nat i)) →
  log_on_disk c l → log_on_disk c' l.
Proof.
  intros Hsize Hkeys (Hlt & Hv & He). split_and!; [done|by eapply value_on_disk_agree|].
  intros i e Hi. destruct (Hkeys i) as [? ?]; [by eapply lookup_lt_Some|].
  eapply entry_on_disk_agree; eauto.
Qed.

Lemma log_on_disk_wf c l : log_on_disk c l → log_wf l.
Proof. intros (_ & _ & He) i e (cmd & -> & _)%He. simpl. eauto. Qed.

(** ** Writing the vote and the term *)

(** A write to a key that is not [k] leaves what is stored under [k]. *)
Ltac other_key :=
  match goal with
  | Hp : db_put ?d _ _ = (_, ?d') |- db_contents ?d' !! _ = db_contents ?d !! _ =>
      eapply db_put_other; [exact Hp|key_neq]
  end.

Ltac persisted_frame :=
  first
    [ done
    | eapply value_on_disk_agree; [|eassumption]; other_key
    | eapply log_on_disk_agree; [| |eassumption]; [other_key|intros; split; other_key]
    | left; by eapply db_put_lookup ].

Lemma set_current_term_persisted term s d s' :
  persisted s d → term < u64_size → set_current_term term s = (true, s') →
  ∃ d', persisted s' d' ∧ s' = with_db (Some d') (with_current_term term s).
Proof.
  intros [] ? Hput. eapply put_open in Hput as (d' & Hp & ->); [|done].
  exists d'. split; [|done]. split; simpl; persisted_frame.
Qed.

Lemma set_voted_for_persisted id s d s' :
  persisted s d → id < u32_size → set_voted_for id s = (true, s') →
  ∃ d', persisted s' d' ∧ s' = with_db (Some d') (with_voted_for id s).
Proof.
  intros [] ? Hput. eapply put_open in Hput as (d' & Hp & ->); [|done].
  exists d'. split; [|done]. split; simpl; persisted_frame.
Qed.

Lemma set_voted_persisted v s d s' :
  persisted s d → set_voted v s = (true, s') →
  ∃ d', persisted s' d' ∧ s' = with_db (Some d') (with_voted v s).
Proof.
  intros [] Hput. eapply put_open in Hput as (d' & Hp & ->); [|done].
  exists d'. split; [|done]. split; simpl; persisted_frame.
Qed.

Lemma with_vote_received_persisted v s d :
  persisted s d → persisted (with_vote_received v s) d.
Proof. by intros []. Qed.


(** ** Loading the log *)

Lemma load_logs_size_lt s : load_logs_size s < u64_size.
Proof.
  unfold load_logs_size, init_value. destruct (db_ s) as [d|]; [|done].
  destruct (db_get d _ _) as [[] v]; [|done..]. case_test; [done|]. apply decode_u64_lt.
Qed.

Lemma load_logs_size_with_logs l s : load_logs_size (with_logs l s) = load_logs_size s.
Proof. done. Qed.

Lemma load_log_with_logs id l s : load_log id (with_logs l s) = load_log id s.
Proof. done. Qed.

Lemma load_log_wf id s e : load_log id s = Some e → id_ e = id ∧ is_Some (command_ e).
Proof.
  unfold load_log. intros He.
  destruct (db_ s) as [d|]; [|done]. destruct (db_get d _ _) as [[] v]; [|done..].
  destruct (_ <? _)%nat; [done|]. destruct (db_get d _ v). by simplify_eq/=.
Qed.

(** What a run of [init_logs] gives from the store [s]: the entries that can be
    loaded in sequence, all of them or up to the first that cannot. *)
Definition logs_loaded (s s' : ContextStore) : Prop :=
  let n := N.of_nat (length (logs_ s')) in
  (∀ i, (i < length (logs_ s'))%nat → logs_ s' !! i = load_log (N.of_nat i) s) ∧
  ((n = load_logs_size s ∧ s' = with_logs (logs_ s') s) ∨
   (n < load_logs_size s ∧ load_log n s = None ∧
    s' = (store_logs_size n (with_logs (logs_ s') s)).2)).

(** The states of the loop. *)
Definition init_logs_inv (s : ContextStore) (st : N * ContextStore) : Prop :=
  st.2 = with_logs (logs_ st.2) s ∧
  st.1 = N.of_nat (length (logs_ st.2)) ∧ st.1 ≤ load_logs_size s ∧
  ∀ i, (i < length (logs_ st.2))%nat → logs_ st.2 !! i = load_log (N.of_nat i) s.

Lemma init_logs_step_ok s st : init_logs_inv s st →
  match init_logs_step st with
  | inl st' => init_logs_inv s st' ∧
      load_logs_size s - st'.1 < load_logs_size s - st.1
  | inr s' => logs_loaded s s'
  end.
Proof.
  destruct st as [i s']. intros (Hs' & Hi & Hle & Hl). simpl in *.
  pose proof (load_logs_size_lt s) as Hlt.
  rewrite Hs', load_logs_size_with_logs, load_log_with_logs.
  destruct (N.ltb_spec i (load_logs_size s)).
  - destruct (load_log i s) as [e|] eqn:He.
    + rewrite wrap64_small by lia. unfold init_logs_inv; simpl.
      rewrite length_app, Nat2N.inj_add, <-Hi.
      split; [|simpl; lia]. split_and!; [done|done|simpl; lia|].
      intros j Hj. destruct (decide (j < length (logs_ s'))%nat).
      * rewrite lookup_app_l by done. by apply Hl.
      * assert (j = length (logs_ s')) as -> by (simpl in *; lia).
        by rewrite list_lookup_middle, <-Hi, He.
    + unfold logs_loaded. unfold store_logs_size. rewrite put_frame. simpl.
      rewrite <-Hi. split; [done|]. right. split_and!; [done..|].
      by rewrite put_frame.
  - unfold logs_loaded; simpl. split; [done|]. left. split; [lia|done].
Qed.

Lemma init_logs_loaded s :
  ∃ s', run_pow2 init_logs_step 64 (0, with_logs [] s) = inr s' ∧ logs_loaded s s'.
Proof.
  apply (run_pow2_total init_logs_step (init_logs_inv s) (logs_loaded s)
           (λ st, load_logs_size s - st.1)).
  - apply init_logs_step_ok.
  - split_and!; simpl; [done|done|lia|]. intros i Hi. lia.
  - pose proof (load_logs_size_lt s). simpl.
    change (2 ^ N.of_nat 64) with u64_size. lia.
Qed.

Lemma init_logs_logs_loaded s : logs_loaded s (init_logs s).
Proof. unfold init_logs. by destruct (init_logs_loaded s) as (s' & -> & ?). Qed.

(** The count of received votes is not stored. *)
Lemma new_ContextStore_vote_received opened : vote_received_ (new_ContextStore opened) = 0.
Proof.
  destruct opened as [d|]; [|done]. unfold new_ContextStore.
  match goal with |- context [init_logs ?s] =>
    destruct (init_logs_logs_loaded s) as [_ [[_ ->]|(_ & _ & ->)]] end; [done|].
  unfold store_logs_size. by rewrite put_frame.
Qed.

Lemma logs_loaded_wf s s' : logs_loaded s s' → log_wf (logs_ s').
Proof.
  intros [Hl _] i e Hi. pose proof (lookup_lt_Some _ _ _ Hi).
  rewrite Hl in Hi by done. by eapply load_log_wf.
Qed.

(** ** Reading back what is on disk *)

Lemma init_value_on_disk {A} d k size (enc : A → list byte) dec def v :
  db_readable d → value_on_disk (db_contents d) k enc def v →
  length (enc v) = size → dec (enc v) = v →
  init_value d k size dec def = v.
Proof.
  intros Hr Hv Hlen Hdec. unfold init_value. rewrite db_readable_get by done.
  destruct Hv as [-> | [-> ->]]; [|done].
  by rewrite Hlen, Nat.eqb_refl, Hdec.
Qed.

Lemma load_log_on_disk s d i e : db_ s = Some d → db_readable d →
  entry_on_disk (db_contents d) i e → load_log (N.of_nat i) s = Some e.
Proof.
  intros Hd Hr (cmd & He & ? & Ht & Hc). unfold load_log. rewrite Hd.
  rewrite !db_readable_get, Ht by done. rewrite length_encode_u64, Nat.ltb_irrefl.
  rewrite decode_encode_u64, wrap64_small by done.
  rewrite db_readable_get, Hc by done.
  rewrite Command_of_buffer_all, He. by destruct cmd.
Qed.

Lemma init_logs_on_disk s d l : db_ s = Some d → db_readable d →
  log_on_disk (db_contents d) l → init_logs s = with_logs l s.
Proof.
  intros Hd Hr (Hlt & Hsize & He).
  assert (load_logs_size s = N.of_nat (length l)) as Hn.
  { unfold load_logs_size. rewrite Hd. eapply init_value_on_disk; [done..| |].
    - apply length_encode_u64.
    - rewrite decode_encode_u64. by apply wrap64_small. }
  assert (∀ i, (i < length l)%nat → load_log (N.of_nat i) s = l !! i) as Hload.
  { intros i [e Hi]%lookup_lt_is_Some_2. rewrite Hi. eapply load_log_on_disk; eauto. }
  destruct (init_logs_logs_loaded s) as [Hl [[Hlen Hs] | (Hlen & Hnone & _)]].
  - rewrite Hs. f_equal. apply list_eq_same_length with (length l); [done|lia|].
    intros i x y Hi Hx Hy. rewrite Hl, Hload in Hx by lia. congruence.
  - rewrite Hload, eq_None_not_Some in Hnone by lia.
    destruct Hnone. apply lookup_lt_is_Some_2. lia.
Qed.

Lemma new_ContextStore_persisted s d : persisted s d → db_readable d →
  new_ContextStore (Some d) = with_vote_received 0 s.
Proof.
  intros [] Hr. unfold new_ContextStore.
  rewrite (init_logs_on_disk _ d (logs_ s)) by done.
  unfold init_voted, init_voted_for, init_current_term.
  rewrite (init_value_on_disk d kCurrentTermKey _ encode_u64 _ _ (current_term_ s)),
    (init_value_on_disk d kVotedForKey _ encode_u32 _ _ (voted_for_ s)),
    (init_value_on_disk d kVotedKey _ encode_bool _ _ (voted_ s));
    try done; try apply length_encode_u64; try apply length_encode_u32;
    try apply decode_encode_bool;
    rewrite ?decode_encode_u64, ?decode_encode_u32;
    auto using wrap64_small, wrap32_small.
  destruct s; simplify_eq/=. done.
Qed.

(** ** Writing the log *)

Lemma log_term_on_disk_frame d d' b l id term :
  log_on_disk (db_contents d) l → N.of_nat (length l) ≤ id →
  db_put d (get_log_term_key id) (encode_u64 term) = (b, d') →
  log_on_disk (db_contents d') l.
Proof.
  intros Hl Hid Hp. eapply log_on_disk_agree; [| |exact Hl]; [other_key|].
  intros; split; other_key.
Qed.

Lemma log_data_on_disk_frame d d' b l id v :
  log_on_disk (db_contents d) l → N.of_nat (length l) ≤ id →
  db_put d (get_log_data_key id) v = (b, d') →
  log_on_disk (db_contents d') l.
Proof.
  intros Hl Hid Hp. eapply log_on_disk_agree; [| |exact Hl]; [other_key|].
  intros; split; other_key.
Qed.

Lemma log_on_disk_snoc c l e :
  (∀ i e, l !! i = Some e → entry_on_disk c i e) → entry_on_disk c (length l) e →
  c !! kLogSizeKey = Some (encode_u64 (N.of_nat (S (length l)))) →
  N.of_nat (S (length l)) < u64_size → log_on_disk c (l ++ [e]).
Proof.
  intros Hl He Hsize Hlt. unfold log_on_disk.
  rewrite length_app, Nat.add_comm. split_and!; [done|by left|].
  intros i e' [[_ Hi]|[-> <-]]%lookup_snoc_Some; [by apply Hl|done].
Qed.

Lemma log_on_disk_take c c' l n :
  (∀ j, j ≠ kLogSizeKey → c' !! j = c !! j) →
  c' !! kLogSizeKey = Some (encode_u64 (N.of_nat n)) → (n ≤ length l)%nat →
  log_on_disk c l → log_on_disk c' (take n l).
Proof.
  intros Hc Hsize Hn (Hlt & _ & He). unfold log_on_disk.
  rewrite length_take_le by done. split_and!; [lia|by left|].
  intros i e Hi%lookup_take_Some. destruct Hi as [Hi ?].
  eapply entry_on_disk_agree; [apply Hc; key_neq..|]. by apply He.
Qed.


Lemma store_log_term_persisted id term s d b s' :
  persisted s d → logs_size s ≤ id → store_log_term id term s = (b, s') →
  ∃ d', persisted s' d' ∧ s' = with_db (Some d') s ∧
    db_put d (get_log_term_key id) (encode_u64 term) = (b, d').
Proof.
  intros [] Hid Hput. eapply put_open in Hput as (d' & Hp & ->); [|done].
  exists d'. split_and!; [|done..].
  split; simpl; try persisted_frame. by eapply log_term_on_disk_frame.
Qed.

Lemma store_log_data_persisted id v s d b s' :
  persisted s d → logs_size s ≤ id → store_log_data id v s = (b, s') →
  ∃ d', persisted s' d' ∧ s' = with_db (Some d') s ∧
    db_put d (get_log_data_key id) v = (b, d').
Proof.
  intros [] Hid Hput. eapply put_open in Hput as (d' & Hp & ->); [|done].
  exists d'. split_and!; [|done..].
  split; simpl; try persisted_frame. by eapply log_data_on_disk_frame.
Qed.

(** The three writes of [push_log], in order and all successful. *)
Lemma push_log_writes e cmd s s1 s2 s3 d :
  persisted s d → e = mkLogEntry (logs_size s) (term_ e) (Some cmd) →
  term_ e < u64_size → logs_size s + 1 < u64_size →
  store_log_term (id_ e) (term_ e) s = (true, s1) →
  store_log_data (id_ e) (data cmd) s1 = (true, s2) →
  store_logs_size (wrap64 (logs_size s2 + 1)) s2 = (true, s3) →
  ∃ d3, persisted (with_logs (logs_ s3 ++ [e]) s3) d3 ∧ s3 = with_db (Some d3) s.
Proof.
  intros Hs He Ht Hlt H1 H2 H3.
  assert (id_ e = logs_size s) as Hid by (by rewrite He). rewrite Hid in *.
  apply (store_log_term_persisted _ _ _ _ _ _ Hs) in H1 as (d1 & Hs1 & -> & Hp1); [|done].
  apply (store_log_data_persisted _ _ _ _ _ _ Hs1) in H2 as (d2 & Hs2 & -> & Hp2); [|done].
  eapply put_open in H3 as (d3 & Hp3 & ->); [|apply Hs2].
  exists d3. split; [|done].
  assert (wrap64 (logs_size s + 1) = N.of_nat (S (length (logs_ s)))) as Hsz.
  { rewrite wrap64_small by done. unfold logs_size. lia. }
  destruct Hs2. split; simpl in *; try persisted_frame.
  destruct persisted_logs0 as (_ & _ & Hent). apply log_on_disk_snoc.
  - intros i e' Hi. eapply entry_on_disk_agree; [| |by apply Hent]; other_key.
  - exists cmd. split_and!; [done|done| |].
    + rewrite (db_put_other d2 _ _ _ d3) by (done || key_neq).
      rewrite (db_put_other d1 _ _ _ d2) by (done || key_neq).
      by eapply db_put_lookup.
    + rewrite (db_put_other d2 _ _ _ d3) by (done || key_neq).
      by eapply db_put_lookup.
  - eapply db_put_lookup. rewrite <-Hsz. done.
  - unfold logs_size in Hlt. lia.
Qed.

Lemma store_log_term_frame id t s :
  (store_log_term id t s).2 = with_db (db_ (store_log_term id t s).2) s.
Proof. apply put_frame. Qed.

Lemma store_log_data_frame id v s :
  (store_log_data id v s).2 = with_db (db_ (store_log_data id v s).2) s.
Proof. apply put_frame. Qed.

Lemma store_logs_size_frame n s :
  (store_logs_size n s).2 = with_db (db_ (store_logs_size n s).2) s.
Proof. apply put_frame. Qed.

(** [push_log] either refuses and touches at most the database, or its three
    writes succeed and it appends the entry. *)
Lemma push_log_cases log s :
  ((push_log log s).1 = false ∧
   (push_log log s).2 = with_db (db_ (push_log log s).2) s) ∨
  ∃ e cmd s1 s2 s3,
    log = Some e ∧ e = mkLogEntry (logs_size s) (term_ e) (Some cmd) ∧
    store_log_term (id_ e) (term_ e) s = (true, s1) ∧
    store_log_data (id_ e) (data cmd) s1 = (true, s2) ∧
    store_logs_size (wrap64 (logs_size s2 + 1)) s2 = (true, s3) ∧
    push_log log s = (true, with_logs (logs_ s ++ [e]) s3) ∧
    s3 = with_db (db_ s3) s.
Proof.
  destruct log as [e|]; [|left; by destruct s].
  destruct e as [i t [cmd|]]; [|left; by destruct s]. unfold push_log; simpl.
  destruct (N.eqb_spec i (logs_size s)) as [->|]; simpl; [|left; by destruct s].
  pose proof (store_log_term_frame (logs_size s) t s) as F1.
  destruct (store_log_term _ _ s) as [[] s1] eqn:E1; simpl in *; [|left; by rewrite F1].
  pose proof (store_log_data_frame (logs_size s) (data cmd) s1) as F2.
  destruct (store_log_data _ _ s1) as [[] s2] eqn:E2; simpl in *;
    [|left; split; [done|]; rewrite F2, F1; done].
  pose proof (store_logs_size_frame (wrap64 (logs_size s2 + 1)) s2) as F3.
  destruct (store_logs_size _ s2) as [[] s3] eqn:E3; simpl in *;
    [|left; split; [done|]; rewrite F3, F2, F1; done].
  right. exists (mkLogEntry (logs_size s) t (Some cmd)), cmd, s1, s2, s3.
  assert (s3 = with_db (db_ s3) s) as F4 by (rewrite F3, F2, F1; done).
  split_and!; try done. by rewrite F4 at 1.
Qed.

Lemma push_log_false log s s' :
  push_log log s = (false, s') → s' = with_db (db_ s') s.
Proof.
  intros Hp. destruct (push_log_cases log s) as [[_ F]|(?&?&?&?&?&_&_&_&_&_&E&_)];
    rewrite Hp in *; done.
Qed.

Lemma push_log_true log s s' : push_log log s = (true, s') →
  ∃ e, log = Some e ∧ id_ e = logs_size s ∧ is_Some (command_ e) ∧
    s' = with_db (db_ s') (with_logs (logs_ s ++ [e]) s).
Proof.
  intros Hp. destruct (push_log_cases log s) as [[F _]|(e&cmd&?&?&?&->&He&_&_&_&E&F)];
    rewrite Hp in *; [done|]. simplify_eq.
  exists e. split_and!; [done|by rewrite He..|]. by rewrite F.
Qed.

Lemma push_log_persisted e s s' d :
  persisted s d → term_ e < u64_size → logs_size s + 1 < u64_size →
  push_log (Some e) s = (true, s') →
  ∃ d', persisted s' d' ∧ s' = with_db (Some d') (with_logs (logs_ s ++ [e]) s).
Proof.
  intros Hs Ht Hlt Hp.
  destruct (push_log_cases (Some e) s) as [[F _]|(e'&cmd&s1&s2&s3&?&He&H1&H2&H3&E&F)];
    rewrite Hp in *; [done|]; simplify_eq.
  destruct (push_log_writes e cmd s s1 s2 s3 d) as (d3 & Hs3 & ->); try done.
  exists d3. split; [by apply Hs3|done].
Qed.

Lemma revert_log_cases id s :
  (logs_size s ≤ id ∧ revert_log id s = (false, s)) ∨
  (id < logs_size s ∧ revert_log id s =
     (true, (store_logs_size id (with_logs (take (N.to_nat id) (logs_ s)) s)).2)).
Proof.
  unfold revert_log. destruct (N.leb_spec (logs_size s) id); [by left|right].
  split; [done|]. by destruct (store_logs_size _ _).
Qed.

Lemma revert_log_persisted id s s' d : persisted s d → id < logs_size s →
  store_logs_size id (with_logs (take (N.to_nat id) (logs_ s)) s) = (true, s') →
  ∃ d', persisted s' d' ∧ s' = with_db (Some d') (with_logs (take (N.to_nat id) (logs_ s)) s).
Proof.
  intros [] Hid Hput. eapply put_open in Hput as (d' & Hp & ->); [|done].
  exists d'. split; [|done]. split; simpl; try persisted_frame.
  unfold logs_size in Hid.
  eapply log_on_disk_take; [|by rewrite N2Nat.id; eapply db_put_lookup|lia|done].
  intros j Hj. by eapply db_put_other.
Qed.

End facts.

(** The operations of the store are used through their lemmas. *)
Arguments push_log {_} _ _ : simpl never.
Arguments revert_log {_} _ _ : simpl never.
Arguments set_current_term {_} _ _ : simpl never.
Arguments set_voted_for {_} _ _ : simpl never.
Arguments set_voted {_} _ _ : simpl never.
Arguments put {_} _ _ _ : simpl never.

Section store_frames.
  Context `{Platform}.
  Implicit Types s : ContextStore.

Lemma set_current_term_frame term s :
  (set_current_term term s).2 =
    with_db (db_ (set_current_term term s).2) (with_current_term term s).
Proof. apply put_frame. Qed.

Lemma set_voted_for_frame id s :
  (set_voted_for id s).2 = with_db (db_ (set_voted_for id s).2) (with_voted_for id s).
Proof. apply put_frame. Qed.

Lemma set_voted_frame v s :
  (set_voted v s).2 = with_db (db_ (set_voted v s).2) (with_voted v s).
Proof. apply put_frame. Qed.

End store_frames.
