(* ===== verification/StoreTheorems.v ===== *)
(** * Theorems about the persistent store

    Recovery after reopening, crash atomicity of [push_log], the shape of the
    log, and the behaviour on a missing database, on truncated data and on
    failing writes. *)

From S2P Require Import Prelude Codec Platform LogEntry ContextStore ContextStoreFacts.

Local Open Scope N_scope.

(** ** Specification *)

Section spec.
  Context `{Platform}.

(** The methods of the store that change it, with their arguments. *)
Inductive StoreOp :=
  | OpCurrentTerm (term : N)
  | OpVotedFor (id : N)
  | OpVoted (voted : bool)
  | OpIncreaseVoteReceived
  | OpResetVoteReceived
  | OpPushLog (log : option LogEntry)
  | OpRevertLog (id : N).

Definition run_store_op (op : StoreOp) (s : ContextStore) : bool * ContextStore :=
  match op with
  | OpCurrentTerm term => set_current_term term s
  | OpVotedFor id => set_voted_for id s
  | OpVoted voted => set_voted voted s
  | OpIncreaseVoteReceived => increase_vote_received s
  | OpResetVoteReceived => reset_vote_received s
  | OpPushLog log => push_log log s
  | OpRevertLog id => revert_log id s
  end.

Definition run_store_ops (ops : list StoreOp) (s : ContextStore) : ContextStore :=
  foldl (λ s op, (run_store_op op s).2) s ops.

(** A call all of whose writes succeed, with arguments of the widths of the
    source. The result of [revert_log] does not tell whether its write did. *)
Inductive store_step (s : ContextStore) : ContextStore → Prop :=
  | step_current_term term s' :
      term < u64_size → set_current_term term s = (true, s') → store_step s s'
  | step_voted_for id s' :
      id < u32_size → set_voted_for id s = (true, s') → store_step s s'
  | step_voted v s' : set_voted v s = (true, s') → store_step s s'
  | step_increase s' : increase_vote_received s = (true, s') → store_step s s'
  | step_reset s' : reset_vote_received s = (true, s') → store_step s s'
  | step_push e s' :
      term_ e < u64_size → logs_size s + 1 < u64_size →
      push_log (Some e) s = (true, s') → store_step s s'
  | step_revert id s' :
      revert_log id s = (true, s') →
      (store_logs_size id (with_logs (take (N.to_nat id) (logs_ s)) s)).1 = true →
      store_step s s'.

End spec.

(** ** Lemmas *)

Section lemmas.
  Context `{PlatformSpec}.
  Implicit Types (s : ContextStore) (d : DB).

Lemma store_step_persisted s s' d : persisted s d → store_step s s' →
  ∃ d', persisted s' d'.
Proof.
  intros Hs [term s1 Ht E|id s1 Hid E|v s1 E|s1 E|s1 E|e s1 Ht Hlt E|id s1 E Hw].
  - destruct (set_current_term_persisted _ _ _ _ Hs Ht E) as (d' & ? & _). eauto.
  - destruct (set_voted_for_persisted _ _ _ _ Hs Hid E) as (d' & ? & _). eauto.
  - destruct (set_voted_persisted _ _ _ _ Hs E) as (d' & ? & _). eauto.
  - injection E as <-. eauto using with_vote_received_persisted.
  - injection E as <-. eauto using with_vote_received_persisted.
  - destruct (push_log_persisted _ _ _ _ Hs Ht Hlt E) as (d' & ? & _). eauto.
  - destruct (revert_log_cases id s) as [[_ E']|[Hid E']]; rewrite E in E'; [done|].
    destruct (store_logs_size _ _) as [b s2] eqn:Hsz; simplify_eq/=.
    destruct (revert_log_persisted _ _ _ _ Hs Hid Hsz) as (d' & ? & _). eauto.
Qed.

Lemma store_steps_persisted s s' d : persisted s d → rtc store_step s s' →
  ∃ d', persisted s' d'.
Proof.
  intros Hs Hss. revert d Hs. induction Hss as [|s1 s2 s3 Hstep _ IH]; [by eauto|].
  intros d Hs. destruct (store_step_persisted _ _ _ Hs Hstep) as [d' ?]. eauto.
Qed.

Lemma persisted_empty d : db_contents d = ∅ →
  persisted (mkContextStore (Some d) 0 0 false 0 []) d.
Proof.
  intros Hd. split; simpl; rewrite ?Hd; try done; try (right; by rewrite lookup_empty).
  split_and!; [done|right; by rewrite lookup_empty|done].
Qed.

Lemma new_ContextStore_empty d : db_contents d = ∅ → db_readable d →
  new_ContextStore (Some d) = mkContextStore (Some d) 0 0 false 0 [].
Proof.
  intros Hd Hr. by rewrite (new_ContextStore_persisted _ _ (persisted_empty d Hd) Hr).
Qed.

Lemma new_ContextStore_db_persisted s d : persisted s d → db_readable d →
  new_ContextStore (db_ s) = with_vote_received 0 s.
Proof. intros Hs Hr. rewrite (persisted_db _ _ Hs). by apply new_ContextStore_persisted. Qed.

Lemma push_log_three_writes e cmd s s1 s2 s3 :
  command_ e = Some cmd → id_ e = logs_size s →
  store_log_term (id_ e) (term_ e) s = (true, s1) →
  store_log_data (id_ e) (data cmd) s1 = (true, s2) →
  store_logs_size (wrap64 (logs_size s2 + 1)) s2 = (true, s3) →
  push_log (Some e) s = (true, with_logs (logs_ s3 ++ [e]) s3).
Proof.
  intros Hc Hid H1 H2 H3. unfold push_log.
  rewrite Hc, Hid, N.eqb_refl. simpl. rewrite <-Hid, H1. simpl.
  rewrite H2. simpl. by rewrite H3.
Qed.

Lemma log_wf_take l n : log_wf l → log_wf (take n l).
Proof. intros Hl i e [Hi _]%lookup_take_Some. by apply Hl. Qed.

Lemma log_wf_snoc l e :
  log_wf l → id_ e = N.of_nat (length l) → is_Some (command_ e) → log_wf (l ++ [e]).
Proof. intros Hl He Hc i e' [[_ Hi]|[-> <-]]%lookup_snoc_Some; [by apply Hl|done]. Qed.

Lemma put_logs k v s : logs_ (put k v s).2 = logs_ s.
Proof. by rewrite put_frame. Qed.

Lemma run_store_op_wf op s : log_wf (logs_ s) → log_wf (logs_ (run_store_op op s).2).
Proof.
  intros Hs. destruct op as [t|id|v| | |log|id]; simpl;
    try (by unfold set_current_term, set_voted_for, set_voted; rewrite put_logs); try done.
  - destruct (push_log log s) as [[] s'] eqn:E; simpl.
    + apply push_log_true in E as (e & -> & ? & ? & ->). by apply log_wf_snoc.
    + apply push_log_false in E as ->. done.
  - destruct (revert_log_cases id s) as [[_ ->]|[_ ->]]; [done|]. simpl.
    unfold store_logs_size. rewrite put_logs. by apply log_wf_take.
Qed.

Lemma run_store_ops_wf ops s : log_wf (logs_ s) → log_wf (logs_ (run_store_ops ops s)).
Proof.
  revert s; induction ops as [|op ops IH]; intros s Hs; [done|].
  simpl. by apply IH, run_store_op_wf.
Qed.

Lemma new_ContextStore_wf opened : log_wf (logs_ (new_ContextStore opened)).
Proof.
  destruct opened as [d|]; [|done].
  eapply logs_loaded_wf, init_logs_logs_loaded.
Qed.

Lemma log_lookup id s e : log_wf (logs_ s) → log id s = Some e →
  id_ e = id ∧ is_Some (command_ e).
Proof.
  unfold log. intros Hs. destruct (_ <=? _); [done|].
  intros [Hi ?]%Hs. by rewrite N2Nat.id in Hi.
Qed.

End lemmas.

(** ** Recovery *)

Section recovery.
  Context `{PlatformSpec}.
  Implicit Types (s : ContextStore) (d : DB).

(** C8: recovery.  Start from a store opened on an empty database and make any
    sequence of method calls whose writes succeed: reopening the database that
    results gives back the store, term, vote and whole log, with only the count
    of received votes (which the code keeps in memory) reset. *)
Theorem store_recovery d s :
  db_contents d = ∅ → db_readable d →
  rtc store_step (new_ContextStore (Some d)) s →
  ∃ d', db_ s = Some d' ∧
    (db_readable d' → new_ContextStore (Some d') = with_vote_received 0 s).
Proof.
  intros Hd Hr Hs. rewrite new_ContextStore_empty in Hs by done.
  destruct (store_steps_persisted _ _ _ (persisted_empty d Hd) Hs) as [d' Hp].
  exists d'. split; [apply Hp|]. by apply new_ContextStore_persisted.
Qed.

(** C23: crash atomicity of [push_log].  Take a store whose memory is what its readable
    database holds, and push an entry with a command at the end of its log, term and
    position being 64-bit numbers.  Stop after any of the three writes, whether the
    first two succeeded or not, and reopen the database.  After the first and the second
    write the store is the old one: term, vote and log.  When all three succeeded,
    [push_log] is these three writes, and the store is the old one with the entry at
    the end of its log.  The count of votes is not stored and starts at 0. *)
Theorem push_log_crash_atomic s d e cmd b1 s1 b2 s2 s3 :
  persisted s d → (∀ d', db_readable d') →
  e = mkLogEntry (logs_size s) (term_ e) (Some cmd) →
  term_ e < u64_size → logs_size s + 1 < u64_size →
  store_log_term (id_ e) (term_ e) s = (b1, s1) →
  store_log_data (id_ e) (data cmd) s1 = (b2, s2) →
  store_logs_size (wrap64 (logs_size s2 + 1)) s2 = (true, s3) →
  let reopened old db := with_vote_received 0 (with_db db old) in
  s1 = with_db (db_ s1) s ∧ new_ContextStore (db_ s1) = reopened s (db_ s1) ∧
  s2 = with_db (db_ s2) s ∧ new_ContextStore (db_ s2) = reopened s (db_ s2) ∧
  (b1 = true → b2 = true →
    let s' := with_logs (logs_ s ++ [e]) s in
    push_log (Some e) s = (true, with_db (db_ s3) s') ∧
    new_ContextStore (db_ s3) = reopened s' (db_ s3)).
Proof.
  intros Hs Hr He Ht Hlt H1 H2 H3.
  assert (id_ e = logs_size s) as Hid by (by rewrite He).
  assert (logs_size s ≤ id_ e) as Hle by lia.
  destruct (store_log_term_persisted _ _ _ _ _ _ Hs Hle H1) as (d1 & Hs1 & F1 & _).
  assert (logs_size s1 ≤ id_ e) as Hle1 by (by rewrite F1).
  destruct (store_log_data_persisted _ _ _ _ _ _ Hs1 Hle1 H2) as (d2 & Hs2 & F2 & _).
  assert (s1 = with_db (db_ s1) s ∧ s2 = with_db (db_ s2) s) as [E1 E2] by (by rewrite F2, F1).
  intros reopened. split_and!; [done| |done|..].
  - unfold reopened. rewrite <-E1. by eapply new_ContextStore_db_persisted.
  - unfold reopened. rewrite <-E2. by eapply new_ContextStore_db_persisted.
  - intros -> -> s'.
    destruct (push_log_writes _ _ _ _ _ _ _ Hs He Ht Hlt H1 H2 H3) as (d3 & Hs3 & F3).
    assert (with_logs (logs_ s3 ++ [e]) s3 = with_db (db_ s3) s') as E3 by (by rewrite F3).
    rewrite E3 in Hs3. unfold reopened. split.
    + rewrite <-E3. eapply push_log_three_writes; [by rewrite He|done..].
    + change (db_ s3) with (db_ (with_db (db_ s3) s')) at 1.
      by eapply new_ContextStore_db_persisted.
Qed.

(** C24: opening a store always terminates, whatever the database holds and
    whichever reads fail, and its log is the longest sequence of entries that
    can be loaded: entries [0, 1, ...], all those the stored size announces, or
    up to the first that cannot be loaded, in which case the stored size is
    rewritten to that length. *)
Theorem init_logs_longest_prefix s :
  ∃ s', run_pow2 init_logs_step 64 (0, with_logs [] s) = inr s' ∧ init_logs s = s' ∧
    (∀ i, (i < length (logs_ s'))%nat → logs_ s' !! i = load_log (N.of_nat i) s) ∧
    ((logs_size s' = load_logs_size s ∧ s' = with_logs (logs_ s') s) ∨
     (logs_size s' < load_logs_size s ∧ load_log (logs_size s') s = None ∧
      s' = (store_logs_size (logs_size s') (with_logs (logs_ s') s)).2)).
Proof.
  destruct (init_logs_loaded s) as (s' & Hrun & Hl & Hend).
  exists s'. split_and!; [done|unfold init_logs; by rewrite Hrun|done|done].
Qed.

(** C25: shape of the log.  Open a store on any database and call its methods in
    any order with any arguments, with any of the writes failing: the entry
    that [log(id)] returns always has identifier [id] and a command that is not
    null, and an identifier has an entry exactly when it is less than
    [logs_size()]. *)
Theorem store_log_shape opened ops id :
  let s := run_store_ops ops (new_ContextStore opened) in
  match log id s with
  | Some e => id_ e = id ∧ is_Some (command_ e) ∧ id < logs_size s
  | None => logs_size s ≤ id
  end.
Proof.
  intros s. pose proof (run_store_ops_wf ops _ (new_ContextStore_wf opened)) as Hwf.
  fold s in Hwf. destruct (log id s) as [e|] eqn:He.
  - destruct (log_lookup _ _ _ Hwf He) as [? ?]. split_and!; [done..|].
    revert He. unfold log. case_test; naive_solver.
  - revert He. unfold log. case_test; [done|]. intros Hn%lookup_ge_None.
    unfold logs_size in *. lia.
Qed.

(** A store without a database (its open failed).  Every write reports the
    error, the term and the vote are still updated in memory, and no entry is
    ever stored. *)
Lemma store_without_db s term id v log :
  db_ s = None →
  set_current_term term s = (false, with_current_term term s) ∧
  set_voted_for id s = (false, with_voted_for id s) ∧
  set_voted v s = (false, with_voted v s) ∧
  push_log log s = (false, s) ∧
  new_ContextStore None = mkContextStore None 0 0 false 0 [].
Proof.
  intros Hd. unfold set_current_term, set_voted_for, set_voted.
  unfold push_log, store_log_term, put; simpl. rewrite Hd.
  destruct log as [e|]; [|by split_and!].
  destruct (command_ e); [|by split_and!]. by case_test.
Qed.

(** A log entry whose term is stored but whose data is not is loaded all the
    same, with the bytes of the term as its command: [load_log] does not test
    the status of its second read. *)
Lemma load_log_missing_data s d id term :
  db_ s = Some d → db_readable d → term < u64_size →
  db_contents d !! get_log_term_key id = Some (encode_u64 term) →
  db_contents d !! get_log_data_key id = None →
  load_log id s = Some (mkLogEntry id term (Some (mkCommand (encode_u64 term)))).
Proof.
  intros Hd Hr Hlt Ht Hn. unfold load_log. rewrite Hd.
  rewrite !db_readable_get, Ht by done. rewrite length_encode_u64, Nat.ltb_irrefl.
  rewrite decode_encode_u64, wrap64_small by done.
  rewrite db_readable_get, Hn, Command_of_buffer_all by done. done.
Qed.

End recovery.

(** ** Witnesses *)

Definition demo_entry : LogEntry := mkLogEntry 0 7 (Some (mkCommand [x61])).
Abbreviation demo_store0 := (new_ContextStore (H := mem_platform) (Some empty_db)).
Definition demo_store1 : ContextStore := (set_current_term 7 demo_store0).2.
Definition demo_store2 : ContextStore := (push_log (Some demo_entry) demo_store1).2.

Lemma demo_steps : rtc store_step demo_store0 demo_store2.
Proof.
  apply rtc_l with demo_store1; [|apply rtc_once].
  - apply (step_current_term _ 7); [done|]. by vm_compute.
  - apply (step_push _ demo_entry); [done..|]. by vm_compute.
Qed.

Lemma store_recovery_witness :
  ∃ d', db_ demo_store2 = Some d' ∧
    (db_readable d' → new_ContextStore (Some d') = with_vote_received 0 demo_store2).
Proof.
  apply (store_recovery empty_db demo_store2).
  - reflexivity.
  - apply mem_platform_readable.
  - apply demo_steps.
Defined.

Lemma demo_store1_persisted : ∃ d, persisted demo_store1 d.
Proof.
  eapply (store_step_persisted demo_store0 _ empty_db).
  { rewrite new_ContextStore_empty by (done || apply mem_platform_readable).
    by apply persisted_empty. }
  apply (step_current_term _ 7); [done|]. by vm_compute.
Qed.

Lemma push_log_crash_atomic_witness :
  let s1 := (store_log_term 0 7 demo_store1).2 in
  let s2 := (store_log_data 0 [x61] s1).2 in
  let s3 := (store_logs_size 1 s2).2 in
  let reopened old db := with_vote_received 0 (with_db db old) in
  s1 = with_db (db_ s1) demo_store1 ∧ new_ContextStore (db_ s1) = reopened demo_store1 (db_ s1) ∧
  s2 = with_db (db_ s2) demo_store1 ∧ new_ContextStore (db_ s2) = reopened demo_store1 (db_ s2) ∧
  (true = true → true = true →
    let s' := with_logs (logs_ demo_store1 ++ [demo_entry]) demo_store1 in
    push_log (Some demo_entry) demo_store1 = (true, with_db (db_ s3) s') ∧
    new_ContextStore (db_ s3) = reopened s' (db_ s3)).
Proof.
  destruct demo_store1_persisted as [d Hd].
  apply (push_log_crash_atomic demo_store1 d demo_entry (mkCommand [x61])
           true _ true _ _ Hd).
  - apply mem_platform_readable.
  - reflexivity.
  - reflexivity.
  - vm_compute. reflexivity.
  - vm_compute. reflexivity.
  - vm_compute. reflexivity.
  - vm_compute. reflexivity.
Defined.

(** ** A write that fails *)

(** [revert_log] returns true even when its only write fails.  On a store
    with one entry whose database refuses the next write, the call returns true
    and the entry is gone from memory, yet reopening the database brings it
    back. *)
Lemma revert_log_ignores_failed_write :
  let d : @DB mem_platform :=
    mkMemDB (mem (default empty_db (db_ demo_store2))) [true] [] in
  let s := with_db (Some d) demo_store2 in
  (revert_log 0 s).1 = true ∧ logs_ (revert_log 0 s).2 = [] ∧
  logs_ (new_ContextStore (db_ (revert_log 0 s).2)) = [demo_entry].
Proof. vm_compute. done. Qed.
