(* ===== verification/NodeUtil.v ===== *)
(** * Names of nodes and services

    [src/common/node_util.cpp]. *)

From stdpp Require Export pretty.
From S2P Require Import Prelude.

Definition kAppendEntriesServiceName : string := "/append_entries".
Definition kRequestVoteServiceName : string := "/request_vote".

Definition get_node_name (cluster_name : string) (node_id : N) : string :=
  cluster_name +:+ pretty node_id.

Definition get_service_name (cluster_name : string) (node_id : N)
    (service_name : string) : string :=
  get_node_name cluster_name node_id +:+ service_name.

(** Two nodes of one cluster have different names. *)
Lemma get_node_name_inj cluster_name i j :
  get_node_name cluster_name i = get_node_name cluster_name j → i = j.
Proof.
  unfold get_node_name. intros Heq%(inj (String.append cluster_name)).
  by apply (inj pretty).
Qed.
