(* ===== verification/RaftTypes.v ===== *)
(** * Data shared by the RAFT components

    The enumerations of [src/raft/state_type.hpp] and [src/raft/event.hpp], the
    service types of [foros_msgs/srv], the pending commit of
    [src/raft/pending_commit.hpp], and the observable effects of a node. *)

From S2P Require Import Prelude Codec LogEntry.

Inductive StateType := kStandby | kFollower | kCandidate | kLeader | kStay.

Inductive Event :=
  | kStarted
  | kTimedout
  | kLeaderDiscovered
  | kNewTermReceived
  | kElected
  | kTerminated
  | kBroadcastTimedout
  | kUnknown.

#[export] Instance StateType_eq_dec : EqDecision StateType.
Proof. solve_decision. Defined.

#[export] Instance Event_eq_dec : EqDecision Event.
Proof. solve_decision. Defined.

(** ** Services *)

Record AppendEntriesRequest := mkAppendEntriesRequest {
  ae_term : N;
  ae_leader_id : N;
  ae_prev_log_index : N;
  ae_prev_log_term : N;
  ae_entries : list byte;
  ae_leader_commit : N;
}.

Record AppendEntriesResponse := mkAppendEntriesResponse {
  ae_response_term : N;
  ae_success : bool;
}.

(** The field [loat_data_term] is spelt so in the service. *)
Record RequestVoteRequest := mkRequestVoteRequest {
  rv_term : N;
  rv_candidate_id : N;
  rv_last_data_index : N;
  rv_loat_data_term : N;
}.

Record RequestVoteResponse := mkRequestVoteResponse {
  rv_response_term : N;
  rv_vote_granted : bool;
}.

(** A response as the middleware creates it, before the service callback. *)
Definition default_append_entries_response : AppendEntriesResponse :=
  mkAppendEntriesResponse 0 false.
Definition default_request_vote_response : RequestVoteResponse :=
  mkRequestVoteResponse 0 false.

(** ** Pending commits

    [promise_] and [future_] are two ends of one shared state, which the model
    identifies by a number; of [callback_] it keeps whether it is set. *)

Record PendingCommit := mkPendingCommit {
  log_ : LogEntry;
  promise_ : N;
  callback_ : bool;
  result_map_ : gmap N bool;
}.

(** ** Observable effects of a node *)

Inductive Output :=
  | SendAppendEntries (to : N) (request : AppendEntriesRequest)
  | SendRequestVote (to : N) (request : RequestVoteRequest)
  | CommitCallback (id : N) (command : option Command)
  | RevertCallback (id : N)
  | CommitResponseCallback (promise : N)
  | ActivatedCallback
  | DeactivatedCallback
  | StandbyCallback.

(** What ends the process: the null command that [OtherNode::broadcast]
    dereferences, a second [set_value] on a promise ([std::future_error]), and a
    call of the state machine deeper than the model follows. *)
Inductive Fault :=
  | NullCommandDereference
  | PromiseAlreadySatisfied
  | CallTooDeep.

(** ** Classes that nothing constructs *)

(** [VoidCallback]: the callback is a function on the world, or null. *)
Record VoidCallback {W : Type} := mkVoidCallback { void_callback_ : option (W → W) }.
Arguments VoidCallback : clear implicits.
Arguments mkVoidCallback {W} _.

Definition VoidCallback_call {W : Type} (c : VoidCallback W) (w : W) : W :=
  match void_callback_ c with
  | Some callback => callback w
  | None => w
  end.

(** [CommitInfo]: the term has 32 bits here, and the constructor calls what it is
    given empty. *)
Record CommitInfo := mkCommitInfo { index_ : N; commit_term_ : N; empty_ : bool }.

Definition new_CommitInfo (index term : N) : CommitInfo := mkCommitInfo index (wrap32 term) true.
