(* ===== verification/OtherNode.v ===== *)
(** * The leader's view of another node of the cluster

    [src/raft/other_node.cpp]: the replication indices kept for a peer, the
    requests built from them, and the handling of its answers. *)

From S2P Require Import Prelude Codec LogEntry NodeUtil RaftTypes.

Local Open Scope N_scope.

(** ** State

    A service client is represented by the name of its service and by what
    [service_is_ready()] answers, which the environment decides. *)

Record OtherNode := mkOtherNode {
  node_id_ : N;
  next_index_ : N;
  match_index_ : N;
  append_entries_ : string;
  request_vote_ : string;
  append_entries_ready : bool;
  request_vote_ready : bool;
}.

Definition new_OtherNode (cluster_name : string) (node_id next_index : N) : OtherNode :=
  mkOtherNode node_id next_index 0
    (get_service_name cluster_name node_id kAppendEntriesServiceName)
    (get_service_name cluster_name node_id kRequestVoteServiceName)
    false false.

Definition with_indices (next_index match_index : N) (o : OtherNode) : OtherNode :=
  mkOtherNode (node_id_ o) next_index match_index (append_entries_ o) (request_vote_ o)
    (append_entries_ready o) (request_vote_ready o).

(** The middleware discovers or loses the services of the peer. *)
Definition with_ready (append_ready vote_ready : bool) (o : OtherNode) : OtherNode :=
  mkOtherNode (node_id_ o) (next_index_ o) (match_index_ o) (append_entries_ o)
    (request_vote_ o) append_ready vote_ready.

Definition set_match_index (match_index : N) (o : OtherNode) : OtherNode :=
  with_indices (wrap64 (match_index + 1)) match_index o.

Definition update_match_index (match_index : N) (o : OtherNode) : OtherNode :=
  set_match_index match_index o.

(** ** Requests *)

Inductive BroadcastResult :=
  | NotReady
  | NullCommand
  | Sent (request : AppendEntriesRequest).

Definition with_entry (e : LogEntry) (c : Command) (r : AppendEntriesRequest) :
    AppendEntriesRequest :=
  mkAppendEntriesRequest (term_ e) (ae_leader_id r) (ae_prev_log_index r)
    (ae_prev_log_term r) (data c) (id_ e).

Definition with_prev (e : LogEntry) (r : AppendEntriesRequest) : AppendEntriesRequest :=
  mkAppendEntriesRequest (ae_term r) (ae_leader_id r) (id_ e) (term_ e)
    (ae_entries r) (ae_leader_commit r).

Section broadcast.
  (** [get_log_entry_callback_] is the owner's [on_log_get_request], which may
      change the owner's state [W]. *)
  Context {W : Type} (get_log_entry_callback : option (N → W → option LogEntry * W)).

(** The entry to replicate, if there is one at [next_index]; [None] is the
    dereference of a null command. *)
Definition add_next_entry (get : N → W → option LogEntry * W) (log : option LogEntry)
    (next_index : N) (r : AppendEntriesRequest) (w : W) :
    option AppendEntriesRequest * W :=
  match log with
  | Some log =>
      if next_index <=? id_ log then
        let '(entry, w) := get next_index w in
        match entry with
        | Some e =>
            match command_ e with
            | Some c => (Some (with_entry e c r), w)
            | None => (None, w)
            end
        | None => (Some r, w)
        end
      else (Some r, w)
  | None => (Some r, w)
  end.

(** Identification of the entry before [next_index]. *)
Definition add_prev_entry (get : N → W → option LogEntry * W) (next_index : N)
    (r : AppendEntriesRequest) (w : W) : AppendEntriesRequest * W :=
  if 0 <? next_index then
    let '(entry, w) := get (next_index - 1) w in
    match entry with
    | Some e => (with_prev e r, w)
    | None => (r, w)
    end
  else (r, w).

Definition broadcast (current_term node_id : N) (log : option LogEntry)
    (o : OtherNode) (w : W) : BroadcastResult * W :=
  if negb (append_entries_ready o) then (NotReady, w) else
  let request := mkAppendEntriesRequest current_term node_id 0 0 [] 0 in
  let next_index := next_index_ o in
  match get_log_entry_callback with
  | Some get =>
      let '(r, w) := add_next_entry get log next_index request w in
      match r with
      | None => (NullCommand, w)
      | Some request =>
          let '(request, w) := add_prev_entry get next_index request w in
          (Sent request, w)
      end
  | None => (Sent request, w)
  end.

End broadcast.

(** The callback given to [async_send_request] in [send_append_entries], up to
    the call of the owner's callback. *)
Definition on_append_entries_response (request : AppendEntriesRequest)
    (response : AppendEntriesResponse) (o : OtherNode) : OtherNode :=
  if ae_success response then
    with_indices (wrap64 (ae_leader_commit request + 1)) (ae_leader_commit request) o
  else if 0 <? next_index_ o then with_indices (next_index_ o - 1) (match_index_ o) o
  else o.

Definition request_vote (current_term node_id : N) (log : option LogEntry)
    (o : OtherNode) : option RequestVoteRequest :=
  if negb (request_vote_ready o) then None else
  Some (mkRequestVoteRequest current_term node_id
          (match log with None => 0 | Some l => id_ l end)
          (match log with None => 0 | Some l => term_ l end)).
