(* ===== verification/StateMachine.v ===== *)
(** * Observables and the generic state machine

    The templates of [src/common]: [Observable] and [StateMachine].  An observer
    is a pointer, represented by a number; calling it is a function [dispatch]
    from the pointer and the data to a change of the world [W], the state of
    everything the callbacks can reach. *)

From S2P Require Import Prelude.

(** ** Observable ([observable.hpp]) *)

Abbreviation ObserverId := N (only parsing).

Definition subscribe (observer : ObserverId) (observers : list ObserverId) : list ObserverId :=
  observers ++ [observer].

Definition unsubscribe (observer : ObserverId) (observers : list ObserverId) :
    list ObserverId :=
  filter (λ o, o ≠ observer) observers.

Definition notify {T W : Type} (dispatch : ObserverId → T → W → W)
    (observers : list ObserverId) (data : T) (w : W) : W :=
  foldl (λ w observer, dispatch observer data w) w observers.

(** ** State machine ([state_machine.hpp]) *)

Record StateMachine (StateType : Type) := mkStateMachine {
  states_ : list StateType;
  current_state_ : StateType;
  current_state_notifier_ : list ObserverId;
  event_notifier_ : list ObserverId;
}.
Arguments mkStateMachine {_}.
Arguments states_ {_}.
Arguments current_state_ {_}.
Arguments current_state_notifier_ {_}.
Arguments event_notifier_ {_}.

(** The virtual methods of the template parameter [State], one object per state. *)
Record StateMethods (StateType Event W : Type) := mkStateMethods {
  state_handle : StateType → Event → W → StateType * W;
  entry : StateType → W → W;
  exit : StateType → W → W;
}.
Arguments mkStateMethods {_ _ _}.
Arguments state_handle {_ _ _}.
Arguments entry {_ _ _}.
Arguments exit {_ _ _}.

(** Where the state machine lies in the world. *)
Record Embedding (A W : Type) := mkEmbedding { view : W → A; update : A → W → W }.
Arguments mkEmbedding {_ _}.
Arguments view {_ _}.
Arguments update {_ _}.

Definition set_current_state {StateType} (st : StateType) (m : StateMachine StateType) :
    StateMachine StateType :=
  mkStateMachine (states_ m) st (current_state_notifier_ m) (event_notifier_ m).

Section StateMachine.
  Context {StateType Event W : Type} `{EqDecision StateType}.
  Context (methods : StateMethods StateType Event W).
  Context (fsm : Embedding (StateMachine StateType) W).
  Context (dispatch : ObserverId → StateType → W → W).

Definition get_current_state_type (w : W) : StateType := current_state_ (view fsm w).

Definition handle (event : Event) (w : W) : W :=
  let '(next_state, w) := state_handle methods (get_current_state_type w) event w in
  if decide (next_state ∉ states_ (view fsm w)) then w else
  let w := exit methods (get_current_state_type w) w in
  let w := update fsm (set_current_state next_state (view fsm w)) w in
  let w := notify dispatch (current_state_notifier_ (view fsm w))
             (get_current_state_type w) w in
  entry methods (get_current_state_type w) w.

(** The constructor: the machine subscribes itself, at address [self], to the
    event notifier it shares with its states, and enters the initial state. *)
Definition new_StateMachine (self : ObserverId) (current_state : StateType)
    (states : list StateType) (w : W) : W :=
  entry methods current_state
    (update fsm (mkStateMachine states current_state [] (subscribe self [])) w).

(** [subscribe] and [unsubscribe] of an observer of the current state. *)
Definition subscribe_state (observer : ObserverId) (w : W) : W :=
  let m := view fsm w in
  update fsm (mkStateMachine (states_ m) (current_state_ m)
                (subscribe observer (current_state_notifier_ m)) (event_notifier_ m)) w.

Definition unsubscribe_state (observer : ObserverId) (w : W) : W :=
  let m := view fsm w in
  update fsm (mkStateMachine (states_ m) (current_state_ m)
                (unsubscribe observer (current_state_notifier_ m)) (event_notifier_ m)) w.

(** [State::emit]: every observer of the event notifier handles the event, the
    state machine being the one at address [self]. *)
Definition emit (self : ObserverId) (event : Event) (w : W) : W :=
  notify (λ o ev w, if (o =? self)%N then handle ev w else w)
    (event_notifier_ (view fsm w)) event w.

End StateMachine.

(** ** Lemmas *)

Lemma notify_inv {T W} (P : W → Prop) dispatch observers (data : T) (w : W) :
  (∀ o w, P w → P (dispatch o data w)) → P w → P (notify dispatch observers data w).
Proof.
  intros Hd. revert w. induction observers as [|o os IH]; intros w Hw; [done|].
  simpl. by apply IH, Hd.
Qed.

Lemma subscribe_unsubscribe observer observers :
  observer ∉ observers → unsubscribe observer (subscribe observer observers) = observers.
Proof.
  intros Hn. unfold subscribe, unsubscribe.
  rewrite filter_app, filter_cons_False, filter_nil, app_nil_r by naive_solver.
  induction observers as [|o os IH]; [done|].
  apply not_elem_of_cons in Hn as [? ?].
  rewrite filter_cons_True by done. by rewrite IH.
Qed.
