(* ===== verification/Lifecycle.v ===== *)
(** * The lifecycle state machine

    [src/lifecycle]: the states [Inactive], [Standby] and [Active], whose
    callbacks, entry and exit do nothing, and their transition maps. *)

From S2P Require Import Prelude StateMachine.

Inductive StateType := kInactive | kStandby | kActive | kUnknown.

Module Event.
Inductive Event := kActivate | kDeactivate | kStandby.
End Event.

#[export] Instance StateType_eq_dec : EqDecision StateType.
Proof. solve_decision. Defined.

#[export] Instance Event_eq_dec : EqDecision Event.Event.
Proof. solve_decision. Defined.

(** The [transition_map_] that the constructor of each state passes. *)
Definition inactive_transition_map : list (Event.Event * StateType) :=
  [(Event.kStandby, kStandby); (Event.kActivate, kActive)].
Definition standby_transition_map : list (Event.Event * StateType) :=
  [(Event.kActivate, kActive); (Event.kDeactivate, kInactive)].
Definition active_transition_map : list (Event.Event * StateType) :=
  [(Event.kStandby, kStandby); (Event.kDeactivate, kInactive)].

Definition transition_map (st : StateType) : list (Event.Event * StateType) :=
  match st with
  | kInactive => inactive_transition_map
  | kStandby => standby_transition_map
  | kActive => active_transition_map
  | kUnknown => []
  end.

Definition find_transition (event : Event.Event) (m : list (Event.Event * StateType)) :
    option StateType :=
  snd <$> List.find (λ p, bool_decide (p.1 = event)) m.

Section methods.
  Context {W : Type}.

(** [on_activated], [on_deactivated] and [on_standby] of every state are empty. *)
Definition on_activated (st : StateType) (w : W) : W := w.
Definition on_deactivated (st : StateType) (w : W) : W := w.
Definition on_standby (st : StateType) (w : W) : W := w.

(** [State::handle] ([src/lifecycle/state.cpp]). *)
Definition state_handle (st : StateType) (event : Event.Event) (w : W) : StateType * W :=
  match find_transition event (transition_map st) with
  | None => (kUnknown, w)
  | Some next =>
      let w :=
        match event with
        | Event.kActivate => on_activated st w
        | Event.kDeactivate => on_deactivated st w
        | Event.kStandby => on_standby st w
        end in
      (next, w)
  end.

Definition state_entry (st : StateType) (w : W) : W := w.
Definition state_exit (st : StateType) (w : W) : W := w.

Definition lifecycle_methods : StateMethods StateType Event.Event W :=
  mkStateMethods state_handle state_entry state_exit.

End methods.

Definition lifecycle_states : list StateType := [kStandby; kActive; kInactive].

(** ** Specification

    The transitions as a relation: every event leads to its own state from the
    two others, and nothing happens in that state. *)

Definition target (event : Event.Event) : StateType :=
  match event with
  | Event.kActivate => kActive
  | Event.kDeactivate => kInactive
  | Event.kStandby => kStandby
  end.

Lemma kUnknown_not_state : kUnknown ∉ lifecycle_states.
Proof. by apply (bool_decide_unpack _). Qed.

Lemma state_handle_spec {W} st event (w : W) : st ∈ lifecycle_states →
  state_handle st event w = (if decide (st = target event) then kUnknown else target event, w).
Proof. intros Hst. pose proof kUnknown_not_state. by destruct st, event. Qed.

Lemma target_state event : target event ∈ lifecycle_states.
Proof. by destruct event; apply (bool_decide_unpack _). Qed.
