(* ===== verification/Node.v ===== *)
(** * The state of a node

    The data members of [raft::Context] ([src/raft/context.hpp]) and of
    [ClusterNodeImpl] ([src/cluster_node_impl.hpp]), with a function [set_x] per
    member [x_] that is assigned after construction.

    A timer is [None] when its pointer is null and otherwise its period in
    milliseconds.  [promises_] holds the shared state of every promise made so
    far, a promise being its index.  A user callback is represented by whether
    it is registered: calling it is an [Output]. *)

From S2P Require Import Prelude Platform LogEntry ContextStore RaftTypes OtherNode.
From S2P Require Import StateMachine Lifecycle.

Section Node.
  Context `{Platform}.

(** ** [raft::Context] *)

Record Context := mkContext {
  cluster_name_ : string;
  node_id_ : N;
  node_base_name_ : string;
  append_entries_service_ : option string;
  request_vote_service_ : option string;
  other_nodes_ : gmap N OtherNode;
  store_ : ContextStore;
  majority_ : N;
  cluster_size_ : N;
  election_timeout_min_ : N;
  election_timeout_max_ : N;
  random_generator_ : RNG;
  election_timer_ : option N;
  broadcast_timeout_ : N;
  broadcast_timer_ : option N;
  broadcast_received_ : bool;
  pending_commit_ : option PendingCommit;
  promises_ : list (option CommandCommitResponse);
  commit_callback_ : bool;
  revert_callback_ : bool;
}.

Definition set_append_entries_service (v : option string) (c : Context) : Context :=
  mkContext (cluster_name_ c) (node_id_ c) (node_base_name_ c) v (request_vote_service_ c) (other_nodes_ c)
    (store_ c) (majority_ c) (cluster_size_ c) (election_timeout_min_ c)
    (election_timeout_max_ c) (random_generator_ c) (election_timer_ c)
    (broadcast_timeout_ c) (broadcast_timer_ c) (broadcast_received_ c) (pending_commit_ c)
    (promises_ c) (commit_callback_ c) (revert_callback_ c).
Definition set_request_vote_service (v : option string) (c : Context) : Context :=
  mkContext (cluster_name_ c) (node_id_ c) (node_base_name_ c) (append_entries_service_ c) v (other_nodes_ c)
    (store_ c) (majority_ c) (cluster_size_ c) (election_timeout_min_ c)
    (election_timeout_max_ c) (random_generator_ c) (election_timer_ c)
    (broadcast_timeout_ c) (broadcast_timer_ c) (broadcast_received_ c) (pending_commit_ c)
    (promises_ c) (commit_callback_ c) (revert_callback_ c).
Definition set_other_nodes (v : gmap N OtherNode) (c : Context) : Context :=
  mkContext (cluster_name_ c) (node_id_ c) (node_base_name_ c) (append_entries_service_ c)
    (request_vote_service_ c) v (store_ c) (majority_ c) (cluster_size_ c)
    (election_timeout_min_ c) (election_timeout_max_ c) (random_generator_ c)
    (election_timer_ c) (broadcast_timeout_ c) (broadcast_timer_ c) (broadcast_received_ c)
    (pending_commit_ c) (promises_ c) (commit_callback_ c) (revert_callback_ c).
Definition set_store (v : ContextStore) (c : Context) : Context :=
  mkContext (cluster_name_ c) (node_id_ c) (node_base_name_ c) (append_entries_service_ c)
    (request_vote_service_ c) (other_nodes_ c) v (majority_ c) (cluster_size_ c)
    (election_timeout_min_ c) (election_timeout_max_ c) (random_generator_ c)
    (election_timer_ c) (broadcast_timeout_ c) (broadcast_timer_ c) (broadcast_received_ c)
    (pending_commit_ c) (promises_ c) (commit_callback_ c) (revert_callback_ c).
Definition set_majority (v : N) (c : Context) : Context :=
  mkContext (cluster_name_ c) (node_id_ c) (node_base_name_ c) (append_entries_service_ c)
    (request_vote_service_ c) (other_nodes_ c) (store_ c) v (cluster_size_ c)
    (election_timeout_min_ c) (election_timeout_max_ c) (random_generator_ c)
    (election_timer_ c) (broadcast_timeout_ c) (broadcast_timer_ c) (broadcast_received_ c)
    (pending_commit_ c) (promises_ c) (commit_callback_ c) (revert_callback_ c).
Definition set_cluster_size (v : N) (c : Context) : Context :=
  mkContext (cluster_name_ c) (node_id_ c) (node_base_name_ c) (append_entries_service_ c)
    (request_vote_service_ c) (other_nodes_ c) (store_ c) (majority_ c) v
    (election_timeout_min_ c) (election_timeout_max_ c) (random_generator_ c)
    (election_timer_ c) (broadcast_timeout_ c) (broadcast_timer_ c) (broadcast_received_ c)
    (pending_commit_ c) (promises_ c) (commit_callback_ c) (revert_callback_ c).
Definition set_random_generator (v : RNG) (c : Context) : Context :=
  mkContext (cluster_name_ c) (node_id_ c) (node_base_name_ c) (append_entries_service_ c)
    (request_vote_service_ c) (other_nodes_ c) (store_ c) (majority_ c) (cluster_size_ c)
    (election_timeout_min_ c) (election_timeout_max_ c) v (election_timer_ c)
    (broadcast_timeout_ c) (broadcast_timer_ c) (broadcast_received_ c) (pending_commit_ c)
    (promises_ c) (commit_callback_ c) (revert_callback_ c).
Definition set_election_timer (v : option N) (c : Context) : Context :=
  mkContext (cluster_name_ c) (node_id_ c) (node_base_name_ c) (append_entries_service_ c)
    (request_vote_service_ c) (other_nodes_ c) (store_ c) (majority_ c) (cluster_size_ c)
    (election_timeout_min_ c) (election_timeout_max_ c) (random_generator_ c) v
    (broadcast_timeout_ c) (broadcast_timer_ c) (broadcast_received_ c) (pending_commit_ c)
    (promises_ c) (commit_callback_ c) (revert_callback_ c).
Definition set_broadcast_timer (v : option N) (c : Context) : Context :=
  mkContext (cluster_name_ c) (node_id_ c) (node_base_name_ c) (append_entries_service_ c)
    (request_vote_service_ c) (other_nodes_ c) (store_ c) (majority_ c) (cluster_size_ c)
    (election_timeout_min_ c) (election_timeout_max_ c) (random_generator_ c)
    (election_timer_ c) (broadcast_timeout_ c) v (broadcast_received_ c) (pending_commit_ c)
    (promises_ c) (commit_callback_ c) (revert_callback_ c).
Definition set_broadcast_received (v : bool) (c : Context) : Context :=
  mkContext (cluster_name_ c) (node_id_ c) (node_base_name_ c) (append_entries_service_ c)
    (request_vote_service_ c) (other_nodes_ c) (store_ c) (majority_ c) (cluster_size_ c)
    (election_timeout_min_ c) (election_timeout_max_ c) (random_generator_ c)
    (election_timer_ c) (broadcast_timeout_ c) (broadcast_timer_ c) v (pending_commit_ c)
    (promises_ c) (commit_callback_ c) (revert_callback_ c).
Definition set_pending_commit (v : option PendingCommit) (c : Context) : Context :=
  mkContext (cluster_name_ c) (node_id_ c) (node_base_name_ c) (append_entries_service_ c)
    (request_vote_service_ c) (other_nodes_ c) (store_ c) (majority_ c) (cluster_size_ c)
    (election_timeout_min_ c) (election_timeout_max_ c) (random_generator_ c)
    (election_timer_ c) (broadcast_timeout_ c) (broadcast_timer_ c) (broadcast_received_ c)
    v (promises_ c) (commit_callback_ c) (revert_callback_ c).
Definition set_promises (v : list (option CommandCommitResponse)) (c : Context) : Context :=
  mkContext (cluster_name_ c) (node_id_ c) (node_base_name_ c) (append_entries_service_ c)
    (request_vote_service_ c) (other_nodes_ c) (store_ c) (majority_ c) (cluster_size_ c)
    (election_timeout_min_ c) (election_timeout_max_ c) (random_generator_ c)
    (election_timer_ c) (broadcast_timeout_ c) (broadcast_timer_ c) (broadcast_received_ c)
    (pending_commit_ c) v (commit_callback_ c) (revert_callback_ c).
Definition set_commit_callback (v : bool) (c : Context) : Context :=
  mkContext (cluster_name_ c) (node_id_ c) (node_base_name_ c) (append_entries_service_ c)
    (request_vote_service_ c) (other_nodes_ c) (store_ c) (majority_ c) (cluster_size_ c)
    (election_timeout_min_ c) (election_timeout_max_ c) (random_generator_ c)
    (election_timer_ c) (broadcast_timeout_ c) (broadcast_timer_ c) (broadcast_received_ c)
    (pending_commit_ c) (promises_ c) v (revert_callback_ c).
Definition set_revert_callback (v : bool) (c : Context) : Context :=
  mkContext (cluster_name_ c) (node_id_ c) (node_base_name_ c) (append_entries_service_ c)
    (request_vote_service_ c) (other_nodes_ c) (store_ c) (majority_ c) (cluster_size_ c)
    (election_timeout_min_ c) (election_timeout_max_ c) (random_generator_ c)
    (election_timer_ c) (broadcast_timeout_ c) (broadcast_timer_ c) (broadcast_received_ c)
    (pending_commit_ c) (promises_ c) (commit_callback_ c) v.

(** ** [ClusterNodeImpl] *)

Record Node := mkNode {
  context_ : Context;
  raft_fsm_ : StateMachine RaftTypes.StateType;
  lifecycle_fsm_ : StateMachine Lifecycle.StateType;
  activated_callback_ : bool;
  deactivated_callback_ : bool;
  standby_callback_ : bool;
  outputs_ : list Output;
  fault_ : option Fault;
}.

Definition set_context (v : Context) (n : Node) : Node :=
  mkNode v (raft_fsm_ n) (lifecycle_fsm_ n) (activated_callback_ n)
    (deactivated_callback_ n) (standby_callback_ n) (outputs_ n) (fault_ n).
Definition set_raft_fsm (v : StateMachine RaftTypes.StateType) (n : Node) : Node :=
  mkNode (context_ n) v (lifecycle_fsm_ n) (activated_callback_ n) (deactivated_callback_ n)
    (standby_callback_ n) (outputs_ n) (fault_ n).
Definition set_lifecycle_fsm (v : StateMachine Lifecycle.StateType) (n : Node) : Node :=
  mkNode (context_ n) (raft_fsm_ n) v (activated_callback_ n) (deactivated_callback_ n)
    (standby_callback_ n) (outputs_ n) (fault_ n).
Definition set_activated_callback (v : bool) (n : Node) : Node :=
  mkNode (context_ n) (raft_fsm_ n) (lifecycle_fsm_ n) v (deactivated_callback_ n)
    (standby_callback_ n) (outputs_ n) (fault_ n).
Definition set_deactivated_callback (v : bool) (n : Node) : Node :=
  mkNode (context_ n) (raft_fsm_ n) (lifecycle_fsm_ n) (activated_callback_ n) v
    (standby_callback_ n) (outputs_ n) (fault_ n).
Definition set_standby_callback (v : bool) (n : Node) : Node :=
  mkNode (context_ n) (raft_fsm_ n) (lifecycle_fsm_ n) (activated_callback_ n)
    (deactivated_callback_ n) v (outputs_ n) (fault_ n).
Definition set_outputs (v : list Output) (n : Node) : Node :=
  mkNode (context_ n) (raft_fsm_ n) (lifecycle_fsm_ n) (activated_callback_ n)
    (deactivated_callback_ n) (standby_callback_ n) v (fault_ n).
Definition set_fault (v : option Fault) (n : Node) : Node :=
  mkNode (context_ n) (raft_fsm_ n) (lifecycle_fsm_ n) (activated_callback_ n)
    (deactivated_callback_ n) (standby_callback_ n) (outputs_ n) v.

(** Shorthands for the members reached through the context. *)
Definition on_context (f : Context → Context) (n : Node) : Node :=
  set_context (f (context_ n)) n.

Definition store (n : Node) : ContextStore := store_ (context_ n).

Definition on_store (f : ContextStore → ContextStore) (n : Node) : Node :=
  on_context (λ c, set_store (f (store_ c)) c) n.

(** An effect becomes visible. *)
Definition output (o : Output) (n : Node) : Node := set_outputs (outputs_ n ++ [o]) n.

(** The process ends: the first fault is kept. *)
Definition halt (f : Fault) (n : Node) : Node :=
  match fault_ n with
  | Some _ => n
  | None => set_fault (Some f) n
  end.

Definition raft_fsm_of : Embedding (StateMachine RaftTypes.StateType) Node :=
  mkEmbedding raft_fsm_ set_raft_fsm.

Definition lifecycle_fsm_of : Embedding (StateMachine Lifecycle.StateType) Node :=
  mkEmbedding lifecycle_fsm_ set_lifecycle_fsm.

End Node.
