(* ===== verification/StateMachineInterface.v ===== *)
(** * The interfaces around the RAFT state machine

    [src/raft/state_machine_interface.hpp] is the abstract class through which
    [Context] calls back the state machine that owns it.  Its methods may change
    the whole node, the context included.  [StateMachineContract] is what the
    theorems about the context need of an implementation.

    In the other direction the state machine notifies the observers of its
    current state ([Observer<raft::StateType>]), the class [StateObserver]. *)

From S2P Require Import Prelude Platform LogEntry ContextStore RaftTypes OtherNode.
From S2P Require Import StateMachine Lifecycle Node.

Class StateMachineInterface `{Platform} := {
  on_election_timedout : Node → Node;
  on_new_term_received : Node → Node;
  on_elected : Node → Node;
  on_broadcast_timedout : Node → Node;
  on_leader_discovered : Node → Node;
  is_leader : Node → bool;
  get_current_state : Node → RaftTypes.StateType;
}.

(** The states of the machine, and their current one. *)
Definition raft_states : list RaftTypes.StateType :=
  [RaftTypes.kStandby; kFollower; kCandidate; kLeader].

Definition raft_state `{Platform} (n : Node) : RaftTypes.StateType :=
  current_state_ (raft_fsm_ n).

(** What a change of state may do to a node: timers, the state machines, the
    commit in progress and its promise, and outputs; never the store, the peers
    or the configuration. *)
Record state_change `{Platform} (n n' : Node) : Prop := {
  state_change_store : store n' = store n;
  state_change_other_nodes : other_nodes_ (context_ n') = other_nodes_ (context_ n);
  state_change_node_id : node_id_ (context_ n') = node_id_ (context_ n);
  state_change_majority : majority_ (context_ n') = majority_ (context_ n);
  state_change_cluster_size : cluster_size_ (context_ n') = cluster_size_ (context_ n);
  state_change_broadcast_received :
    broadcast_received_ (context_ n') = broadcast_received_ (context_ n);
  state_change_commit_callback : commit_callback_ (context_ n') = commit_callback_ (context_ n);
  state_change_revert_callback : revert_callback_ (context_ n') = revert_callback_ (context_ n);
  state_change_states : states_ (raft_fsm_ n') = states_ (raft_fsm_ n);
  state_change_pending :
    pending_commit_ (context_ n') = pending_commit_ (context_ n) ∨
    pending_commit_ (context_ n') = None;
}.

(** The state in which a new term or a leader leaves a node. *)
Definition stepped_down (st : RaftTypes.StateType) : RaftTypes.StateType :=
  match st with kCandidate | kLeader => kFollower | st => st end.

Definition promoted (st : RaftTypes.StateType) : RaftTypes.StateType :=
  match st with kCandidate => kLeader | st => st end.

Class StateMachineContract `{StateMachineInterface} : Prop := {
  on_new_term_received_change n : state_change n (on_new_term_received n);
  on_elected_change n : state_change n (on_elected n);
  on_leader_discovered_change n : state_change n (on_leader_discovered n);
  on_new_term_received_state n : states_ (raft_fsm_ n) = raft_states →
    raft_state (on_new_term_received n) = stepped_down (raft_state n);
  on_leader_discovered_state n : states_ (raft_fsm_ n) = raft_states →
    raft_state (on_leader_discovered n) = stepped_down (raft_state n);
  on_elected_state n : states_ (raft_fsm_ n) = raft_states →
    raft_state (on_elected n) = promoted (raft_state n);
  is_leader_state n : is_leader n = bool_decide (raft_state n = kLeader);
  get_current_state_state n : get_current_state n = raft_state n;
}.

#[export] Instance state_change_refl `{Platform} : Reflexive state_change.
Proof. intros n. by split; try left. Qed.

#[export] Instance state_change_trans `{Platform} : Transitive state_change.
Proof.
  intros n1 n2 n3 [???????? ? P] [???????? ? Q]. split; try congruence.
  destruct Q as [->| ->]; [done|by right].
Qed.

#[export] Hint Resolve on_new_term_received_change on_elected_change
  on_leader_discovered_change : foros.

(** ** Observers of the state *)

Class StateObserver `{Platform} := {
  (** [observer->handle(state)] *)
  observe_state : ObserverId → RaftTypes.StateType → Node → Node;
}.

(** An observer leaves the context and the RAFT state machine alone. *)
Class StateObserverContract `{StateObserver} : Prop := {
  observe_state_context o st n : context_ (observe_state o st n) = context_ n;
  observe_state_fsm o st n : raft_fsm_ (observe_state o st n) = raft_fsm_ n;
  observe_state_fault o st n : fault_ (observe_state o st n) = fault_ n;
}.
