(* ===== verification/RaftContext.v ===== *)
(** * The RAFT context

    [src/raft/context.cpp]: elections, votes, replication and commits of one
    node.  A method is a function on the whole node, because it may call the
    state machine back ([StateMachineInterface]), which changes the node. *)

From S2P Require Import Prelude Codec Platform LogEntry ContextStore NodeUtil RaftTypes.
From S2P Require Import OtherNode StateMachine Lifecycle Node StateMachineInterface.

Local Open Scope N_scope.

(** ** Construction *)

Section construction.
  Context `{Platform}.

(** The constructor. [open_db] is the outcome of opening the database at a path. *)
Definition new_Context (cluster_name : string) (node_id : N) (node_base_name : string)
    (election_timeout_min election_timeout_max : N) (temp_directory : string)
    (open_db : string → option DB) (random_generator : RNG) : Context :=
  let db_file := temp_directory +:+ "/foros_" +:+ node_base_name in
  {| cluster_name_ := cluster_name;
     node_id_ := node_id;
     node_base_name_ := node_base_name;
     append_entries_service_ := None;
     request_vote_service_ := None;
     other_nodes_ := ∅;
     store_ := new_ContextStore (open_db db_file);
     majority_ := 0;
     cluster_size_ := 0;
     election_timeout_min_ := election_timeout_min;
     election_timeout_max_ := election_timeout_max;
     random_generator_ := random_generator;
     election_timer_ := None;
     broadcast_timeout_ := election_timeout_min / 10;
     broadcast_timer_ := None;
     broadcast_received_ := false;
     pending_commit_ := None;
     promises_ := [];
     commit_callback_ := false;
     revert_callback_ := false |}.

(** Both services are created and registered under the names of this node. *)
Definition initialize_node (c : Context) : Context :=
  let c := set_append_entries_service
    (Some (get_service_name (cluster_name_ c) (node_id_ c) kAppendEntriesServiceName)) c in
  set_request_vote_service
    (Some (get_service_name (cluster_name_ c) (node_id_ c) kRequestVoteServiceName)) c.

Definition initialize_other_nodes (cluster_node_ids : list N) (c : Context) : Context :=
  let next_index := logs_size (store_ c) in
  foldl (λ c id,
    if id =? node_id_ c then c else
    set_other_nodes
      (<[id := new_OtherNode (cluster_name_ c) id next_index]> (other_nodes_ c)) c)
    c cluster_node_ids.

(** The argument is a [uint32_t]. *)
Definition set_cluster_size (size : N) (c : Context) : Context :=
  let size := wrap32 size in
  set_majority (wrap32 (N.shiftr size 1 + 1)) (Node.set_cluster_size size c).

Definition initialize (cluster_node_ids : list N) (c : Context) : Context :=
  let c := initialize_node c in
  let c := set_cluster_size (N.of_nat (length cluster_node_ids)) c in
  initialize_other_nodes cluster_node_ids c.

(** ** Timers *)

Definition stop_election_timer (n : Node) : Node :=
  on_context (set_election_timer None) n.

(** [uniform_int_distribution<>] draws [int]s: the timeouts of the options are
    taken to be below [2 ^ 31]. *)
Definition start_election_timer (n : Node) : Node :=
  let n := on_context (set_election_timer None) n in
  let c := context_ n in
  let '(period, g) :=
    uniform_int (random_generator_ c) (election_timeout_min_ c) (election_timeout_max_ c) in
  on_context (λ c, set_election_timer (Some period) (set_random_generator g c)) n.

Definition reset_election_timer (n : Node) : Node :=
  start_election_timer (stop_election_timer n).

Definition stop_broadcast_timer (n : Node) : Node :=
  on_context (set_broadcast_timer None) n.

Definition start_broadcast_timer (n : Node) : Node :=
  let n := on_context (set_broadcast_timer None) n in
  on_context (λ c, set_broadcast_timer (Some (broadcast_timeout_ c)) c) n.

Definition reset_broadcast_timer (n : Node) : Node :=
  start_broadcast_timer (stop_broadcast_timer n).

(** ** Votes *)

Definition vote_for_me (n : Node) : Node :=
  let n := on_store (λ s, (set_voted_for (node_id_ (context_ n)) s).2) n in
  let n := on_store (λ s, (set_voted true s).2) n in
  on_store (λ s, (increase_vote_received s).2) n.

Definition vote (term id last_data_index : N) (last_data_term : N) (n : Node) :
    (N * bool) * Node :=
  let log := last_log (store n) in
  let current_term := current_term (store n) in
  if current_term <=? term then
    if negb (voted (store n)) &&
       match log with None => true | Some log => id_ log <=? last_data_index end then
      let n := on_store (λ s, (set_voted_for id s).2) n in
      let n := on_store (λ s, (set_voted true s).2) n in
      ((current_term, true), n)
    else ((current_term, false), n)
  else ((current_term, false), n).

Definition reset_vote (n : Node) : Node :=
  let n := on_store (λ s, (set_voted_for 0 s).2) n in
  let n := on_store (λ s, (reset_vote_received s).2) n in
  on_store (λ s, (set_voted false s).2) n.

(** ** Queries *)

Definition get_node_name (n : Node) : string := node_base_name_ (context_ n).

Definition get_term (n : Node) : N := current_term (store n).

Definition is_valid_node (id : N) (n : Node) : bool :=
  bool_decide (is_Some (other_nodes_ (context_ n) !! id)).

Definition get_commands_size (n : Node) : N := logs_size (store n).

Definition get_command (id : N) (n : Node) : option Command :=
  match log id (store n) with
  | None => None
  | Some log => command_ log
  end.

(** ** Callbacks of the user *)

Definition register_on_committed (n : Node) : Node :=
  on_context (set_commit_callback true) n.

Definition register_on_reverted (n : Node) : Node :=
  on_context (set_revert_callback true) n.

Definition invoke_commit_callback (log : option LogEntry) (n : Node) : Node :=
  match log with
  | Some log =>
      if commit_callback_ (context_ n) then output (CommitCallback (id_ log) (command_ log)) n
      else n
  | None => n
  end.

Definition invoke_revert_callback (id : N) (n : Node) : Node :=
  if revert_callback_ (context_ n) then output (RevertCallback id) n else n.

End construction.

(** ** Commits *)

Section commits.
  Context `{Platform}.

(** [promise->set_value(response)] *)
Definition set_value (promise : N) (response : CommandCommitResponse) (n : Node) : Node :=
  match promises_ (context_ n) !! N.to_nat promise with
  | Some None =>
      on_context (λ c, set_promises
        (<[N.to_nat promise := Some response]> (promises_ c)) c) n
  | _ => halt PromiseAlreadySatisfied n
  end.

(** [callback != nullptr] then [callback(future)] *)
Definition call_response_callback (promise : N) (callback : bool) (n : Node) : Node :=
  if callback then output (CommitResponseCallback promise) n else n.

Definition complete_commit (promise : N) (log : LogEntry) (result callback : bool)
    (n : Node) : Node :=
  let n :=
    if result then
      invoke_commit_callback (Some log) (on_store (λ s, (push_log (Some log) s).2) n)
    else n in
  let response := mkCommandCommitResponse (id_ log) (command_ log) result in
  call_response_callback promise callback (set_value promise response n).

Definition cancel_commit (promise id : N) (callback : bool) (n : Node) : Node :=
  let response := mkCommandCommitResponse id None false in
  call_response_callback promise callback (set_value promise response n).

(** A pending commit for another position than the end of the log is dropped. *)
Definition get_pending_commit (n : Node) : option PendingCommit * Node :=
  match pending_commit_ (context_ n) with
  | None => (None, n)
  | Some p =>
      if negb (id_ (log_ p) =? logs_size (store n)) then
        (None, on_context (set_pending_commit None) n)
      else (Some p, n)
  end.

Definition set_pending_commit (commit : PendingCommit) (n : Node) : bool * Node :=
  if negb (id_ (log_ commit) =? logs_size (store n)) then (false, n) else
  if match pending_commit_ (context_ n) with
     | Some p => id_ (log_ p) =? logs_size (store n)
     | None => false
     end
  then (false, n)
  else (true, on_context (Node.set_pending_commit (Some commit)) n).

Definition clear_pending_commit (n : Node) : option PendingCommit * Node :=
  (pending_commit_ (context_ n), on_context (Node.set_pending_commit None) n).

Definition cancel_pending_commit (n : Node) : Node :=
  let '(commit, n) := clear_pending_commit n in
  match commit with
  | Some p => complete_commit (promise_ p) (log_ p) false (callback_ p) n
  | None => n
  end.

Definition with_result (id : N) (success : bool) (p : PendingCommit) : PendingCommit :=
  mkPendingCommit (log_ p) (promise_ p) (callback_ p) (<[id := success]> (result_map_ p)).

(** The loop that counts the nodes whose last answer is [success]; the node
    itself is counted first. *)
Definition count_results (success : bool) (ids : list N) (results : gmap N bool) : N :=
  foldl (λ count id,
    if bool_decide (results !! id = Some success) then wrap32 (count + 1) else count)
    1 ids.

Definition handle_pending_commit_response (id commit_index term : N) (success : bool)
    (n : Node) : Node :=
  match pending_commit_ (context_ n) with
  | None => n
  | Some p =>
      if negb (id_ (log_ p) =? commit_index) || negb (term_ (log_ p) =? term) then n else
      let p := with_result id success p in
      let n := on_context (Node.set_pending_commit (Some p)) n in
      let success_count :=
        count_results success (map_ids (other_nodes_ (context_ n))) (result_map_ p) in
      if success_count <? majority_ (context_ n) then n else
      let n := on_context (Node.set_pending_commit None) n in
      complete_commit (promise_ p) (log_ p) true (callback_ p) n
  end.

Definition on_log_get_request (id : N) (n : Node) : option LogEntry * Node :=
  let '(commit, n) := get_pending_commit n in
  match commit with
  | Some p => if id_ (log_ p) =? id then (Some (log_ p), n) else (log id (store n), n)
  | None => (log id (store n), n)
  end.

(** ** Broadcasts *)

(** One iteration of the loop over [other_nodes_]; nothing runs after a fault. *)
Definition broadcast_to (log : option LogEntry) (n : Node) (id : N) : Node :=
  match fault_ n, other_nodes_ (context_ n) !! id with
  | None, Some o =>
      let '(result, n) :=
        OtherNode.broadcast (Some on_log_get_request)
          (current_term (store n)) (node_id_ (context_ n)) log o n in
      match result with
      | NotReady => n
      | NullCommand => halt NullCommandDereference n
      | Sent request => output (SendAppendEntries id request) n
      end
  | _, _ => n
  end.

Definition broadcast (n : Node) : Node :=
  let '(pending_commit, n) := get_pending_commit n in
  let log :=
    match pending_commit with
    | Some p => Some (log_ p)
    | None => last_log (store n)
    end in
  foldl (broadcast_to log) n (map_ids (other_nodes_ (context_ n))).

(** ** Local commits *)

Definition push_and_notify (log : LogEntry) (n : Node) : bool * Node :=
  let '(ok, s) := push_log (Some log) (store n) in
  let n := on_store (λ _, s) n in
  if negb ok then (false, n) else (true, invoke_commit_callback (Some log) n).

Definition request_local_commit (request : AppendEntriesRequest) (n : Node) : bool * Node :=
  let index := ae_leader_commit request in
  let log := mkLogEntry index (ae_term request) (Some (mkCommand (ae_entries request))) in
  match last_log (store n) with
  | Some last =>
      if bool_decide (is_Some (command_ last)) && (id_ last =? index) &&
         (term_ last =? ae_term request) then (true, n) else
      let n :=
        if index <=? id_ last then
          invoke_revert_callback index (on_store (λ s, (revert_log index s).2) n)
        else n in
      push_and_notify log n
  | None => push_and_notify log n
  end.

Definition request_local_rollback (commit_index : N) (n : Node) : Node :=
  on_store (λ s, (revert_log commit_index s).2) n.

End commits.

(** ** Methods that call the state machine back *)

Section handlers.
  Context `{StateMachineInterface}.

Definition update_term (term : N) (self : bool) (n : Node) : bool * Node :=
  if term <=? current_term (store n) then (false, n) else
  let n := on_store (λ s, (set_current_term term s).2) n in
  let n := reset_vote n in
  let n := if self then n else on_new_term_received n in
  (true, n).

Definition increase_term (n : Node) : Node :=
  (update_term (wrap64 (current_term (store n) + 1)) true n).2.

(** The service callback: the response starts as the middleware made it. *)
Definition on_append_entries_requested (request : AppendEntriesRequest) (n : Node) :
    AppendEntriesResponse * Node :=
  if negb (is_valid_node (ae_leader_id request) n) then
    (default_append_entries_response, n)
  else
  let term := current_term (store n) in
  let n :=
    if ae_term request <? term then n
    else
      let '(_, n) := update_term (ae_term request) false n in
      let n := on_context (set_broadcast_received true) n in
      on_leader_discovered n in
  if (length (ae_entries request) =? 0)%nat then (mkAppendEntriesResponse term false, n) else
  if ae_leader_commit request =? 0 then
    let '(success, n) := request_local_commit request n in
    (mkAppendEntriesResponse term success, n)
  else
  match log (ae_prev_log_index request) (store n) with
  | None => (mkAppendEntriesResponse term false, n)
  | Some log =>
      if negb (term_ log =? ae_prev_log_term request) then
        (mkAppendEntriesResponse term false, request_local_rollback (id_ log) n)
      else
        let '(success, n) := request_local_commit request n in
        (mkAppendEntriesResponse term success, n)
  end.

Definition on_request_vote_requested (request : RequestVoteRequest) (n : Node) :
    RequestVoteResponse * Node :=
  if negb (is_valid_node (rv_candidate_id request) n) then
    (default_request_vote_response, n)
  else
  let '(_, n) := update_term (rv_term request) false n in
  let '((term, granted), n) :=
    vote (rv_term request) (rv_candidate_id request) (rv_last_data_index request)
      (rv_loat_data_term request) n in
  (mkRequestVoteResponse term granted, n).

Definition check_elected (n : Node) : Node :=
  if vote_received (store n) <? majority_ (context_ n) then n else
  let id := match last_log (store n) with None => 0 | Some log => id_ log end in
  let n := on_context (λ c,
    set_other_nodes (update_match_index id <$> other_nodes_ c) c) n in
  on_elected n.

Definition request_vote_to (n : Node) (id : N) : Node :=
  match other_nodes_ (context_ n) !! id with
  | Some o =>
      match OtherNode.request_vote (current_term (store n)) (node_id_ (context_ n))
              (last_log (store n)) o with
      | Some request => output (SendRequestVote id request) n
      | None => n
      end
  | None => n
  end.

Definition request_vote (n : Node) : Node :=
  check_elected (foldl request_vote_to n (map_ids (other_nodes_ (context_ n)))).

Definition on_request_vote_response (term : N) (vote_granted : bool) (n : Node) : Node :=
  if term <? current_term (store n) then n else
  let '(updated, n) := update_term term false n in
  if updated then n else
  if negb vote_granted then n else
  check_elected (on_store (λ s, (increase_vote_received s).2) n).

Definition commit_command (command : option Command) (callback : bool) (n : Node) :
    N * Node :=
  let promise := N.of_nat (length (promises_ (context_ n))) in
  let n := on_context (λ c, set_promises (promises_ c ++ [None]) c) n in
  if negb (is_leader n) then
    (promise, cancel_commit promise (logs_size (store n)) callback n)
  else
  let log := mkLogEntry (logs_size (store n)) (current_term (store n)) command in
  if cluster_size_ (context_ n) <=? 1 then
    (promise, complete_commit promise log true callback n)
  else
  let '(ok, n) := set_pending_commit (mkPendingCommit log promise callback ∅) n in
  if negb ok then (promise, cancel_commit promise (id_ log) callback n)
  else (promise, n).

Definition on_broadcast_response (id commit_index term : N) (success : bool) (n : Node) :
    Node :=
  let n :=
    if current_term (store n) <=? term then (update_term term false n).2 else n in
  handle_pending_commit_response id commit_index term success n.

(** The answer of peer [id] to an append-entries request: the peer updates its
    indices, then calls [on_broadcast_response]. *)
Definition on_append_entries_response (id : N) (request : AppendEntriesRequest)
    (response : AppendEntriesResponse) (n : Node) : Node :=
  let n := on_context (λ c, set_other_nodes
    (alter (OtherNode.on_append_entries_response request response) id (other_nodes_ c)) c) n in
  on_broadcast_response id (ae_leader_commit request) (ae_response_term response)
    (ae_success response) n.

(** The callbacks of the two timers. *)
Definition on_election_timer (n : Node) : Node :=
  if broadcast_received_ (context_ n) then on_context (set_broadcast_received false) n
  else on_election_timedout n.

Definition on_broadcast_timer (n : Node) : Node := on_broadcast_timedout n.

End handlers.
