(* ===== verification/RaftContextFacts.v ===== *)
(** * Lemmas about the RAFT context

    [calm n n'] says that a piece of a handler leaves the election alone: term,
    vote, count of votes, state machines and configuration are as before, while
    the log, the timers, the peers, the commit in progress and the outputs may
    change.  Everything that replicates or commits is calm. *)

From S2P Require Import Prelude Codec Platform LogEntry ContextStore ContextStoreFacts.
From S2P Require Import NodeUtil RaftTypes OtherNode StateMachine Lifecycle Node.
From S2P Require Import StateMachineInterface RaftContext.

Local Open Scope N_scope.

(** ** Calm changes *)

Record calm `{Platform} (n n' : Node) : Prop := {
  calm_term : current_term_ (store n') = current_term_ (store n);
  calm_voted : voted_ (store n') = voted_ (store n);
  calm_voted_for : voted_for_ (store n') = voted_for_ (store n);
  calm_vote_received : vote_received_ (store n') = vote_received_ (store n);
  calm_raft_fsm : raft_fsm_ n' = raft_fsm_ n;
  calm_lifecycle_fsm : lifecycle_fsm_ n' = lifecycle_fsm_ n;
  calm_node_id : node_id_ (context_ n') = node_id_ (context_ n);
  calm_majority : majority_ (context_ n') = majority_ (context_ n);
  calm_cluster_size : cluster_size_ (context_ n') = cluster_size_ (context_ n);
  calm_timeout_min : election_timeout_min_ (context_ n') = election_timeout_min_ (context_ n);
  calm_timeout_max : election_timeout_max_ (context_ n') = election_timeout_max_ (context_ n);
  calm_broadcast_timeout :
    broadcast_timeout_ (context_ n') = broadcast_timeout_ (context_ n);
  calm_broadcast_received :
    broadcast_received_ (context_ n') = broadcast_received_ (context_ n);
}.

#[export] Instance calm_refl `{Platform} : Reflexive calm.
Proof. by intros n. Qed.

#[export] Instance calm_trans `{Platform} : Transitive calm.
Proof. intros n1 n2 n3 [] []. split; congruence. Qed.

(** A chain of calm steps. *)
Ltac calm :=
  cbv zeta;
  repeat first [done | solve [eauto 3 with foros] | etrans; [|solve [eauto 3 with foros]]].

Section calm.
  Context `{Platform}.
  Implicit Types (n : Node) (s : ContextStore).

Lemma output_calm o n : calm n (output o n).
Proof. done. Qed.

Lemma halt_calm f n : calm n (halt f n).
Proof. unfold halt. by destruct (fault_ n). Qed.

Lemma set_election_timer_calm t n : calm n (on_context (set_election_timer t) n).
Proof. done. Qed.

Lemma start_election_timer_calm n : calm n (start_election_timer n).
Proof. unfold start_election_timer. by split_call. Qed.

Lemma reset_election_timer_calm n : calm n (reset_election_timer n).
Proof. unfold reset_election_timer. by rewrite <-start_election_timer_calm. Qed.

Lemma stop_broadcast_timer_calm n : calm n (stop_broadcast_timer n).
Proof. done. Qed.

Lemma start_broadcast_timer_calm n : calm n (start_broadcast_timer n).
Proof. done. Qed.

Lemma set_other_nodes_calm f n : calm n (on_context (λ c, set_other_nodes (f c) c) n).
Proof. done. Qed.

Lemma set_pending_calm p n : calm n (on_context (Node.set_pending_commit p) n).
Proof. done. Qed.

Lemma set_promises_calm f n : calm n (on_context (λ c, set_promises (f c) c) n).
Proof. done. Qed.

(** Changing the log and the database of the store. *)
Lemma on_store_calm f n d l :
  f (store n) = with_db d (with_logs l (store n)) → calm n (on_store f n).
Proof.
  intros Hf. unfold on_store, on_context, store in *.
  split; unfold store; simpl; try done; by rewrite Hf.
Qed.

Lemma push_log_store log s : ∃ d l, (push_log log s).2 = with_db d (with_logs l s).
Proof.
  destruct (push_log log s) as [[] s'] eqn:E; simpl.
  - apply push_log_true in E as (e & _ & _ & _ & F). eauto.
  - apply push_log_false in E as F. exists (db_ s'), (logs_ s). rewrite F. by destruct s.
Qed.

Lemma revert_log_store id s : ∃ d l, (revert_log id s).2 = with_db d (with_logs l s).
Proof.
  destruct (revert_log_cases id s) as [[_ ->]|[_ ->]]; simpl.
  - exists (db_ s), (logs_ s). by destruct s.
  - rewrite store_logs_size_frame. eauto.
Qed.

Lemma push_log_calm log n : calm n (on_store (λ s, (push_log log s).2) n).
Proof.
  destruct (push_log_store log (store n)) as (d & l & E). by eapply on_store_calm.
Qed.

Lemma revert_log_calm id n : calm n (on_store (λ s, (revert_log id s).2) n).
Proof.
  destruct (revert_log_store id (store n)) as (d & l & E). by eapply on_store_calm.
Qed.

Lemma invoke_commit_callback_calm log n : calm n (invoke_commit_callback log n).
Proof. destruct log; simpl; [|done]. by case_test. Qed.

Lemma invoke_revert_callback_calm id n : calm n (invoke_revert_callback id n).
Proof. unfold invoke_revert_callback. by case_test. Qed.

Lemma call_response_callback_calm p callback n : calm n (call_response_callback p callback n).
Proof. by destruct callback. Qed.

Lemma set_value_calm p r n : calm n (set_value p r n).
Proof.
  unfold set_value. destruct (_ !! _) as [[]|]; [|done|]; apply halt_calm.
Qed.

End calm.

#[export] Hint Resolve output_calm halt_calm set_election_timer_calm
  start_election_timer_calm reset_election_timer_calm stop_broadcast_timer_calm
  start_broadcast_timer_calm set_other_nodes_calm set_pending_calm set_promises_calm
  push_log_calm revert_log_calm invoke_commit_callback_calm invoke_revert_callback_calm
  call_response_callback_calm set_value_calm : foros.

Section calm_operations.
  Context `{Platform}.
  Implicit Types (n : Node) (s : ContextStore).

Lemma complete_commit_calm p log result callback n :
  calm n (complete_commit p log result callback n).
Proof. unfold complete_commit. destruct result; calm. Qed.

Lemma cancel_commit_calm p id callback n : calm n (cancel_commit p id callback n).
Proof. unfold cancel_commit. calm. Qed.

Lemma get_pending_commit_calm n : calm n (get_pending_commit n).2.
Proof. unfold get_pending_commit. destruct (pending_commit_ _); [|done]. by case_test. Qed.

Lemma set_pending_commit_calm p n : calm n (set_pending_commit p n).2.
Proof. unfold set_pending_commit. by repeat case_test. Qed.
End calm_operations.

#[export] Hint Resolve complete_commit_calm cancel_commit_calm get_pending_commit_calm
  set_pending_commit_calm : foros.

Section calm_handlers.
  Context `{Platform}.
  Implicit Types (n : Node) (s : ContextStore).

Lemma cancel_pending_commit_calm n : calm n (cancel_pending_commit n).
Proof.
  unfold cancel_pending_commit, clear_pending_commit.
  destruct (pending_commit_ _); calm.
Qed.

Lemma handle_pending_commit_response_calm id index term success n :
  calm n (handle_pending_commit_response id index term success n).
Proof.
  unfold handle_pending_commit_response. destruct (pending_commit_ _); [|done].
  repeat case_test; calm.
Qed.

Lemma on_log_get_request_calm id n : calm n (on_log_get_request id n).2.
Proof.
  unfold on_log_get_request. pose proof (get_pending_commit_calm n).
  destruct (get_pending_commit n) as [[p|] n']; [|done]. by case_test.
Qed.

Lemma add_next_entry_calm log i r n : calm n (add_next_entry on_log_get_request log i r n).2.
Proof.
  unfold add_next_entry. destruct log; [|done]. case_test; [|done].
  pose proof (on_log_get_request_calm i n).
  destruct (on_log_get_request i n) as [[e|] n']; [|done]. by destruct (command_ e).
Qed.

Lemma add_prev_entry_calm i r n : calm n (add_prev_entry on_log_get_request i r n).2.
Proof.
  unfold add_prev_entry. case_test; [|done].
  pose proof (on_log_get_request_calm (i - 1) n).
  by destruct (on_log_get_request (i - 1) n) as [[e|] n'].
Qed.

Lemma OtherNode_broadcast_calm term me log o n :
  calm n (OtherNode.broadcast (Some on_log_get_request) term me log o n).2.
Proof.
  unfold OtherNode.broadcast. case_test; [done|].
  pose proof (add_next_entry_calm log (next_index_ o)
    (mkAppendEntriesRequest term me 0 0 [] 0) n).
  destruct (add_next_entry _ _ _ _ _) as [[r|] n']; [|done]. simpl in *.
  pose proof (add_prev_entry_calm (next_index_ o) r n').
  destruct (add_prev_entry _ _ _ _). simpl in *. by etrans.
Qed.

Lemma broadcast_to_calm log n id : calm n (broadcast_to log n id).
Proof.
  unfold broadcast_to. destruct (fault_ n); [done|].
  destruct (other_nodes_ _ !! id) as [o|]; [|done].
  match goal with |- context [OtherNode.broadcast ?g ?t ?m ?l ?o ?n] =>
    pose proof (OtherNode_broadcast_calm t m l o n);
    destruct (OtherNode.broadcast g t m l o n) as [[] n'] end; calm.
Qed.

Lemma foldl_calm {A} (f : Node → A → Node) l n :
  (∀ n x, calm n (f n x)) → calm n (foldl f n l).
Proof.
  intros Hf. revert n; induction l as [|x l IH]; intros n; [done|].
  simpl. etrans; [apply Hf|apply IH].
Qed.

Lemma broadcast_calm n : calm n (broadcast n).
Proof.
  unfold broadcast. pose proof (get_pending_commit_calm n).
  destruct (get_pending_commit n) as [p n']. etrans; [done|].
  apply foldl_calm. intros. apply broadcast_to_calm.
Qed.

Lemma push_and_notify_calm log n : calm n (push_and_notify log n).2.
Proof.
  unfold push_and_notify. destruct (push_log (Some log) (store n)) as [ok s] eqn:E.
  assert (on_store (λ _, s) n = on_store (λ s, (push_log (Some log) s).2) n) as ->.
  { unfold on_store, on_context, store in *. by rewrite E. }
  destruct ok; simpl negb; cbv iota; calm.
Qed.

Lemma request_local_commit_calm r n : calm n (request_local_commit r n).2.
Proof.
  unfold request_local_commit. destruct (last_log _); [|apply push_and_notify_calm].
  destruct (_ && _ && _); [done|]. etrans; [|apply push_and_notify_calm]. case_test; calm.
Qed.

Lemma request_local_rollback_calm i n : calm n (request_local_rollback i n).
Proof. unfold request_local_rollback. calm. Qed.

Lemma request_vote_to_calm n id : calm n (request_vote_to n id).
Proof. unfold request_vote_to. repeat case_match; calm. Qed.

End calm_handlers.

#[export] Hint Resolve cancel_pending_commit_calm handle_pending_commit_response_calm
  broadcast_calm request_local_commit_calm request_local_rollback_calm
  request_vote_to_calm push_and_notify_calm : foros.

Section calm_interface.
  Context `{StateMachineInterface}.

Lemma commit_command_calm command callback n : calm n (commit_command command callback n).2.
Proof.
  unfold commit_command. destruct (negb _); [simpl; calm|].
  destruct (_ <=? _); [simpl; calm|].
  match goal with |- context [set_pending_commit ?p ?n] =>
    pose proof (set_pending_commit_calm p n);
    destruct (set_pending_commit p n) as [[] n'] end; simpl in *; calm.
Qed.

End calm_interface.

#[export] Hint Resolve commit_command_calm : foros.
