(* ===== verification/RaftStateMachine.v ===== *)
(** * The RAFT state machine

    [src/raft/state.cpp], [src/raft/state/*.cpp] and
    [src/raft/state_machine.cpp]: the four states, their transition maps,
    callbacks, entry and exit, and the machine that implements the interface of
    the context.

    The sources are mutually recursive: handling an event may call the context,
    which calls the state machine again.  [raft_handle] follows such calls to a
    given depth; [max_depth] is enough (NodeTheorems.v, [handle_event_depth]). *)

From S2P Require Import Prelude Platform LogEntry ContextStore RaftTypes OtherNode.
From S2P Require Import StateMachine Lifecycle Node StateMachineInterface RaftContext.

(** ** Transition maps *)

Abbreviation TransitionMap := (list (RaftTypes.Event * RaftTypes.StateType)).

Definition standby_transition_map : TransitionMap := [(kStarted, kFollower)].

Definition follower_transition_map : TransitionMap :=
  [(kTerminated, RaftTypes.kStandby); (kTimedout, kCandidate)].

Definition candidate_transition_map : TransitionMap :=
  [(kTerminated, RaftTypes.kStandby); (kTimedout, kStay); (kElected, kLeader);
   (kLeaderDiscovered, kFollower); (kNewTermReceived, kFollower)].

Definition leader_transition_map : TransitionMap :=
  [(kTerminated, RaftTypes.kStandby); (kLeaderDiscovered, kFollower);
   (kNewTermReceived, kFollower); (kBroadcastTimedout, kStay)].

(** [kStay] is no key of [states_]: there is no such state object. *)
Definition transition_map (st : RaftTypes.StateType) : TransitionMap :=
  match st with
  | RaftTypes.kStandby => standby_transition_map
  | kFollower => follower_transition_map
  | kCandidate => candidate_transition_map
  | kLeader => leader_transition_map
  | kStay => []
  end.

Definition find_transition (event : RaftTypes.Event) (m : TransitionMap) :
    option RaftTypes.StateType :=
  snd <$> List.find (λ p, bool_decide (p.1 = event)) m.

(** ** States *)

Section states.
  Context `{StateMachineInterface}.

(** [Candidate::start_election] *)
Definition start_election (n : Node) : Node :=
  let n := increase_term n in
  let n := reset_vote n in
  let n := vote_for_me n in
  let n := reset_election_timer n in
  request_vote n.

Definition standby_entry (n : Node) : Node := stop_election_timer n.
Definition follower_entry (n : Node) : Node := start_election_timer n.
Definition candidate_entry (n : Node) : Node := start_election n.
Definition leader_entry (n : Node) : Node := start_broadcast_timer n.

Definition standby_exit (n : Node) : Node := n.
Definition follower_exit (n : Node) : Node := n.
Definition candidate_exit (n : Node) : Node := n.
Definition leader_exit (n : Node) : Node :=
  let n := stop_broadcast_timer n in
  cancel_pending_commit n.

(** The event callbacks that do something; all the others have an empty body. *)
Definition candidate_on_timedout (n : Node) : Node := start_election n.
Definition leader_on_broadcast_timedout (n : Node) : Node := broadcast n.

Definition on_started (st : RaftTypes.StateType) (n : Node) : Node := n.
Definition on_timedout (st : RaftTypes.StateType) (n : Node) : Node :=
  match st with kCandidate => candidate_on_timedout n | _ => n end.
Definition on_broadcast_timedout (st : RaftTypes.StateType) (n : Node) : Node :=
  match st with kLeader => leader_on_broadcast_timedout n | _ => n end.
Definition on_leader_discovered (st : RaftTypes.StateType) (n : Node) : Node := n.
Definition on_new_term_received (st : RaftTypes.StateType) (n : Node) : Node := n.
Definition on_elected (st : RaftTypes.StateType) (n : Node) : Node := n.
Definition on_terminated (st : RaftTypes.StateType) (n : Node) : Node := n.

(** [callback_map_] *)
Definition callback_map (st : RaftTypes.StateType) (event : RaftTypes.Event) :
    option (Node → Node) :=
  match event with
  | kStarted => Some (on_started st)
  | kTimedout => Some (on_timedout st)
  | kLeaderDiscovered => Some (on_leader_discovered st)
  | kNewTermReceived => Some (on_new_term_received st)
  | kElected => Some (on_elected st)
  | kTerminated => Some (on_terminated st)
  | kBroadcastTimedout => Some (on_broadcast_timedout st)
  | RaftTypes.kUnknown => None
  end.

(** [State::handle] *)
Definition state_handle (st : RaftTypes.StateType) (event : RaftTypes.Event) (n : Node) :
    RaftTypes.StateType * Node :=
  match find_transition event (transition_map st) with
  | None => (kStay, n)
  | Some next =>
      match callback_map st event with
      | None => (st, n)
      | Some callback => (next, callback n)
      end
  end.

Definition state_entry (st : RaftTypes.StateType) (n : Node) : Node :=
  match st with
  | RaftTypes.kStandby => standby_entry n
  | kFollower => follower_entry n
  | kCandidate => candidate_entry n
  | kLeader => leader_entry n
  | kStay => n
  end.

Definition state_exit (st : RaftTypes.StateType) (n : Node) : Node :=
  match st with
  | RaftTypes.kStandby => standby_exit n
  | kFollower => follower_exit n
  | kCandidate => candidate_exit n
  | kLeader => leader_exit n
  | kStay => n
  end.

Definition raft_methods : StateMethods RaftTypes.StateType RaftTypes.Event Node :=
  mkStateMethods state_handle state_entry state_exit.

End states.

(** ** The machine *)

Section machine.
  Context `{StateObserver}.

(** The overrides of [raft::StateMachine], given its [handle]. *)
Definition mk_interface (h : RaftTypes.Event → Node → Node) : StateMachineInterface := {|
  StateMachineInterface.on_election_timedout := h kTimedout;
  StateMachineInterface.on_new_term_received := h kNewTermReceived;
  StateMachineInterface.on_elected := h kElected;
  StateMachineInterface.on_broadcast_timedout := h kBroadcastTimedout;
  StateMachineInterface.on_leader_discovered := h kLeaderDiscovered;
  StateMachineInterface.is_leader n :=
    bool_decide (get_current_state_type raft_fsm_of n = kLeader);
  StateMachineInterface.get_current_state n := get_current_state_type raft_fsm_of n;
|}.

Fixpoint raft_handle (depth : nat) (event : RaftTypes.Event) (n : Node) : Node :=
  match depth with
  | O => halt CallTooDeep n
  | S depth =>
      StateMachine.handle (raft_methods (H0 := mk_interface (raft_handle depth)))
        raft_fsm_of observe_state event n
  end.

Definition max_depth : nat := 2.

#[export] Instance raft_interface : StateMachineInterface :=
  mk_interface (raft_handle max_depth).

(** [StateMachine::handle] as every other component calls it. *)
Definition handle_event (event : RaftTypes.Event) (n : Node) : Node :=
  raft_handle max_depth event n.

(** The constructor of the base class, then the one of [raft::StateMachine]. *)
Definition new_raft_StateMachine (self : ObserverId) (cluster_node_ids : list N) (n : Node) :
    Node :=
  let n := new_StateMachine raft_methods raft_fsm_of self RaftTypes.kStandby raft_states n in
  on_context (initialize cluster_node_ids) n.

End machine.

(** Calls of the machine are unfolded by [raft_handle_S] only. *)
Arguments raft_handle {_ _} _ _ _ : simpl never.
