(* ===== verification/RaftStateMachineFacts.v ===== *)
(** * Lemmas about the RAFT state machine

    One transition as a function ([goto]), the depth of the recursion, and the
    contract that the context needs of the machine. *)

From S2P Require Import Prelude Platform LogEntry ContextStore ContextStoreFacts RaftTypes.
From S2P Require Import OtherNode StateMachine Lifecycle Node StateMachineInterface.
From S2P Require Import RaftContext RaftContextFacts RaftStateMachine.

Local Open Scope N_scope.

(** ** One transition *)

Section goto.
  Context `{StateObserverContract}.
  Implicit Types (n : Node) (h : RaftTypes.Event → Node → Node).

(** Leaving the current state and announcing the next one. *)
Definition depart (st : RaftTypes.StateType) (n : Node) : Node :=
  let n := state_exit (raft_state n) n in
  let n := set_raft_fsm (set_current_state st (raft_fsm_ n)) n in
  notify observe_state (current_state_notifier_ (raft_fsm_ n)) st n.

Definition goto (h : RaftTypes.Event → Node → Node) (st : RaftTypes.StateType) (n : Node) : Node :=
  state_entry (H0 := mk_interface h) st (depart st n).

Lemma state_exit_calm st n : calm n (state_exit st n).
Proof. destruct st; simpl; try done. unfold leader_exit. calm. Qed.

(** A notification changes neither the context nor the RAFT machine. *)
Lemma notify_frame os st n :
  context_ (notify observe_state os st n) = context_ n ∧
  raft_fsm_ (notify observe_state os st n) = raft_fsm_ n ∧
  fault_ (notify observe_state os st n) = fault_ n.
Proof.
  apply (notify_inv (λ n', context_ n' = context_ n ∧ raft_fsm_ n' = raft_fsm_ n ∧
    fault_ n' = fault_ n)); [|done].
  intros o n' (Hc & Hf & He).
  by rewrite observe_state_context, observe_state_fsm, observe_state_fault.
Qed.

Lemma depart_fsm st n : raft_fsm_ (depart st n) = set_current_state st (raft_fsm_ n).
Proof.
  unfold depart. rewrite (proj1 (proj2 (notify_frame _ _ _))). simpl.
  by rewrite (calm_raft_fsm _ _ (state_exit_calm (raft_state n) n)).
Qed.

Lemma depart_context st n : context_ (depart st n) = context_ (state_exit (raft_state n) n).
Proof. unfold depart. by rewrite (proj1 (notify_frame _ _ _)). Qed.

Lemma depart_fault st n : fault_ (depart st n) = fault_ (state_exit (raft_state n) n).
Proof. unfold depart. by rewrite (proj2 (proj2 (notify_frame _ _ _))). Qed.

(** [StateMachine::handle] on the RAFT machine. *)
Lemma raft_handle_S d ev n :
  raft_handle (S d) ev n =
    let '(next, n1) := state_handle (H0 := mk_interface (raft_handle d)) (raft_state n) ev n in
    if decide (next ∈ states_ (raft_fsm_ n1)) then goto (raft_handle d) next n1 else n1.
Proof.
  change (raft_handle (S d) ev n) with
    (StateMachine.handle (raft_methods (H0 := mk_interface (raft_handle d)))
       raft_fsm_of observe_state ev n).
  unfold StateMachine.handle.
  change (StateMachine.state_handle raft_methods (get_current_state_type raft_fsm_of n) ev n)
    with (state_handle (H0 := mk_interface (raft_handle d)) (raft_state n) ev n).
  destruct (state_handle (raft_state n) ev n) as [next n1].
  unfold view, raft_fsm_of.
  destruct (decide (next ∈ states_ (raft_fsm_ n1))), (decide (next ∉ states_ (raft_fsm_ n1)));
    try done.
  assert (raft_state (depart next n1) = next) as Hd
    by (unfold raft_state; by rewrite depart_fsm).
  change (state_entry (H0 := mk_interface (raft_handle d)) (raft_state (depart next n1))
    (depart next n1) = goto (raft_handle d) next n1).
  by rewrite Hd.
Qed.


Lemma raft_state_depart st n : raft_state (depart st n) = st.
Proof. unfold raft_state. by rewrite depart_fsm. Qed.

Lemma store_depart st n : store (depart st n) = store (state_exit (raft_state n) n).
Proof. unfold store. by rewrite depart_context. Qed.

(** The states whose entry calls nothing back. *)
Lemma goto_simple h st n : st ≠ kCandidate →
  goto h st n =
    match st with
    | RaftTypes.kStandby => stop_election_timer (depart st n)
    | kFollower => start_election_timer (depart st n)
    | kLeader => start_broadcast_timer (depart st n)
    | _ => depart st n
    end.
Proof. by destruct st. Qed.

Lemma goto_calm_depart h st n : st ≠ kCandidate → calm (depart st n) (goto h st n).
Proof. intros Hst. rewrite goto_simple by done. destruct st; calm. Qed.

(** ** The depth of the recursion *)

Lemma check_elected_ext (I J : StateMachineInterface) n :
  (∀ n, @StateMachineInterface.on_elected _ I n = @StateMachineInterface.on_elected _ J n) →
  check_elected (H0 := I) n = check_elected (H0 := J) n.
Proof. intros E. unfold check_elected. case_test; [done|]. apply E. Qed.

(** An election calls the machine back with [kElected] only. *)
Lemma start_election_ext (I J : StateMachineInterface) n :
  (∀ n, @StateMachineInterface.on_elected _ I n = @StateMachineInterface.on_elected _ J n) →
  start_election (H0 := I) n = start_election (H0 := J) n.
Proof.
  intros E. unfold start_election, request_vote.
  replace (increase_term (H0 := I) n) with (increase_term (H0 := J) n).
  - by apply check_elected_ext.
  - unfold increase_term, update_term. by case_test.
Qed.

Lemma raft_handle_ext d d' ev n :
  (∀ n, raft_handle d kElected n = raft_handle d' kElected n) →
  raft_handle (S d) ev n = raft_handle (S d') ev n.
Proof.
  intros E. rewrite !raft_handle_S.
  assert (state_handle (H0 := mk_interface (raft_handle d)) (raft_state n) ev n =
          state_handle (H0 := mk_interface (raft_handle d')) (raft_state n) ev n) as ->.
  { unfold state_handle. destruct (find_transition _ _); [|done].
    destruct ev; simpl; try done. destruct (raft_state n); try done.
    simpl. unfold candidate_on_timedout. f_equal. by apply start_election_ext. }
  destruct (state_handle _ _ _) as [next n1]. case_decide; [|done].
  unfold goto. destruct next; try done. by apply start_election_ext.
Qed.

(** Handling [kElected] calls nothing back. *)
Lemma raft_handle_elected d n : raft_handle (S d) kElected n = raft_handle 1 kElected n.
Proof.
  rewrite !raft_handle_S. unfold state_handle. destruct (raft_state n); try done.
Qed.

Lemma raft_handle_depth d ev n : raft_handle (2 + d) ev n = raft_handle 2 ev n.
Proof. apply raft_handle_ext. intros n'. apply raft_handle_elected. Qed.

(** ** The contract *)

Lemma calm_state_change n n' : calm n n' → store n' = store n →
  other_nodes_ (context_ n') = other_nodes_ (context_ n) →
  commit_callback_ (context_ n') = commit_callback_ (context_ n) →
  revert_callback_ (context_ n') = revert_callback_ (context_ n) →
  (pending_commit_ (context_ n') = pending_commit_ (context_ n) ∨
   pending_commit_ (context_ n') = None) →
  state_change n n'.
Proof. intros [] **. split; try done. congruence. Qed.

Lemma set_value_context p r n :
  ∃ l, context_ (set_value p r n) = set_promises l (context_ n).
Proof.
  exists (promises_ (context_ (set_value p r n))). unfold set_value.
  destruct (_ !! _) as [[]|]; [| |]; try by destruct n as [[]].
  all: unfold halt; destruct (fault_ n); by destruct n as [[]].
Qed.

Lemma call_response_callback_context p callback n :
  context_ (call_response_callback p callback n) = context_ n.
Proof. by destruct callback. Qed.

Lemma cancel_pending_commit_context n :
  ∃ l, context_ (cancel_pending_commit n) =
    set_promises l (Node.set_pending_commit None (context_ n)).
Proof.
  unfold cancel_pending_commit, clear_pending_commit, complete_commit.
  destruct (pending_commit_ (context_ n)) as [p|] eqn:Hp.
  - rewrite call_response_callback_context. apply set_value_context.
  - exists (promises_ (context_ n)). by destruct n as [[]].
Qed.

Lemma leader_exit_context n :
  ∃ l, context_ (leader_exit n) =
    set_promises l (Node.set_pending_commit None (set_broadcast_timer None (context_ n))).
Proof. apply (cancel_pending_commit_context (stop_broadcast_timer n)). Qed.

Lemma state_exit_change st n : state_change n (state_exit st n).
Proof.
  destruct st; try done. destruct (leader_exit_context n) as [l E]. simpl.
  pose proof (state_exit_calm kLeader n) as Hc. simpl in Hc.
  apply calm_state_change; unfold store; rewrite ?E; simpl; eauto.
Qed.

Lemma depart_change st n : state_change n (depart st n).
Proof.
  etrans; [apply (state_exit_change (raft_state n))|].
  pose proof (depart_context st n) as Hc. pose proof (depart_fsm st n) as Hf.
  pose proof (calm_raft_fsm _ _ (state_exit_calm (raft_state n) n)) as Hx.
  split; unfold store; rewrite ?Hc, ?Hf, ?Hx; try done; by left.
Qed.

Lemma start_election_timer_context n :
  ∃ t g, context_ (start_election_timer n) =
    set_election_timer t (set_random_generator g (context_ n)).
Proof.
  unfold start_election_timer. split_call. simpl. eexists _, _.
  by destruct n as [[]].
Qed.

Lemma goto_change h st n : st ≠ kCandidate → state_change n (goto h st n).
Proof.
  intros Hst. etrans; [apply (depart_change st)|].
  apply calm_state_change; [by apply goto_calm_depart|..];
    rewrite goto_simple by done; destruct st; try done;
    try (destruct (start_election_timer_context (depart kFollower n)) as (t & g & E);
         unfold store; rewrite ?E; by eauto).
  all: by left.
Qed.

Lemma raft_state_goto h st n : st ≠ kCandidate → raft_state (goto h st n) = st.
Proof.
  intros Hst. unfold raft_state.
  rewrite (calm_raft_fsm _ _ (goto_calm_depart h st n Hst)). apply raft_state_depart.
Qed.

(** Events whose handling is at most one transition. *)
Lemma raft_handle_simple d ev n : ev ≠ kTimedout → ev ≠ kBroadcastTimedout →
  raft_handle (S d) ev n =
    match find_transition ev (transition_map (raft_state n)) with
    | Some next =>
        if decide (next ∈ states_ (raft_fsm_ n)) then goto (raft_handle d) next n else n
    | None => if decide (kStay ∈ states_ (raft_fsm_ n)) then goto (raft_handle d) kStay n else n
    end.
Proof.
  intros H1' H2'. rewrite raft_handle_S. unfold state_handle.
  destruct ev, (raft_state n); done.
Qed.

Lemma find_transition_simple ev st next : ev ≠ kTimedout →
  find_transition ev (transition_map st) = Some next → next ≠ kCandidate.
Proof. intros Hev. destruct ev, st; vm_compute; naive_solver. Qed.

Lemma raft_handle_simple_change d ev n : ev ≠ kTimedout → ev ≠ kBroadcastTimedout →
  state_change n (raft_handle (S d) ev n).
Proof.
  intros Ht Hb. rewrite raft_handle_simple by done.
  destruct (find_transition _ _) eqn:E; case_decide; try done.
  - apply goto_change. by eapply find_transition_simple.
  - by apply goto_change.
Qed.

Lemma kStay_not_state : kStay ∉ raft_states.
Proof. by apply (bool_decide_unpack _). Qed.

Lemma raft_handle_simple_state d ev n : ev ≠ kTimedout → ev ≠ kBroadcastTimedout →
  states_ (raft_fsm_ n) = raft_states →
  raft_state (raft_handle (S d) ev n) =
    default (raft_state n) (find_transition ev (transition_map (raft_state n))).
Proof.
  intros Ht Hb Hs. rewrite raft_handle_simple, Hs by done.
  destruct (find_transition _ _) as [st|] eqn:E.
  - assert (st ∈ raft_states) as Hst.
    { apply (bool_decide_unpack _). revert E.
      destruct ev, (raft_state n); intros [= <-]; done. }
    rewrite decide_True by done. apply raft_state_goto. by eapply find_transition_simple.
  - by rewrite decide_False by apply kStay_not_state.
Qed.

Lemma mk_interface_contract d :
  StateMachineContract (H0 := mk_interface (raft_handle (S d))).
Proof.
  split; intros n; try (by apply raft_handle_simple_change); try done.
  all: intros Hs; etrans; [by apply (raft_handle_simple_state d)|].
  all: by destruct (raft_state n).
Qed.

#[export] Instance raft_interface_contract : StateMachineContract.
Proof. apply (mk_interface_contract 1). Qed.

End goto.
