(* ===== verification/ClusterNodeOptions.v ===== *)
(** * Options of a clustered node

    [src/cluster_node_options.cpp]. [temp_directory_path] is the directory that
    [std::filesystem::temp_directory_path()] returns. *)

From S2P Require Import Prelude.

Local Open Scope N_scope.

Record ClusterNodeOptions := mkClusterNodeOptions {
  election_timeout_min_ : N;
  election_timeout_max_ : N;
  temp_directory_ : string;
}.

Definition new_ClusterNodeOptions (temp_directory_path : string) : ClusterNodeOptions :=
  mkClusterNodeOptions 150 300 temp_directory_path.

Definition election_timeout_min (o : ClusterNodeOptions) : N := election_timeout_min_ o.
Definition set_election_timeout_min (min : N) (o : ClusterNodeOptions) : ClusterNodeOptions :=
  mkClusterNodeOptions min (election_timeout_max_ o) (temp_directory_ o).

Definition election_timeout_max (o : ClusterNodeOptions) : N := election_timeout_max_ o.
Definition set_election_timeout_max (max : N) (o : ClusterNodeOptions) : ClusterNodeOptions :=
  mkClusterNodeOptions (election_timeout_min_ o) max (temp_directory_ o).

Definition temp_directory (o : ClusterNodeOptions) : string := temp_directory_ o.
Definition set_temp_directory (directory : string) (o : ClusterNodeOptions) :
    ClusterNodeOptions :=
  mkClusterNodeOptions (election_timeout_min_ o) (election_timeout_max_ o) directory.
