(* ===== verification/ClusterNodeImpl.v ===== *)
(** * The clustered node

    [src/cluster_node_impl.cpp]: the node owns the RAFT context and the two
    state machines, and observes both.  Each RAFT state is turned into a
    lifecycle event, each lifecycle state into a user callback. *)

From S2P Require Import Prelude Codec Platform LogEntry ContextStore NodeUtil RaftTypes.
From S2P Require Import OtherNode StateMachine Lifecycle Node StateMachineInterface.
From S2P Require Import RaftContext RaftStateMachine ClusterNodeOptions.

(** ** Observers *)

(** The addresses of the objects that subscribe to a notifier. *)
Definition raft_fsm_address : ObserverId := 0%N.
Definition lifecycle_fsm_address : ObserverId := 1%N.
Definition cluster_node_address : ObserverId := 2%N.

Section observer.
  Context `{Platform}.

(** [ClusterNodeImpl::handle(const lifecycle::StateType &)] *)
Definition handle_lifecycle_state (state : Lifecycle.StateType) (n : Node) : Node :=
  match state with
  | Lifecycle.kStandby => if standby_callback_ n then output StandbyCallback n else n
  | kActive => if activated_callback_ n then output ActivatedCallback n else n
  | kInactive => if deactivated_callback_ n then output DeactivatedCallback n else n
  | kUnknown => n
  end.

Definition observe_lifecycle (o : ObserverId) (state : Lifecycle.StateType) (n : Node) : Node :=
  if (o =? cluster_node_address)%N then handle_lifecycle_state state n else n.

(** [lifecycle_fsm_->handle(event)] *)
Definition lifecycle_handle (event : Event.Event) (n : Node) : Node :=
  StateMachine.handle lifecycle_methods lifecycle_fsm_of observe_lifecycle event n.

(** [ClusterNodeImpl::handle(const raft::StateType &)] *)
Definition handle_raft_state (state : RaftTypes.StateType) (n : Node) : Node :=
  match state with
  | RaftTypes.kStandby => lifecycle_handle Event.kDeactivate n
  | kFollower => lifecycle_handle Event.kStandby n
  | kCandidate => lifecycle_handle Event.kStandby n
  | kLeader => lifecycle_handle Event.kActivate n
  | kStay => n
  end.

#[export] Instance cluster_node_observer : StateObserver := {|
  observe_state o state n :=
    if (o =? cluster_node_address)%N then handle_raft_state state n else n
|}.

End observer.

(** ** Construction and destruction *)

Section construction.
  Context `{Platform}.

(** [lifecycle::StateMachine::StateMachine] *)
Definition new_lifecycle_StateMachine (self : ObserverId) (n : Node) : Node :=
  new_StateMachine lifecycle_methods lifecycle_fsm_of self kInactive lifecycle_states n.

(** The members before their construction. *)
Definition unconstructed (c : Context) : Node :=
  {| context_ := c;
     raft_fsm_ := mkStateMachine [] RaftTypes.kStandby [] [];
     lifecycle_fsm_ := mkStateMachine [] kInactive [] [];
     activated_callback_ := false;
     deactivated_callback_ := false;
     standby_callback_ := false;
     outputs_ := [];
     fault_ := None |}.

Definition new_ClusterNodeImpl (cluster_name : string) (node_id : N)
    (cluster_node_ids : list N) (node_base_name : string) (options : ClusterNodeOptions)
    (open_db : string → option DB) (random_generator : RNG) : Node :=
  let n := unconstructed
    (new_Context cluster_name node_id node_base_name (election_timeout_min options)
       (election_timeout_max options) (temp_directory options) open_db random_generator) in
  let n := new_raft_StateMachine raft_fsm_address cluster_node_ids n in
  let n := new_lifecycle_StateMachine lifecycle_fsm_address n in
  let n := subscribe_state lifecycle_fsm_of cluster_node_address n in
  let n := subscribe_state raft_fsm_of cluster_node_address n in
  handle_event kStarted n.

Definition delete_ClusterNodeImpl (n : Node) : Node :=
  let n := unsubscribe_state lifecycle_fsm_of cluster_node_address n in
  unsubscribe_state raft_fsm_of cluster_node_address n.

(** [ClusterNode] passes the name of [NodeUtil::get_node_name] to its base. *)
Definition new_ClusterNode (cluster_name : string) (node_id : N)
    (cluster_node_ids : list N) (options : ClusterNodeOptions)
    (open_db : string → option DB) (random_generator : RNG) : Node :=
  new_ClusterNodeImpl cluster_name node_id cluster_node_ids
    (NodeUtil.get_node_name cluster_name node_id) options open_db random_generator.

End construction.

(** ** The interface of the user *)

Section user.
  Context `{Platform}.

Definition is_activated (n : Node) : bool :=
  bool_decide (get_current_state_type lifecycle_fsm_of n = kActive).

Definition register_on_activated (callback : bool) (n : Node) : Node :=
  set_activated_callback callback n.
Definition register_on_deactivated (callback : bool) (n : Node) : Node :=
  set_deactivated_callback callback n.
Definition register_on_standby (callback : bool) (n : Node) : Node :=
  set_standby_callback callback n.

(** [ClusterNodeImpl] forwards the rest to its context. *)
Definition ClusterNodeImpl_commit_command (command : option Command) (callback : bool)
    (n : Node) : N * Node :=
  RaftContext.commit_command command callback n.
Definition ClusterNodeImpl_get_commands_size (n : Node) : N := RaftContext.get_commands_size n.
Definition ClusterNodeImpl_get_command (id : N) (n : Node) : option Command :=
  RaftContext.get_command id n.
Definition ClusterNodeImpl_register_on_committed (n : Node) : Node :=
  RaftContext.register_on_committed n.
Definition ClusterNodeImpl_register_on_reverted (n : Node) : Node :=
  RaftContext.register_on_reverted n.

(** [src/cluster_node.cpp]: the public class forwards to [ClusterNodeImpl]. *)
Definition ClusterNode_is_activated (n : Node) : bool := is_activated n.
Definition ClusterNode_register_on_activated (callback : bool) (n : Node) : Node :=
  register_on_activated callback n.
Definition ClusterNode_register_on_deactivated (callback : bool) (n : Node) : Node :=
  register_on_deactivated callback n.
Definition ClusterNode_register_on_standby (callback : bool) (n : Node) : Node :=
  register_on_standby callback n.
Definition ClusterNode_commit_command (command : option Command) (callback : bool)
    (n : Node) : N * Node :=
  ClusterNodeImpl_commit_command command callback n.
Definition ClusterNode_get_commands_size (n : Node) : N := ClusterNodeImpl_get_commands_size n.
Definition ClusterNode_get_command (id : N) (n : Node) : option Command :=
  ClusterNodeImpl_get_command id n.
Definition ClusterNode_register_on_committed (n : Node) : Node :=
  ClusterNodeImpl_register_on_committed n.
Definition ClusterNode_register_on_reverted (n : Node) : Node :=
  ClusterNodeImpl_register_on_reverted n.

(** Handling a state event from outside the context, as [State::emit] does. *)
Definition emit_event (event : RaftTypes.Event) (n : Node) : Node :=
  emit raft_methods raft_fsm_of observe_state raft_fsm_address event n.

(** [ClusterNodePublisher::publish] and [ClusterNodeService::handle_request]
    forward to the base class only while the node is active; [interface] is
    [node_lifecycle_interface_], a null pointer until it is set. *)
Definition gate {A : Type} (interface : option Node) (message : A) : option A :=
  match interface with
  | Some n => if negb (ClusterNode_is_activated n) then None else Some message
  | None => Some message
  end.

Definition publish {MessageT : Type} (node_lifecycle_interface : option Node)
    (msg : MessageT) : option MessageT :=
  gate node_lifecycle_interface msg.

Definition handle_request {Request : Type} (node_lifecycle_interface : option Node)
    (request : Request) : option Request :=
  gate node_lifecycle_interface request.

End user.

(** Forwarding is transparent to simplification. *)
Arguments ClusterNodeImpl_commit_command {_} _ _ _ /.
Arguments ClusterNodeImpl_register_on_committed {_} _ /.
Arguments ClusterNodeImpl_register_on_reverted {_} _ /.
Arguments ClusterNode_is_activated {_} _ /.
Arguments ClusterNode_register_on_activated {_} _ _ /.
Arguments ClusterNode_register_on_deactivated {_} _ _ /.
Arguments ClusterNode_register_on_standby {_} _ _ /.
Arguments ClusterNode_commit_command {_} _ _ _ /.
Arguments ClusterNode_register_on_committed {_} _ /.
Arguments ClusterNode_register_on_reverted {_} _ /.

(** ** The executor

    One callback at a time runs to its end: a single-threaded executor of the
    node.  The inputs are what can call into the node from outside: its timers
    while they exist, its two services, the answers to its requests, and the
    user. *)

Inductive NodeInput :=
  | ElectionTimer
  | BroadcastTimer
  | AppendEntries (request : AppendEntriesRequest)
  | RequestVote (request : RequestVoteRequest)
  | AppendEntriesAnswer (from : N) (request : AppendEntriesRequest)
      (response : AppendEntriesResponse)
  | RequestVoteAnswer (response : RequestVoteResponse)
  | CommitCommand (command : option Command) (callback : bool)
  | ServiceDiscovery (peer : N) (append_ready vote_ready : bool)
  | RegisterOnActivated | RegisterOnDeactivated | RegisterOnStandby
  | RegisterOnCommitted | RegisterOnReverted.

Section executor.
  Context `{Platform}.

Definition run_input (input : NodeInput) (n : Node) : Node :=
  match input with
  | ElectionTimer =>
      match election_timer_ (context_ n) with
      | Some _ => on_election_timer n
      | None => n
      end
  | BroadcastTimer =>
      match broadcast_timer_ (context_ n) with
      | Some _ => on_broadcast_timer n
      | None => n
      end
  | AppendEntries request => (on_append_entries_requested request n).2
  | RequestVote request => (on_request_vote_requested request n).2
  | AppendEntriesAnswer from request response =>
      RaftContext.on_append_entries_response from request response n
  | RequestVoteAnswer response =>
      on_request_vote_response (rv_response_term response) (rv_vote_granted response) n
  | CommitCommand command callback => (ClusterNode_commit_command command callback n).2
  | ServiceDiscovery peer append_ready vote_ready =>
      on_context (λ c, set_other_nodes
        (alter (with_ready append_ready vote_ready) peer (other_nodes_ c)) c) n
  | RegisterOnActivated => ClusterNode_register_on_activated true n
  | RegisterOnDeactivated => ClusterNode_register_on_deactivated true n
  | RegisterOnStandby => ClusterNode_register_on_standby true n
  | RegisterOnCommitted => ClusterNode_register_on_committed n
  | RegisterOnReverted => ClusterNode_register_on_reverted n
  end.

Definition run_inputs (inputs : list NodeInput) (n : Node) : Node :=
  foldl (λ n input, run_input input n) n inputs.

(** The outputs of [n'] that came after those of [n]. *)
Definition outputs_since (n n' : Node) : list Output :=
  drop (length (outputs_ n)) (outputs_ n').

End executor.
