(* ===== verification/ClusterNode.v ===== *)
(** * The public class: publishers, services and parameters

    [src/cluster_node.cpp] and [cluster_node_template.hpp]: what [ClusterNode]
    itself does on top of [ClusterNodeImpl] and of the rclcpp interfaces it owns.
    Forwarding to [ClusterNodeImpl] is at the end of ClusterNodeImpl.v.

    [NodeParametersInterface] belongs to rclcpp: it is a record of operations on
    a state [W], and what the theorems need of it is the class [ParametersLaws]. *)

From S2P Require Import Prelude Platform LogEntry ContextStore NodeUtil RaftTypes OtherNode.
From S2P Require Import StateMachine Lifecycle Node StateMachineInterface RaftContext.
From S2P Require Import RaftStateMachine ClusterNodeOptions ClusterNodeImpl.

(** ** Publishers and services

    [node_lifecycle_interface_] is a pointer to the node that created the object:
    here, whether it has been set. *)

Record ClusterNodePublisher := mkClusterNodePublisher {
  topic_ : string;
  publisher_node_lifecycle_interface_ : bool;
}.

Definition new_ClusterNodePublisher (topic : string) : ClusterNodePublisher :=
  mkClusterNodePublisher topic false.

Definition ClusterNodePublisher_set_node_lifecycle_interface (interface : bool)
    (p : ClusterNodePublisher) : ClusterNodePublisher :=
  mkClusterNodePublisher (topic_ p) interface.

(** [ClusterNode::create_publisher] passes [this]. *)
Definition create_publisher (topic_name : string) : ClusterNodePublisher :=
  let pub := new_ClusterNodePublisher topic_name in
  ClusterNodePublisher_set_node_lifecycle_interface true pub.

(** A service calls [any_callback] to fill the response to a request. *)
Record ClusterNodeService {Request Response : Type} := mkClusterNodeService {
  service_name_ : string;
  any_callback_ : Request → Response;
  service_node_lifecycle_interface_ : bool;
}.
Arguments ClusterNodeService _ _ : clear implicits.
Arguments mkClusterNodeService {_ _} _ _ _.

Definition new_ClusterNodeService {Request Response : Type} (service_name : string)
    (any_callback : Request → Response) : ClusterNodeService Request Response :=
  mkClusterNodeService service_name any_callback false.

Definition ClusterNodeService_set_node_lifecycle_interface {Request Response : Type}
    (interface : bool) (s : ClusterNodeService Request Response) :
    ClusterNodeService Request Response :=
  mkClusterNodeService (service_name_ s) (any_callback_ s) interface.

(** [ClusterNode::create_service] *)
Definition create_service {Request Response : Type} (service_name : string)
    (callback : Request → Response) : ClusterNodeService Request Response :=
  let service := new_ClusterNodeService service_name callback in
  ClusterNodeService_set_node_lifecycle_interface true service.

Section messages.
  Context `{Platform}.

(** The message that leaves a publisher of node [n], if one does. *)
Definition ClusterNodePublisher_publish {MessageT : Type} (p : ClusterNodePublisher)
    (msg : MessageT) (n : Node) : option MessageT :=
  publish (if publisher_node_lifecycle_interface_ p then Some n else None) msg.

(** The response that leaves a service of node [n], if one does: the base class
    runs the callback on the request it is given. *)
Definition ClusterNodeService_handle_request {Request Response : Type}
    (s : ClusterNodeService Request Response) (request : Request) (n : Node) :
    option Response :=
  any_callback_ s <$>
    handle_request (if service_node_lifecycle_interface_ s then Some n else None) request.

(** [ClusterNode::get_name] is the name given to the base class at construction. *)
Definition ClusterNode_get_name (n : Node) : string := get_node_name n.

End messages.

(** ** Parameters *)

Inductive ParameterException :=
  | ParameterNotDeclaredException (name : string)
  | NumberOfDescribedParameters
  | InvalidParameterTypeException (name what : string)
  | ParameterTypeException (what : string)
  | OtherException (what : string).

(** The operations of [rclcpp::node_interfaces::NodeParametersInterface] that
    [ClusterNode] uses.  A [std::map] with string keys is the list of its
    elements in ascending order of the keys. *)
Record NodeParametersInterface {W Param Value Descriptor PType SetResult ListResult : Type} := {
  NodeParameters_declare_parameter : string → Value → Descriptor → bool → W →
    (ParameterException + Value) * W;
  NodeParameters_declare_typed : string → PType → Descriptor → bool → W →
    (ParameterException + Value) * W;
  NodeParameters_undeclare_parameter : string → W → option ParameterException * W;
  NodeParameters_has_parameter : string → W → bool;
  NodeParameters_set_parameters : list Param → W →
    (ParameterException + list SetResult) * W;
  NodeParameters_set_parameters_atomically : list Param → W →
    (ParameterException + SetResult) * W;
  NodeParameters_get_parameter_or_throw : string → W → ParameterException + Param;
  NodeParameters_get_parameter : string → W → option Param;
  NodeParameters_get_parameters : list string → W → ParameterException + list Param;
  NodeParameters_describe_parameters : list string → W → ParameterException + list Descriptor;
  NodeParameters_get_parameter_types : list string → W → ParameterException + list N;
  NodeParameters_list_parameters : list string → N → W → ListResult;
  NodeParameters_get_parameters_by_prefix : string → W → option (list (string * Param));
}.
Arguments NodeParametersInterface : clear implicits.

(** What makes [T] a type of parameters: [ParameterValue(value)],
    [ParameterValue(T{}).get_type()], [get<T>()] and [get_value<T>()]; [inl] is
    the message of a [ParameterTypeException]. *)
Class ParameterT (T Param Value PType : Type) := {
  to_value : T → Value;
  value_type : PType;
  ParameterValue_get : Value → string + T;
  Parameter_get_value : Param → string + T;
}.
Arguments value_type T {_ _ _ _}.

Section parameters.
  Context {W Param Value Descriptor PType SetResult ListResult : Type}.
  Context (node_parameters_ : NodeParametersInterface W Param Value Descriptor PType SetResult ListResult).
  Context (ParameterDescriptor : Descriptor).

(** *** Forwarding to [node_parameters_] *)

Definition ClusterNode_declare_parameter_value (name : string) (default_value : Value)
    (parameter_descriptor : Descriptor) (ignore_override : bool) (w : W) :
    (ParameterException + Value) * W :=
  NodeParameters_declare_parameter node_parameters_ name default_value parameter_descriptor
    ignore_override w.
Definition ClusterNode_declare_parameter_type (name : string) (type : PType)
    (parameter_descriptor : Descriptor) (ignore_override : bool) (w : W) :
    (ParameterException + Value) * W :=
  NodeParameters_declare_typed node_parameters_ name type parameter_descriptor
    ignore_override w.
Definition ClusterNode_undeclare_parameter (name : string) (w : W) :
    option ParameterException * W :=
  NodeParameters_undeclare_parameter node_parameters_ name w.
Definition ClusterNode_has_parameter (name : string) (w : W) : bool :=
  NodeParameters_has_parameter node_parameters_ name w.
Definition ClusterNode_set_parameters (parameters : list Param) (w : W) :
    (ParameterException + list SetResult) * W :=
  NodeParameters_set_parameters node_parameters_ parameters w.
Definition ClusterNode_set_parameters_atomically (parameters : list Param) (w : W) :
    (ParameterException + SetResult) * W :=
  NodeParameters_set_parameters_atomically node_parameters_ parameters w.
Definition ClusterNode_get_parameter_or_throw (name : string) (w : W) :
    ParameterException + Param :=
  NodeParameters_get_parameter_or_throw node_parameters_ name w.
Definition ClusterNode_find_parameter (name : string) (w : W) : option Param :=
  NodeParameters_get_parameter node_parameters_ name w.
Definition ClusterNode_get_parameters_by_name (names : list string) (w : W) :
    ParameterException + list Param :=
  NodeParameters_get_parameters node_parameters_ names w.
Definition ClusterNode_describe_parameters (names : list string) (w : W) :
    ParameterException + list Descriptor :=
  NodeParameters_describe_parameters node_parameters_ names w.
Definition ClusterNode_get_parameter_types (names : list string) (w : W) :
    ParameterException + list N :=
  NodeParameters_get_parameter_types node_parameters_ names w.
Definition ClusterNode_list_parameters (prefixes : list string) (depth : N) (w : W) :
    ListResult :=
  NodeParameters_list_parameters node_parameters_ prefixes depth w.

(** *** What [ClusterNode] adds *)

Definition ClusterNode_set_parameter (parameter : Param) (w : W) :
    (ParameterException + SetResult) * W :=
  ClusterNode_set_parameters_atomically [parameter] w.

Definition ClusterNode_describe_parameter (name : string) (w : W) :
    ParameterException + Descriptor :=
  match NodeParameters_describe_parameters node_parameters_ [name] w with
  | inl e => inl e
  | inr result =>
      if (0 =? length result)%nat then inl (ParameterNotDeclaredException name) else
      if (1 <? length result)%nat then inl NumberOfDescribedParameters else
      match result with
      | front :: _ => inr front
      | [] => inl (ParameterNotDeclaredException name)
      end
  end.

Section typed.
  Context {T : Type} `{!ParameterT T Param Value PType}.

(** [declare_parameter<ParameterT>(name, default_value, descriptor, ignore)] *)
Definition ClusterNode_declare_parameter (name : string) (default_value : T)
    (parameter_descriptor : Descriptor) (ignore_override : bool) (w : W) :
    (ParameterException + T) * W :=
  let '(result, w) := ClusterNode_declare_parameter_value name
    (to_value default_value) parameter_descriptor ignore_override w in
  let result :=
    match result with
    | inr value =>
        match ParameterValue_get value with
        | inr t => inr t
        | inl what => inl (ParameterTypeException what)
        end
    | inl e => inl e
    end in
  match result with
  | inl (ParameterTypeException what) => (inl (InvalidParameterTypeException name what), w)
  | result => (result, w)
  end.

(** [declare_parameter<ParameterT>(name, descriptor, ignore)]: only the type is
    declared; another type is not caught here. *)
Definition ClusterNode_declare_parameter_typed (name : string)
    (parameter_descriptor : Descriptor) (ignore_override : bool) (w : W) :
    (ParameterException + T) * W :=
  let '(result, w) := ClusterNode_declare_parameter_type name
    (value_type T) parameter_descriptor ignore_override w in
  (match result with
   | inr value =>
       match ParameterValue_get value with
       | inr t => inr t
       | inl what => inl (ParameterTypeException what)
       end
   | inl e => inl e
   end, w).

(** [std::transform] over the map: the first exception ends it, what has been
    declared stays declared. *)
Fixpoint transform_declare {A : Type} (declare : A → W → (ParameterException + T) * W)
    (elements : list A) (w : W) : (ParameterException + list T) * W :=
  match elements with
  | [] => (inr [], w)
  | element :: elements =>
      let '(result, w) := declare element w in
      match result with
      | inl e => (inl e, w)
      | inr t =>
          let '(results, w) := transform_declare declare elements w in
          (match results with inl e => inl e | inr ts => inr (t :: ts) end, w)
      end
  end.

Definition normalized_namespace (parameter_namespace : string) : string :=
  if String.eqb parameter_namespace "" then "" else parameter_namespace +:+ ".".

(** Both overloads of [declare_parameters]. *)
Definition ClusterNode_declare_parameters (parameter_namespace : string)
    (parameters : list (string * T)) (ignore_overrides : bool) (w : W) :
    (ParameterException + list T) * W :=
  transform_declare (λ element,
    ClusterNode_declare_parameter (normalized_namespace parameter_namespace +:+ element.1)
      element.2 ParameterDescriptor ignore_overrides) parameters w.

Definition ClusterNode_declare_parameters_with_descriptors (parameter_namespace : string)
    (parameters : list (string * (T * Descriptor))) (ignore_overrides : bool) (w : W) :
    (ParameterException + list T) * W :=
  transform_declare (λ element,
    ClusterNode_declare_parameter (normalized_namespace parameter_namespace +:+ element.1)
      element.2.1 element.2.2 ignore_overrides) parameters w.

(** The output parameters are returned, changed or not, also when an exception
    is thrown. *)
Definition ClusterNode_get_parameter (name : string) (parameter : T) (w : W) :
    (ParameterException + bool) * T :=
  match ClusterNode_find_parameter name w with
  | Some parameter_variant =>
      match Parameter_get_value parameter_variant with
      | inr t => (inr true, t)
      | inl what => (inl (ParameterTypeException what), parameter)
      end
  | None => (inr false, parameter)
  end.

Definition ClusterNode_get_parameter_or (name : string) (parameter alternative_value : T)
    (w : W) : (ParameterException + bool) * T :=
  let '(got_parameter, parameter) := ClusterNode_get_parameter name parameter w in
  match got_parameter with
  | inr false => (inr false, alternative_value)
  | got_parameter => (got_parameter, parameter)
  end.

(** [values[param.first] = ...], until a value has another type. *)
Fixpoint assign_values (params : list (string * Param)) (values : gmap string T) :
    (ParameterException + bool) * gmap string T :=
  match params with
  | [] => (inr true, values)
  | (name, param) :: params =>
      match Parameter_get_value param with
      | inr t => assign_values params (<[name := t]> values)
      | inl what => (inl (ParameterTypeException what), values)
      end
  end.

Definition ClusterNode_get_parameters (prefix : string) (values : gmap string T) (w : W) :
    (ParameterException + bool) * gmap string T :=
  match NodeParameters_get_parameters_by_prefix node_parameters_ prefix w with
  | Some params => assign_values params values
  | None => (inr false, values)
  end.

End typed.
End parameters.
