(* ===== verification/ClusterNodeInterfaces.v ===== *)
(** * The rclcpp interfaces of a clustered node

    [src/cluster_node.cpp] and [cluster_node_template.hpp]: the sub-interfaces of
    rclcpp that [ClusterNode] owns, how they are made and released, and the calls
    it passes on to them.  The classes of rclcpp are records of operations on a
    state [W]; of a member the model keeps whether its pointer is set. *)

From S2P Require Import Prelude Platform LogEntry ContextStore NodeUtil RaftTypes OtherNode.
From S2P Require Import StateMachine Lifecycle Node ClusterNodeOptions ClusterNodeImpl.

(** ** The members *)

Inductive Member :=
  | node_base_ | node_graph_ | node_logging_ | node_timers_ | node_topics_
  | node_services_ | node_clock_ | node_parameters_ | node_time_source_
  | node_waitables_ | impl_.

#[export] Instance Member_eq_dec : EqDecision Member.
Proof. solve_decision. Defined.

(** The order of declaration, in which members are initialised whatever the order
    of the initialisers. *)
Definition members : list Member :=
  [node_base_; node_graph_; node_logging_; node_timers_; node_topics_; node_services_;
   node_clock_; node_parameters_; node_time_source_; node_waitables_; impl_].

(** The members that the initialiser of each one is given. *)
Definition initializer (m : Member) : list Member :=
  match m with
  | node_base_ => []
  | node_graph_ | node_logging_ | node_timers_ | node_services_ | node_waitables_ =>
      [node_base_]
  | node_topics_ => [node_base_; node_timers_]
  | node_clock_ => [node_base_; node_topics_; node_graph_; node_services_; node_logging_]
  | node_parameters_ => [node_base_; node_logging_; node_topics_; node_services_; node_clock_]
  | node_time_source_ =>
      [node_base_; node_topics_; node_graph_; node_services_; node_logging_; node_clock_;
       node_parameters_]
  | impl_ =>
      [node_base_; node_graph_; node_logging_; node_services_; node_topics_; node_timers_;
       node_clock_]
  end.

(** The members whose pointers are set. *)
Abbreviation Members := (list Member).

(** A member that is given a null pointer is not made: what rclcpp does then is
    not part of the model. *)
Definition initialize_member (set : Members) (m : Member) : option Members :=
  if forallb (λ a, bool_decide (a ∈ set)) (initializer m) then Some (set ++ [m]) else None.

Definition initialize_members (ms : list Member) : option Members :=
  foldl (λ set m, set ← set; initialize_member set m) (Some []) ms.

Definition new_ClusterNode_members : option Members := initialize_members members.

(** [pointer.reset()] *)
Definition reset (m : Member) (set : Members) : Members := filter (λ a, a ≠ m) set.

(** The body of the destructor. *)
Definition destructor_body : list Member :=
  [node_waitables_; node_time_source_; node_parameters_; node_clock_; node_services_;
   node_topics_; node_timers_; node_logging_; node_graph_].

(** After the body the members go in the reverse order of their declaration. *)
Definition destructor : list Member := destructor_body ++ reverse members.

Definition delete_ClusterNode_members (set : Members) : Members :=
  foldl (λ set m, reset m set) set destructor.

(** The overload of the constructor without a namespace. *)
Definition default_node_namespace : string := "".

(** ** Interfaces that are handed out *)

Definition member (m : Member) (set : Members) : option Member :=
  if decide (m ∈ set) then Some m else None.

Definition get_node_base_interface (set : Members) : option Member := member node_base_ set.
Definition get_node_clock_interface (set : Members) : option Member := member node_clock_ set.
Definition get_node_graph_interface (set : Members) : option Member := member node_graph_ set.
Definition get_node_logging_interface (set : Members) : option Member :=
  member node_logging_ set.
Definition get_node_time_source_interface (set : Members) : option Member :=
  member node_time_source_ set.
Definition get_node_timers_interface (set : Members) : option Member := member node_timers_ set.
Definition get_node_topics_interface (set : Members) : option Member := member node_topics_ set.
Definition get_node_services_interface (set : Members) : option Member :=
  member node_services_ set.
Definition get_node_parameters_interface (set : Members) : option Member :=
  member node_parameters_ set.
Definition get_node_waitables_interface (set : Members) : option Member :=
  member node_waitables_ set.

(** ** Calls that are passed on *)

Section forwarding.
  Context {W Logger Group GroupType Endpoint Event Clock Time Duration Handle Callback : Type}.

(** A [std::map] from names to types. *)
Abbreviation Names := (gmap string (list string)).

Record NodeBaseInterface := {
  NodeBase_get_name : W → string;
  NodeBase_get_namespace : W → string;
  NodeBase_get_fully_qualified_name : W → string;
  NodeBase_create_callback_group : GroupType → bool → W → Group * W;
  NodeBase_for_each_callback_group : (Group → W → W) → W → W;
}.

Record NodeGraphInterface := {
  NodeGraph_get_node_names : W → list string;
  NodeGraph_get_topic_names_and_types : W → Names;
  NodeGraph_get_service_names_and_types : W → Names;
  NodeGraph_get_service_names_and_types_by_node : string → string → W → Names;
  NodeGraph_count_publishers : string → W → N;
  NodeGraph_count_subscribers : string → W → N;
  NodeGraph_get_publishers_info_by_topic : string → bool → W → list Endpoint;
  NodeGraph_get_subscriptions_info_by_topic : string → bool → W → list Endpoint;
  NodeGraph_get_graph_event : W → Event * W;
  NodeGraph_wait_for_graph_change : Event → Duration → W → W;
}.

Record NodeClockInterface := { NodeClock_get_clock : W → Clock; Clock_now : Clock → W → Time }.
Record NodeLoggingInterface := { NodeLogging_get_logger : W → Logger }.

(** The registration of callbacks for changes of parameters. *)
Record ParameterCallbacks := {
  NodeParameters_add_on_set_parameters_callback : Callback → W → Handle * W;
  NodeParameters_remove_on_set_parameters_callback : Handle → W → W;
}.

Context (base : NodeBaseInterface) (graph : NodeGraphInterface).
Context (clock : NodeClockInterface) (logging : NodeLoggingInterface).
Context (parameters : ParameterCallbacks).

Definition ClusterNode_get_namespace (w : W) : string := NodeBase_get_namespace base w.
Definition ClusterNode_get_fully_qualified_name (w : W) : string :=
  NodeBase_get_fully_qualified_name base w.
Definition ClusterNode_get_logger (w : W) : Logger := NodeLogging_get_logger logging w.
Definition ClusterNode_create_callback_group (group_type : GroupType)
    (automatically_add_to_executor_with_node : bool) (w : W) : Group * W :=
  NodeBase_create_callback_group base group_type automatically_add_to_executor_with_node w.
Definition ClusterNode_for_each_callback_group (func : Group → W → W) (w : W) : W :=
  NodeBase_for_each_callback_group base func w.

Definition ClusterNode_add_on_set_parameters_callback (callback : Callback) (w : W) :
    Handle * W :=
  NodeParameters_add_on_set_parameters_callback parameters callback w.
Definition ClusterNode_remove_on_set_parameters_callback (callback : Handle) (w : W) : W :=
  NodeParameters_remove_on_set_parameters_callback parameters callback w.

Definition ClusterNode_get_node_names (w : W) : list string := NodeGraph_get_node_names graph w.
Definition ClusterNode_get_topic_names_and_types (w : W) : Names :=
  NodeGraph_get_topic_names_and_types graph w.
Definition ClusterNode_get_service_names_and_types (w : W) : Names :=
  NodeGraph_get_service_names_and_types graph w.
Definition ClusterNode_get_service_names_and_types_by_node (node_name node_namespace : string)
    (w : W) : Names :=
  NodeGraph_get_service_names_and_types_by_node graph node_name node_namespace w.
Definition ClusterNode_count_publishers (topic_name : string) (w : W) : N :=
  NodeGraph_count_publishers graph topic_name w.
Definition ClusterNode_count_subscribers (topic_name : string) (w : W) : N :=
  NodeGraph_count_subscribers graph topic_name w.
Definition ClusterNode_get_publishers_info_by_topic (topic_name : string) (no_mangle : bool)
    (w : W) : list Endpoint :=
  NodeGraph_get_publishers_info_by_topic graph topic_name no_mangle w.
Definition ClusterNode_get_subscriptions_info_by_topic (topic_name : string) (no_mangle : bool)
    (w : W) : list Endpoint :=
  NodeGraph_get_subscriptions_info_by_topic graph topic_name no_mangle w.
Definition ClusterNode_get_graph_event (w : W) : Event * W := NodeGraph_get_graph_event graph w.
Definition ClusterNode_wait_for_graph_change (event : Event) (timeout : Duration) (w : W) : W :=
  NodeGraph_wait_for_graph_change graph event timeout w.

(** Both overloads of [get_clock]. *)
Definition ClusterNode_get_clock (w : W) : Clock := NodeClock_get_clock clock w.
Definition ClusterNode_now (w : W) : Time := Clock_now clock (NodeClock_get_clock clock w) w.

End forwarding.

(** ** What the templates make with rclcpp *)

Section templates.
  Context {W Callback QoS Group Subscription Timer Client Duration Strategy Options : Type}.

(** [rclcpp::create_subscription] is given the node itself, the other functions
    the members they need. *)
Context (rclcpp_create_subscription :
  string → QoS → Callback → Options → Strategy → W → Subscription * W).
Context (rclcpp_create_wall_timer :
  Duration → Callback → Group → option Member → option Member → W → Timer * W).
Context (rclcpp_create_client :
  option Member → option Member → option Member → string → QoS → Group → W → Client * W).

Definition ClusterNode_create_subscription (topic_name : string) (qos : QoS)
    (callback : Callback) (options : Options) (msg_mem_strat : Strategy) (w : W) :
    Subscription * W :=
  rclcpp_create_subscription topic_name qos callback options msg_mem_strat w.

Definition ClusterNode_create_wall_timer (set : Members) (period : Duration)
    (callback : Callback) (group : Group) (w : W) : Timer * W :=
  rclcpp_create_wall_timer period callback group (member node_base_ set)
    (member node_timers_ set) w.

Definition ClusterNode_create_client (set : Members) (service_name : string)
    (qos_profile : QoS) (group : Group) (w : W) : Client * W :=
  rclcpp_create_client (member node_base_ set) (member node_graph_ set)
    (member node_services_ set) service_name qos_profile group w.

End templates.

(** ** Making and releasing *)

(** Every initialiser finds the members it is given, and all are set at the end. *)
Lemma members_initialized : new_ClusterNode_members = Some members.
Proof. vm_compute. reflexivity. Qed.

Lemma members_released : delete_ClusterNode_members members = [].
Proof. vm_compute. reflexivity. Qed.

(** When the body of the destructor releases a member, every member that was made
    from it has been released, [impl_] apart, which goes after the body. *)
Lemma released_before_used set1 m set2 a :
  destructor_body = set1 ++ m :: set2 → m ∈ initializer a → a ≠ impl_ → a ∈ set1.
Proof.
  intros Hd Hm Ha.
  assert (∀ k, destructor_body !! k = Some m → a ∈ take k destructor_body) as Hall.
  { intros k Hk. apply (bool_decide_unpack _).
    do 9 (destruct k as [|k]; [simpl in Hk; injection Hk as <-;
      destruct a; first [by vm_compute | done | by (exfalso; revert Hm; apply (bool_decide_unpack _); vm_compute)]|]).
    done. }
  specialize (Hall (length set1)). rewrite Hd in Hall.
  rewrite list_lookup_middle, take_app_length in Hall by done. by apply Hall.
Qed.

Lemma impl_outlives_interfaces : ∃ m, m ∈ initializer impl_ ∧ m ∈ destructor_body ∧
  impl_ ∉ destructor_body.
Proof. exists node_graph_. split_and!; compute_decision. Qed.
