(* ===== verification/Examples.v ===== *)
(** * The example programs

    [foros_examples/src]: five programs run a clustered node and differ in what
    their callbacks and timers do; two more use it from outside.  [main] checks
    its arguments, makes the node and registers the callbacks; then the executor
    spins, one event at a time.  What a program prints is a list of [Line]s.

    Every program catches all exceptions and returns 0. *)

From Stdlib Require Import Strings.Ascii.
From S2P Require Import Prelude Codec Platform LogEntry ContextStore NodeUtil RaftTypes OtherNode.
From S2P Require Import StateMachine Lifecycle Node StateMachineInterface RaftContext.
From S2P Require Import RaftStateMachine ClusterNodeOptions ClusterNodeImpl ClusterNode.

Local Open Scope N_scope.

(** ** Arguments *)

Definition is_space (c : ascii) : bool :=
  let n := N_of_ascii c in (n =? 32) || ((9 <=? n) && (n <=? 13)).

Definition digit_of (c : ascii) : option N :=
  let n := N_of_ascii c in if (48 <=? n) && (n <=? 57) then Some (n - 48) else None.

Fixpoint skip_space (s : string) : string :=
  match s with
  | String c s' => if is_space c then skip_space s' else s
  | EmptyString => s
  end.

(** The digits at the start of [s], after the number [acc]. *)
Fixpoint read_digits (acc : N) (s : string) : N :=
  match s with
  | String c s' =>
      match digit_of c with Some d => read_digits (10 * acc + d) s' | None => acc end
  | EmptyString => acc
  end.

Definition starts_with_digit (s : string) : bool :=
  match s with String c _ => bool_decide (is_Some (digit_of c)) | EmptyString => false end.

(** [std::stoul]: the decimal number after blanks and a sign, which is applied
    modulo [2 ^ 64]; [None] is [std::invalid_argument] or [std::out_of_range]. *)
Definition stoul (s : string) : option N :=
  let s := skip_space s in
  let '(negative, s) :=
    match s with
    | String "-" s' => (true, s')
    | String "+" s' => (false, s')
    | _ => (false, s)
    end in
  if negb (starts_with_digit s) then None else
  let n := read_digits 0 s in
  if u64_size <=? n then None else
  Some (if (negative : bool) then wrap64 (u64_size - n) else n).

Inductive Line :=
  | UsageError
  | IdTooLarge
  | LineActivated
  | LineDeactivated
  | LineStandby
  | LineCommitted (id : N) (c : option byte)
  | LineReverted (id : N)
  | LineCompleted (id ch : N)
  | LineFailed (id ch : N)
  | LineRequest
  | LineResponse (message : string)
  | LineTopic (data : string).

(** A program returns, or spins. *)
Inductive MainResult (A : Type) :=
  | Returned (status : Z) (lines : list Line)
  | Spinning (a : A).
Arguments Returned {_} _ _.
Arguments Spinning {_} _.

(** The arguments after the name of the program: the identifier of the node and
    the size of the cluster, which the program narrows to 32 bits. *)
Definition check_arguments (args : list string) : MainResult (N * list N) :=
  match args with
  | arg1 :: arg2 :: _ =>
      match stoul arg1 with
      | None => Returned 0 []
      | Some n1 =>
          let id := wrap32 n1 in
          match stoul arg2 with
          | None => Returned 0 []
          | Some n2 =>
              let cluster_size := wrap32 n2 in
              if cluster_size <=? id then Returned (-1) [IdTooLarge]
              else Spinning (id, N.of_nat <$> seq 0 (N.to_nat cluster_size))
          end
      end
  | _ => Returned (-1) [UsageError]
  end.

Definition spin {A Event : Type} (step : Event → A → A) (start : N → list N → A)
    (args : list string) (events : list Event) : MainResult A :=
  match check_arguments args with
  | Returned status lines => Returned status lines
  | Spinning (id, ids) => Spinning (foldl (λ a e, step e a) (start id ids) events)
  end.

(** ** Programs with a clustered node *)

Section programs.
  Context `{Platform}.
  Context (temp_directory_path : string) (open_db : string → option DB) (random_generator : RNG).

Definition default_node (cluster_name : string) (id : N) (ids : list N) : Node :=
  new_ClusterNode cluster_name id ids (new_ClusterNodeOptions temp_directory_path)
    open_db random_generator.

(** [register_on_activated], [register_on_deactivated], [register_on_standby] *)
Definition register_lifecycle (n : Node) : Node :=
  let n := ClusterNode_register_on_activated true n in
  let n := ClusterNode_register_on_deactivated true n in
  ClusterNode_register_on_standby true n.

(** What the three callbacks print. *)
Definition lifecycle_line (o : Output) : option Line :=
  match o with
  | ActivatedCallback => Some LineActivated
  | DeactivatedCallback => Some LineDeactivated
  | StandbyCallback => Some LineStandby
  | _ => None
  end.

(** [cluster_election.cpp] *)
Record ElectionProgram := mkElectionProgram {
  election_node : Node;
  election_lines : list Line;
}.

Definition election_step (input : NodeInput) (p : ElectionProgram) : ElectionProgram :=
  let n := run_input input (election_node p) in
  mkElectionProgram n
    (election_lines p ++ omap lifecycle_line (outputs_since (election_node p) n)).

Definition cluster_election (args : list string) (events : list NodeInput) :
    MainResult ElectionProgram :=
  spin election_step (λ id ids,
    let node := default_node "test_cluster_election" id ids in
    mkElectionProgram (register_lifecycle node) []) args events.

(** [cluster_publisher.cpp]: besides the node there is a timer of one second. *)
Inductive TimedEvent := NodeEvent (input : NodeInput) | TimerEvent.

Record PublisherProgram := mkPublisherProgram {
  publisher_node : Node;
  publisher_lines : list Line;
  publisher : ClusterNodePublisher;
  published : list string;
}.

Definition publisher_step (event : TimedEvent) (p : PublisherProgram) : PublisherProgram :=
  let node := publisher_node p in
  match event with
  | NodeEvent input =>
      let n := run_input input node in
      mkPublisherProgram n (publisher_lines p ++ omap lifecycle_line (outputs_since node n))
        (publisher p) (published p)
  | TimerEvent =>
      let msg := ClusterNode_get_name node in
      mkPublisherProgram node (publisher_lines p) (publisher p)
        (published p ++ option_list (ClusterNodePublisher_publish (publisher p) msg node))
  end.

Definition cluster_publisher (args : list string) (events : list TimedEvent) :
    MainResult PublisherProgram :=
  spin publisher_step (λ id ids,
    let node := register_lifecycle (default_node "test_cluster_publisher" id ids) in
    mkPublisherProgram node [] (create_publisher "test_cluster_echo") []) args events.

(** [cluster_service.cpp]: besides the node there are the requests of clients. *)
Record TriggerResponse := mkTriggerResponse { trigger_success : bool; trigger_message : string }.

Inductive ServiceEvent := ServiceNodeEvent (input : NodeInput) | ServiceRequest.

Record ServiceProgram := mkServiceProgram {
  service_node : Node;
  service_lines : list Line;
  responses : list TriggerResponse;
}.

(** The callback reads the name of the node that owns it. *)
Definition trigger_service (node : Node) : ClusterNodeService () TriggerResponse :=
  create_service "test_cluster_get_leader_name"
    (λ _, mkTriggerResponse true (ClusterNode_get_name node)).

Definition service_step (event : ServiceEvent) (p : ServiceProgram) : ServiceProgram :=
  let node := service_node p in
  match event with
  | ServiceNodeEvent input =>
      let n := run_input input node in
      mkServiceProgram n (service_lines p ++ omap lifecycle_line (outputs_since node n))
        (responses p)
  | ServiceRequest =>
      match ClusterNodeService_handle_request (trigger_service node) () node with
      | Some response =>
          mkServiceProgram node (service_lines p ++ [LineRequest]) (responses p ++ [response])
      | None => p
      end
  end.

Definition cluster_service (args : list string) (events : list ServiceEvent) :
    MainResult ServiceProgram :=
  spin service_step (λ id ids,
    mkServiceProgram (register_lifecycle (default_node "test_cluster_service" id ids)) [] [])
    args events.

(** [cluster_log_replication_with_commit.cpp]: every two seconds a timer commits
    the character [ch], which the callback of the commit advances on success. *)
Record LogProgram := mkLogProgram {
  log_node : Node;
  ch : N;
  log_lines : list Line;
}.

Definition log_node_options : ClusterNodeOptions :=
  let options := new_ClusterNodeOptions temp_directory_path in
  let options := set_election_timeout_max 2000 options in
  set_election_timeout_min 1500 options.

Definition register_log_callbacks (n : Node) : Node :=
  let n := register_lifecycle n in
  let n := ClusterNode_register_on_committed n in
  ClusterNode_register_on_reverted n.

(** [command->data()[0]] is [None] where there is no such byte. *)
Definition log_line (o : Output) : option Line :=
  match o with
  | CommitCallback id command => Some (LineCommitted id (command ≫= λ c, head (data c)))
  | RevertCallback id => Some (LineReverted id)
  | o => lifecycle_line o
  end.

(** A callback runs on the node [n]; [response_future.get()] returns at once when
    the promise has been answered. *)
Definition log_callback (n : Node) (p : N * list Line) (o : Output) : N * list Line :=
  let '(ch, lines) := p in
  match o with
  | CommitResponseCallback promise =>
      match promises_ (context_ n) !! N.to_nat promise with
      | Some (Some response) =>
          if response_result_ response
          then ((ch + 1) mod 256, lines ++ [LineCompleted (response_id_ response) ch])
          else (ch, lines ++ [LineFailed (response_id_ response) ch])
      | _ => (ch, lines)
      end
  | o => (ch, lines ++ option_list (log_line o))
  end.

Definition log_step (event : TimedEvent) (p : LogProgram) : LogProgram :=
  let n :=
    match event with
    | NodeEvent input => run_input input (log_node p)
    | TimerEvent =>
        (ClusterNode_commit_command (Some (mkCommand [byte_of_N (ch p)])) true (log_node p)).2
    end in
  let '(ch, lines) :=
    foldl (log_callback n) (ch p, log_lines p) (outputs_since (log_node p) n) in
  mkLogProgram n ch lines.

Definition log_start (id : N) (ids : list N) : LogProgram :=
  let node := new_ClusterNode "test_cluster_log" id ids log_node_options open_db
    random_generator in
  mkLogProgram (register_log_callbacks node) 97 [].

Definition cluster_log_replication_with_commit (args : list string) (events : list TimedEvent) :
    MainResult LogProgram :=
  spin log_step log_start args events.

(** [cluster_log_replication_without_commit.cpp]: the same without the timer. *)
Definition cluster_log_replication_without_commit (args : list string)
    (inputs : list NodeInput) : MainResult LogProgram :=
  spin (λ input, log_step (NodeEvent input)) log_start args inputs.

End programs.

(** ** Programs without a clustered node *)

(** [cluster_client.cpp]: every second a request is sent; what has been sent, and
    what has been printed. *)
Inductive ClientEvent := ClientTimer | ClientResponse (response : TriggerResponse).

Definition client_step (event : ClientEvent) (p : nat * list Line) : nat * list Line :=
  match event with
  | ClientTimer => (S p.1, p.2)
  | ClientResponse response => (p.1, p.2 ++ [LineResponse (trigger_message response)])
  end.

Definition cluster_client (events : list ClientEvent) : nat * list Line :=
  foldl (λ p e, client_step e p) (0%nat, []) events.

(** [cluster_subscriber.cpp] *)
Definition cluster_subscriber (messages : list string) : list Line :=
  LineTopic <$> messages.
