(* ===== verification/Election.v ===== *)
(** * The election protocol, abstractly

    The part of a cluster's state that elections depend on, and the changes the
    nodes may make to it.  [leader_unique] is election safety for this protocol;
    ElectionRefinement.v shows that the nodes of the sources follow it. *)

From S2P Require Import Prelude RaftTypes.

Local Open Scope N_scope.

(** ** The protocol *)

(** What an election sees of a node. *)
Record View := mkView {
  view_term : N;
  view_vote : option N;
  view_received : N;
  view_state : RaftTypes.StateType;
}.

(** A vote of [vote_by] for [vote_for] in term [vote_term]. *)
Record Vote := mkVote { vote_for : N; vote_by : N; vote_term : N }.

#[export] Instance Vote_eq_dec : EqDecision Vote.
Proof. solve_decision. Defined.

(** A node that takes no part in an election: it may forget the votes it has
    received and lose the leadership, or move to a new term in which it has not
    voted. *)
Inductive quiet (v v' : View) : Prop :=
  | quiet_same :
      view_term v' = view_term v → view_vote v' = view_vote v →
      view_received v' ≤ view_received v →
      (view_state v' = kLeader → view_state v = kLeader) →
      (view_state v' = kCandidate → view_state v = kCandidate) → quiet v v'
  | quiet_newer :
      view_term v < view_term v' → view_vote v' = None → view_received v' = 0 →
      view_state v' ≠ kLeader → view_state v' ≠ kCandidate → quiet v v'.

(** A node that stops at any moment and starts again does not lead and has
    received no votes; its term has not fallen back, and a vote of that term is kept. *)
Record crashed (v v' : View) : Prop := {
  crashed_term : view_term v ≤ view_term v';
  crashed_vote : view_term v' = view_term v → ∀ c, view_vote v = Some c → view_vote v' = Some c;
  crashed_received : view_received v' = 0;
  crashed_state : view_state v' ≠ kLeader;
}.

Definition with_vote (c : N) (v : View) : View :=
  mkView (view_term v) (Some c) (view_received v) (view_state v).
Definition with_received (r : N) (v : View) : View :=
  mkView (view_term v) (view_vote v) r (view_state v).
Definition with_state (st : RaftTypes.StateType) (v : View) : View :=
  mkView (view_term v) (view_vote v) (view_received v) st.

(** Nodes, and the granted votes on their way to the candidates. *)
Record Election := mkElection { views : gmap N View; votes : list Vote }.

Section protocol.
  Context (majority : N).

Inductive election_step (e : Election) : Election → Prop :=
  | step_quiet i v v' :
      views e !! i = Some v → quiet v v' →
      election_step e (mkElection (<[i := v']> (views e)) (votes e))
  | step_grant i v c :
      views e !! i = Some v → view_vote v = None →
      election_step e
        (mkElection (<[i := with_vote c v]> (views e)) (votes e ++ [mkVote c i (view_term v)]))
  | step_candidacy i v :
      views e !! i = Some v → view_state v ≠ kLeader →
      election_step e
        (mkElection (<[i := mkView (view_term v + 1) (Some i) 1 kCandidate]> (views e)) (votes e))
  | step_count i v u r vs :
      views e !! i = Some v → votes e ≡ₚ mkVote i u (view_term v) :: vs →
      r ≤ view_received v + 1 →
      election_step e (mkElection (<[i := with_received r v]> (views e)) vs)
  | step_elected i v :
      views e !! i = Some v → majority ≤ view_received v →
      election_step e (mkElection (<[i := with_state kLeader v]> (views e)) (votes e))
  | step_crashed i v v' :
      views e !! i = Some v → crashed v v' →
      election_step e (mkElection (<[i := v']> (views e)) (votes e))
  | step_lost x vs :
      votes e ≡ₚ x :: vs → election_step e (mkElection (views e) vs).

(** No node has voted or leads, and no vote is on its way. *)
Definition election_init (e : Election) : Prop :=
  votes e = [] ∧
  ∀ i v, views e !! i = Some v → view_received v = 0 ∧ view_state v ≠ kLeader.

(** ** Invariant

    [granted] is the history of all votes given, [counted] of those that have
    been counted by their candidate. *)

Definition counted_for (counted : list Vote) (c t : N) : list Vote :=
  filter (λ x, vote_for x = c ∧ vote_term x = t) counted.

Record election_inv (e : Election) (granted counted : list Vote) : Prop := {
  inv_one_vote x y : x ∈ granted → y ∈ granted →
    vote_by x = vote_by y → vote_term x = vote_term y → x = y;
  inv_granted x : x ∈ granted → ∃ v, views e !! vote_by x = Some v ∧
    vote_term x ≤ view_term v ∧
    (vote_term x = view_term v → view_vote v = Some (vote_for x));
  inv_NoDup : NoDup (counted ++ votes e);
  inv_genuine x : x ∈ counted ++ votes e → x ∈ granted;
  inv_received i v : views e !! i = Some v →
    view_received v ≤ N.of_nat (length (counted_for counted i (view_term v)));
  inv_leader i v : views e !! i = Some v → view_state v = kLeader →
    majority ≤ N.of_nat (length (counted_for counted i (view_term v)));
}.

Lemma election_init_inv e : election_init e → election_inv e [] [].
Proof.
  intros [Hvs Hv]. split; rewrite ?Hvs; simpl.
  - by intros x y ?%not_elem_of_nil.
  - by intros x ?%not_elem_of_nil.
  - constructor.
  - by intros x ?%not_elem_of_nil.
  - intros i v Hi. destruct (Hv _ _ Hi) as [-> _]. lia.
  - intros i v Hi Hl. by destruct (Hv _ _ Hi) as [_ ?].
Qed.

(** Counting one more vote. *)
Lemma counted_for_cons x l c t :
  (length (counted_for l c t) ≤ length (counted_for (x :: l) c t))%nat.
Proof. unfold counted_for. rewrite filter_cons. case_decide; simpl; lia. Qed.

Lemma counted_for_here x l :
  length (counted_for (x :: l) (vote_for x) (vote_term x)) =
    S (length (counted_for l (vote_for x) (vote_term x))).
Proof. unfold counted_for. by rewrite filter_cons_True. Qed.

(** Replacing the view of one node. *)
Lemma inv_granted_insert (e : Election) (granted : list Vote) i v v' :
  views e !! i = Some v → view_term v ≤ view_term v' →
  (view_term v' = view_term v → ∀ c, view_vote v = Some c → view_vote v' = Some c) →
  (∀ x, x ∈ granted → ∃ w, views e !! vote_by x = Some w ∧ vote_term x ≤ view_term w ∧
    (vote_term x = view_term w → view_vote w = Some (vote_for x))) →
  ∀ x, x ∈ granted → ∃ w, <[i := v']> (views e) !! vote_by x = Some w ∧
    vote_term x ≤ view_term w ∧
    (vote_term x = view_term w → view_vote w = Some (vote_for x)).
Proof.
  intros Hi Ht Hv Hg x Hx. destruct (Hg x Hx) as (w & Hw & Hle & Hvote).
  destruct (decide (vote_by x = i)) as [<-|]; [|by rewrite lookup_insert_ne; eauto].
  rewrite lookup_insert_eq. simplify_eq. exists v'. split_and!; [done|lia|].
  intros Heq. apply Hv; [lia|]. apply Hvote. lia.
Qed.

Lemma quiet_inv e g c i v v' :
  election_inv e g c → views e !! i = Some v → quiet v v' →
  election_inv (mkElection (<[i := v']> (views e)) (votes e)) g c.
Proof.
  intros [I1 I2 I3 I4 I5 I6] Hi Hq. split; simpl; try done.
  - eapply inv_granted_insert; [done| | |done]; destruct Hq; try lia. congruence.
  - intros j w. rewrite lookup_insert_Some. intros [[<- <-]|[_ ?]]; [|by eauto].
    pose proof (I5 _ _ Hi). destruct Hq as [Ht _ ? _ _|]; [rewrite Ht|]; lia.
  - intros j w. rewrite lookup_insert_Some. intros [[<- <-]|[_ ?]] Hl; [|by eauto].
    destruct Hq as [Ht _ _ Hs _|]; [rewrite Ht|done]. eauto.
Qed.

Lemma grant_inv e g c i v cand :
  election_inv e g c → views e !! i = Some v → view_vote v = None →
  election_inv
    (mkElection (<[i := with_vote cand v]> (views e))
       (votes e ++ [mkVote cand i (view_term v)]))
    (mkVote cand i (view_term v) :: g) c.
Proof.
  intros [I1 I2 I3 I4 I5 I6] Hi Hn. set (x := mkVote cand i (view_term v)).
  assert (∀ y, y ∈ g → vote_by y = i → vote_term y ≠ view_term v) as Hnew.
  { intros y Hy Hby Ht. destruct (I2 y Hy) as (w & Hw & _ & Hv).
    rewrite Hby in Hw. simplify_eq. rewrite Hv in Hn; done. }
  split; simpl.
  - intros y z [->|Hy]%elem_of_cons [->|Hz]%elem_of_cons Hby Ht; try done.
    + by destruct (Hnew z Hz).
    + by destruct (Hnew y Hy).
    + by apply I1.
  - intros y [->|Hy]%elem_of_cons; simpl.
    { rewrite lookup_insert_eq. eexists. split_and!; [done|simpl; lia|done]. }
    revert y Hy. eapply inv_granted_insert; [done|simpl; lia| |done]. congruence.
  - rewrite app_assoc. apply NoDup_app. split_and!; [done| |apply NoDup_singleton].
    intros y Hy ->%list_elem_of_singleton. by destruct (Hnew x (I4 _ Hy)).
  - intros y. rewrite app_assoc, elem_of_app, list_elem_of_singleton, elem_of_cons. naive_solver.
  - intros j w. rewrite lookup_insert_Some. intros [[<- <-]|[_ ?]]; simpl; by eauto.
  - intros j w. rewrite lookup_insert_Some. intros [[<- <-]|[_ ?]]; simpl; by eauto.
Qed.

Lemma candidacy_inv e g c i v :
  election_inv e g c → views e !! i = Some v →
  election_inv
    (mkElection (<[i := mkView (view_term v + 1) (Some i) 1 kCandidate]> (views e)) (votes e))
    (mkVote i i (view_term v + 1) :: g) (mkVote i i (view_term v + 1) :: c).
Proof.
  intros [I1 I2 I3 I4 I5 I6] Hi. set (x := mkVote i i (view_term v + 1)).
  assert (∀ y, y ∈ g → vote_by y = i → vote_term y ≠ view_term v + 1) as Hnew.
  { intros y Hy Hby Ht. destruct (I2 y Hy) as (w & Hw & ? & _).
    rewrite Hby in Hw. simplify_eq. lia. }
  split; simpl.
  - intros y z [->|Hy]%elem_of_cons [->|Hz]%elem_of_cons Hby Ht; try done.
    + by destruct (Hnew z Hz).
    + by destruct (Hnew y Hy).
    + by apply I1.
  - intros y [->|Hy]%elem_of_cons; simpl.
    { rewrite lookup_insert_eq. eexists. split_and!; [done|simpl; lia|done]. }
    revert y Hy. eapply inv_granted_insert; [done|simpl; lia|simpl; lia|done].
  - constructor; [|done]. intros Hx. by destruct (Hnew x (I4 _ Hx)).
  - intros y [->|Hy]%elem_of_cons; [by left|right; auto].
  - intros j w. rewrite lookup_insert_Some. intros [[<- <-]|[_ Hj]].
    + simpl. pose proof (counted_for_here x c) as E. simpl in E. rewrite E. lia.
    + pose proof (counted_for_cons x c j (view_term w)). specialize (I5 _ _ Hj). lia.
  - intros j w. rewrite lookup_insert_Some. intros [[<- <-]|[_ Hj]] Hl; [done|].
    pose proof (counted_for_cons x c j (view_term w)). specialize (I6 _ _ Hj Hl). lia.
Qed.

Lemma count_inv e g c i v u r vs :
  election_inv e g c → views e !! i = Some v →
  votes e ≡ₚ mkVote i u (view_term v) :: vs → r ≤ view_received v + 1 →
  election_inv (mkElection (<[i := with_received r v]> (views e)) vs) g
    (mkVote i u (view_term v) :: c).
Proof.
  intros [I1 I2 I3 I4 I5 I6] Hi Hvs Hr. set (x := mkVote i u (view_term v)) in *.
  assert (c ++ votes e ≡ₚ (x :: c) ++ vs) as Hperm by (rewrite Hvs; simpl; by rewrite Permutation_middle).
  split; simpl; try done.
  - eapply inv_granted_insert; [done|simpl; lia|done|done].
  - change (NoDup ((x :: c) ++ vs)). by rewrite <-Hperm.
  - intros y Hy. apply I4. by rewrite Hperm.
  - intros j w. rewrite lookup_insert_Some. intros [[<- <-]|[_ Hj]]; simpl.
    + pose proof (counted_for_here x c) as E. simpl in E. rewrite E.
      specialize (I5 _ _ Hi). lia.
    + pose proof (counted_for_cons x c j (view_term w)). specialize (I5 _ _ Hj). lia.
  - intros j w. rewrite lookup_insert_Some. intros [[<- <-]|[_ Hj]] Hl; simpl in *.
    + pose proof (counted_for_cons x c i (view_term v)). specialize (I6 _ _ Hi Hl). lia.
    + pose proof (counted_for_cons x c j (view_term w)). specialize (I6 _ _ Hj Hl). lia.
Qed.

Lemma elected_inv e g c i v :
  election_inv e g c → views e !! i = Some v → majority ≤ view_received v →
  election_inv (mkElection (<[i := with_state kLeader v]> (views e)) (votes e)) g c.
Proof.
  intros [I1 I2 I3 I4 I5 I6] Hi Hm. split; simpl; try done.
  - eapply inv_granted_insert; [done|simpl; lia|done|done].
  - intros j w. rewrite lookup_insert_Some. intros [[<- <-]|[_ ?]]; simpl; by eauto.
  - intros j w. rewrite lookup_insert_Some. intros [[<- <-]|[_ ?]] Hl; simpl; [|by eauto].
    specialize (I5 _ _ Hi). lia.
Qed.

Lemma crashed_inv e g c i v v' :
  election_inv e g c → views e !! i = Some v → crashed v v' →
  election_inv (mkElection (<[i := v']> (views e)) (votes e)) g c.
Proof.
  intros [I1 I2 I3 I4 I5 I6] Hi [Ht Hv Hr Hs]. split; simpl; try done.
  - by eapply inv_granted_insert.
  - intros j w. rewrite lookup_insert_Some. intros [[<- <-]|[_ ?]]; [rewrite Hr; lia|by eauto].
  - intros j w. rewrite lookup_insert_Some. intros [[<- <-]|[_ ?]] Hl; [done|by eauto].
Qed.

Lemma lost_inv e g c x vs :
  election_inv e g c → votes e ≡ₚ x :: vs → election_inv (mkElection (views e) vs) g c.
Proof.
  intros [I1 I2 I3 I4 I5 I6] Hvs. split; simpl; try done.
  - revert I3. rewrite Hvs, <-Permutation_middle. by intros [_ ?]%NoDup_cons.
  - intros y Hy. apply I4. rewrite Hvs. set_solver.
Qed.

Lemma election_step_inv e e' g c :
  election_inv e g c → election_step e e' →
  ∃ g' c', election_inv e' g' c' ∧ g ⊆ g'.
Proof.
  intros HI [i v v' ? ?|i v cand ? ?|i v ? ?|i v u r vs ? ? ?|i v ? ?|i v v' ? ?|x vs ?].
  - exists g, c. eauto using quiet_inv.
  - eexists _, _. split; [by eapply grant_inv|set_solver].
  - eexists _, _. split; [by eapply candidacy_inv|set_solver].
  - eexists _, _. split; [by eapply count_inv|done].
  - eexists _, _. split; [by eapply elected_inv|done].
  - eexists _, _. split; [by eapply crashed_inv|done].
  - eexists _, _. split; [by eapply lost_inv|done].
Qed.

Lemma election_steps_inv e e' g c :
  election_inv e g c → rtc election_step e e' →
  ∃ g' c', election_inv e' g' c' ∧ g ⊆ g'.
Proof.
  intros HI Hs. revert g c HI. induction Hs as [|e1 e2 e3 Hs _ IH]; intros g c HI.
  { by exists g, c. }
  destruct (election_step_inv _ _ _ _ HI Hs) as (g2 & c2 & HI2 & ?).
  destruct (IH _ _ HI2) as (g3 & c3 & HI3 & ?). exists g3, c3. split; [done|]. by etrans.
Qed.

(** The set of nodes never changes. *)
Lemma election_step_dom e e' : election_step e e' → dom (views e') = dom (views e).
Proof. intros []; simpl; try done; apply dom_insert_lookup_L; eauto. Qed.

Lemma election_steps_dom e e' : rtc election_step e e' → dom (views e') = dom (views e).
Proof.
  induction 1 as [|e1 e2 e3 Hs _ IH]; [done|]. rewrite IH. by apply election_step_dom.
Qed.

(** ** Safety *)

(** The voters that a leader has counted. *)
Lemma leader_voters e g c i v :
  election_inv e g c → views e !! i = Some v → view_state v = kLeader →
  ∃ voters, NoDup voters ∧ majority ≤ N.of_nat (length voters) ∧
    ∀ u, u ∈ voters → u ∈ dom (views e) ∧ mkVote i u (view_term v) ∈ g.
Proof.
  intros [I1 I2 I3 I4 I5 I6] Hi Hl.
  exists (vote_by <$> counted_for c i (view_term v)).
  assert (∀ x, x ∈ counted_for c i (view_term v) →
    x = mkVote i (vote_by x) (view_term v) ∧ x ∈ g) as Hx.
  { intros x [[<- <-] Hx]%list_elem_of_filter. split; [by destruct x|].
    apply I4, elem_of_app. by left. }
  split_and!.
  - apply NoDup_fmap_2_strong.
    + intros x y [-> _]%Hx [-> _]%Hx. simpl. by intros ->.
    + apply NoDup_filter. by apply NoDup_app in I3 as [? _].
  - rewrite length_fmap. by apply I6.
  - intros u (x & -> & [Heq Hg]%Hx)%list_elem_of_fmap.
    destruct (I2 x Hg) as (w & Hw & _). split; [by eapply elem_of_dom_2|by rewrite <-Heq].
Qed.

Lemma quorums_meet (D : gset N) l1 l2 :
  N.of_nat (size D) < 2 * majority → NoDup l1 → NoDup l2 →
  majority ≤ N.of_nat (length l1) → majority ≤ N.of_nat (length l2) →
  (∀ u, u ∈ l1 → u ∈ D) → (∀ u, u ∈ l2 → u ∈ D) → ∃ u, u ∈ l1 ∧ u ∈ l2.
Proof.
  intros HD H1 H2 Hm1 Hm2 HD1 HD2.
  destruct (decide (Exists (λ u, u ∈ l2) l1)) as [Hex|Hnex].
  { apply Exists_exists in Hex. naive_solver. }
  exfalso. assert (NoDup (l1 ++ l2)) as Hnd.
  { apply NoDup_app. split_and!; [done| |done]. intros u Hu1 Hu2.
    apply Hnex, Exists_exists. eauto. }
  assert (size (list_to_set (l1 ++ l2) : gset N) = length (l1 ++ l2)) as Hsz
    by by apply size_list_to_set.
  assert ((list_to_set (l1 ++ l2) : gset N) ⊆ D) as Hsub%subseteq_size.
  { intros u. rewrite elem_of_list_to_set, elem_of_app. naive_solver. }
  rewrite Hsz, length_app in Hsub. lia.
Qed.

Lemma leader_unique e0 e1 e2 i j v w :
  election_init e0 → rtc election_step e0 e1 → rtc election_step e1 e2 →
  N.of_nat (size (dom (views e0))) < 2 * majority →
  views e1 !! i = Some v → view_state v = kLeader →
  views e2 !! j = Some w → view_state w = kLeader →
  view_term v = view_term w → i = j.
Proof.
  intros H0 Hs1 Hs2 Hsize Hi Hli Hj Hlj Ht.
  destruct (election_steps_inv _ _ _ _ (election_init_inv _ H0) Hs1) as (g1 & c1 & HI1 & _).
  destruct (election_steps_inv _ _ _ _ HI1 Hs2) as (g2 & c2 & HI2 & Hsub).
  destruct (leader_voters _ _ _ _ _ HI1 Hi Hli) as (l1 & ? & ? & Hl1).
  destruct (leader_voters _ _ _ _ _ HI2 Hj Hlj) as (l2 & ? & ? & Hl2).
  rewrite (election_steps_dom _ _ Hs1) in Hl1.
  rewrite (election_steps_dom _ _ Hs2), (election_steps_dom _ _ Hs1) in Hl2.
  destruct (quorums_meet (dom (views e0)) l1 l2) as (u & [_ Hu1]%Hl1 & [_ Hu2]%Hl2);
    [done..|naive_solver|naive_solver|].
  rewrite <-Ht in Hu2.
  assert (mkVote i u (view_term v) = mkVote j u (view_term v)) as Heq
    by (eapply (inv_one_vote _ _ _ HI2); [by apply Hsub|done..]).
  by injection Heq.
Qed.

End protocol.
