(* ===== verification/VoteFacts.v ===== *)
(** * Lemmas about terms and votes

    The parts of the context that change the term or the vote, each as one
    change of the store, and the view an election has of a node. *)

From S2P Require Import Prelude Codec Platform LogEntry ContextStore ContextStoreFacts.
From S2P Require Import NodeUtil RaftTypes OtherNode StateMachine Lifecycle Node.
From S2P Require Import StateMachineInterface RaftContext RaftContextFacts Election.

Local Open Scope N_scope.

(** ** Changes of the store *)

Section store_changes.
  Context `{Platform}.
  Implicit Types (n : Node) (s : ContextStore).

Lemma on_store_ext f g n : f (store n) = g (store n) → on_store f n = on_store g n.
Proof. unfold on_store, on_context, store. by intros ->. Qed.

Lemma on_store_comp f g n : on_store f (on_store g n) = on_store (λ s, f (g s)) n.
Proof. done. Qed.

Lemma store_on_store f n : store (on_store f n) = f (store n).
Proof. done. Qed.

Lemma reset_vote_eq n : ∃ d, reset_vote n =
  on_store (λ s, mkContextStore d (current_term_ s) 0 false 0 (logs_ s)) n.
Proof.
  unfold reset_vote. rewrite !on_store_comp. eexists. apply on_store_ext.
  by rewrite set_voted_frame, set_voted_for_frame.
Qed.

Lemma vote_for_me_eq n : ∃ d, vote_for_me n =
  on_store (λ s, mkContextStore d (current_term_ s) (node_id_ (context_ n)) true
    (wrap32 (vote_received_ s + 1)) (logs_ s)) n.
Proof.
  unfold vote_for_me. rewrite !on_store_comp. eexists. apply on_store_ext. simpl.
  by rewrite set_voted_frame, set_voted_for_frame.
Qed.

(** Does the log of this node allow a vote for a candidate whose last entry is
    [last_data_index]? *)
Definition log_allows (last_data_index : N) (s : ContextStore) : bool :=
  match last_log s with None => true | Some log => id_ log <=? last_data_index end.

Lemma vote_eq term id index last_term n :
  let t := current_term_ (store n) in
  if (t <=? term) && negb (voted_ (store n)) && log_allows index (store n) then
    ∃ d, vote term id index last_term n =
      ((t, true), on_store (λ s, mkContextStore d t id true (vote_received_ s) (logs_ s)) n)
  else vote term id index last_term n = ((t, false), n).
Proof.
  intros t. unfold vote. fold (log_allows index (store n)). subst t.
  unfold current_term, voted. destruct (_ <=? _); simpl; [|done].
  destruct (negb _); simpl; [|done]. destruct (log_allows _ _); [|done].
  rewrite !on_store_comp. eexists. f_equal. apply on_store_ext.
  by rewrite set_voted_frame, set_voted_for_frame.
Qed.

End store_changes.

Section terms.
  Context `{StateMachineInterface}.
  Implicit Types (n : Node).

(** The store in a new term. *)
Definition in_new_term (d : option DB) (term : N) (n : Node) : Node :=
  on_store (λ s, mkContextStore d term 0 false 0 (logs_ s)) n.

Lemma update_term_old term self n :
  term ≤ current_term_ (store n) → update_term term self n = (false, n).
Proof. intros Ht. unfold update_term, current_term. case_test; [done|lia]. Qed.

Lemma update_term_new term self n :
  current_term_ (store n) < term →
  ∃ d, update_term term self n =
    (true, if self then in_new_term d term n else on_new_term_received (in_new_term d term n)).
Proof.
  intros Ht. unfold update_term, current_term. case_test; [lia|].
  destruct (reset_vote_eq (on_store (λ s, (set_current_term term s).2) n)) as [d E].
  rewrite E, on_store_comp.
  assert (on_store (λ x, mkContextStore d (current_term_ (set_current_term term x).2) 0 false 0
     (logs_ (set_current_term term x).2)) n = in_new_term d term n) as ->.
  { apply on_store_ext. by rewrite set_current_term_frame. }
  by exists d.
Qed.

Lemma increase_term_eq n :
  let t := wrap64 (current_term_ (store n) + 1) in
  (t ≤ current_term_ (store n) ∧ increase_term n = n) ∨
  (current_term_ (store n) < t ∧ ∃ d, increase_term n = in_new_term d t n).
Proof.
  intros t. unfold increase_term, current_term. fold t.
  destruct (decide (t ≤ current_term_ (store n))).
  - left. by rewrite update_term_old.
  - right. split; [lia|]. destruct (update_term_new t true n) as [d ->]; [lia|]. by exists d.
Qed.

End terms.

(** ** Views *)

Section views.
  Context `{Platform}.
  Implicit Types (n : Node).

Definition view_of (n : Node) : View :=
  mkView (current_term_ (store n))
    (if voted_ (store n) then Some (voted_for_ (store n)) else None)
    (vote_received_ (store n)) (raft_state n).

(** A change that is quiet, and keeps what never changes in a node. *)
Record silent (n n' : Node) : Prop := {
  silent_quiet : quiet (view_of n) (view_of n');
  silent_node_id : node_id_ (context_ n') = node_id_ (context_ n);
  silent_majority : majority_ (context_ n') = majority_ (context_ n);
  silent_states : states_ (raft_fsm_ n') = states_ (raft_fsm_ n);
}.

#[export] Instance quiet_refl : Reflexive quiet.
Proof. intros v. by apply quiet_same. Qed.

#[export] Instance quiet_trans : Transitive quiet.
Proof.
  intros v1 v2 v3 [Ht Hv Hr Hs Hc|Ht Hv Hr Hs Hc] [Ht' Hv' Hr' Hs' Hc'|Ht' Hv' Hr' Hs' Hc'].
  - apply quiet_same; [congruence|congruence|lia|auto..].
  - apply quiet_newer; [lia|done..].
  - apply quiet_newer; [lia|congruence|lia|auto..].
  - apply quiet_newer; [lia|done..].
Qed.

#[export] Instance silent_refl : Reflexive silent.
Proof. by intros n. Qed.

#[export] Instance silent_trans : Transitive silent.
Proof. intros n1 n2 n3 [] []. split; [by etrans|congruence..]. Qed.

Lemma calm_view n n' : calm n n' → view_of n' = view_of n.
Proof.
  intros Hc. unfold view_of, raft_state.
  by rewrite (calm_term _ _ Hc), (calm_voted _ _ Hc), (calm_voted_for _ _ Hc),
    (calm_vote_received _ _ Hc), (calm_raft_fsm _ _ Hc).
Qed.

Lemma calm_silent n n' : calm n n' → silent n n'.
Proof.
  intros Hc. split; [by rewrite (calm_view _ _ Hc)|..]; destruct Hc; congruence.
Qed.

Lemma stepped_down_not_leader st : stepped_down st ≠ kLeader.
Proof. by destruct st. Qed.

Lemma stepped_down_not_candidate st : stepped_down st ≠ kCandidate.
Proof. by destruct st. Qed.

Lemma set_broadcast_received_silent b n :
  silent n (on_context (set_broadcast_received b) n).
Proof. done. Qed.

End views.

#[export] Hint Resolve calm_silent stepped_down_not_leader stepped_down_not_candidate : foros.

(** ** Handlers that take no part in an election *)

Section silent_handlers.
  Context `{StateMachineContract}.
  Implicit Types (n : Node).

Lemma update_term_silent term n :
  states_ (raft_fsm_ n) = raft_states → silent n (update_term term false n).2.
Proof.
  intros Hs. destruct (decide (term ≤ current_term_ (store n))).
  { by rewrite update_term_old. }
  destruct (update_term_new term false n) as [d ->]; [lia|]. simpl.
  pose proof (on_new_term_received_change (in_new_term d term n)) as [].
  pose proof (on_new_term_received_state (in_new_term d term n) Hs) as Hst.
  split; [|done..]. unfold view_of. rewrite state_change_store, Hst.
  apply quiet_newer;
    [simpl; lia|done|done|apply stepped_down_not_leader|apply stepped_down_not_candidate].
Qed.

Lemma on_leader_discovered_silent n :
  states_ (raft_fsm_ n) = raft_states → silent n (on_leader_discovered n).
Proof.
  intros Hs. pose proof (on_leader_discovered_change n) as [].
  pose proof (on_leader_discovered_state n Hs) as Hst.
  split; [|done..]. unfold view_of. rewrite state_change_store, Hst.
  apply quiet_same; simpl; [done..|by destruct (raft_state n)|by destruct (raft_state n)].
Qed.

Lemma on_append_entries_requested_silent r n :
  states_ (raft_fsm_ n) = raft_states → silent n (on_append_entries_requested r n).2.
Proof.
  intros Hs. unfold on_append_entries_requested.
  destruct (negb _); [done|].
  set (n1 := if _ <? _ then _ else _). assert (silent n n1) as Hn1.
  { subst n1. case_test; [done|].
    pose proof (update_term_silent (ae_term r) n Hs) as H1'.
    destruct (update_term _ _ _) as [b n2]. simpl in H1'.
    etrans; [exact H1'|]. etrans; [apply (set_broadcast_received_silent true)|].
    apply on_leader_discovered_silent. simpl. by rewrite (silent_states _ _ H1'). }
  etrans; [exact Hn1|]. clearbody n1. apply calm_silent.
  repeat case_match; simplify_eq/=; try done; try (apply request_local_rollback_calm).
  all: match goal with E : request_local_commit ?r ?n = (_, ?n') |- _ =>
    pose proof (request_local_commit_calm r n) as Hc; by rewrite E in Hc end.
Qed.

Lemma on_append_entries_response_silent id r resp n :
  states_ (raft_fsm_ n) = raft_states → silent n (on_append_entries_response id r resp n).
Proof.
  intros Hs. unfold on_append_entries_response, on_broadcast_response.
  set (n1 := on_context _ n). assert (calm n n1) as Hc by done.
  assert (states_ (raft_fsm_ n1) = raft_states) as Hs1 by done.
  etrans; [by apply calm_silent|]. clearbody n1.
  etrans; [|apply calm_silent, handle_pending_commit_response_calm].
  case_test; [|done]. by apply update_term_silent.
Qed.

End silent_handlers.
