(* ===== verification/ElectionRefinement.v ===== *)
(** * The nodes follow the election protocol

    What each input of a node does to its view ([VoteFacts.view_of]), in terms of
    the steps of Election.v. *)

From S2P Require Import Prelude Codec Platform LogEntry ContextStore ContextStoreFacts.
From S2P Require Import NodeUtil RaftTypes OtherNode StateMachine Lifecycle Node.
From S2P Require Import StateMachineInterface RaftContext RaftContextFacts.
From S2P Require Import RaftStateMachine RaftStateMachineFacts ClusterNodeOptions.
From S2P Require Import ClusterNodeImpl Election VoteFacts.

Local Open Scope N_scope.

(** ** The observer *)

Section observer.
  Context `{Platform}.
  Implicit Types (n : Node).

Lemma handle_lifecycle_state_frame st n :
  context_ (handle_lifecycle_state st n) = context_ n ∧
  raft_fsm_ (handle_lifecycle_state st n) = raft_fsm_ n ∧
  lifecycle_fsm_ (handle_lifecycle_state st n) = lifecycle_fsm_ n ∧
  fault_ (handle_lifecycle_state st n) = fault_ n.
Proof. unfold handle_lifecycle_state. by destruct st; [case_test..|]. Qed.

Lemma observe_lifecycle_frame o st n :
  context_ (observe_lifecycle o st n) = context_ n ∧
  raft_fsm_ (observe_lifecycle o st n) = raft_fsm_ n ∧
  lifecycle_fsm_ (observe_lifecycle o st n) = lifecycle_fsm_ n ∧
  fault_ (observe_lifecycle o st n) = fault_ n.
Proof. unfold observe_lifecycle. case_test; [apply handle_lifecycle_state_frame|done]. Qed.

Lemma lifecycle_notify_frame os st n :
  context_ (notify observe_lifecycle os st n) = context_ n ∧
  raft_fsm_ (notify observe_lifecycle os st n) = raft_fsm_ n ∧
  lifecycle_fsm_ (notify observe_lifecycle os st n) = lifecycle_fsm_ n ∧
  fault_ (notify observe_lifecycle os st n) = fault_ n.
Proof.
  apply (notify_inv (λ n', context_ n' = context_ n ∧ raft_fsm_ n' = raft_fsm_ n ∧
    lifecycle_fsm_ n' = lifecycle_fsm_ n ∧ fault_ n' = fault_ n)); [|done].
  intros o n' (<- & <- & <- & <-). apply observe_lifecycle_frame.
Qed.

(** [lifecycle_fsm_->handle(event)], the callbacks of its states being empty. *)
Lemma lifecycle_handle_unfold ev n :
  lifecycle_handle ev n =
    let fsm := lifecycle_fsm_ n in
    let next := default Lifecycle.kUnknown
      (Lifecycle.find_transition ev (Lifecycle.transition_map (current_state_ fsm))) in
    if decide (next ∉ states_ fsm) then n else
    notify observe_lifecycle (current_state_notifier_ fsm) next
      (set_lifecycle_fsm (set_current_state next fsm) n).
Proof.
  unfold lifecycle_handle, StateMachine.handle. simpl StateMachine.state_handle.
  unfold Lifecycle.state_handle, get_current_state_type, view, lifecycle_fsm_of.
  by destruct (Lifecycle.find_transition _ _), ev.
Qed.

Lemma lifecycle_handle_frame ev n :
  context_ (lifecycle_handle ev n) = context_ n ∧
  raft_fsm_ (lifecycle_handle ev n) = raft_fsm_ n ∧
  fault_ (lifecycle_handle ev n) = fault_ n.
Proof.
  rewrite lifecycle_handle_unfold. cbv zeta. case_decide; [done|].
  match goal with |- context [notify ?d ?os ?st ?n] =>
    destruct (lifecycle_notify_frame os st n) as (-> & -> & _ & ->) end.
  done.
Qed.

#[export] Instance cluster_node_observer_contract : StateObserverContract.
Proof.
  split; intros o st n; simpl; case_test; try done; destruct st; simpl; try done;
    apply lifecycle_handle_frame.
Qed.

End observer.

(** ** Votes *)

Section votes.
  Context `{StateMachineContract}.
  Implicit Types (n : Node).

Lemma on_request_vote_requested_view r n : states_ (raft_fsm_ n) = raft_states →
  let '(resp, n') := on_request_vote_requested r n in
  ∃ n1, silent n n1 ∧
    ((rv_vote_granted resp = false ∧ n' = n1) ∨
     (resp = mkRequestVoteResponse (view_term (view_of n1)) true ∧
      view_vote (view_of n1) = None ∧
      view_of n' = with_vote (rv_candidate_id r) (view_of n1) ∧
      node_id_ (context_ n') = node_id_ (context_ n1) ∧
      majority_ (context_ n') = majority_ (context_ n1) ∧
      states_ (raft_fsm_ n') = states_ (raft_fsm_ n1))).
Proof.
  intros Hs. unfold on_request_vote_requested.
  destruct (negb _); [exists n; split; [done|by left]|].
  pose proof (update_term_silent (rv_term r) n Hs) as Hn1.
  destruct (update_term _ _ _) as [b n1]. simpl in Hn1.
  pose proof (vote_eq (rv_term r) (rv_candidate_id r) (rv_last_data_index r)
    (rv_loat_data_term r) n1) as Hv.
  cbv zeta in Hv. case_test_in Hv; [destruct (voted_ (store n1)) eqn:Hvoted|]; simpl in Hv;
    [rewrite Hv; exists n1; split; [done|by left]| |rewrite Hv; exists n1; split; [done|by left]].
  case_test_in Hv; [|rewrite Hv; exists n1; split; [done|by left]].
  destruct Hv as [d ->]. exists n1. split; [done|]. right.
  split_and!; try done. simpl. by rewrite Hvoted.
Qed.

(** Counting the votes. *)
Lemma check_elected_view n : states_ (raft_fsm_ n) = raft_states →
  view_of (check_elected n) =
    (if vote_received_ (store n) <? majority_ (context_ n) then view_of n
     else with_state (promoted (raft_state n)) (view_of n)) ∧
  node_id_ (context_ (check_elected n)) = node_id_ (context_ n) ∧
  majority_ (context_ (check_elected n)) = majority_ (context_ n) ∧
  states_ (raft_fsm_ (check_elected n)) = states_ (raft_fsm_ n).
Proof.
  intros Hs. unfold check_elected, vote_received. case_test; [done|].
  match goal with |- context [StateMachineInterface.on_elected ?n] => set (n1 := n) end.
  assert (states_ (raft_fsm_ n1) = raft_states) as Hs1 by done.
  pose proof (on_elected_state n1 Hs1) as Hst.
  destruct (on_elected_change n1) as [Hstore _ Hid Hmaj _ _ _ _ Hss _].
  split_and!; [|done..]. unfold view_of. by rewrite Hstore, Hst.
Qed.

Lemma on_request_vote_response_view term granted n : states_ (raft_fsm_ n) = raft_states →
  let n' := on_request_vote_response term granted n in
  silent n n' ∨
  (granted = true ∧ term = view_term (view_of n) ∧
   ∃ r, r ≤ view_received (view_of n) + 1 ∧
     (view_of n' = with_received r (view_of n) ∨
      view_of n' = with_state kLeader (with_received r (view_of n)) ∧
      raft_state n = kCandidate ∧ majority_ (context_ n) ≤ r) ∧
     node_id_ (context_ n') = node_id_ (context_ n) ∧
     majority_ (context_ n') = majority_ (context_ n) ∧
     states_ (raft_fsm_ n') = states_ (raft_fsm_ n)).
Proof.
  intros Hs. unfold on_request_vote_response, current_term. case_test; [by left|].
  pose proof (update_term_silent term n Hs) as Hn1.
  destruct (decide (term ≤ current_term_ (store n))).
  2: { left. destruct (update_term_new term false n) as [d E]; [lia|]. rewrite E in *. done. }
  rewrite update_term_old by done. destruct granted; simpl; [|by left].
  right. split_and!; [done|simpl; lia|].
  match goal with |- context [check_elected ?n] => set (n1 := n) end.
  assert (states_ (raft_fsm_ n1) = raft_states) as Hs1 by done.
  destruct (check_elected_view n1 Hs1) as (Hv & Hid & Hmaj & Hss).
  exists (wrap32 (vote_received_ (store n) + 1)).
  pose proof (N.Div0.mod_le (vote_received_ (store n) + 1) u32_size) as Hr.
  split_and!; [exact Hr| |done..]. rewrite Hv.
  case_test; [by left|]. change (raft_state n1) with (raft_state n).
  destruct (raft_state n) eqn:Hst;
    try (left; unfold view_of, with_state, with_received; simpl;
         change (raft_state n1) with (raft_state n); by rewrite Hst).
  right. by split_and!.
Qed.

End votes.

(** ** Elections *)

Section elections.
  Context `{Platform}.
  Implicit Types (n : Node).

(** What an election leaves. *)
Definition candidacy (n n' : Node) : Prop :=
  (view_of n' = mkView (view_term (view_of n) + 1) (Some (node_id_ (context_ n))) 1 kCandidate ∧
   1 < majority_ (context_ n) ∨
   view_of n' = mkView (view_term (view_of n) + 1) (Some (node_id_ (context_ n))) 1 kLeader ∧
   majority_ (context_ n) ≤ 1) ∧
  node_id_ (context_ n') = node_id_ (context_ n) ∧
  majority_ (context_ n') = majority_ (context_ n) ∧
  states_ (raft_fsm_ n') = states_ (raft_fsm_ n).

Lemma start_election_view `{!StateMachineInterface} `{!StateMachineContract} n :
  states_ (raft_fsm_ n) = raft_states → raft_state n = kCandidate →
  current_term_ (store n) + 1 < u64_size →
  candidacy n (start_election n).
Proof.
  intros Hs Hst Hlt. unfold start_election.
  destruct (increase_term_eq n) as [[Hle _]|[Hlt' [d1 ->]]].
  { rewrite wrap64_small in Hle by done. lia. }
  destruct (reset_vote_eq (in_new_term d1 (wrap64 (current_term_ (store n) + 1)) n)) as [d2 ->].
  match goal with |- context [vote_for_me ?n] => destruct (vote_for_me_eq n) as [d3 ->] end.
  unfold in_new_term. rewrite !on_store_comp. simpl. rewrite wrap64_small by done.
  match goal with |- context [reset_election_timer ?n] => set (n1 := n) end.
  assert (calm n1 (foldl request_vote_to (reset_election_timer n1)
    (map_ids (other_nodes_ (context_ (reset_election_timer n1)))))) as Hc.
  { etrans; [apply reset_election_timer_calm|]. apply foldl_calm, request_vote_to_calm. }
  unfold request_vote. set (n2 := foldl _ _ _) in *. clearbody n2.
  assert (states_ (raft_fsm_ n2) = raft_states) as Hs2 by (by rewrite (calm_raft_fsm _ _ Hc)).
  destruct (check_elected_view n2 Hs2) as (Hv & Hid & Hmaj & Hss).
  pose proof (calm_view _ _ Hc) as Hv2.
  assert (view_of n1 =
    mkView (current_term_ (store n) + 1) (Some (node_id_ (context_ n))) 1 kCandidate) as Hv1.
  { unfold view_of. simpl. unfold raft_state in *. simpl. by rewrite Hst. }
  assert (raft_state n2 = kCandidate) as Hst2 by (change (view_state (view_of n2) = kCandidate);
    by rewrite Hv2, Hv1).
  rewrite Hst2, Hv2, Hv1 in Hv.
  assert (vote_received_ (store n2) = 1) as Hr
    by (change (view_received (view_of n2) = 1); by rewrite Hv2, Hv1).
  unfold candidacy. rewrite Hid, Hmaj, Hss, (calm_node_id _ _ Hc), (calm_majority _ _ Hc), Hs2.
  split_and!; try done. revert Hv. rewrite Hr, (calm_majority _ _ Hc). simpl.
  case_test; intros ->; [by left|by right].
Qed.

Lemma election_timedout_view n :
  states_ (raft_fsm_ n) = raft_states → current_term_ (store n) + 1 < u64_size →
  let n' := StateMachineInterface.on_election_timedout n in
  match raft_state n with
  | kFollower | kCandidate => candidacy n n'
  | _ => n' = n
  end.
Proof.
  intros Hs Hlt. cbv zeta.
  change (StateMachineInterface.on_election_timedout n) with (raft_handle (S 1) kTimedout n).
  pose proof (mk_interface_contract 0) as Hcontract.
  rewrite raft_handle_S. unfold state_handle.
  destruct (raft_state n) eqn:Hst; simpl.
  all: try (by rewrite Hs, decide_False by apply kStay_not_state).
  - rewrite Hs, decide_True by by apply (bool_decide_unpack _).
    unfold goto. simpl. unfold candidate_entry. pose proof (depart_change kCandidate n) as [].
    destruct (@start_election_view _ Hcontract (depart kCandidate n))
      as (Hv & Hid & Hmaj & Hss).
    + by rewrite state_change_states.
    + apply raft_state_depart.
    + by rewrite state_change_store.
    + unfold candidacy. simpl in *. rewrite Hid, Hmaj, Hss.
      rewrite state_change_store, state_change_node_id, ?state_change_majority in *.
      by split_and!.
  - unfold candidate_on_timedout.
    destruct (@start_election_view _ Hcontract n) as (Hv & Hid & Hmaj & Hss); [done..|].
    rewrite Hss, Hs, decide_False by apply kStay_not_state. by split_and!.
Qed.
Lemma candidacy_transition n n' : candidacy n n' →
  raft_state n' = if majority_ (context_ n) <=? 1 then kLeader else kCandidate.
Proof.
  intros [[[Hv Hm]|[Hv Hm]] _]; apply (f_equal view_state) in Hv; simpl in Hv; rewrite Hv;
    case_test; done || lia.
Qed.

(** A leader broadcasts, the other states ignore the timer. *)
Lemma broadcast_timedout_eq n : states_ (raft_fsm_ n) = raft_states →
  StateMachineInterface.on_broadcast_timedout n =
    match raft_state n with kLeader => broadcast n | _ => n end.
Proof.
  intros Hs.
  change (StateMachineInterface.on_broadcast_timedout n) with
    (raft_handle (S 1) kBroadcastTimedout n).
  rewrite raft_handle_S. unfold state_handle.
  destruct (raft_state n) eqn:Hst; simpl;
    try (by rewrite Hs, decide_False by apply kStay_not_state).
  pose proof (broadcast_calm n) as Hc. unfold leader_on_broadcast_timedout.
  by rewrite (calm_raft_fsm _ _ Hc), Hs, decide_False by apply kStay_not_state.
Qed.

End elections.
