(* ===== verification/NodeInvariant.v ===== *)
(** * The invariant of a node

    What holds of a node between two inputs of its executor: the lifecycle state
    mirrors the RAFT state, each timer runs exactly in the states that use it, a
    commit in progress belongs to a leader and its promise is open, no exception
    has been thrown, and the log is well formed.  While calls of [commit_command] are
    interrupted (CommitCall.v), the promises that they hold are open and belong to no
    commit in progress; and a commit in progress that such a call has left need not
    belong to a leader. *)

From S2P Require Import Prelude Codec Platform LogEntry ClusterNodeOptions.
From S2P Require Import ContextStore ContextStoreFacts.
From S2P Require Import StoreTheorems NodeUtil RaftTypes OtherNode StateMachine Lifecycle Node.
From S2P Require Import StateMachineInterface RaftContext RaftContextFacts.
From S2P Require Import RaftStateMachine RaftStateMachineFacts.
From S2P Require Import ClusterNodeImpl Election VoteFacts ElectionRefinement.

Local Open Scope N_scope.

Definition lifecycle_of (st : RaftTypes.StateType) : Lifecycle.StateType :=
  match st with
  | RaftTypes.kStandby => kInactive
  | kFollower | kCandidate => Lifecycle.kStandby
  | kLeader => kActive
  | kStay => Lifecycle.kUnknown
  end.

Section invariant.
  Context `{PlatformSpec}.
  Implicit Types (n : Node).

(** [atomic]: no call of [commit_command] has been interrupted so far; [reserved] are the
    promises of the calls that are. *)
Context (atomic : Prop) (reserved : list N).

(** ** The invariant *)

Record machines_ok n : Prop := {
  ok_states : states_ (raft_fsm_ n) = raft_states;
  ok_state : raft_state n ∈ raft_states;
  ok_observers : current_state_notifier_ (raft_fsm_ n) = [cluster_node_address];
  ok_lifecycle_states : states_ (lifecycle_fsm_ n) = lifecycle_states;
  ok_lifecycle_observers : current_state_notifier_ (lifecycle_fsm_ n) = [cluster_node_address];
  ok_lifecycle : current_state_ (lifecycle_fsm_ n) = lifecycle_of (raft_state n);
}.

Record timers_ok n : Prop := {
  ok_interval : election_timeout_min_ (context_ n) ≤ election_timeout_max_ (context_ n) ∧
    broadcast_timeout_ (context_ n) = election_timeout_min_ (context_ n) / 10;
  ok_election_timer :
    match election_timer_ (context_ n) with
    | None => raft_state n = RaftTypes.kStandby
    | Some period => raft_state n ≠ RaftTypes.kStandby ∧
        election_timeout_min_ (context_ n) ≤ period ≤ election_timeout_max_ (context_ n)
    end;
  ok_broadcast_timer :
    broadcast_timer_ (context_ n) =
      if decide (raft_state n = kLeader) then Some (broadcast_timeout_ (context_ n)) else None;
}.

Definition open_promise (p : N) n : Prop :=
  promises_ (context_ n) !! N.to_nat p = Some None.

Record commit_ok_in n : Prop := {
  ok_pending p : pending_commit_ (context_ n) = Some p →
    (atomic → raft_state n = kLeader) ∧ open_promise (promise_ p) n ∧
    promise_ p ∉ reserved;
  ok_reserved p : p ∈ reserved → open_promise p n;
  ok_promise : fault_ n ≠ Some PromiseAlreadySatisfied;
  ok_depth : fault_ n ≠ Some CallTooDeep;
}.

Definition log_ok n : Prop := log_wf (logs_ (store n)).

Record node_ok_in n : Prop := {
  node_machines : machines_ok n;
  node_timers : timers_ok n;
  node_commit : commit_ok_in n;
  node_log : log_ok n;
}.

(** ** Pieces that preserve it *)

Abbreviation node_ok := node_ok_in.
Abbreviation commit_ok := commit_ok_in.

Lemma machines_ok_calm n n' : calm n n' → machines_ok n → machines_ok n'.
Proof.
  intros Hc []. pose proof (calm_raft_fsm _ _ Hc) as Hr.
  pose proof (calm_lifecycle_fsm _ _ Hc) as Hl.
  split; unfold raft_state in *; rewrite ?Hr, ?Hl; done.
Qed.

Lemma raft_state_calm n n' : calm n n' → raft_state n' = raft_state n.
Proof. intros Hc. unfold raft_state. by rewrite (calm_raft_fsm _ _ Hc). Qed.

(** A calm change keeps the machines, and the timers if it leaves them alone. *)
Lemma node_ok_calm n n' : calm n n' →
  election_timer_ (context_ n') = election_timer_ (context_ n) →
  broadcast_timer_ (context_ n') = broadcast_timer_ (context_ n) →
  node_ok n → commit_ok n' → log_ok n' → node_ok n'.
Proof.
  intros Hc He Hb [Hm [] _ _] Hcommit Hlog. split; [by eapply machines_ok_calm| |done..].
  pose proof (raft_state_calm _ _ Hc) as Hst. destruct Hc.
  split; rewrite ?He, ?Hb, ?Hst, ?calm_timeout_min, ?calm_timeout_max, ?calm_broadcast_timeout;
    congruence || done.
Qed.

Lemma commit_ok_same n n' :
  raft_fsm_ n' = raft_fsm_ n → fault_ n' = fault_ n →
  pending_commit_ (context_ n') = pending_commit_ (context_ n) →
  promises_ (context_ n') = promises_ (context_ n) → commit_ok n → commit_ok n'.
Proof.
  intros Hr Hf Hp Hpr []. split; unfold raft_state, open_promise in *;
    rewrite ?Hr, ?Hf, ?Hp, ?Hpr; done.
Qed.

(** A change of outputs, peers, or anything else the invariant does not read. *)
Lemma node_ok_same n n' :
  raft_fsm_ n' = raft_fsm_ n → lifecycle_fsm_ n' = lifecycle_fsm_ n →
  logs_ (store n') = logs_ (store n) → fault_ n' = fault_ n →
  election_timeout_min_ (context_ n') = election_timeout_min_ (context_ n) →
  election_timeout_max_ (context_ n') = election_timeout_max_ (context_ n) →
  broadcast_timeout_ (context_ n') = broadcast_timeout_ (context_ n) →
  election_timer_ (context_ n') = election_timer_ (context_ n) →
  broadcast_timer_ (context_ n') = broadcast_timer_ (context_ n) →
  pending_commit_ (context_ n') = pending_commit_ (context_ n) →
  promises_ (context_ n') = promises_ (context_ n) →
  node_ok n → node_ok n'.
Proof.
  intros Hr Hl Hlog Hf Hmin Hmax Hbt Het Hbt' Hp Hpr [[] [] [] Hlogs].
  split; [split|split|split|];
    unfold raft_state, log_ok, open_promise in *;
    rewrite ?Hr, ?Hl, ?Hlog, ?Hf, ?Hmin, ?Hmax, ?Hbt, ?Het, ?Hbt', ?Hp, ?Hpr; done.
Qed.

End invariant.

Arguments node_machines {_ _ _} n _.
Arguments node_timers {_ _ _} n _.
Arguments node_commit {_ _ _} n _.
Arguments node_log {_ _ _} n _.
Arguments ok_pending {_ _ _} n _ p _.
Arguments ok_reserved {_ _ _} n _ p _.

(** The invariant between the inputs of an executor that is alone. *)
Abbreviation node_ok := (node_ok_in True []).

(** Without interrupted calls a commit in progress belongs to a leader. *)
Lemma pending_leads `{PlatformSpec} n p : node_ok n → pending_commit_ (context_ n) = Some p →
  raft_state n = kLeader ∧ open_promise (promise_ p) n.
Proof. intros Hok Hp. destruct (ok_pending _ (node_commit _ Hok) p Hp) as (Hl & Hop & _). auto. Qed.

(** [node_ok_in] of a node that differs by definition in nothing it reads. *)
Ltac node_same Hok := eapply node_ok_same; [..|exact Hok]; reflexivity.

(** ** The log and the commits *)

Section commits.
  Context `{PlatformSpec} {atomic : Prop} {reserved : list N}.
  Abbreviation node_ok := (node_ok_in atomic reserved).
  Abbreviation commit_ok := (commit_ok_in atomic reserved).
  Implicit Types (n : Node).

Lemma push_log_ok log n : node_ok n → node_ok (on_store (λ s, (push_log log s).2) n).
Proof.
  intros Hok. eapply node_ok_calm; [apply push_log_calm|done..| |].
  - by eapply commit_ok_same, Hok.
  - apply (run_store_op_wf (OpPushLog log)), Hok.
Qed.

Lemma revert_log_ok id n : node_ok n → node_ok (on_store (λ s, (revert_log id s).2) n).
Proof.
  intros Hok. eapply node_ok_calm; [apply revert_log_calm|done..| |].
  - by eapply commit_ok_same, Hok.
  - apply (run_store_op_wf (OpRevertLog id)), Hok.
Qed.

Lemma output_ok o n : node_ok n → node_ok (output o n).
Proof. intros Hok. node_same Hok. Qed.

Lemma invoke_commit_callback_ok log n : node_ok n → node_ok (invoke_commit_callback log n).
Proof. intros Hok. destruct log; simpl; [|done]. case_test; [|done]. by apply output_ok. Qed.

Lemma invoke_revert_callback_ok id n : node_ok n → node_ok (invoke_revert_callback id n).
Proof. intros Hok. unfold invoke_revert_callback. case_test; [|done]. by apply output_ok. Qed.

Lemma halt_null_ok n : node_ok n → node_ok (halt NullCommandDereference n).
Proof.
  intros Hok. eapply node_ok_calm; [apply halt_calm|..|done| |];
    try (unfold halt; by destruct (fault_ n)); destruct Hok as [_ _ [] ?].
  - unfold halt. destruct (fault_ n) eqn:E; [by split; rewrite ?E|by split].
  - unfold halt. by destruct (fault_ n).
Qed.

Lemma set_pending_ok v n :
  (∀ p, v = Some p → (atomic → raft_state n = kLeader) ∧ open_promise (promise_ p) n ∧
    promise_ p ∉ reserved) →
  node_ok n → node_ok (on_context (Node.set_pending_commit v) n).
Proof.
  intros Hv Hok. eapply node_ok_calm; [apply set_pending_calm|done..| |apply Hok].
  destruct Hok as [_ _ [] _]. by split.
Qed.

Lemma set_pending_none_ok n : node_ok n → node_ok (on_context (Node.set_pending_commit None) n).
Proof. by apply set_pending_ok. Qed.

(** Answering a promise that no commit in progress holds. *)
Lemma set_value_ok p r n : open_promise p n → p ∉ reserved →
  (∀ q, pending_commit_ (context_ n) = Some q → promise_ q ≠ p) →
  node_ok n → node_ok (set_value p r n).
Proof.
  intros Hp Hr Hq Hok. unfold set_value. rewrite Hp.
  eapply node_ok_calm; [apply (set_promises_calm (λ c, <[N.to_nat p := Some r]> (promises_ c)))
    |done..| |apply Hok].
  destruct Hok as [_ _ [Hpend Hres ? ?] _].
  split; [intros q Hpq|intros q Hq'|done..]; unfold open_promise in *; simpl in *.
  - destruct (Hpend q Hpq) as (? & Hop & ?). split_and!; [done| |done].
    rewrite list_lookup_insert_ne; [done|]. pose proof (Hq q Hpq). lia.
  - rewrite list_lookup_insert_ne; [by apply Hres|]. intros ?. assert (q = p) as -> by lia. done.
Qed.

Lemma call_response_callback_ok p callback n :
  node_ok n → node_ok (call_response_callback p callback n).
Proof. intros Hok. destruct callback; [by apply output_ok|done]. Qed.

Lemma invoke_commit_callback_context log n :
  context_ (invoke_commit_callback log n) = context_ n.
Proof. destruct log; simpl; [|done]. by case_test. Qed.

Lemma complete_commit_ok p log result callback n : open_promise p n → p ∉ reserved →
  (∀ q, pending_commit_ (context_ n) = Some q → promise_ q ≠ p) →
  node_ok n → node_ok (complete_commit p log result callback n).
Proof.
  intros Hp Hr Hq Hok. unfold complete_commit. apply call_response_callback_ok, set_value_ok; [|done|..].
  - destruct result; [|done]. unfold open_promise. by rewrite invoke_commit_callback_context.
  - destruct result; [|done]. rewrite invoke_commit_callback_context. apply Hq.
  - destruct result; [|done]. by apply invoke_commit_callback_ok, push_log_ok.
Qed.

Lemma cancel_commit_ok p id callback n : open_promise p n → p ∉ reserved →
  (∀ q, pending_commit_ (context_ n) = Some q → promise_ q ≠ p) →
  node_ok n → node_ok (cancel_commit p id callback n).
Proof.
  intros Hp Hr Hq Hok. unfold cancel_commit. by apply call_response_callback_ok, set_value_ok.
Qed.

Lemma get_pending_commit_ok n : node_ok n → node_ok (get_pending_commit n).2.
Proof.
  intros Hok. unfold get_pending_commit. destruct (pending_commit_ _); [|done].
  case_test; [done|]. by apply set_pending_none_ok.
Qed.

Lemma handle_pending_commit_response_ok id index term success n :
  node_ok n → node_ok (handle_pending_commit_response id index term success n).
Proof.
  intros Hok. unfold handle_pending_commit_response.
  destruct (pending_commit_ (context_ n)) as [p|] eqn:Hp; [|done].
  destruct (_ || _); [done|].
  destruct (ok_pending _ (node_commit _ Hok) p Hp) as (Hst & Hop & Hr).
  assert (node_ok (on_context (Node.set_pending_commit (Some (with_result id success p))) n))
    as Hok1 by (apply set_pending_ok; [by intros q [= <-]|done]).
  case_test; [done|]. apply complete_commit_ok; [done..|]. by apply set_pending_none_ok.
Qed.

Lemma on_log_get_request_ok id n : node_ok n → node_ok (on_log_get_request id n).2.
Proof.
  intros Hok%get_pending_commit_ok. unfold on_log_get_request.
  destruct (get_pending_commit n) as [[p|] n']; [|done]. by case_test.
Qed.

Lemma OtherNode_broadcast_ok term me log o n : node_ok n →
  node_ok (OtherNode.broadcast (Some on_log_get_request) term me log o n).2.
Proof.
  intros Hok. unfold OtherNode.broadcast. case_test; [done|].
  set (r0 := mkAppendEntriesRequest term me 0 0 [] 0).
  assert (node_ok (add_next_entry on_log_get_request log (next_index_ o) r0 n).2) as Hn.
  { unfold add_next_entry. destruct log; [|done]. case_test; [|done].
    pose proof (on_log_get_request_ok (next_index_ o) n Hok).
    destruct (on_log_get_request _ n) as [[e|] n']; [|done]. by destruct (command_ e). }
  destruct (add_next_entry _ _ _ _ _) as [[r|] n']; [|done]. simpl in Hn.
  unfold add_prev_entry. case_test; [|done].
  pose proof (on_log_get_request_ok (next_index_ o - 1) n' Hn).
  by destruct (on_log_get_request _ n') as [[e|] n''].
Qed.

Lemma broadcast_to_ok log n id : node_ok n → node_ok (broadcast_to log n id).
Proof.
  intros Hok. unfold broadcast_to. destruct (fault_ n); [done|].
  destruct (other_nodes_ _ !! id) as [o|]; [|done].
  match goal with |- context [OtherNode.broadcast ?g ?t ?m ?l ?o ?n] =>
    pose proof (OtherNode_broadcast_ok t m l o n Hok);
    destruct (OtherNode.broadcast g t m l o n) as [[] n'] end; simpl in *.
  - done.
  - by apply halt_null_ok.
  - by apply output_ok.
Qed.

Lemma foldl_ok {A} (f : Node → A → Node) l n :
  (∀ n x, node_ok n → node_ok (f n x)) → node_ok n → node_ok (foldl f n l).
Proof. intros Hf. revert n; induction l as [|x l IH]; intros n Hn; [done|]. apply IH, Hf, Hn. Qed.

Lemma broadcast_ok n : node_ok n → node_ok (broadcast n).
Proof.
  intros Hok%get_pending_commit_ok. unfold broadcast.
  destruct (get_pending_commit n) as [p n']. apply foldl_ok; [|done].
  intros. by apply broadcast_to_ok.
Qed.

Lemma push_and_notify_ok log n : node_ok n → node_ok (push_and_notify log n).2.
Proof.
  intros Hok. unfold push_and_notify. destruct (push_log (Some log) (store n)) as [ok s] eqn:E.
  assert (on_store (λ _, s) n = on_store (λ s, (push_log (Some log) s).2) n) as ->.
  { apply on_store_ext. by rewrite E. }
  assert (node_ok (on_store (λ s, (push_log (Some log) s).2) n)) by by apply push_log_ok.
  destruct ok; [by apply invoke_commit_callback_ok|done].
Qed.

Lemma request_local_commit_ok r n : node_ok n → node_ok (request_local_commit r n).2.
Proof.
  intros Hok. unfold request_local_commit.
  destruct (last_log _); [|by apply push_and_notify_ok].
  destruct (_ && _ && _); [done|]. apply push_and_notify_ok.
  case_test; [|done]. by apply invoke_revert_callback_ok, revert_log_ok.
Qed.

End commits.

(** ** Transitions *)

Section transitions.
  Context `{PlatformSpec} {atomic : Prop} {reserved : list N}.
  Abbreviation node_ok := (node_ok_in atomic reserved).
  Abbreviation commit_ok := (commit_ok_in atomic reserved).
  Implicit Types (n : Node).

(** The lifecycle follows the RAFT state of which the node is notified. *)
Lemma target_lifecycle st : st ∈ raft_states →
  ∃ ev, (∀ n, handle_raft_state st n = lifecycle_handle ev n) ∧ target ev = lifecycle_of st.
Proof.
  intros Hst. destruct st; try (eexists; split; [intros; reflexivity|done]).
  by apply kStay_not_state in Hst.
Qed.

Lemma lifecycle_of_state st : st ∈ raft_states → lifecycle_of st ∈ lifecycle_states.
Proof.
  intros Hst. destruct st; try by apply (bool_decide_unpack _).
  by apply kStay_not_state in Hst.
Qed.

Lemma find_target cur ev : cur ∈ lifecycle_states →
  default Lifecycle.kUnknown (Lifecycle.find_transition ev (Lifecycle.transition_map cur)) =
    if decide (cur = target ev) then Lifecycle.kUnknown else target ev.
Proof.
  intros Hc. pose proof (state_handle_spec cur ev () Hc) as E.
  apply (f_equal fst) in E. simpl in E. rewrite <-E.
  unfold Lifecycle.state_handle. by destruct (Lifecycle.find_transition _ _).
Qed.

Lemma lifecycle_handle_machine ev n :
  states_ (lifecycle_fsm_ n) = lifecycle_states →
  current_state_ (lifecycle_fsm_ n) ∈ lifecycle_states →
  lifecycle_fsm_ (lifecycle_handle ev n) = set_current_state (target ev) (lifecycle_fsm_ n).
Proof.
  intros Hs Hc. rewrite lifecycle_handle_unfold. cbv zeta. rewrite find_target, Hs by done.
  destruct (decide (current_state_ (lifecycle_fsm_ n) = target ev)) as [Heq|Heq].
  - rewrite decide_True by apply kUnknown_not_state. rewrite <-Heq. by destruct (lifecycle_fsm_ n).
  - rewrite decide_False by (pose proof (target_state ev); naive_solver).
    match goal with |- context [notify ?d ?os ?st ?n] =>
      destruct (lifecycle_notify_frame os st n) as (_ & _ & -> & _) end. done.
Qed.

Lemma depart_machines st n : machines_ok n → st ∈ raft_states → machines_ok (depart st n).
Proof.
  intros [H1 H2 H3 H4 H5 H6] Hst. pose proof (depart_fsm st n) as Hf.
  assert (lifecycle_fsm_ (depart st n) =
    set_current_state (lifecycle_of st) (lifecycle_fsm_ n)) as Hl.
  { unfold depart. pose proof (state_exit_calm (raft_state n) n) as Hc. simpl.
    rewrite (calm_raft_fsm _ _ Hc), H3. simpl.
    destruct (target_lifecycle st Hst) as (ev & -> & <-).
    rewrite lifecycle_handle_machine; simpl; rewrite (calm_lifecycle_fsm _ _ Hc); try done.
    rewrite H6. by apply lifecycle_of_state. }
  split; unfold raft_state; rewrite ?Hf, ?Hl; simpl; done.
Qed.

(** Leaving a state: no broadcast timer and no commit in progress are left. *)
Lemma leader_exit_commit n : node_ok n →
  election_timer_ (context_ (leader_exit n)) = election_timer_ (context_ n) ∧
  broadcast_timer_ (context_ (leader_exit n)) = None ∧
  pending_commit_ (context_ (leader_exit n)) = None ∧
  store (leader_exit n) = store n ∧ fault_ (leader_exit n) = fault_ n ∧
  ∀ p, p ∈ reserved → open_promise p (leader_exit n).
Proof.
  intros Hok. destruct (leader_exit_context n) as [l E]. unfold store. rewrite E.
  destruct (node_commit _ Hok) as [Hpend Hres _ _].
  split_and!; try done; unfold leader_exit, cancel_pending_commit, clear_pending_commit; simpl;
    destruct (pending_commit_ (context_ n)) as [p|] eqn:Hp; try done;
    destruct (Hpend p eq_refl) as (_ & Hop & Hr); unfold open_promise in *;
    unfold complete_commit, set_value; simpl; rewrite Hop; [by destruct (callback_ p)|].
  intros q Hq. specialize (Hres q Hq). destruct (callback_ p); simpl;
    (rewrite list_lookup_insert_ne; [done|]; intros ?; apply Hr;
     assert (promise_ p = q) as -> by lia; done).
Qed.

Lemma depart_commit st n : node_ok n →
  election_timer_ (context_ (depart st n)) = election_timer_ (context_ n) ∧
  broadcast_timer_ (context_ (depart st n)) = None ∧
  store (depart st n) = store n ∧ fault_ (depart st n) = fault_ n ∧ commit_ok (depart st n).
Proof.
  intros Hok. unfold store.
  destruct (decide (raft_state n = kLeader)) as [Hst|Hst].
  - destruct (leader_exit_commit n Hok) as (H1 & H2 & H3 & H4 & H5 & H6).
    assert (context_ (depart st n) = context_ (leader_exit n)) as E
      by (rewrite depart_context; by rewrite Hst).
    assert (fault_ (depart st n) = fault_ n) as Hf by (rewrite depart_fault; by rewrite Hst).
    rewrite E, Hf. split_and!; [done..|].
    destruct (node_commit _ Hok). split; unfold open_promise; rewrite ?E, ?Hf, ?H3; done.
  - assert (context_ (depart st n) = context_ n) as E
      by (rewrite depart_context; by destruct (raft_state n)).
    pose proof (ok_broadcast_timer _ (node_timers _ Hok)) as Hb.
    assert (fault_ (depart st n) = fault_ n) as Hf
      by (rewrite depart_fault; by destruct (raft_state n)).
    rewrite decide_False in Hb by done. rewrite E, Hf. split_and!; [done..|].
    destruct (node_commit _ Hok) as [Hpend Hres ? ?].
    split; unfold open_promise; rewrite ?E, ?Hf; try done.
    intros p Hp. destruct (Hpend p Hp) as (Hl & Hop & Hr). split_and!; [|done..].
    intros Ha. by specialize (Hl Ha).
Qed.

Lemma start_election_timer_ok n :
  election_timeout_min_ (context_ n) ≤ election_timeout_max_ (context_ n) →
  ∃ t g, context_ (start_election_timer n) =
      set_election_timer (Some t) (set_random_generator g (context_ n)) ∧
    election_timeout_min_ (context_ n) ≤ t ≤ election_timeout_max_ (context_ n).
Proof.
  intros Hle. pose proof (uniform_int_range (random_generator_ (context_ n)) _ _ Hle) as Hr.
  unfold start_election_timer. simpl.
  destruct (uniform_int _ _ _) as [t g]. exists t, g. split; [done|exact Hr].
Qed.

(** A transition into a state whose entry calls nothing back. *)
Lemma goto_simple_ok h st n : node_ok n → st ∈ raft_states → st ≠ kCandidate →
  (st = kLeader → raft_state n ≠ RaftTypes.kStandby) → node_ok (goto h st n).
Proof.
  intros Hok Hst Hne Hl. pose proof (goto_calm_depart h st n Hne) as Hc.
  pose proof (depart_commit st n Hok) as (Het & Hbt & Hstore & Hfault & Hcommit).
  pose proof (depart_machines st n (node_machines _ Hok) Hst) as Hm.
  pose proof (raft_state_goto h st n Hne) as Hcur.
  assert (∀ n1, store n1 = store (depart st n) → raft_fsm_ n1 = raft_fsm_ (depart st n) →
    fault_ n1 = fault_ (depart st n) →
    pending_commit_ (context_ n1) = pending_commit_ (context_ (depart st n)) →
    promises_ (context_ n1) = promises_ (context_ (depart st n)) → commit_ok n1 ∧ log_ok n1) as Hcl.
  { intros n1 Hs1 Hr1 Hf1 Hp1 Hpr1. unfold log_ok. rewrite Hs1, Hstore.
    split; [by eapply commit_ok_same|apply Hok]. }
  destruct (ok_interval _ (node_timers _ Hok)) as [Hint Hperiod].
  assert (election_timeout_min_ (context_ (depart st n)) = election_timeout_min_ (context_ n) ∧
    election_timeout_max_ (context_ (depart st n)) = election_timeout_max_ (context_ n))
    as [Hmin Hmax].
  { rewrite depart_context. by destruct (state_exit_calm (raft_state n) n). }
  pose proof (calm_timeout_min _ _ Hc) as Hcmin. rewrite Hmin in Hcmin.
  pose proof (calm_timeout_max _ _ Hc) as Hcmax. rewrite Hmax in Hcmax.
  assert (broadcast_timeout_ (context_ (goto h st n)) = broadcast_timeout_ (context_ n)) as Hcbt.
  { rewrite (calm_broadcast_timeout _ _ Hc), depart_context.
    by destruct (state_exit_calm (raft_state n) n). }
  split; [by eapply machines_ok_calm| | |]; cycle 1.
  1,2: eapply Hcl; rewrite goto_simple by done; destruct st; try done;
    by (unfold start_election_timer; simpl; split_call).
  destruct st; [| |done| |by apply kStay_not_state in Hst].
  - split; rewrite ?Hcmin, ?Hcmax, ?Hcbt, ?Hcur; done.
  - destruct (start_election_timer_ok (depart kFollower n)) as (t & g & E & Ht);
      [by rewrite Hmin, Hmax|].
    change (goto h kFollower n) with (start_election_timer (depart kFollower n)) in *.
    split; rewrite ?Hcmin, ?Hcmax, ?Hcbt, ?Hcur; [done|rewrite E; simpl|by rewrite E; simpl; rewrite Hbt].
    by rewrite Hmin, Hmax in Ht.
  - specialize (Hl eq_refl). pose proof (ok_election_timer _ (node_timers _ Hok)) as He.
    split; rewrite ?Hcmin, ?Hcmax, ?Hcbt, ?Hcur; [done| |].
    2: { change (broadcast_timer_ (context_ (goto h kLeader n))) with
      (Some (broadcast_timeout_ (context_ (goto h kLeader n)))). by rewrite Hcbt. }
    change (election_timer_ (context_ (goto h kLeader n))) with
      (election_timer_ (context_ (depart kLeader n))). rewrite Het.
    destruct (election_timer_ (context_ n)); [|done]. by destruct He.
Qed.

End transitions.

(** ** Events *)

Section events.
  Context `{PlatformSpec} {atomic : Prop} {reserved : list N}.
  Abbreviation node_ok := (node_ok_in atomic reserved).
  Abbreviation commit_ok := (commit_ok_in atomic reserved).
  Implicit Types (n : Node).

Lemma find_transition_leader ev st :
  find_transition ev (transition_map st) = Some kLeader → st = kCandidate.
Proof. by destruct ev, st. Qed.

Lemma find_transition_state ev st next : ev ≠ kTimedout → ev ≠ kBroadcastTimedout →
  find_transition ev (transition_map st) = Some next → next ∈ raft_states.
Proof.
  intros Ht Hb E. apply (bool_decide_unpack _). revert E.
  by destruct ev, st; try done; intros [= <-].
Qed.

Lemma raft_handle_simple_ok d ev n : ev ≠ kTimedout → ev ≠ kBroadcastTimedout →
  node_ok n → node_ok (raft_handle (S d) ev n).
Proof.
  intros Ht Hb Hok. rewrite raft_handle_simple, (ok_states _ (node_machines _ Hok)) by done.
  destruct (find_transition _ _) as [next|] eqn:E.
  - rewrite decide_True by by eapply find_transition_state. apply goto_simple_ok; [done|..].
    + by eapply find_transition_state.
    + by eapply find_transition_simple.
    + intros ->. by rewrite (find_transition_leader _ _ E).
  - by rewrite decide_False by apply kStay_not_state.
Qed.

Lemma in_new_term_ok d t n : node_ok n → node_ok (in_new_term d t n).
Proof. intros Hok. node_same Hok. Qed.

Lemma increase_term_ok `{!StateMachineInterface} n : node_ok n → node_ok (increase_term n).
Proof.
  intros Hok. destruct (increase_term_eq n) as [[_ ->]|[_ [d ->]]]; [done|].
  by apply in_new_term_ok.
Qed.

Lemma reset_vote_ok n : node_ok n → node_ok (reset_vote n).
Proof. intros Hok. destruct (reset_vote_eq n) as [d ->]. node_same Hok. Qed.

Lemma vote_for_me_ok n : node_ok n → node_ok (vote_for_me n).
Proof. intros Hok. destruct (vote_for_me_eq n) as [d ->]. node_same Hok. Qed.

Lemma reset_election_timer_ok n :
  raft_state n ≠ RaftTypes.kStandby → node_ok n → node_ok (reset_election_timer n).
Proof.
  intros Hst [Hm [Hi He Hb] Hc Hl]. unfold reset_election_timer.
  destruct (start_election_timer_ok (stop_election_timer n) (proj1 Hi)) as (t & g & E & Ht).
  pose proof (reset_election_timer_calm n) as Hcalm. unfold reset_election_timer in Hcalm.
  assert (raft_state (start_election_timer (stop_election_timer n)) = raft_state n) as Hst'
    by by rewrite (raft_state_calm _ _ Hcalm).
  assert (fault_ (start_election_timer (stop_election_timer n)) = fault_ n) as Hf
    by (unfold start_election_timer; by split_call).
  split.
  - by eapply machines_ok_calm.
  - split; rewrite ?Hst', ?E; simpl; done.
  - eapply commit_ok_same, Hc; rewrite ?E, ?Hf; try done. apply (calm_raft_fsm _ _ Hcalm).
  - unfold log_ok, store. by rewrite E.
Qed.

Lemma request_vote_to_ok n id : node_ok n → node_ok (request_vote_to n id).
Proof.
  intros Hok. unfold request_vote_to. repeat case_match; try done. by apply output_ok.
Qed.

Lemma check_elected_ok d n : node_ok n →
  node_ok (check_elected (H0 := mk_interface (raft_handle (S d))) n).
Proof.
  intros Hok. unfold check_elected. case_test; [done|].
  apply raft_handle_simple_ok; [done..|]. node_same Hok.
Qed.

Lemma start_election_ok d n : raft_state n = kCandidate → node_ok n →
  node_ok (start_election (H0 := mk_interface (raft_handle (S d))) n).
Proof.
  intros Hst Hok. unfold start_election, request_vote. apply check_elected_ok, foldl_ok.
  { intros. by apply request_vote_to_ok. }
  apply reset_election_timer_ok; [|by apply vote_for_me_ok, reset_vote_ok, increase_term_ok].
  match goal with |- context [vote_for_me ?n] => destruct (vote_for_me_eq n) as [d1 ->] end.
  match goal with |- context [reset_vote ?n] => destruct (reset_vote_eq n) as [d2 ->] end.
  rewrite on_store_comp. unfold raft_state in *. simpl.
  match goal with |- context [@increase_term ?P ?I ?n] =>
    destruct (@increase_term_eq P I n) as [[_ ->]|[_ [d3 ->]]] end; simpl; by rewrite Hst.
Qed.

Lemma depart_candidate_ok n : raft_state n = kFollower → node_ok n →
  node_ok (depart kCandidate n).
Proof.
  intros Hst Hok. pose proof (depart_commit kCandidate n Hok) as (_ & _ & Hstore & _ & Hcommit).
  assert (context_ (depart kCandidate n) = context_ n) as Hctx.
  { rewrite depart_context. by rewrite Hst. }
  pose proof Hok as [Hm [Hi He Hb] _ Hl]. rewrite Hst in He, Hb.
  split.
  - apply depart_machines; [done|by apply (bool_decide_unpack _)].
  - split; rewrite ?raft_state_depart, Hctx; [done| |done].
    by destruct (election_timer_ (context_ n)) as [t|]; [destruct He|].
  - done.
  - unfold log_ok. by rewrite Hstore.
Qed.

(** The machine keeps the invariant on every event, to any depth from 2. *)
Lemma raft_handle_ok d ev n : node_ok n → node_ok (raft_handle (S (S d)) ev n).
Proof.
  intros Hok. pose proof (ok_states _ (node_machines _ Hok)) as Hs.
  destruct (decide (ev = kTimedout)) as [->|]; [|destruct (decide (ev = kBroadcastTimedout)) as [->|]].
  - rewrite raft_handle_S. unfold state_handle.
    destruct (raft_state n) eqn:Hst; simpl;
      try (by rewrite Hs, decide_False by apply kStay_not_state).
    + rewrite Hs, decide_True by by apply (bool_decide_unpack _).
      apply start_election_ok; [apply raft_state_depart|by apply depart_candidate_ok].
    + assert (node_ok (candidate_on_timedout (H0 := mk_interface (raft_handle (S d))) n)) as Hok1
        by by apply start_election_ok.
      by rewrite (ok_states _ (node_machines _ Hok1)), decide_False by apply kStay_not_state.
  - rewrite raft_handle_S. unfold state_handle.
    destruct (raft_state n) eqn:Hst; simpl;
      try (by rewrite Hs, decide_False by apply kStay_not_state).
    pose proof (broadcast_ok n Hok) as Hok1. unfold leader_on_broadcast_timedout.
    by rewrite (ok_states _ (node_machines _ Hok1)), decide_False by apply kStay_not_state.
  - by apply raft_handle_simple_ok.
Qed.

Lemma handle_event_ok ev n : node_ok n → node_ok (handle_event ev n).
Proof. apply (raft_handle_ok 0). Qed.

End events.

(** ** Inputs *)

Section inputs.
  Context `{PlatformSpec} {atomic : Prop} {reserved : list N}.
  Abbreviation node_ok := (node_ok_in atomic reserved).
  Abbreviation commit_ok := (commit_ok_in atomic reserved).
  Implicit Types (n : Node).

Lemma update_term_ok term n : node_ok n → node_ok (update_term term false n).2.
Proof.
  intros Hok. destruct (decide (term ≤ current_term_ (store n))).
  { by rewrite update_term_old. }
  destruct (update_term_new term false n) as [d ->]; [lia|]. simpl.
  by apply handle_event_ok, in_new_term_ok.
Qed.

Lemma on_append_entries_requested_ok r n :
  node_ok n → node_ok (on_append_entries_requested r n).2.
Proof.
  intros Hok. unfold on_append_entries_requested. destruct (negb _); [done|].
  set (n1 := if _ <? _ then _ else _). assert (node_ok n1) as Hok1.
  { subst n1. case_test; [done|]. pose proof (update_term_ok (ae_term r) n Hok) as Hok1.
    destruct (update_term _ _ _) as [b n1]. apply handle_event_ok.
    simpl in Hok1. node_same Hok1. }
  clearbody n1. pose proof (request_local_commit_ok r n1 Hok1) as Hc.
  destruct (_ =? _)%nat; [done|]. destruct (request_local_commit r n1) as [ok n2].
  case_test; [done|]. destruct (log _ _); [|done]. case_test; [done|].
  by apply revert_log_ok.
Qed.

Lemma on_request_vote_requested_ok r n : node_ok n → node_ok (on_request_vote_requested r n).2.
Proof.
  intros Hok. unfold on_request_vote_requested. destruct (negb _); [done|].
  pose proof (update_term_ok (rv_term r) n Hok) as Hok1.
  destruct (update_term _ _ _) as [b n1]. simpl in Hok1.
  pose proof (vote_eq (rv_term r) (rv_candidate_id r) (rv_last_data_index r)
    (rv_loat_data_term r) n1) as Hv. cbv zeta in Hv.
  destruct (_ && _ && _); [destruct Hv as [d ->]|by rewrite Hv]. simpl. node_same Hok1.
Qed.

Lemma on_request_vote_response_ok term granted n :
  node_ok n → node_ok (on_request_vote_response term granted n).
Proof.
  intros Hok. unfold on_request_vote_response. case_test; [done|].
  pose proof (update_term_ok term n Hok) as Hok1. destruct (update_term _ _ _) as [[] n1]; [done|].
  destruct granted; simpl; [|done]. apply check_elected_ok. simpl in Hok1. node_same Hok1.
Qed.

Lemma on_append_entries_response_ok id r resp n :
  node_ok n → node_ok (on_append_entries_response id r resp n).
Proof.
  intros Hok. unfold on_append_entries_response, on_broadcast_response.
  apply handle_pending_commit_response_ok.
  assert (node_ok (on_context (λ c, set_other_nodes
    (alter (OtherNode.on_append_entries_response r resp) id (other_nodes_ c)) c) n)) as Hok1
    by node_same Hok.
  case_test; [by apply update_term_ok|done].
Qed.

(** A new promise is open, no commit in progress holds it, and no interrupted call. *)
Lemma new_promise_ok n : node_ok n →
  let n1 := on_context (λ c, set_promises (promises_ c ++ [None]) c) n in
  let promise := N.of_nat (length (promises_ (context_ n))) in
  node_ok n1 ∧ open_promise promise n1 ∧ promise ∉ reserved ∧
  ∀ q, pending_commit_ (context_ n1) = Some q → promise_ q ≠ promise.
Proof.
  intros Hok n1 promise. destruct (node_commit _ Hok) as [Hp Hres Hf1 Hf2].
  assert (∀ q, open_promise q n → q ≠ promise) as Hfresh.
  { intros q Hop Heq. unfold open_promise in Hop. rewrite Heq in Hop. unfold promise in Hop.
    rewrite Nat2N.id in Hop. apply lookup_lt_Some in Hop. lia. }
  assert (∀ q, open_promise q n → open_promise q n1) as Hkeep
    by (intros q; apply lookup_app_l_Some).
  split_and!.
  - eapply node_ok_calm; [apply set_promises_calm|done..| |apply Hok].
    split; [|by eauto|done..]. intros q Hq. destruct (Hp q Hq) as (? & Hop & ?).
    split_and!; [done|by apply Hkeep|done].
  - unfold open_promise, promise. simpl. by rewrite Nat2N.id, list_lookup_middle.
  - intros Hr. by apply (Hfresh promise); [apply Hres|].
  - intros q Hq. apply Hfresh. by destruct (Hp q Hq) as (_ & ? & _).
Qed.

Lemma commit_command_ok command callback n :
  node_ok n → node_ok (commit_command command callback n).2.
Proof.
  intros Hok. destruct (new_promise_ok n Hok) as (Hok1 & Hop & Hr & Hq).
  unfold commit_command. set (n1 := on_context _ n) in *. clearbody n1. cbv zeta.
  rewrite is_leader_state. case_bool_decide as Hst; simpl; [|by apply cancel_commit_ok].
  case_test; [by apply complete_commit_ok|].
  unfold set_pending_commit. simpl. rewrite N.eqb_refl. simpl.
  destruct (match pending_commit_ (context_ n1) with Some _ => _ | None => _ end); simpl.
  - by apply cancel_commit_ok.
  - apply set_pending_ok; [|done]. by intros p [= <-].
Qed.

Lemma run_input_ok input n : node_ok n → node_ok (run_input input n).
Proof.
  intros Hok. destruct input; simpl; try node_same Hok.
  - destruct (election_timer_ (context_ n)); [|done]. unfold on_election_timer.
    case_test; [node_same Hok|by apply handle_event_ok].
  - destruct (broadcast_timer_ (context_ n)); [|done]. by apply handle_event_ok.
  - by apply on_append_entries_requested_ok.
  - by apply on_request_vote_requested_ok.
  - by apply on_append_entries_response_ok.
  - by apply on_request_vote_response_ok.
  - by apply commit_command_ok.
Qed.

Lemma run_inputs_ok inputs n : node_ok n → node_ok (run_inputs inputs n).
Proof. revert n; induction inputs as [|i l IH]; intros n Hn; [done|]. by apply IH, run_input_ok. Qed.

End inputs.

(** ** A new node *)

Section new_node.
  Context `{PlatformSpec} (cluster_name : string) (id : N) (ids : list N).
  Context (options : ClusterNodeOptions) (open_db : string → option DB) (g : RNG).
  Implicit Types (n : Node).

(** The peers: every other identifier of the cluster, with fresh indices. *)
Lemma initialize_other_nodes_lookup l (c : Context) j :
  other_nodes_ (initialize_other_nodes l c) !! j =
    if decide (j ∈ l ∧ j ≠ node_id_ c)
    then Some (new_OtherNode (cluster_name_ c) j (logs_size (store_ c)))
    else other_nodes_ c !! j.
Proof.
  unfold initialize_other_nodes. generalize (logs_size (store_ c)) as next. intros next.
  revert c; induction l as [|x l IH]; intros c; cbn [foldl].
  { rewrite decide_False; [done|]. by intros [?%not_elem_of_nil _]. }
  rewrite IH. destruct (N.eqb_spec x (node_id_ c)) as [->|Hx]; simpl.
  - apply decide_ext. set_solver.
  - destruct (decide (j ∈ l ∧ j ≠ node_id_ c)), (decide (j ∈ x :: l ∧ j ≠ node_id_ c));
      try set_solver.
    + assert (j = x) as -> by set_solver. by rewrite lookup_insert_eq.
    + rewrite lookup_insert_ne; set_solver.
Qed.

Lemma initialize_other_nodes_eq l (c : Context) :
  ∃ m, initialize_other_nodes l c = set_other_nodes m c.
Proof.
  unfold initialize_other_nodes. generalize (logs_size (store_ c)) as next. intros next.
  revert c; induction l as [|x l IH]; intros c; simpl.
  { exists (other_nodes_ c). by destruct c. }
  case_test; [apply IH|].
  destruct (IH (set_other_nodes
    (<[x := new_OtherNode (cluster_name_ c) x next]> (other_nodes_ c)) c)) as [m ->]. by exists m.
Qed.

(** The node just before its machine is started. *)
Definition constructed : Node :=
  let n := unconstructed
    (new_Context cluster_name id (NodeUtil.get_node_name cluster_name id)
       (election_timeout_min options) (election_timeout_max options) (temp_directory options)
       open_db g) in
  let n := new_raft_StateMachine raft_fsm_address ids n in
  let n := new_lifecycle_StateMachine lifecycle_fsm_address n in
  let n := subscribe_state lifecycle_fsm_of cluster_node_address n in
  subscribe_state raft_fsm_of cluster_node_address n.

Definition db_file : string :=
  temp_directory options +:+ "/foros_" +:+ NodeUtil.get_node_name cluster_name id.

Lemma constructed_context : ∃ m,
  context_ constructed = set_other_nodes m
    (set_majority (wrap32 (N.shiftr (wrap32 (N.of_nat (length ids))) 1 + 1))
      (Node.set_cluster_size (wrap32 (N.of_nat (length ids)))
        (initialize_node (new_Context cluster_name id (NodeUtil.get_node_name cluster_name id)
           (election_timeout_min options) (election_timeout_max options)
           (temp_directory options) open_db g)))).
Proof.
  unfold constructed. cbn [context_ subscribe_state update lifecycle_fsm_of raft_fsm_of
    set_raft_fsm set_lifecycle_fsm view new_lifecycle_StateMachine new_StateMachine
    new_raft_StateMachine on_context set_context lifecycle_methods StateMachine.entry
    Lifecycle.state_entry].
  unfold initialize.
  match goal with |- context [initialize_other_nodes ids ?c] =>
    destruct (initialize_other_nodes_eq ids c) as [m E]; exists m; etrans; [exact E|] end.
  done.
Qed.

Lemma constructed_peers j : other_nodes_ (context_ constructed) !! j =
  if decide (j ∈ ids ∧ j ≠ id)
  then Some (new_OtherNode cluster_name j (logs_size (new_ContextStore (open_db db_file))))
  else None.
Proof.
  unfold constructed. cbn [context_ subscribe_state update lifecycle_fsm_of raft_fsm_of
    set_raft_fsm set_lifecycle_fsm view new_lifecycle_StateMachine new_StateMachine
    new_raft_StateMachine on_context set_context lifecycle_methods StateMachine.entry
    Lifecycle.state_entry].
  unfold initialize. etrans; [apply initialize_other_nodes_lookup|]. done.
Qed.

Lemma constructed_ok : election_timeout_min options ≤ election_timeout_max options →
  node_ok constructed.
Proof.
  intros Hle. destruct constructed_context as [m E]. split.
  - by split; try apply (bool_decide_unpack _).
  - split; rewrite E; done.
  - split; rewrite ?E; try done. by intros p ?%not_elem_of_nil.
  - unfold log_ok, store. rewrite E. apply new_ContextStore_wf.
Qed.

Lemma new_ClusterNode_ok : election_timeout_min options ≤ election_timeout_max options →
  node_ok (new_ClusterNode cluster_name id ids options open_db g).
Proof. intros Hle. by apply handle_event_ok, constructed_ok. Qed.

(** What a new node starts with. *)
Lemma new_ClusterNode_facts :
  let n := new_ClusterNode cluster_name id ids options open_db g in
  store n = new_ContextStore (open_db db_file) ∧ node_id_ (context_ n) = id ∧
  majority_ (context_ n) = wrap32 (N.shiftr (wrap32 (N.of_nat (length ids))) 1 + 1) ∧
  states_ (raft_fsm_ n) = raft_states ∧ raft_state n = kFollower.
Proof.
  intros n. change n with (raft_handle (S 1) kStarted constructed).
  destruct (raft_handle_simple_change 1 kStarted constructed) as [Hs _ Hid Hmaj _ _ _ _ Hss _];
    [done..|].
  destruct constructed_context as [m E].
  rewrite Hs, Hid, Hmaj, Hss, raft_handle_simple_state by done.
  unfold store. rewrite E. done.
Qed.

End new_node.

(** ** Reachable nodes *)

(** A node that has been created, with sensible timeouts, on any database, and
    has run any inputs. *)
Definition reachable `{Platform} (n : Node) : Prop :=
  ∃ cluster_name id ids options open_db g inputs,
    election_timeout_min options ≤ election_timeout_max options ∧
    n = run_inputs inputs (new_ClusterNode cluster_name id ids options open_db g).

Lemma reachable_ok `{PlatformSpec} (n : Node) : reachable n → node_ok n.
Proof.
  intros (name & id & ids & options & open_db & g & inputs & Hle & ->).
  by apply run_inputs_ok, new_ClusterNode_ok.
Qed.

Lemma reachable_run `{Platform} inputs (n : Node) : reachable n → reachable (run_inputs inputs n).
Proof.
  intros (name & id & ids & options & open_db & g & inputs' & Hle & ->).
  exists name, id, ids, options, open_db, g, (inputs' ++ inputs). split; [done|].
  unfold run_inputs. by rewrite foldl_app.
Qed.

Lemma run_inputs_nil `{Platform} (n : Node) : run_inputs [] n = n.
Proof. done. Qed.

Lemma new_ClusterNode_reachable `{Platform} cluster_name id ids options open_db g :
  election_timeout_min options ≤ election_timeout_max options →
  reachable (new_ClusterNode cluster_name id ids options open_db g).
Proof.
  intros Hle. exists cluster_name, id, ids, options, open_db, g, []. split; [done|].
  by rewrite run_inputs_nil.
Qed.

Lemma reachable_states `{PlatformSpec} (n : Node) :
  reachable n → states_ (raft_fsm_ n) = raft_states.
Proof. intros Hr. apply (ok_states _ (node_machines _ (reachable_ok _ Hr))). Qed.

Lemma reachable_log `{PlatformSpec} (n : Node) : reachable n → log_wf (logs_ (store n)).
Proof. intros Hr. apply (node_log _ (reachable_ok _ Hr)). Qed.

(** A node is active exactly when it leads. *)
Lemma machines_activated `{PlatformSpec} (n : Node) :
  machines_ok n → ClusterNode_is_activated n = is_leader n.
Proof.
  intros [_ Hst _ _ _ Hl].
  unfold ClusterNode_is_activated, is_activated, get_current_state_type. simpl. rewrite Hl.
  apply bool_decide_ext. unfold raft_state, get_current_state_type in *. simpl.
  by destruct (current_state_ (raft_fsm_ n)).
Qed.

Lemma activated_leader `{PlatformSpec} (n : Node) :
  reachable n → ClusterNode_is_activated n = is_leader n.
Proof. intros Hr%reachable_ok. apply machines_activated, Hr. Qed.

(** So what a leader's publishers and services pass on. *)
Lemma gate_leader `{PlatformSpec} {A : Type} (n : Node) (m : A) :
  reachable n → gate (Some n) m = if is_leader n then Some m else None.
Proof.
  intros Hr. unfold gate. rewrite activated_leader by done. by destruct (is_leader n).
Qed.
