(* ===== verification/Demo.v ===== *)
(** * Concrete nodes for the witnesses

    A cluster of three nodes in memory, and nodes of it in a few situations. *)

From S2P Require Import Prelude Codec Platform LogEntry ClusterNodeOptions.
From S2P Require Import ContextStore ContextStoreFacts NodeUtil RaftTypes OtherNode StateMachine.
From S2P Require Import Lifecycle Node StateMachineInterface RaftContext RaftContextFacts.
From S2P Require Import RaftStateMachine ClusterNodeImpl NodeInvariant.

Local Open Scope N_scope.

Definition demo_options : ClusterNodeOptions := new_ClusterNodeOptions "/tmp".

(** Node [id] of a cluster, on an empty database. *)
Definition demo_node (ids : list N) (id : N) : Node (H := mem_platform) :=
  new_ClusterNode "demo" id ids demo_options (λ _, Some empty_db) 3.

Definition demo_command : Command := mkCommand [x61].

(** What brings node 1 of three to the leadership of term 1. *)
Definition demo_election : list NodeInput :=
  [ServiceDiscovery 2 true true; ElectionTimer;
   RequestVoteAnswer (mkRequestVoteResponse 1 true)].

Definition demo_leader : Node := run_inputs demo_election (demo_node [1; 2; 3] 1).

(** The only node of its cluster, leading with one entry in its log. *)
Definition demo_single : Node :=
  run_inputs [RegisterOnCommitted; ElectionTimer; CommitCommand (Some demo_command) true]
    (demo_node [1] 1).

(** A request of leader 2 that carries the first entry, in term 1. *)
Definition demo_request : AppendEntriesRequest := mkAppendEntriesRequest 1 2 0 0 [x61] 0.

Definition demo_follower : Node := run_inputs [AppendEntries demo_request] (demo_node [1; 2; 3] 1).

Lemma demo_reachable ids id inputs : reachable (run_inputs inputs (demo_node ids id)).
Proof.
  exists "demo"%string, id, ids, demo_options, (λ _, Some empty_db), 3, inputs. split; [|done].
  by vm_compute.
Qed.

Lemma demo_node_reachable ids id : reachable (demo_node ids id).
Proof. unfold demo_node. apply new_ClusterNode_reachable. vm_compute. discriminate. Qed.
