(* ===== verification/AppendEntries.v ===== *)
(** * Replication on the side of the follower

    [replicate] says what an append-entries request does to a log, as a function
    on lists; [Context::on_append_entries_requested] implements it. *)

From S2P Require Import Prelude Codec Platform LogEntry ContextStore ContextStoreFacts.
From S2P Require Import StoreTheorems NodeUtil RaftTypes OtherNode StateMachine Lifecycle Node.
From S2P Require Import StateMachineInterface RaftContext RaftContextFacts Election VoteFacts.

Local Open Scope N_scope.

(** ** Specification *)

Definition entry_of (r : AppendEntriesRequest) : LogEntry :=
  mkLogEntry (ae_leader_commit r) (ae_term r) (Some (mkCommand (ae_entries r))).

(** What the user is told: a position given up, a command committed. *)
Inductive LogEvent := Reverted (id : N) | Committed (e : LogEntry).

(** Bring the entry of the request to its position, which must not lie beyond
    the end of the log; what follows that position is given up. *)
Definition accept (r : AppendEntriesRequest) (l : list LogEntry) :
    bool * list LogEntry * list LogEvent :=
  let i := ae_leader_commit r in
  match last l with
  | Some e =>
      if (id_ e =? i) && (term_ e =? ae_term r) then (true, l, []) else
      if i <? N.of_nat (length l) then
        (true, take (N.to_nat i) l ++ [entry_of r], [Reverted i; Committed (entry_of r)])
      else if i =? N.of_nat (length l) then (true, l ++ [entry_of r], [Committed (entry_of r)])
      else (false, l, [])
  | None => if i =? 0 then (true, [entry_of r], [Committed (entry_of r)]) else (false, l, [])
  end.

(** The first entry is always accepted. Another one is, if the entry before it
    is in the log with the announced term; if its term differs it is given up. *)
Definition replicate (r : AppendEntriesRequest) (l : list LogEntry) :
    bool * list LogEntry * list LogEvent :=
  if ae_leader_commit r =? 0 then accept r l else
  match l !! N.to_nat (ae_prev_log_index r) with
  | None => (false, l, [])
  | Some p =>
      if term_ p =? ae_prev_log_term r then accept r l
      else (false, take (N.to_nat (ae_prev_log_index r)) l, [])
  end.

(** The callbacks that the events become, given which are registered. *)
Definition output_of (committed reverted : bool) (ev : LogEvent) : list Output :=
  match ev with
  | Reverted i => if reverted then [RevertCallback i] else []
  | Committed e => if committed then [CommitCallback (id_ e) (command_ e)] else []
  end.

(** The callbacks are unfolded by lemmas. *)
Arguments invoke_commit_callback {_} _ _ : simpl never.

Section refinement.
  Context `{Platform}.
  Implicit Types (n : Node) (s : ContextStore) (l : list LogEntry).

(** Every write to the database succeeds, now and after other writes. *)
Definition db_writable (d : DB) : Prop :=
  ∀ writes k v, (db_put (foldl (λ d p, (db_put d p.1 p.2).2) d writes) k v).1 = true.

Definition writable s : Prop := ∃ d, db_ s = Some d ∧ db_writable d.

Definition outputs_of n (evs : list LogEvent) : list Output :=
  evs ≫= output_of (commit_callback_ (context_ n)) (revert_callback_ (context_ n)).

(** *** Writes *)

Lemma db_writable_put d k v : db_writable d → ∃ d', db_put d k v = (true, d') ∧ db_writable d'.
Proof.
  intros Hd. pose proof (Hd [] k v) as Hp. simpl in Hp.
  destruct (db_put d k v) as [ok d'] eqn:E. simpl in Hp. subst ok. exists d'. split; [done|].
  intros writes. specialize (Hd ((k, v) :: writes)). simpl in Hd. by rewrite E in Hd.
Qed.

Lemma put_writable k v s : writable s →
  ∃ d, put k v s = (true, with_db (Some d) s) ∧ db_writable d.
Proof.
  intros (d & Hd & Hw). unfold put. rewrite Hd.
  destruct (db_writable_put d k v Hw) as (d' & -> & ?). by exists d'.
Qed.

Lemma push_log_writable e s : writable s → id_ e = logs_size s → is_Some (command_ e) →
  ∃ d, push_log (Some e) s = (true, with_db (Some d) (with_logs (logs_ s ++ [e]) s)) ∧
    db_writable d.
Proof.
  intros Hw Hid [cmd Hc]. unfold push_log. rewrite Hc, Hid, N.eqb_refl. simpl.
  destruct (put_writable (get_log_term_key (logs_size s)) (encode_u64 (term_ e)) s Hw)
    as (d1 & E1 & Hw1).
  unfold store_log_term. rewrite E1. simpl.
  set (s1 := with_db (Some d1) s).
  destruct (put_writable (get_log_data_key (logs_size s)) (data cmd) s1) as (d2 & E2 & Hw2);
    [by exists d1|].
  unfold store_log_data. rewrite E2. simpl. set (s2 := with_db (Some d2) s1).
  destruct (put_writable kLogSizeKey (encode_u64 (wrap64 (logs_size s2 + 1))) s2)
    as (d3 & E3 & Hw3); [by exists d2|].
  unfold store_logs_size. rewrite E3. simpl. by exists d3.
Qed.

Lemma revert_log_writable id s : writable s → writable (revert_log id s).2.
Proof.
  intros Hw. destruct (revert_log_cases id s) as [[_ ->]|[_ ->]]; [done|]. simpl.
  destruct (put_writable kLogSizeKey (encode_u64 id) (with_logs (take (N.to_nat id) (logs_ s)) s))
    as (d & E & Hd); [done|].
  unfold store_logs_size. rewrite E. by exists d.
Qed.

Lemma revert_log_logs id s :
  logs_ (revert_log id s).2 = take (N.to_nat id) (logs_ s).
Proof.
  destruct (revert_log_cases id s) as [[Hle ->]|[_ ->]]; simpl.
  - unfold logs_size in Hle. by rewrite take_ge by lia.
  - by rewrite store_logs_size_frame.
Qed.

(** *** The local commit *)

Lemma last_wf l e : log_wf l → last l = Some e →
  id_ e + 1 = N.of_nat (length l) ∧ is_Some (command_ e).
Proof.
  intros Hwf Hl. rewrite last_lookup in Hl. destruct (Hwf _ _ Hl) as [-> ?].
  split; [|done]. apply lookup_lt_Some in Hl. lia.
Qed.

Lemma outputs_invoke_commit e n :
  outputs_ (invoke_commit_callback (Some e) n) = outputs_ n ++ outputs_of n [Committed e] ∧
  store (invoke_commit_callback (Some e) n) = store n.
Proof.
  unfold outputs_of, invoke_commit_callback. simpl.
  destruct (commit_callback_ (context_ n)); simpl; [done|]. by rewrite app_nil_r.
Qed.

Lemma outputs_invoke_revert i n :
  outputs_ (invoke_revert_callback i n) = outputs_ n ++ outputs_of n [Reverted i] ∧
  context_ (invoke_revert_callback i n) = context_ n.
Proof.
  unfold outputs_of, invoke_revert_callback. simpl.
  destruct (revert_callback_ (context_ n)); simpl; [done|]. by rewrite app_nil_r.
Qed.

(** Pushing at the end of the log succeeds, or a write fails. *)
Lemma push_and_notify_spec e n : is_Some (command_ e) →
  let '(ok, n') := push_and_notify e n in
  writable (store n) ∨ ok = true →
  ok = (id_ e =? logs_size (store n)) ∧
  logs_ (store n') = logs_ (store n) ++ (if ok then [e] else []) ∧
  outputs_ n' = outputs_ n ++ (if ok then outputs_of n [Committed e] else []).
Proof.
  intros Hc. unfold push_and_notify. destruct (push_log (Some e) (store n)) as [[] s] eqn:E.
  - pose proof (push_log_true _ _ _ E) as (e' & [= <-] & Hid & _ & F). cbn [negb].
    intros _.
    destruct (outputs_invoke_commit e (on_store (λ _, s) n)) as [-> ->].
    split_and!; [by rewrite Hid, N.eqb_refl|by rewrite store_on_store, F|done].
  - intros [Hw|]; [|done].
    destruct (N.eqb_spec (id_ e) (logs_size (store n))) as [Hid|Hid].
    { destruct (push_log_writable e (store n) Hw Hid Hc) as (d & E' & _). congruence. }
    rewrite !app_nil_r. split_and!; try done. simpl.
    pose proof (push_log_false _ _ _ E) as F. by rewrite store_on_store, F.
Qed.

Lemma request_local_commit_accept r n : log_wf (logs_ (store n)) →
  let '(ok, l, evs) := accept r (logs_ (store n)) in
  let '(res, n') := request_local_commit r n in
  writable (store n) ∨ res = true →
  res = ok ∧ logs_ (store n') = l ∧ outputs_ n' = outputs_ n ++ outputs_of n evs.
Proof.
  intros Hwf. unfold accept, request_local_commit, last_log.
  assert (∀ n1 : Node, outputs_of n1 [] = []) as Hnil by done.
  fold (entry_of r). destruct (last (logs_ (store n))) as [e|] eqn:Hlast.
  2: { apply last_None in Hlast.
    pose proof (push_and_notify_spec (entry_of r) n ltac:(eauto)) as Hp.
    destruct (push_and_notify _ _) as [res n']. unfold logs_size in Hp. rewrite Hlast in *.
    change (id_ (entry_of r) =? N.of_nat (length [])) with (ae_leader_commit r =? 0) in Hp.
    rewrite app_nil_l in Hp. revert Hp. case_test; intros Hp Hw; destruct (Hp Hw) as (-> & -> & ->);
      by rewrite ?Hnil, ?app_nil_r. }
  destruct (last_wf _ _ Hwf Hlast) as [Hid Hcmd].
  rewrite (bool_decide_true _ Hcmd). simpl.
  destruct (_ && _); [by rewrite Hnil, app_nil_r|].
  set (i := ae_leader_commit r) in *.
  assert ((i <=? id_ e) = (i <? N.of_nat (length (logs_ (store n))))) as ->
    by (destruct (N.leb_spec i (id_ e)), (N.ltb_spec i (N.of_nat (length (logs_ (store n)))));
        lia || done).
  destruct (N.ltb_spec i (N.of_nat (length (logs_ (store n))))).
  - set (n1 := on_store (λ s, (revert_log i s).2) n).
    pose proof (outputs_invoke_revert i n1) as [Hout Hctx].
    set (n2 := invoke_revert_callback i n1) in *.
    pose proof (push_and_notify_spec (entry_of r) n2 ltac:(eauto)) as Hp.
    destruct (push_and_notify _ _) as [res n']. intros Hw.
    assert (logs_ (store n2) = take (N.to_nat i) (logs_ (store n))) as Hlogs
      by (unfold store; rewrite Hctx; apply revert_log_logs).
    destruct Hp as (-> & -> & ->).
    { destruct Hw; [left|by right]. unfold store. rewrite Hctx. by apply revert_log_writable. }
    unfold logs_size. rewrite Hlogs, length_take_le, N2Nat.id by lia.
    change (id_ (entry_of r)) with i. rewrite N.eqb_refl, Hout.
    split_and!; [done..|]. unfold outputs_of. rewrite Hctx. simpl.
    by rewrite !app_nil_r, <-app_assoc.
  - pose proof (push_and_notify_spec (entry_of r) n ltac:(eauto)) as Hp.
    destruct (push_and_notify _ _) as [res n']. unfold logs_size in Hp.
    change (id_ (entry_of r)) with i in Hp. revert Hp.
    case_test; intros Hp Hw; destruct (Hp Hw) as (-> & -> & ->); by rewrite ?Hnil, ?app_nil_r.
Qed.

End refinement.

(** ** The handler *)

Section handler.
  Context `{StateMachineContract}.
  Implicit Types (n : Node) (s : ContextStore).

(** What a request does before its entries are looked at: unless it is stale,
    its sender is the leader of its term. *)
Definition contacted (r : AppendEntriesRequest) (n : Node) : Node :=
  if ae_term r <? current_term (store n) then n else
  on_leader_discovered (on_context (set_broadcast_received true)
    (update_term (ae_term r) false n).2).

Lemma put_writable_2 k v s : writable s → writable (put k v s).2.
Proof. intros Hw. destruct (put_writable k v s Hw) as (d & -> & ?). by exists d. Qed.

Lemma reset_vote_writable n : writable (store n) → writable (store (reset_vote n)).
Proof.
  intros Hw. unfold reset_vote, on_store, store. simpl.
  apply put_writable_2, put_writable_2, Hw.
Qed.

Lemma update_term_writable term n :
  writable (store n) → writable (store (update_term term false n).2).
Proof.
  intros Hw. unfold update_term. case_test; [done|].
  simpl. rewrite (state_change_store _ _ (on_new_term_received_change _)).
  apply reset_vote_writable. apply put_writable_2, Hw.
Qed.

Lemma update_term_frame term n :
  logs_ (store (update_term term false n).2) = logs_ (store n) ∧
  current_term_ (store (update_term term false n).2) = N.max (current_term_ (store n)) term ∧
  commit_callback_ (context_ (update_term term false n).2) = commit_callback_ (context_ n) ∧
  revert_callback_ (context_ (update_term term false n).2) = revert_callback_ (context_ n).
Proof.
  destruct (decide (term ≤ current_term_ (store n))).
  { rewrite update_term_old by done. split_and!; try done. simpl. lia. }
  destruct (update_term_new term false n) as [d ->]; [lia|]. simpl.
  destruct (on_new_term_received_change (in_new_term d term n)) as [Hs _ _ _ _ _ Hc Hr _ _].
  rewrite Hs, Hc, Hr. split_and!; try done. simpl. lia.
Qed.

Lemma contacted_frame r n :
  logs_ (store (contacted r n)) = logs_ (store n) ∧
  current_term_ (store (contacted r n)) = N.max (current_term_ (store n)) (ae_term r) ∧
  commit_callback_ (context_ (contacted r n)) = commit_callback_ (context_ n) ∧
  revert_callback_ (context_ (contacted r n)) = revert_callback_ (context_ n).
Proof.
  unfold contacted, current_term. case_test; [split_and!; try done; lia|].
  destruct (on_leader_discovered_change (on_context (set_broadcast_received true)
    (update_term (ae_term r) false n).2)) as [Hs _ _ _ _ _ Hc Hr _ _].
  rewrite Hs, Hc, Hr. apply update_term_frame.
Qed.

Lemma contacted_writable r n : writable (store n) → writable (store (contacted r n)).
Proof.
  intros Hw. unfold contacted. case_test; [done|].
  rewrite (state_change_store _ _ (on_leader_discovered_change _)).
  by apply update_term_writable.
Qed.

Lemma log_eq id s : log id s = logs_ s !! N.to_nat id.
Proof.
  unfold log, logs_size. case_test; [|done]. symmetry. apply lookup_ge_None. lia.
Qed.

Lemma on_append_entries_requested_eq r n :
  is_valid_node (ae_leader_id r) n = true →
  on_append_entries_requested r n =
    let n1 := contacted r n in
    let respond ok := mkAppendEntriesResponse (current_term (store n)) ok in
    if (length (ae_entries r) =? 0)%nat then (respond false, n1) else
    if ae_leader_commit r =? 0 then
      let '(ok, n') := request_local_commit r n1 in (respond ok, n')
    else
    match log (ae_prev_log_index r) (store n1) with
    | None => (respond false, n1)
    | Some p =>
        if negb (term_ p =? ae_prev_log_term r) then
          (respond false, request_local_rollback (id_ p) n1)
        else let '(ok, n') := request_local_commit r n1 in (respond ok, n')
    end.
Proof.
  intros Hv. unfold on_append_entries_requested. rewrite Hv. cbn [negb]. cbv zeta.
  assert ((if ae_term r <? current_term (store n) then n
    else let '(_, n1) := update_term (ae_term r) false n in
      on_leader_discovered (on_context (set_broadcast_received true) n1)) = contacted r n) as ->.
  { unfold contacted. case_test; [done|]. by destruct (update_term _ _ _). }
  done.
Qed.

Lemma on_append_entries_requested_replicate r n :
  is_valid_node (ae_leader_id r) n = true → ae_entries r ≠ [] → log_wf (logs_ (store n)) →
  let '(ok, l, evs) := replicate r (logs_ (store n)) in
  let '(resp, n') := on_append_entries_requested r n in
  writable (store n) ∨ ae_success resp = true →
  resp = mkAppendEntriesResponse (get_term n) ok ∧
  logs_ (store n') = l ∧
  outputs_ n' = outputs_ (contacted r n) ++ outputs_of n evs.
Proof.
  intros Hv Hne Hwf. rewrite on_append_entries_requested_eq by done. cbv zeta.
  destruct (contacted_frame r n) as (Hlogs & _ & Hcc & Hrc).
  pose proof (contacted_writable r n) as Hw. set (n1 := contacted r n) in *. clearbody n1.
  destruct (Nat.eqb_spec (length (ae_entries r)) 0) as [Hl|_];
    [by apply nil_length_inv in Hl|].
  assert (∀ evs, outputs_of n1 evs = outputs_of n evs) as Houts
    by (intros; unfold outputs_of; by rewrite Hcc, Hrc).
  pose proof (request_local_commit_accept r n1) as Hacc. rewrite Hlogs in Hacc.
  specialize (Hacc Hwf). unfold replicate. rewrite log_eq, Hlogs.
  assert (∀ ok : bool, outputs_ n1 = outputs_ n1 ++ outputs_of n []) as Hnil
    by (intros; unfold outputs_of; simpl; by rewrite app_nil_r).
  destruct (accept r (logs_ (store n))) as [[ok l] evs].
  destruct (request_local_commit r n1) as [res n'].
  case_test.
  { simpl. intros Hor. rewrite <-Houts.
    destruct Hacc as (-> & -> & ->); [naive_solver|done]. }
  destruct (logs_ (store n) !! _) as [p|] eqn:Hp; [|by rewrite <-(Hnil true)].
  destruct (Hwf _ _ Hp) as [Hid _]. rewrite N2Nat.id in Hid.
  case_test; simpl.
  - intros Hor. rewrite <-Houts. destruct Hacc as (-> & -> & ->); [naive_solver|done].
  - intros _. split_and!; [done| |exact (Hnil true)].
    unfold request_local_rollback. rewrite store_on_store, revert_log_logs, Hlogs. by rewrite Hid.
Qed.

(** *** Writable databases stay writable *)

Lemma push_log_keeps_writable e s : writable s → writable (push_log e s).2.
Proof.
  intros Hw. unfold push_log, store_log_term, store_log_data, store_logs_size.
  destruct e as [e|]; [|done]. destruct (command_ e) as [c|]; [|done].
  destruct (negb (_ =? _)); [done|].
  repeat (match goal with |- context [put ?k ?v ?s'] =>
    let Hp := fresh in assert (writable (put k v s').2) as Hp by (by apply put_writable_2);
    destruct (put k v s') as [[] ?]; simpl in Hp; simpl; [|done] end).
  done.
Qed.

Lemma push_and_notify_writable e n :
  writable (store n) → writable (store (push_and_notify e n).2).
Proof.
  intros Hw. unfold push_and_notify.
  pose proof (push_log_keeps_writable (Some e) _ Hw) as Hp.
  destruct (push_log (Some e) (store n)) as [[] s]; simpl in *; [|done].
  by rewrite (proj2 (outputs_invoke_commit _ _)).
Qed.

Lemma request_local_commit_writable r n :
  writable (store n) → writable (store (request_local_commit r n).2).
Proof.
  intros Hw. unfold request_local_commit. cbv zeta.
  destruct (last_log (store n)) as [e|]; [|by apply push_and_notify_writable].
  destruct (_ && _ && _); [done|]. apply push_and_notify_writable. case_test; [|done].
  unfold store. rewrite (proj2 (outputs_invoke_revert _ _)). by apply revert_log_writable.
Qed.

Lemma on_append_entries_requested_writable r n :
  writable (store n) → writable (store (on_append_entries_requested r n).2).
Proof.
  intros Hw. destruct (is_valid_node (ae_leader_id r) n) eqn:Hv.
  2: { unfold on_append_entries_requested. by rewrite Hv. }
  rewrite on_append_entries_requested_eq by done. cbv zeta.
  pose proof (contacted_writable r n Hw) as Hc.
  pose proof (request_local_commit_writable r _ Hc) as Hl.
  destruct (_ =? _)%nat; [done|]. destruct (request_local_commit r (contacted r n)) as [ok n'].
  case_test; [done|]. destruct (log _ _); [|done]. case_test; [done|].
  by apply revert_log_writable.
Qed.

End handler.

(** A database in memory without faults. *)
Lemma mem_writable (d : @DB mem_platform) : faults d = [] → db_writable d.
Proof.
  intros Hd writes. revert d Hd. induction writes as [|[k v] writes IH]; intros d Hd k' v'.
  - simpl. unfold mem_put. by rewrite Hd.
  - apply IH. simpl. unfold mem_put. by rewrite Hd.
Qed.
