(* ===== verification/Journal.v ===== *)
(** * Crashes of the store

    The process may end between any two writes to the database
    ([Platform.CrashHistory]).  [journaled] adds the history of its database to
    any platform.  [tracked s0 p s] says that the store [s], and every database
    that a crash since the first [p] writes can leave, has kept what [s0] must not
    forget; each operation of the store preserves it. *)

From S2P Require Import Prelude Codec Platform LogEntry ContextStore ContextStoreFacts.
From S2P Require Import AppendEntries.

Local Open Scope N_scope.

(** ** The history of any platform *)

Section journal.
  Context {P : Platform}.

Record JournaledDB := mkJournaledDB { now : DB; past : list DB }.

Definition journaled_put (d : JournaledDB) (k : string) (v : list byte) : bool * JournaledDB :=
  let '(ok, d') := db_put (now d) k v in (ok, mkJournaledDB d' (past d ++ [d'])).

Definition journaled : Platform := {|
  DB := JournaledDB;
  db_get d := db_get (now d);
  db_put := journaled_put;
  RNG := RNG;
  uniform_int := uniform_int;
|}.

(** Opening the database again: its history starts anew. *)
Definition reopen (d : DB) : JournaledDB := mkJournaledDB d [].

Context {S : PlatformSpec}.

#[export] Instance journaled_spec : PlatformSpec (H := journaled).
Proof.
  refine (@Build_PlatformSpec journaled (λ d, db_contents (now d)) _ _ _ _ _); simpl.
  - intros d. apply db_get_ok.
  - intros d. apply db_get_notfound.
  - intros d k v d'. unfold journaled_put. destruct (db_put (now d) k v) as [ok e] eqn:E.
    intros [= -> <-]. by apply db_put_ok.
  - intros d k v b d' j. unfold journaled_put. destruct (db_put (now d) k v) as [ok e] eqn:E.
    intros [= -> <-]. by eapply db_put_other.
  - apply uniform_int_range.
Defined.

#[export] Instance journaled_history : CrashHistory (H := journaled).
Proof.
  refine (@Build_CrashHistory journaled journaled_spec
    (λ d, reopen <$> past d : list (@DB journaled)) _).
  intros d k v b d'. simpl. unfold journaled_put. destruct (db_put (now d) k v) as [ok e] eqn:E.
  intros [= -> <-]. exists (reopen e). simpl. by rewrite fmap_app.
Defined.

End journal.

Arguments journaled : clear implicits.

(** ** What a restart must not lose *)

Section tracked.
  Context `{CrashHistory}.
  Implicit Types (s m : ContextStore) (d : DB).

(** The term never falls back, and a vote of the same term is kept. *)
Record keeps_vote s m : Prop := {
  keeps_term : current_term_ s ≤ current_term_ m;
  keeps_voted : current_term_ m = current_term_ s → voted_ s = true →
    voted_ m = true ∧ voted_for_ m = voted_for_ s;
}.

(** The log of [s] is a part of that of [s0]. *)
Definition cut_log (l l' : list LogEntry) : Prop := ∃ k, l' = take k l.

(** A crash on the way from [s0] to [s] leaves the store [m]. *)
Record survives (s0 s m : ContextStore) : Prop := {
  survives_vote : keeps_vote s0 m;
  survives_logs : cut_log (logs_ s0) (logs_ m) ∨ logs_ m = logs_ s;
}.

Record tracked_at (s0 : ContextStore) (p : nat) d s : Prop := {
  tracked_persisted : persisted s d;
  tracked_writable : db_writable d;
  tracked_past : (p ≤ length (snapshots d))%nat;
  tracked_crash e : e ∈ drop p (snapshots d) → ∃ m, persisted m e ∧ survives s0 s m;
  tracked_vote : keeps_vote s0 s;
}.

Definition tracked (s0 : ContextStore) (p : nat) s : Prop := ∃ d, tracked_at s0 p d s.

Lemma keeps_vote_refl s : keeps_vote s s.
Proof. split; [lia|done]. Qed.

Lemma cut_log_refl l : cut_log l l.
Proof. exists (length l). by rewrite firstn_all. Qed.

Lemma cut_log_take i l l' : cut_log l l' → cut_log l (take i l').
Proof. intros [k ->]. rewrite take_take. by eexists. Qed.

(** A handler starts with nothing to recover from. *)
Lemma tracked_start d s : persisted s d → db_writable d →
  tracked s (length (snapshots d)) s.
Proof.
  intros Hp Hw. exists d. split; [done..| |apply keeps_vote_refl].
  intros e He. rewrite drop_ge in He by done. by apply not_elem_of_nil in He.
Qed.

(** ** Writes *)

Lemma persisted_same_contents s d e : persisted s d → db_contents e = db_contents d →
  persisted (with_db (Some e) s) e.
Proof. by intros [] E; split; simpl; rewrite ?E. Qed.

(** One write, after which the store is [s1]. *)
Lemma write_tracked s0 p d s k v d' s1 :
  tracked_at s0 p d s → db_put d k v = (true, d') → db_writable d' →
  persisted (with_db (Some d') s1) d' → keeps_vote s0 s1 →
  logs_ s1 = logs_ s ∨ cut_log (logs_ s0) (logs_ s) →
  tracked_at s0 p d' (with_db (Some d') s1).
Proof.
  intros [_ _ Hp Hc _] Hput Hw Hs1 Hv Hl.
  destruct (snapshots_put _ _ _ _ _ Hput) as (e & Hsnap & He).
  split; [done..| | |by destruct Hv].
  - rewrite Hsnap, length_app. lia.
  - intros e'. rewrite Hsnap, drop_app_le by done.
    intros [He'| ->%list_elem_of_singleton]%elem_of_app.
    + destruct (Hc e' He') as (m & Hm & [Hsv Hlm]). exists m. split; [done|]. split; [done|].
      destruct Hlm as [|Hlm]; [by left|]. destruct Hl as [Hl|Hl].
      * right. simpl. congruence.
      * left. by rewrite Hlm.
    + exists (with_db (Some e) s1). split; [by apply (persisted_same_contents (with_db (Some d') s1) d')|].
      split; [by destruct Hv|by right].
Qed.

(** The next write is to the open database, and succeeds. *)
Lemma tracked_put s0 p d s s1 k v : tracked_at s0 p d s → db_ s1 = db_ s →
  ∃ d', put k v s1 = (true, with_db (Some d') s1) ∧
    db_put d k v = (true, d') ∧ db_writable d'.
Proof.
  intros [Hp Hw _ _ _] Hdb. destruct (db_writable_put d k v Hw) as (d' & E & ?).
  exists d'. split; [|done]. unfold put. by rewrite Hdb, (persisted_db _ _ Hp), E.
Qed.

(** A write of the memory [s1], the log being as before. *)
Lemma put_tracked s0 p s s1 k v : tracked s0 p s →
  db_ s1 = db_ s → keeps_vote s0 s1 → logs_ s1 = logs_ s →
  (∀ d s', persisted s d → put k v s1 = (true, s') → ∃ d', persisted s' d') →
  tracked s0 p (put k v s1).2.
Proof.
  intros (d & Hd) Hdb Hv Hl Hput.
  destruct (tracked_put s0 p d s s1 k v Hd Hdb) as (d' & E1 & E & Hw).
  destruct (Hput d _ (tracked_persisted _ _ _ _ Hd) E1) as [d'' Hs1].
  assert (d'' = d') as -> by (pose proof (persisted_db _ _ Hs1); by simplify_eq/=).
  rewrite E1. exists d'. eapply write_tracked; [done..|by left].
Qed.

(** *** The term and the vote *)

(** The vote may change: it is of a later term than that of [s0], or there is none. *)
Definition vote_free s0 s : Prop := current_term_ s0 < current_term_ s ∨ voted_ s = false.

Lemma set_current_term_tracked s0 p t s : t < u64_size → current_term_ s < t →
  tracked s0 p s → tracked s0 p (set_current_term t s).2.
Proof.
  intros Ht Hlt Hs. apply put_tracked with s; [done..| |done|].
  - destruct Hs as (d & Hd). destruct (tracked_vote _ _ _ _ Hd) as [Hle _].
    split; simpl; [lia|]. intros ?. lia.
  - intros d s' Hp Hput. destruct (set_current_term_persisted t s d s') as (d' & ? & _); eauto.
Qed.

Lemma set_voted_for_tracked s0 p id s : id < u32_size → vote_free s0 s →
  tracked s0 p s → tracked s0 p (set_voted_for id s).2.
Proof.
  intros Hid Hf Hs. apply put_tracked with s; [done..| |done|].
  - destruct Hs as (d & Hd). destruct (tracked_vote _ _ _ _ Hd) as [Hle Hk].
    split; simpl; [lia|]. intros Heq Hvoted. destruct Hf as [|Hf]; [lia|].
    destruct (Hk Heq Hvoted) as [? _]. congruence.
  - intros d s' Hp Hput. destruct (set_voted_for_persisted id s d s') as (d' & ? & _); eauto.
Qed.

Lemma set_voted_tracked s0 p v s : vote_free s0 s →
  tracked s0 p s → tracked s0 p (set_voted v s).2.
Proof.
  intros Hf Hs. apply put_tracked with s; [done..| |done|].
  - destruct Hs as (d & Hd). destruct (tracked_vote _ _ _ _ Hd) as [Hle Hk].
    split; simpl; [lia|]. intros Heq Hvoted. destruct Hf as [|Hf]; [lia|].
    destruct (Hk Heq Hvoted) as [? _]. congruence.
  - intros d s' Hp Hput. destruct (set_voted_persisted v s d s') as (d' & ? & _); eauto.
Qed.

Lemma with_vote_received_tracked s0 p v s :
  tracked s0 p s → tracked s0 p (with_vote_received v s).
Proof.
  intros (d & [Hp Hw Hl Hc Hv]). exists d. split; try done.
  - by apply with_vote_received_persisted.
  - intros e He. destruct (Hc e He) as (m & ? & []). by exists m.
  - by destruct Hv.
Qed.

(** *** The log *)

Lemma revert_log_tracked s0 p id s : cut_log (logs_ s0) (logs_ s) →
  tracked s0 p s → tracked s0 p (revert_log id s).2.
Proof.
  intros Hcut Hs. destruct (revert_log_cases id s) as [[_ ->]|[Hid ->]]; [done|]. simpl.
  destruct Hs as (d & Hd). pose proof (tracked_persisted _ _ _ _ Hd) as Hp.
  set (s1 := with_logs (take (N.to_nat id) (logs_ s)) s).
  destruct (tracked_put s0 p d s s1 kLogSizeKey (encode_u64 id) Hd eq_refl) as (d' & E1 & E & Hw).
  destruct (revert_log_persisted id s _ d Hp Hid E1) as (d'' & Hs1 & [= <-]).
  unfold store_logs_size. rewrite E1. exists d'. eapply write_tracked; [done..| |by right].
  by destruct (tracked_vote _ _ _ _ Hd).
Qed.

Lemma push_log_tracked s0 p (e : LogEntry) s : term_ e < u64_size → logs_size s + 1 < u64_size →
  cut_log (logs_ s0) (logs_ s) → tracked s0 p s → tracked s0 p (push_log (Some e) s).2.
Proof.
  intros Ht Hroom Hcut Hs. pose proof Hs as (d & Hd).
  pose proof (tracked_persisted _ _ _ _ Hd) as Hp. unfold push_log.
  destruct (command_ e) as [cmd|] eqn:Hcmd; [|done].
  destruct (N.eqb_spec (id_ e) (logs_size s)) as [Hid|]; [|done]. simpl negb. cbv iota.
  assert (e = mkLogEntry (logs_size s) (term_ e) (Some cmd)) as He by (by destruct e; simplify_eq/=).
  assert (logs_size s ≤ id_ e) as Hle by lia.
  destruct (tracked_put s0 p d s s (get_log_term_key (id_ e)) (encode_u64 (term_ e)) Hd eq_refl)
    as (d1 & E1 & P1 & W1).
  destruct (store_log_term_persisted _ _ _ _ _ _ Hp Hle E1)
    as (? & Hp1 & [= <-] & _).
  pose proof (write_tracked _ _ _ _ _ _ _ s Hd P1 W1 Hp1 (tracked_vote _ _ _ _ Hd)
    ltac:(by left)) as Hd1.
  destruct (tracked_put s0 p d1 _ (with_db (Some d1) s) (get_log_data_key (id_ e)) (data cmd)
    Hd1 eq_refl) as (d2 & E2 & P2 & W2).
  destruct (store_log_data_persisted _ _ _ _ _ _ Hp1 Hle E2)
    as (? & Hp2 & [= <-] & _).
  pose proof (write_tracked _ _ _ _ _ _ _ s Hd1 P2 W2 Hp2 (tracked_vote _ _ _ _ Hd)
    ltac:(by left)) as Hd2.
  set (s2 := with_db (Some d2) (with_db (Some d1) s)) in *.
  destruct (tracked_put s0 p d2 _ s2 kLogSizeKey (encode_u64 (wrap64 (logs_size s2 + 1)))
    Hd2 eq_refl) as (d3 & E3 & P3 & W3).
  destruct (push_log_writes e cmd s _ _ _ d Hp He Ht Hroom E1 E2 E3) as (? & Hp3 & [= <-]).
  unfold store_log_term. rewrite E1. simpl negb. cbv iota.
  unfold store_log_data. rewrite E2. simpl negb. cbv iota.
  unfold store_logs_size. rewrite E3. simpl negb. cbv iota.
  exists d3. eapply (write_tracked s0 p d2 s2 _ _ d3 (with_logs (logs_ s ++ [e]) s2));
    [done..| |by right]. by destruct (tracked_vote _ _ _ _ Hd).
Qed.

End tracked.
