(* ===== verification/Kept.v ===== *)
(** * What changes of role keep

    [kept n n'] says that a piece of a handler neither changes the log nor sends
    an append-entries request.  Timers, votes, elections and changes of state are
    such pieces; only broadcasts, commits and append-entries requests are not. *)

From S2P Require Import Prelude Codec Platform LogEntry ContextStore ContextStoreFacts.
From S2P Require Import NodeUtil RaftTypes OtherNode StateMachine Lifecycle Node.
From S2P Require Import StateMachineInterface RaftContext RaftContextFacts.
From S2P Require Import RaftStateMachine RaftStateMachineFacts ClusterNodeOptions.
From S2P Require Import ClusterNodeImpl Election VoteFacts ElectionRefinement.

Local Open Scope N_scope.

Definition request_in (o : Output) : option AppendEntriesRequest :=
  match o with SendAppendEntries _ r => Some r | _ => None end.

(** The append-entries requests among some outputs. *)
Definition requests_in (os : list Output) : list AppendEntriesRequest := omap request_in os.

Record kept `{Platform} (n n' : Node) : Prop := {
  kept_logs : logs_ (store n') = logs_ (store n);
  kept_pending : pending_commit_ (context_ n') = pending_commit_ (context_ n) ∨
    pending_commit_ (context_ n') = None;
  kept_size : cluster_size_ (context_ n') = cluster_size_ (context_ n);
  kept_outputs : ∃ os, outputs_ n' = outputs_ n ++ os ∧ requests_in os = [];
}.

#[export] Instance kept_refl `{Platform} : Reflexive kept.
Proof. intros n. split; [done|by left|done|]. exists []. by rewrite app_nil_r. Qed.

#[export] Instance kept_trans `{Platform} : Transitive kept.
Proof.
  intros n1 n2 n3 [L P S (os & O & R)] [L' P' S' (os' & O' & R')]. split; try congruence.
  - destruct P' as [->| ->]; [done|by right].
  - exists (os ++ os'). split; [by rewrite O', O, app_assoc|].
    unfold requests_in in *. by rewrite omap_app, R, R'.
Qed.

Section kept.
  Context `{Platform}.
  Implicit Types (n : Node).

(** Pieces that touch neither the log, nor the commit in progress, nor the outputs. *)
Lemma kept_same n n' : logs_ (store n') = logs_ (store n) →
  (pending_commit_ (context_ n') = pending_commit_ (context_ n) ∨
   pending_commit_ (context_ n') = None) →
  cluster_size_ (context_ n') = cluster_size_ (context_ n) →
  outputs_ n' = outputs_ n → kept n n'.
Proof. intros ? ? ? Ho. split; try done. exists []. by rewrite app_nil_r. Qed.

Lemma output_kept o n : request_in o = None → kept n (output o n).
Proof.
  intros Ho. split; [done|by left|done|]. exists [o]. split; [done|].
  unfold requests_in. simpl. by rewrite Ho.
Qed.

Lemma halt_kept f n : kept n (halt f n).
Proof. unfold halt. destruct (fault_ n); [done|]. apply kept_same; auto. Qed.

Lemma set_election_timer_kept t n : kept n (on_context (set_election_timer t) n).
Proof. apply kept_same; auto. Qed.

Lemma start_election_timer_kept n : kept n (start_election_timer n).
Proof. unfold start_election_timer. split_call. apply kept_same; auto. Qed.

Lemma start_broadcast_timer_kept n : kept n (start_broadcast_timer n).
Proof. apply kept_same; auto. Qed.

Lemma stop_broadcast_timer_kept n : kept n (stop_broadcast_timer n).
Proof. apply kept_same; auto. Qed.

Lemma set_other_nodes_kept f n : kept n (on_context (λ c, set_other_nodes (f c) c) n).
Proof. apply kept_same; auto. Qed.

Lemma set_broadcast_received_kept b n : kept n (on_context (set_broadcast_received b) n).
Proof. apply kept_same; auto. Qed.

Lemma set_promises_kept f n : kept n (on_context (λ c, set_promises (f c) c) n).
Proof. apply kept_same; auto. Qed.

(** Changing the term, the votes and the database of the store. *)
Lemma on_store_kept f n :
  logs_ (f (store n)) = logs_ (store n) → kept n (on_store f n).
Proof. intros Hf. apply kept_same; auto. Qed.

Lemma in_new_term_kept d t n : kept n (in_new_term d t n).
Proof. by apply on_store_kept. Qed.

Lemma reset_vote_kept n : kept n (reset_vote n).
Proof. destruct (reset_vote_eq n) as [d ->]. by apply on_store_kept. Qed.

Lemma vote_for_me_kept n : kept n (vote_for_me n).
Proof. destruct (vote_for_me_eq n) as [d ->]. by apply on_store_kept. Qed.

Lemma set_value_kept p r n : kept n (set_value p r n).
Proof.
  unfold set_value. destruct (_ !! _) as [[]|]; [apply halt_kept| |apply halt_kept].
  apply set_promises_kept.
Qed.

Lemma call_response_callback_kept p callback n : kept n (call_response_callback p callback n).
Proof. destruct callback; [by apply output_kept|done]. Qed.

Lemma invoke_commit_callback_kept log n : kept n (invoke_commit_callback log n).
Proof. destruct log; simpl; [|done]. case_test; [by apply output_kept|done]. Qed.

Lemma invoke_revert_callback_kept id n : kept n (invoke_revert_callback id n).
Proof. unfold invoke_revert_callback. case_test; [by apply output_kept|done]. Qed.

Lemma request_vote_to_kept n id : kept n (request_vote_to n id).
Proof.
  unfold request_vote_to. repeat case_match; try done. by apply output_kept.
Qed.

End kept.

#[export] Hint Resolve halt_kept set_election_timer_kept start_election_timer_kept
  start_broadcast_timer_kept stop_broadcast_timer_kept set_other_nodes_kept
  set_broadcast_received_kept set_promises_kept in_new_term_kept reset_vote_kept
  vote_for_me_kept set_value_kept call_response_callback_kept invoke_commit_callback_kept
  invoke_revert_callback_kept request_vote_to_kept : foros.

(** A chain of such pieces; the tactic of calm changes serves any preorder. *)
Ltac kept := calm.

Section kept_handlers.
  Context `{Platform}.
  Implicit Types (n : Node).

Lemma foldl_kept {A} (f : Node → A → Node) l n :
  (∀ n x, kept n (f n x)) → kept n (foldl f n l).
Proof.
  intros Hf. revert n. induction l as [|x l IH]; intros n; [done|].
  simpl. etrans; [apply Hf|apply IH].
Qed.

Lemma cancel_commit_kept p id callback n : kept n (cancel_commit p id callback n).
Proof. unfold cancel_commit. kept. Qed.

Lemma cancel_pending_commit_kept n : kept n (cancel_pending_commit n).
Proof.
  unfold cancel_pending_commit, clear_pending_commit, complete_commit.
  set (n1 := on_context _ n). assert (kept n n1) as Hn1 by (apply kept_same; auto).
  destruct (pending_commit_ _); [|done]. clearbody n1. kept.
Qed.

Lemma state_exit_kept st n : kept n (state_exit st n).
Proof.
  destruct st; try done. simpl. unfold leader_exit.
  etrans; [apply stop_broadcast_timer_kept|apply cancel_pending_commit_kept].
Qed.

(** *** The observers of a state *)

Lemma handle_lifecycle_state_kept st n : kept n (handle_lifecycle_state st n).
Proof.
  unfold handle_lifecycle_state. destruct st; try done; case_test; try done; by apply output_kept.
Qed.

Lemma lifecycle_notify_kept os st n : kept n (notify observe_lifecycle os st n).
Proof.
  apply (notify_inv (kept n)); [|done]. intros o n' Hn. etrans; [exact Hn|].
  unfold observe_lifecycle. case_test; [apply handle_lifecycle_state_kept|done].
Qed.

Lemma lifecycle_handle_kept ev n : kept n (lifecycle_handle ev n).
Proof.
  rewrite lifecycle_handle_unfold. cbv zeta. case_decide; [done|].
  etrans; [|apply lifecycle_notify_kept]. apply kept_same; auto.
Qed.

Lemma observe_state_kept o st n : kept n (observe_state o st n).
Proof.
  simpl. case_test; [|done]. destruct st; try done; simpl; apply lifecycle_handle_kept.
Qed.

Lemma depart_kept st n : kept n (depart st n).
Proof.
  unfold depart. etrans; [apply (state_exit_kept (raft_state n))|].
  apply (notify_inv (kept _)); [|by apply kept_same; auto].
  intros o n' Hn. etrans; [exact Hn|apply observe_state_kept].
Qed.

(** *** Transitions *)

Lemma goto_kept h st n : st ≠ kCandidate → kept n (goto h st n).
Proof.
  intros Hst. rewrite goto_simple by done. etrans; [apply (depart_kept st)|].
  destruct st; [apply set_election_timer_kept| |done| |done]; kept.
Qed.

Lemma raft_handle_simple_kept d ev n : ev ≠ kTimedout → ev ≠ kBroadcastTimedout →
  kept n (raft_handle (S d) ev n).
Proof.
  intros Ht Hb. rewrite raft_handle_simple by done.
  destruct (find_transition _ _) eqn:E; case_decide; try done.
  - apply goto_kept. by eapply find_transition_simple.
  - by apply goto_kept.
Qed.

Lemma increase_term_kept `{!StateMachineInterface} n : kept n (increase_term n).
Proof. destruct (increase_term_eq n) as [[_ ->]|[_ [d ->]]]; kept. Qed.

Lemma check_elected_kept d n :
  kept n (check_elected (H0 := mk_interface (raft_handle (S d))) n).
Proof.
  unfold check_elected. case_test; [done|].
  etrans; [|by apply raft_handle_simple_kept]. apply set_other_nodes_kept.
Qed.

Lemma start_election_kept d n :
  kept n (start_election (H0 := mk_interface (raft_handle (S d))) n).
Proof.
  unfold start_election, request_vote, reset_election_timer, stop_election_timer.
  etrans; [|apply check_elected_kept]. etrans; [|apply foldl_kept; apply request_vote_to_kept].
  etrans; [|apply start_election_timer_kept]. etrans; [|apply set_election_timer_kept].
  etrans; [|apply vote_for_me_kept]. etrans; [|apply reset_vote_kept]. apply increase_term_kept.
Qed.

(** The events of the state machine, the broadcast of a leader apart. *)
Lemma handle_event_kept ev n : ev ≠ kBroadcastTimedout → kept n (handle_event ev n).
Proof.
  intros Hb. unfold handle_event, max_depth.
  destruct (decide (ev = kTimedout)) as [->|]; [|by apply raft_handle_simple_kept].
  rewrite raft_handle_S. unfold state_handle.
  pose proof (start_election_kept 0 n) as Hn.
  destruct (raft_state n); simpl; try (case_decide; [apply depart_kept|done]).
  - case_decide; [|done]. unfold goto. simpl. unfold candidate_entry.
    etrans; [apply (depart_kept kCandidate)|apply start_election_kept].
  - unfold candidate_on_timedout. case_decide; [|exact Hn].
    etrans; [exact Hn|apply depart_kept].
Qed.

Lemma update_term_kept term n : kept n (update_term term false n).2.
Proof.
  destruct (decide (term ≤ current_term_ (store n))).
  { by rewrite update_term_old. }
  destruct (update_term_new term false n) as [d ->]; [lia|]. simpl.
  etrans; [apply (in_new_term_kept d term)|by apply handle_event_kept].
Qed.

Lemma vote_kept term id index last_term n : kept n (vote term id index last_term n).2.
Proof.
  pose proof (vote_eq term id index last_term n) as Hv. cbv zeta in Hv.
  destruct (_ && _); [destruct Hv as [d ->]|by rewrite Hv]. by apply on_store_kept.
Qed.

End kept_handlers.

#[export] Hint Resolve cancel_commit_kept cancel_pending_commit_kept update_term_kept
  vote_kept : foros.
