(* ===== verification/Widths.v ===== *)
(** * The integers of a node fit their types

    The model keeps integers as [N] and wraps where the sources add.  Here: every
    integer that a node keeps or sends lies in the range of its C++ type or
    message field, whatever inputs it runs, as long as the inputs themselves fit
    and the log has room for one more entry. *)

From S2P Require Import Prelude Codec Platform LogEntry ClusterNodeOptions.
From S2P Require Import ContextStore ContextStoreFacts.
From S2P Require Import StoreTheorems NodeUtil RaftTypes OtherNode StateMachine Lifecycle Node.
From S2P Require Import StateMachineInterface RaftContext RaftContextFacts.
From S2P Require Import RaftStateMachine RaftStateMachineFacts.
From S2P Require Import ClusterNodeImpl Election VoteFacts ElectionRefinement NodeInvariant Demo.

Local Open Scope N_scope.

(** ** Ranges *)

Definition entry_fits (e : LogEntry) : Prop := id_ e < u64_size ∧ term_ e < u64_size.

Definition peer_fits (o : OtherNode) : Prop :=
  next_index_ o < u64_size ∧ match_index_ o < u64_size.

(** The fields of the services: terms and positions have 64 bits, node
    identifiers 32. *)
Definition append_entries_fits (r : AppendEntriesRequest) : Prop :=
  ae_term r < u64_size ∧ ae_leader_id r < u32_size ∧ ae_prev_log_index r < u64_size ∧
  ae_prev_log_term r < u64_size ∧ ae_leader_commit r < u64_size.

Definition request_vote_fits (r : RequestVoteRequest) : Prop :=
  rv_term r < u64_size ∧ rv_candidate_id r < u32_size ∧
  rv_last_data_index r < u64_size ∧ rv_loat_data_term r < u64_size.

Definition output_fits (o : Output) : Prop :=
  match o with
  | SendAppendEntries _ r => append_entries_fits r
  | SendRequestVote _ r => request_vote_fits r
  | CommitCallback id _ | RevertCallback id => id < u64_size
  | _ => True
  end.

Definition promise_fits (p : option CommandCommitResponse) : Prop :=
  match p with Some r => response_id_ r < u64_size | None => True end.

Section widths.
  Context `{PlatformSpec}.
  Implicit Types (n : Node) (s : ContextStore).

Record store_fits s : Prop := {
  fits_term : current_term_ s < u64_size;
  fits_voted_for : voted_for_ s < u32_size;
  fits_vote_received : vote_received_ s < u32_size;
  fits_logs : Forall entry_fits (logs_ s);
}.

Record fits n : Prop := {
  fits_node_id : node_id_ (context_ n) < u32_size;
  fits_store : store_fits (store n);
  fits_peers : map_Forall (λ _, peer_fits) (other_nodes_ (context_ n));
  fits_pending p : pending_commit_ (context_ n) = Some p → entry_fits (log_ p);
  fits_promises : Forall promise_fits (promises_ (context_ n));
  fits_majority : majority_ (context_ n) < u32_size;
  fits_cluster_size : cluster_size_ (context_ n) < u32_size;
  fits_outputs : Forall output_fits (outputs_ n);
}.

(** ** Changes of the store *)

Lemma with_db_fits d s : store_fits s → store_fits (with_db d s).
Proof. by intros []. Qed.

Lemma put_fits k v s : store_fits s → store_fits (put k v s).2.
Proof. intros Hs. rewrite put_frame. by apply with_db_fits. Qed.

Lemma set_current_term_fits t s : t < u64_size → store_fits s → store_fits (set_current_term t s).2.
Proof. intros Ht []. by apply put_fits. Qed.

Lemma set_voted_for_fits id s : id < u32_size → store_fits s → store_fits (set_voted_for id s).2.
Proof. intros Hid []. by apply put_fits. Qed.

Lemma set_voted_fits b s : store_fits s → store_fits (set_voted b s).2.
Proof. intros []. by apply put_fits. Qed.

Lemma increase_vote_received_fits s : store_fits s → store_fits (increase_vote_received s).2.
Proof. intros []. split; simpl; auto using wrap32_lt. Qed.

Lemma reset_vote_received_fits s : store_fits s → store_fits (reset_vote_received s).2.
Proof. by intros []. Qed.

Lemma push_log_fits e s : entry_fits e → store_fits s → store_fits (push_log (Some e) s).2.
Proof.
  intros He Hs. destruct (push_log (Some e) s) as [[] s'] eqn:E.
  - destruct (push_log_true _ _ _ E) as (e' & [= <-] & _ & _ & ->). apply with_db_fits.
    destruct Hs. split; simpl; try done. by apply Forall_app_2; [|constructor].
  - rewrite (push_log_false _ _ _ E). by apply with_db_fits.
Qed.

Lemma revert_log_fits id s : store_fits s → store_fits (revert_log id s).2.
Proof.
  intros Hs. destruct (revert_log_cases id s) as [[_ ->]|[_ ->]]; [done|]. simpl.
  apply put_fits. destruct Hs. split; try done. by apply Forall_take.
Qed.

(** ** Changes of a node *)

Lemma on_store_fits f n : (store_fits (store n) → store_fits (f (store n))) →
  fits n → fits (on_store f n).
Proof. intros Hf []. split; auto. Qed.

Lemma output_fits_node o n : output_fits o → fits n → fits (output o n).
Proof. intros Ho []. split; try done. by apply Forall_app_2; [|constructor]. Qed.

Lemma halt_fits f n : fits n → fits (halt f n).
Proof. unfold halt. destruct (fault_ n); [done|]. by intros []. Qed.

Lemma start_election_timer_fits n : fits n → fits (start_election_timer n).
Proof. unfold start_election_timer. split_call. by intros []. Qed.

Lemma stop_election_timer_fits n : fits n → fits (stop_election_timer n).
Proof. by intros []. Qed.

Lemma set_broadcast_received_fits b n :
  fits n → fits (on_context (set_broadcast_received b) n).
Proof. by intros []. Qed.

Lemma set_other_nodes_fits m n : map_Forall (λ _, peer_fits) m →
  fits n → fits (on_context (λ c, set_other_nodes m c) n).
Proof. by intros Hm []. Qed.

Lemma set_pending_fits v n : (∀ p, v = Some p → entry_fits (log_ p)) →
  fits n → fits (on_context (Node.set_pending_commit v) n).
Proof. by intros Hv []. Qed.

Lemma set_promises_fits l n : Forall promise_fits l →
  fits n → fits (on_context (λ c, set_promises l c) n).
Proof. by intros Hl []. Qed.

(** ** The log and the commits *)

Lemma log_fits id s e : store_fits s → log id s = Some e → entry_fits e.
Proof.
  intros Hs. unfold log. case_test; [done|]. intros He.
  by apply (Forall_lookup_1 _ _ _ _ (fits_logs _ Hs) He).
Qed.

Lemma last_log_fits s e : store_fits s → last_log s = Some e → entry_fits e.
Proof.
  intros Hs He. unfold last_log in He. rewrite last_lookup in He.
  by apply (Forall_lookup_1 _ _ _ _ (fits_logs _ Hs) He).
Qed.

Lemma set_value_fits p r n : response_id_ r < u64_size → fits n → fits (set_value p r n).
Proof.
  intros Hr Hn. unfold set_value.
  destruct (_ !! _) as [[]|]; [by apply halt_fits| |by apply halt_fits].
  apply set_promises_fits; [|done]. apply Forall_insert; [apply Hn|done].
Qed.

Lemma invoke_commit_callback_fits e n : entry_fits e → fits n →
  fits (invoke_commit_callback (Some e) n).
Proof.
  intros [He _] Hn. unfold invoke_commit_callback.
  case_test; [by apply output_fits_node|done].
Qed.

Lemma invoke_revert_callback_fits id n : id < u64_size → fits n →
  fits (invoke_revert_callback id n).
Proof.
  intros Hid Hn. unfold invoke_revert_callback. case_test; [by apply output_fits_node|done].
Qed.

Lemma call_response_callback_fits p callback n : fits n → fits (call_response_callback p callback n).
Proof. intros Hn. destruct callback; [by apply output_fits_node|done]. Qed.

Lemma complete_commit_fits p e result callback n : entry_fits e → fits n →
  fits (complete_commit p e result callback n).
Proof.
  intros He Hn. unfold complete_commit. apply call_response_callback_fits, set_value_fits.
  { apply He. }
  destruct result; [|done]. apply invoke_commit_callback_fits; [done|].
  apply on_store_fits; [by apply push_log_fits|done].
Qed.

Lemma cancel_commit_fits p id callback n : id < u64_size → fits n →
  fits (cancel_commit p id callback n).
Proof.
  intros Hid Hn. unfold cancel_commit. by apply call_response_callback_fits, set_value_fits.
Qed.

Lemma get_pending_commit_fits n : fits n → fits (get_pending_commit n).2 ∧
  ∀ p, (get_pending_commit n).1 = Some p → entry_fits (log_ p).
Proof.
  intros Hn. unfold get_pending_commit.
  destruct (pending_commit_ (context_ n)) as [p|] eqn:Hp; [|done].
  destruct (negb _); simpl; [split; [by apply set_pending_fits|done]|].
  split; [done|]. intros q [= <-]. by apply (fits_pending _ Hn).
Qed.

Lemma cancel_pending_commit_fits n : fits n → fits (cancel_pending_commit n).
Proof.
  intros Hn. unfold cancel_pending_commit, clear_pending_commit.
  destruct (pending_commit_ (context_ n)) as [p|] eqn:Hp.
  - apply complete_commit_fits; [by apply (fits_pending _ Hn)|by apply set_pending_fits].
  - by apply set_pending_fits.
Qed.

Lemma handle_pending_commit_response_fits id index term success n :
  fits n → fits (handle_pending_commit_response id index term success n).
Proof.
  intros Hn. unfold handle_pending_commit_response.
  destruct (pending_commit_ (context_ n)) as [p|] eqn:Hp; [|done].
  destruct (_ || _); [done|]. pose proof (fits_pending _ Hn p Hp) as He.
  case_test; [apply set_pending_fits; [by intros q [= <-]|done]|].
  apply complete_commit_fits; [done|]. apply set_pending_fits; [done|].
  apply set_pending_fits; [by intros q [= <-]|done].
Qed.

Lemma on_log_get_request_fits id n : fits n →
  fits (on_log_get_request id n).2 ∧
  ∀ e, (on_log_get_request id n).1 = Some e → entry_fits e.
Proof.
  intros [Hn Hp]%get_pending_commit_fits. unfold on_log_get_request.
  destruct (get_pending_commit n) as [[p|] n1]; simpl in *; [case_test; simpl|];
    (split; [done|]); intros entry He; try (by eapply log_fits; [apply Hn|]).
  injection He as <-. by apply Hp.
Qed.

(** ** Broadcasts *)

Lemma OtherNode_broadcast_fits term me log o n :
  term < u64_size → me < u32_size → fits n →
  let '(result, n') := OtherNode.broadcast (Some on_log_get_request) term me log o n in
  fits n' ∧ ∀ r, result = Sent r → append_entries_fits r.
Proof.
  intros Ht Hme Hn. unfold OtherNode.broadcast. case_test; [done|].
  set (r0 := mkAppendEntriesRequest term me 0 0 [] 0).
  assert (append_entries_fits r0) as Hr0 by done. clearbody r0.
  pose proof (on_log_get_request_fits (next_index_ o) n Hn) as [Hn1 He1].
  assert (let '(r, n') := add_next_entry on_log_get_request log (next_index_ o) r0 n in
    fits n' ∧ ∀ r', r = Some r' → append_entries_fits r') as Hnext.
  { unfold add_next_entry. destruct log; [|by split; [|intros ? [= <-]]].
    case_test; [|by split; [|intros ? [= <-]]].
    destruct (on_log_get_request _ n) as [[e|] n']; simpl in *; [|by split; [|intros ? [= <-]]].
    destruct (command_ e); [|done]. split; [done|]. intros r' [= <-].
    destruct (He1 e eq_refl), Hr0 as (?&?&?&?&?). by split_and!. }
  destruct (add_next_entry _ _ _ _ _) as [[r1|] n1]; [|naive_solver].
  destruct Hnext as [Hn2 Hr1]. specialize (Hr1 r1 eq_refl). unfold add_prev_entry.
  case_test; [|by split; [|intros ? [= <-]]].
  pose proof (on_log_get_request_fits (next_index_ o - 1) n1 Hn2) as [Hn3 He3].
  destruct (on_log_get_request _ n1) as [[e|] n']; simpl in *;
    (split; [done|]); intros ? [= <-]; [|done].
  destruct (He3 e eq_refl), Hr1 as (?&?&?&?&?). by split_and!.
Qed.

Lemma broadcast_to_fits log n id : fits n → fits (broadcast_to log n id).
Proof.
  intros Hn. unfold broadcast_to. destruct (fault_ n); [done|].
  destruct (other_nodes_ _ !! id) as [o|]; [|done].
  pose proof (OtherNode_broadcast_fits (current_term (store n)) (node_id_ (context_ n)) log o n
    (fits_term _ (fits_store _ Hn)) (fits_node_id _ Hn) Hn) as Hb.
  destruct (OtherNode.broadcast _ _ _ _ _ _) as [[] n']; destruct Hb as [Hn' Hr].
  - done.
  - by apply halt_fits.
  - apply output_fits_node; [by apply Hr|done].
Qed.

Lemma foldl_fits {A} (f : Node → A → Node) l n :
  (∀ n x, fits n → fits (f n x)) → fits n → fits (foldl f n l).
Proof. intros Hf. revert n; induction l as [|x l IH]; intros n Hn; [done|]. apply IH, Hf, Hn. Qed.

Lemma broadcast_fits n : fits n → fits (broadcast n).
Proof.
  intros [Hn _]%get_pending_commit_fits. unfold broadcast.
  destruct (get_pending_commit n) as [p n']. apply foldl_fits; [|done].
  intros. by apply broadcast_to_fits.
Qed.

(** ** Local commits *)

Lemma push_and_notify_fits e n : entry_fits e → fits n → fits (push_and_notify e n).2.
Proof.
  intros He Hn. unfold push_and_notify.
  pose proof (push_log_fits e _ He (fits_store _ Hn)) as Hs.
  destruct (push_log (Some e) (store n)) as [ok s].
  assert (fits (on_store (λ _, s) n)) as Hn1 by by apply on_store_fits.
  destruct ok; [by apply invoke_commit_callback_fits|done].
Qed.

Lemma request_local_commit_fits r n : append_entries_fits r → fits n →
  fits (request_local_commit r n).2.
Proof.
  intros (Ht & _ & _ & _ & Hi) Hn. unfold request_local_commit.
  destruct (last_log _); [|by apply push_and_notify_fits].
  destruct (_ && _ && _); [done|]. apply push_and_notify_fits; [done|].
  case_test; [|done]. apply invoke_revert_callback_fits; [done|].
  apply on_store_fits; [apply revert_log_fits|done].
Qed.

Lemma request_local_rollback_fits i n : fits n → fits (request_local_rollback i n).
Proof. intros Hn. apply on_store_fits; [apply revert_log_fits|done]. Qed.

Lemma request_vote_to_fits n id : fits n → fits (request_vote_to n id).
Proof.
  intros Hn. unfold request_vote_to. destruct (_ !! id) as [o|]; [|done].
  unfold OtherNode.request_vote. case_test; [done|]. apply output_fits_node; [|done].
  pose proof (fits_store _ Hn) as Hs. pose proof (last_log_fits (store n)) as Hl.
  unfold output_fits, request_vote_fits. simpl.
  destruct (last_log (store n)) as [e|]; [destruct (Hl e Hs eq_refl)|];
    split_and!; try done; apply Hs || apply Hn.
Qed.

End widths.

(** ** Handlers that call the state machine back *)

(** What they need of the machine. *)
Class InterfaceFits `{StateMachineInterface} : Prop := {
  on_new_term_received_fits n : fits n → fits (StateMachineInterface.on_new_term_received n);
  on_elected_fits n : fits n → fits (StateMachineInterface.on_elected n);
  on_leader_discovered_fits n : fits n → fits (StateMachineInterface.on_leader_discovered n);
}.

Section handlers.
  Context `{PlatformSpec} `{!StateMachineInterface} `{!InterfaceFits}.
  Implicit Types (n : Node).

Lemma reset_vote_fits n : fits n → fits (reset_vote n).
Proof.
  intros Hn. unfold reset_vote.
  repeat (apply on_store_fits; [auto using set_voted_fits, reset_vote_received_fits|]); [|done].
  intros. by apply set_voted_for_fits.
Qed.

Lemma vote_for_me_fits n : fits n → fits (vote_for_me n).
Proof.
  intros Hn. unfold vote_for_me.
  repeat (apply on_store_fits; [auto using set_voted_fits, increase_vote_received_fits|]); [|done].
  intros. apply set_voted_for_fits; [apply Hn|done].
Qed.

Lemma update_term_fits term self n : term < u64_size → fits n → fits (update_term term self n).2.
Proof.
  intros Ht Hn. unfold update_term. case_test; [done|].
  assert (fits (reset_vote (on_store (λ s, (set_current_term term s).2) n))) as Hn1.
  { apply reset_vote_fits, on_store_fits; [|done]. by apply set_current_term_fits. }
  destruct self; [done|]. by apply on_new_term_received_fits.
Qed.

Lemma vote_fits term id i t n : id < u32_size → fits n → fits (vote term id i t n).2.
Proof.
  intros Hid Hn. unfold vote. case_test; [|done]. destruct (_ && _); [|done]. simpl.
  apply on_store_fits; [apply set_voted_fits|]. apply on_store_fits; [|done].
  by apply set_voted_for_fits.
Qed.

Lemma check_elected_fits n : fits n → fits (check_elected n).
Proof.
  intros Hn. unfold check_elected. case_test; [done|]. apply on_elected_fits.
  apply set_other_nodes_fits; [|done]. apply map_Forall_fmap. intros id o Ho. simpl.
  split; simpl; [apply wrap64_lt|]. pose proof (last_log_fits (store n)) as Hl.
  destruct (last_log (store n)) as [e|]; [|done]. by apply (Hl e (fits_store _ Hn)).
Qed.

Lemma request_vote_fits_node n : fits n → fits (request_vote n).
Proof. intros Hn. apply check_elected_fits, foldl_fits; [|done]. intros. by apply request_vote_to_fits. Qed.

Lemma start_election_fits n : fits n → fits (start_election n).
Proof.
  intros Hn. unfold start_election. apply request_vote_fits_node.
  unfold reset_election_timer.
  apply start_election_timer_fits, stop_election_timer_fits, vote_for_me_fits, reset_vote_fits.
  apply update_term_fits; [apply wrap64_lt|done].
Qed.

(** What comes from outside has the range of its field. *)
Definition input_fits (input : NodeInput) n : Prop :=
  match input with
  | AppendEntries r => append_entries_fits r
  | RequestVote r => request_vote_fits r
  | AppendEntriesAnswer _ r resp =>
      append_entries_fits r ∧ ae_response_term resp < u64_size
  | RequestVoteAnswer resp => rv_response_term resp < u64_size
  | CommitCommand _ _ => logs_size (store n) < u64_size
  | _ => True
  end.

Lemma on_append_entries_requested_fits r n : append_entries_fits r → fits n →
  fits (on_append_entries_requested r n).2.
Proof.
  intros Hr Hn. unfold on_append_entries_requested. destruct (negb _); [done|].
  set (n1 := if _ <? _ then _ else _). assert (fits n1) as Hn1.
  { subst n1. case_test; [done|]. pose proof (update_term_fits (ae_term r) false n) as Hu.
    destruct (update_term _ _ _) as [b n2]. simpl in Hu.
    apply on_leader_discovered_fits, set_broadcast_received_fits, Hu; [apply Hr|done]. }
  clearbody n1. pose proof (request_local_commit_fits r n1 Hr Hn1) as Hc.
  destruct (_ =? _)%nat; [done|].
  destruct (request_local_commit r n1) as [ok n2]. case_test; [done|].
  destruct (log _ _); [|done]. destruct (negb _); [|done]. by apply request_local_rollback_fits.
Qed.

Lemma on_request_vote_requested_fits r n : request_vote_fits r → fits n →
  fits (on_request_vote_requested r n).2.
Proof.
  intros Hr Hn. unfold on_request_vote_requested. destruct (negb _); [done|].
  pose proof (update_term_fits (rv_term r) false n) as Hu.
  destruct (update_term _ _ _) as [b n1]. simpl in Hu.
  pose proof (vote_fits (rv_term r) (rv_candidate_id r) (rv_last_data_index r)
    (rv_loat_data_term r) n1) as Hv.
  destruct (vote _ _ _ _ _) as [[t g] n2]. simpl in *. apply Hv; [apply Hr|]. apply Hu; [apply Hr|done].
Qed.

Lemma on_request_vote_response_fits term granted n : term < u64_size → fits n →
  fits (on_request_vote_response term granted n).
Proof.
  intros Ht Hn. unfold on_request_vote_response. case_test; [done|].
  pose proof (update_term_fits term false n Ht Hn) as Hu.
  destruct (update_term _ _ _) as [[] n1]; [done|]. destruct granted; [|done]. simpl.
  apply check_elected_fits, on_store_fits; [|done]. apply increase_vote_received_fits.
Qed.

(** The peers after an answer. *)
Lemma peers_answer_fits id r resp n : append_entries_fits r → fits n →
  fits (on_context (λ c, set_other_nodes
    (alter (OtherNode.on_append_entries_response r resp) id (other_nodes_ c)) c) n).
Proof.
  intros Hr Hn. apply set_other_nodes_fits; [|done]. intros j o Hj.
  destruct (decide (j = id)) as [->|Hne].
  - rewrite lookup_alter_eq in Hj.
    destruct (other_nodes_ (context_ n) !! id) as [o'|] eqn:Ho; [|done].
    destruct (fits_peers _ Hn _ _ Ho) as [Hnext Hmatch]. simpl in Hj. injection Hj as <-.
    unfold OtherNode.on_append_entries_response. destruct (ae_success resp).
    + split; simpl; [apply wrap64_lt|apply Hr].
    + case_test; split; simpl; lia || done.
  - rewrite lookup_alter_ne in Hj by done. by apply (fits_peers _ Hn _ _ Hj).
Qed.

Lemma on_append_entries_response_fits id r resp n :
  append_entries_fits r → ae_response_term resp < u64_size → fits n →
  fits (RaftContext.on_append_entries_response id r resp n).
Proof.
  intros Hr Hresp Hn. unfold RaftContext.on_append_entries_response, on_broadcast_response.
  apply handle_pending_commit_response_fits.
  pose proof (peers_answer_fits id r resp n Hr Hn) as Hn1.
  case_test; [by apply update_term_fits|done].
Qed.

Lemma commit_command_fits command callback n : logs_size (store n) < u64_size → fits n →
  fits (commit_command command callback n).2.
Proof.
  intros Hsize Hn. unfold commit_command. cbv zeta.
  assert (fits (on_context (λ c, set_promises (promises_ c ++ [None]) c) n)) as Hn1.
  { destruct Hn. split; try done. by apply Forall_app_2; [|constructor]. }
  set (n1 := on_context _ n) in *. change (store n1) with (store n). clearbody n1.
  assert (entry_fits (mkLogEntry (logs_size (store n)) (current_term (store n)) command)) as He
    by (split; [done|apply Hn]).
  destruct (negb _); [by apply cancel_commit_fits|].
  case_test; [by apply complete_commit_fits|]. unfold set_pending_commit.
  destruct (negb _); [by apply cancel_commit_fits|].
  match goal with |- context [if ?b then (false, _) else _] => destruct b end;
    [by apply cancel_commit_fits|].
  apply set_pending_fits; [|done]. by intros q [= <-].
Qed.

End handlers.

(** ** The machine, and a whole node *)

Section machine.
  Context `{PlatformSpec}.
  Implicit Types (n : Node).

Lemma set_lifecycle_fsm_fits m n : fits n → fits (set_lifecycle_fsm m n).
Proof. by intros []. Qed.

Lemma set_raft_fsm_fits m n : fits n → fits (set_raft_fsm m n).
Proof. by intros []. Qed.

Lemma lifecycle_handle_fits ev n : fits n → fits (lifecycle_handle ev n).
Proof.
  intros Hn. rewrite lifecycle_handle_unfold. cbv zeta. case_decide; [done|].
  apply notify_inv; [|by apply set_lifecycle_fsm_fits].
  intros o m Hm. unfold observe_lifecycle, handle_lifecycle_state. case_test; [|done].
  repeat case_match; try done; by apply output_fits_node.
Qed.

Lemma depart_fits st n : fits n → fits (depart st n).
Proof.
  intros Hn. unfold depart. apply notify_inv.
  - intros o m Hm. simpl. case_test; [|done]. unfold handle_raft_state.
    destruct st; try done; by apply lifecycle_handle_fits.
  - apply set_raft_fsm_fits. destruct (raft_state n); try done. simpl. unfold leader_exit.
    apply cancel_pending_commit_fits. by destruct Hn.
Qed.

Lemma goto_fits h st n : InterfaceFits (H0 := mk_interface h) → fits n → fits (goto h st n).
Proof.
  intros Hh Hn%(depart_fits st). unfold goto. destruct st; simpl.
  - by destruct Hn.
  - by apply start_election_timer_fits.
  - by apply (@start_election_fits _ _ Hh).
  - by destruct Hn.
  - done.
Qed.

Lemma raft_handle_fits d ev n : fits n → fits (raft_handle d ev n).
Proof.
  revert ev n. induction d as [|d IH]; intros ev n Hn; [by apply halt_fits|].
  assert (InterfaceFits (H0 := mk_interface (raft_handle d))) as Hh by (split; intros; by apply IH).
  rewrite raft_handle_S.
  assert (fits (state_handle (H0 := mk_interface (raft_handle d)) (raft_state n) ev n).2) as Hs.
  { unfold state_handle. destruct (find_transition _ _); [|done].
    destruct ev; try done; destruct (raft_state n); try done; simpl.
    - by apply (@start_election_fits _ _ Hh).
    - by apply broadcast_fits. }
  destruct (state_handle _ _ _) as [next n1]. case_decide; [by apply goto_fits|done].
Qed.

#[export] Instance raft_interface_fits : InterfaceFits.
Proof. split; intros; by apply raft_handle_fits. Qed.

Lemma run_input_fits input n : input_fits input n → fits n → fits (run_input input n).
Proof.
  intros Hi Hn. destruct input; simpl in Hi |- *.
  - destruct (election_timer_ _); [|done]. unfold on_election_timer.
    destruct (broadcast_received_ _); [by apply set_broadcast_received_fits|].
    by apply raft_handle_fits.
  - destruct (broadcast_timer_ _); [by apply raft_handle_fits|done].
  - by apply on_append_entries_requested_fits.
  - by apply on_request_vote_requested_fits.
  - destruct Hi. by apply on_append_entries_response_fits.
  - by apply on_request_vote_response_fits.
  - by apply commit_command_fits.
  - apply set_other_nodes_fits; [|done]. intros j o Hj. destruct (decide (j = peer)) as [->|Hne].
    + rewrite lookup_alter_eq in Hj.
      destruct (other_nodes_ (context_ n) !! peer) as [o'|] eqn:Ho; [|done].
      simpl in Hj. injection Hj as <-. by apply (fits_peers _ Hn _ _ Ho).
    + rewrite lookup_alter_ne in Hj by done. by apply (fits_peers _ Hn _ _ Hj).
  - by destruct Hn.
  - by destruct Hn.
  - by destruct Hn.
  - by destruct Hn.
  - by destruct Hn.
Qed.

(** Each input fits the node that runs it. *)
Fixpoint inputs_fit (inputs : list NodeInput) n : Prop :=
  match inputs with
  | [] => True
  | input :: inputs => input_fits input n ∧ inputs_fit inputs (run_input input n)
  end.

Lemma run_inputs_fits inputs n : inputs_fit inputs n → fits n → fits (run_inputs inputs n).
Proof.
  revert n; induction inputs as [|i l IH]; intros n Hi Hn; [done|].
  destruct Hi as [Hi Hl]. apply (IH _ Hl). by apply run_input_fits.
Qed.

(** A store as it is opened. *)
Lemma load_log_fits id s e : id < u64_size → load_log id s = Some e → entry_fits e.
Proof.
  unfold load_log. intros Hid He. destruct (db_ s) as [d|]; [|done].
  destruct (db_get d _ _) as [[] v]; [|done..]. destruct (_ <? _)%nat; [done|].
  destruct (db_get d _ v). simplify_eq/=. split; [done|]. simpl. apply decode_u64_lt.
Qed.

Lemma logs_loaded_fits s s' : logs_loaded s s' → store_fits s → store_fits s'.
Proof.
  intros [Hl Hs'] [Ht Hv Hr _].
  assert (Forall entry_fits (logs_ s')) as Hlogs.
  { apply Forall_lookup_2. intros i e Hi. pose proof (lookup_lt_Some _ _ _ Hi).
    rewrite Hl in Hi by done. apply load_log_fits in Hi; [done|].
    pose proof (load_logs_size_lt s). destruct Hs' as [[? _]|[? _]]; lia. }
  destruct Hs' as [[_ ->]|(_ & _ & ->)]; [by split|]. unfold store_logs_size. rewrite put_frame.
  by split.
Qed.

Lemma init_value_lt d k size dec def bound : (∀ bs, dec bs < bound) → def < bound →
  init_value d k size dec def < bound.
Proof.
  intros Hdec Hdef. unfold init_value. destruct (db_get d k []) as [[] v]; try done.
  by case_test.
Qed.

Lemma new_ContextStore_fits opened : store_fits (new_ContextStore opened).
Proof.
  destruct opened as [d|]; [|by split]. unfold new_ContextStore.
  eapply logs_loaded_fits; [apply init_logs_logs_loaded|]. split; simpl; try done.
  - by apply init_value_lt; [apply decode_u64_lt|].
  - by apply init_value_lt; [apply decode_u32_lt|].
Qed.

Lemma new_ClusterNode_fits cluster_name id ids options open_db g : id < u32_size →
  fits (new_ClusterNode cluster_name id ids options open_db g).
Proof.
  intros Hid. apply raft_handle_fits.
  change (fits (constructed cluster_name id ids options open_db g)).
  destruct (constructed_context cluster_name id ids options open_db g) as [m E].
  split; unfold store; rewrite ?E; try done; try apply wrap32_lt.
  - apply new_ContextStore_fits.
  - rewrite <-E. intros j o Ho. rewrite constructed_peers in Ho. case_decide; [|done].
    injection Ho as <-. split; [|done]. simpl. unfold logs_size.
    destruct (open_db _) as [d|]; [|done]. unfold new_ContextStore.
    match goal with |- context [init_logs ?s] =>
      pose proof (load_logs_size_lt s); destruct (init_logs_logs_loaded s) as [_ [[? _]|[? _]]] end;
      lia.
Qed.

(** C26: integers stay in their types.  A node that starts on any database and runs
    any inputs whose fields have their ranges, with room in its log for a command
    when one is committed, keeps only 64-bit terms, positions and commit answers,
    32-bit node identifiers and counts of votes and nodes, and sends only
    requests and callbacks with such fields. *)
Theorem integers_fit cluster_name id ids options open_db g inputs :
  id < u32_size →
  inputs_fit inputs (new_ClusterNode cluster_name id ids options open_db g) →
  fits (run_inputs inputs (new_ClusterNode cluster_name id ids options open_db g)).
Proof. intros Hid Hi. by apply run_inputs_fits, new_ClusterNode_fits. Qed.

End machine.

(** ** Witness *)

(** A follower that takes an entry, is elected in the next term and commits. *)
Definition demo_inputs : list NodeInput :=
  [AppendEntries demo_request; ServiceDiscovery 2 true true; ElectionTimer; ElectionTimer;
   RequestVoteAnswer (mkRequestVoteResponse 2 true); CommitCommand (Some demo_command) true;
   BroadcastTimer; AppendEntriesAnswer 2 (mkAppendEntriesRequest 2 1 0 1 [x61] 1)
     (mkAppendEntriesResponse 2 true)].

Lemma integers_fit_witness : fits (run_inputs demo_inputs (demo_node [1; 2; 3] 1)).
Proof.
  apply (integers_fit "demo" 1 [1; 2; 3] demo_options (λ _, Some empty_db) 3 demo_inputs).
  - reflexivity.
  - vm_compute. repeat split.
Defined.
