(* ===== verification/Crash.v ===== *)
(** * Crashes in the middle of a handler

    [careful n]: the store of the node, and every database that a crash may have
    left since a handler began, keep what the handler started from ([Journal.tracked]).
    Every part of every handler is careful, so a node that crashes at any write
    and is started again has its term, its vote, and a part of its old log or its
    new log. *)

From S2P Require Import Prelude Codec Platform LogEntry ClusterNodeOptions.
From S2P Require Import ContextStore ContextStoreFacts.
From S2P Require Import StoreTheorems NodeUtil RaftTypes OtherNode StateMachine Lifecycle Node.
From S2P Require Import StateMachineInterface RaftContext RaftContextFacts.
From S2P Require Import RaftStateMachine RaftStateMachineFacts.
From S2P Require Import ClusterNodeImpl Election VoteFacts ElectionRefinement NodeInvariant.
From S2P Require Import Demo AppendEntries Journal Kept Widths.

Local Open Scope N_scope.

(** ** Pieces that leave the store alone *)

Definition same_store `{Platform} (n n' : Node) : Prop := store n' = store n.

#[export] Instance same_store_refl `{Platform} : Reflexive same_store.
Proof. done. Qed.

#[export] Instance same_store_trans `{Platform} : Transitive same_store.
Proof. intros n1 n2 n3 H12 H23. unfold same_store in *. congruence. Qed.

Section same_store.
  Context `{Platform}.
  Implicit Types (n : Node).

Lemma output_same_store o n : same_store n (output o n).
Proof. done. Qed.

Lemma halt_same_store f n : same_store n (halt f n).
Proof. unfold halt. by destruct (fault_ n). Qed.

Lemma set_value_same_store p r n : same_store n (set_value p r n).
Proof. unfold set_value. destruct (_ !! _) as [[]|]; [|done|]; apply halt_same_store. Qed.

Lemma call_response_callback_same_store p callback n :
  same_store n (call_response_callback p callback n).
Proof. by destruct callback. Qed.

Lemma invoke_commit_callback_same_store log n : same_store n (invoke_commit_callback log n).
Proof. destruct log; [|done]. unfold invoke_commit_callback. by case_test. Qed.

Lemma invoke_revert_callback_same_store id n : same_store n (invoke_revert_callback id n).
Proof. unfold invoke_revert_callback. by case_test. Qed.

Lemma get_pending_commit_same_store n : same_store n (get_pending_commit n).2.
Proof. unfold get_pending_commit. destruct (pending_commit_ _); [|done]. by case_test. Qed.

Lemma start_election_timer_same_store n : same_store n (start_election_timer n).
Proof. unfold start_election_timer. by split_call. Qed.

Lemma reset_election_timer_same_store n : same_store n (reset_election_timer n).
Proof. unfold reset_election_timer, same_store. by rewrite start_election_timer_same_store. Qed.

Lemma request_vote_to_same_store n id : same_store n (request_vote_to n id).
Proof. unfold request_vote_to. by repeat case_match. Qed.

Lemma foldl_same_store {A} (f : Node → A → Node) l n :
  (∀ n x, same_store n (f n x)) → same_store n (foldl f n l).
Proof.
  intros Hf. revert n; induction l as [|x l IH]; intros n; [done|].
  simpl. etrans; [apply Hf|apply IH].
Qed.

Lemma state_change_same_store n n' : state_change n n' → same_store n n'.
Proof. by intros []. Qed.

End same_store.

#[export] Hint Resolve output_same_store halt_same_store set_value_same_store
  call_response_callback_same_store invoke_commit_callback_same_store
  invoke_revert_callback_same_store get_pending_commit_same_store
  start_election_timer_same_store request_vote_to_same_store state_change_same_store : foros.

Section same_store_broadcast.
  Context `{Platform}.
  Implicit Types (n : Node).

Lemma cancel_commit_same_store p id callback n : same_store n (cancel_commit p id callback n).
Proof. unfold cancel_commit. calm. Qed.

Lemma set_pending_commit_same_store p n : same_store n (set_pending_commit p n).2.
Proof. unfold set_pending_commit. by repeat case_test. Qed.

Lemma on_log_get_request_same_store id n : same_store n (on_log_get_request id n).2.
Proof.
  unfold on_log_get_request. pose proof (get_pending_commit_same_store n).
  destruct (get_pending_commit n) as [[p|] n']; [|done]. by case_test.
Qed.

Lemma OtherNode_broadcast_same_store term me log o n :
  same_store n (OtherNode.broadcast (Some on_log_get_request) term me log o n).2.
Proof.
  unfold OtherNode.broadcast. case_test; [done|].
  match goal with |- context [add_next_entry ?g ?l ?i ?r ?m] =>
    assert (same_store n (add_next_entry g l i r m).2) as Hn end.
  { unfold add_next_entry. destruct log; [|done]. case_test; [|done].
    pose proof (on_log_get_request_same_store (next_index_ o) n).
    destruct (on_log_get_request _ n) as [[e|] n']; [|done]. by destruct (command_ e). }
  destruct (add_next_entry _ _ _ _ _) as [[r|] n']; [|done].
  etrans; [exact Hn|]. unfold add_prev_entry. simpl. case_test; [|done].
  pose proof (on_log_get_request_same_store (next_index_ o - 1) n').
  by destruct (on_log_get_request _ n') as [[e|] n2].
Qed.

Lemma broadcast_to_same_store log n id : same_store n (broadcast_to log n id).
Proof.
  unfold broadcast_to. destruct (fault_ n); [done|].
  destruct (other_nodes_ _ !! id) as [o|]; [|done].
  match goal with |- context [OtherNode.broadcast ?g ?t ?m ?l ?o ?n] =>
    pose proof (OtherNode_broadcast_same_store t m l o n);
    destruct (OtherNode.broadcast g t m l o n) as [[] n'] end; calm.
Qed.

Lemma broadcast_same_store n : same_store n (broadcast n).
Proof.
  unfold broadcast. pose proof (get_pending_commit_same_store n) as Hn.
  destruct (get_pending_commit n) as [p n']. etrans; [exact Hn|].
  apply foldl_same_store. intros. apply broadcast_to_same_store.
Qed.

(** Completing a commit writes the log, if the result is a success. *)
Lemma complete_commit_store p e result callback n :
  store (complete_commit p e result callback n) =
    if result then (push_log (Some e) (store n)).2 else store n.
Proof.
  unfold complete_commit. destruct result;
    rewrite call_response_callback_same_store, set_value_same_store; [|done].
  by rewrite invoke_commit_callback_same_store.
Qed.

End same_store_broadcast.

#[export] Hint Resolve cancel_commit_same_store set_pending_commit_same_store
  broadcast_same_store : foros.

(** ** Careful handlers *)

Section careful.
  Context `{CrashHistory} (s0 : ContextStore) (p : nat).
  Implicit Types (n : Node).

Definition careful n : Prop := tracked s0 p (store n).

(** The log has room for one more entry, and is so far a part of the old one. *)
Definition room n : Prop := logs_size (store n) + 1 < u64_size.
Definition uncommitted n : Prop := cut_log (logs_ s0) (logs_ (store n)).

(** The node has reached a later term. *)
Definition in_later_term n : Prop := current_term_ s0 < current_term_ (store n).

Lemma same_store_careful n n' : same_store n n' → careful n → careful n'.
Proof. unfold careful. by intros ->. Qed.

Lemma on_store_careful f n : (careful n → tracked s0 p (f (store n))) →
  careful n → careful (on_store f n).
Proof. intros Hf Hn. unfold careful. rewrite store_on_store. by apply Hf. Qed.

Lemma careful_term n : careful n → current_term_ s0 ≤ current_term_ (store n).
Proof. intros (d & Hd). apply (tracked_vote _ _ _ _ Hd). Qed.

(** *** Terms and votes *)

Lemma reset_vote_careful n : in_later_term n → careful n → careful (reset_vote n).
Proof.
  intros Ht Hn. unfold reset_vote.
  apply on_store_careful; [intros Hc; apply set_voted_tracked; [|exact Hc]|].
  - left. rewrite !store_on_store. simpl. by rewrite set_voted_for_frame.
  - apply on_store_careful; [by apply with_vote_received_tracked|].
    apply on_store_careful; [|done]. by apply set_voted_for_tracked; [|left].
Qed.

Lemma vote_for_me_careful n : node_id_ (context_ n) < u32_size → in_later_term n →
  careful n → careful (vote_for_me n).
Proof.
  intros Hid Ht Hn. unfold vote_for_me.
  apply on_store_careful; [by apply with_vote_received_tracked|].
  apply on_store_careful; [intros Hc; apply set_voted_tracked; [|exact Hc]|].
  - left. rewrite !store_on_store. by rewrite set_voted_for_frame.
  - apply on_store_careful; [|done]. by apply set_voted_for_tracked; [|left].
Qed.

Lemma vote_careful term id i t n : id < u32_size → careful n →
  careful (vote term id i t n).2.
Proof.
  intros Hid Hn. unfold vote. case_test; [|done].
  destruct (_ && _) eqn:Hb; [|done].
  apply andb_true_iff in Hb as [Hv%negb_true_iff _]. cbn [snd].
  apply on_store_careful; [intros Hc; apply set_voted_tracked; [|exact Hc]|].
  - right. rewrite !store_on_store. by rewrite set_voted_for_frame.
  - apply on_store_careful; [|done]. by apply set_voted_for_tracked; [|right].
Qed.

(** *** The log *)

Lemma push_log_careful e n : term_ e < u64_size → room n → uncommitted n → careful n →
  tracked s0 p (push_log (Some e) (store n)).2.
Proof. intros. by apply push_log_tracked. Qed.

Lemma complete_commit_careful q e result callback n : term_ e < u64_size → room n →
  uncommitted n → careful n → careful (complete_commit q e result callback n).
Proof.
  intros. unfold careful. rewrite complete_commit_store.
  destruct result; [by apply push_log_careful|done].
Qed.

Lemma push_and_notify_careful e n : term_ e < u64_size → room n → uncommitted n →
  careful n → careful (push_and_notify e n).2.
Proof.
  intros Ht Hr Hu Hn. unfold push_and_notify.
  pose proof (push_log_careful e n Ht Hr Hu Hn) as Hs.
  destruct (push_log _ _) as [ok s]. cbn [snd] in Hs. destruct ok; [|done].
  by apply (same_store_careful (on_store (λ _, s) n));
    [apply invoke_commit_callback_same_store|].
Qed.

Lemma revert_log_careful i n : uncommitted n → careful n →
  careful (on_store (λ s, (revert_log i s).2) n) ∧
  uncommitted (on_store (λ s, (revert_log i s).2) n).
Proof.
  intros Hu Hn. split.
  - apply on_store_careful; [|done]. by apply revert_log_tracked.
  - unfold uncommitted. rewrite store_on_store, revert_log_logs. by apply cut_log_take.
Qed.

Lemma revert_log_room i n : room n → room (on_store (λ s, (revert_log i s).2) n).
Proof.
  unfold room, logs_size. rewrite store_on_store, revert_log_logs, length_take. lia.
Qed.

Lemma request_local_commit_careful r n : ae_term r < u64_size → room n → uncommitted n →
  careful n → careful (request_local_commit r n).2.
Proof.
  intros Ht Hr Hu Hn. unfold request_local_commit.
  destruct (last_log _); [|by apply push_and_notify_careful].
  destruct (_ && _ && _); [done|]. case_test; [|by apply push_and_notify_careful].
  destruct (revert_log_careful (ae_leader_commit r) n Hu Hn) as [Hn1 Hu1].
  pose proof (revert_log_room (ae_leader_commit r) n Hr) as Hr1.
  set (n1 := on_store _ n) in *. clearbody n1.
  pose proof (invoke_revert_callback_same_store (ae_leader_commit r) n1) as E.
  by apply push_and_notify_careful; unfold room, uncommitted, careful; rewrite ?E.
Qed.

End careful.

Section careful_handlers.
  Context `{CrashHistory} `{!StateMachineInterface} `{!StateMachineContract}.
  Context (s0 : ContextStore) (p : nat).
  Implicit Types (n : Node).

Abbreviation careful := (careful s0 p).

Lemma update_term_careful term self n : term < u64_size → careful n →
  careful (update_term term self n).2.
Proof.
  intros Ht Hn. unfold update_term. case_test; [done|].
  assert (careful (reset_vote (on_store (λ s, (set_current_term term s).2) n))) as Hn1.
  { apply reset_vote_careful.
    - unfold in_later_term. rewrite store_on_store, set_current_term_frame. simpl.
      pose proof (careful_term _ _ _ Hn). unfold current_term in *. lia.
    - apply on_store_careful; [|done]. by apply set_current_term_tracked. }
  destruct self; [done|]. eapply same_store_careful; [|exact Hn1].
  apply state_change_same_store, on_new_term_received_change.
Qed.

Lemma check_elected_careful n : careful n → careful (check_elected n).
Proof.
  intros Hn. unfold check_elected. case_test; [done|].
  eapply same_store_careful; [apply state_change_same_store, on_elected_change|done].
Qed.

(** An election begins in a new term, before the last 64-bit value. *)
Lemma start_election_careful n : current_term_ (store n) + 1 < u64_size →
  node_id_ (context_ n) < u32_size → careful n → careful (start_election n).
Proof.
  intros Ht Hid Hn. unfold start_election, request_vote.
  pose proof (update_term_careful (wrap64 (current_term (store n) + 1)) true n
    (wrap64_lt _) Hn) as Hn1. fold (increase_term n) in Hn1.
  assert (in_later_term s0 (increase_term n) ∧
    node_id_ (context_ (increase_term n)) = node_id_ (context_ n)) as [Hl1 Hid1].
  { destruct (increase_term_eq n) as [[Hle _]|[_ [d ->]]].
    { rewrite wrap64_small in Hle by done. lia. }
    split; [|done]. pose proof (careful_term _ _ _ Hn). unfold in_later_term. simpl.
    rewrite wrap64_small by done. lia. }
  set (n1 := increase_term n) in *. clearbody n1.
  assert (careful (vote_for_me (reset_vote n1))) as Hn2.
  { pose proof (reset_vote_careful _ _ _ Hl1 Hn1) as Hn2.
    destruct (reset_vote_eq n1) as [d2 E2]. rewrite E2 in *.
    apply vote_for_me_careful; [by rewrite <-Hid1 in Hid|done|done]. }
  set (n2 := vote_for_me _) in *. clearbody n2.
  apply check_elected_careful. eapply same_store_careful; [|exact Hn2].
  etrans; [|apply foldl_same_store, request_vote_to_same_store].
  apply reset_election_timer_same_store.
Qed.

Lemma on_request_vote_requested_careful r n : request_vote_fits r → careful n →
  careful (on_request_vote_requested r n).2.
Proof.
  intros (Ht & Hid & _) Hn. unfold on_request_vote_requested. destruct (negb _); [done|].
  pose proof (update_term_careful (rv_term r) false n Ht Hn) as Hn1.
  destruct (update_term _ _ _) as [b n1]. cbn [snd] in Hn1.
  pose proof (vote_careful _ _ (rv_term r) (rv_candidate_id r) (rv_last_data_index r)
    (rv_loat_data_term r) n1 Hid Hn1) as Hv.
  by destruct (vote _ _ _ _ _) as [[t g] n2].
Qed.

Lemma on_request_vote_response_careful term granted n : term < u64_size → careful n →
  careful (on_request_vote_response term granted n).
Proof.
  intros Ht Hn. unfold on_request_vote_response. case_test; [done|].
  pose proof (update_term_careful term false n Ht Hn) as Hn1.
  destruct (update_term _ _ _) as [[] n1]; [done|]. destruct granted; [|done]. simpl.
  apply check_elected_careful, on_store_careful; [|done]. by apply with_vote_received_tracked.
Qed.

End careful_handlers.

(** ** The machine, and a whole node *)

Section machine.
  Context `{CrashHistory} (s0 : ContextStore) (p : nat).
  Implicit Types (n : Node).

Abbreviation careful := (careful s0 p).
Abbreviation uncommitted := (uncommitted s0).

Lemma election_timedout_careful n : current_term_ (store n) + 1 < u64_size →
  node_id_ (context_ n) < u32_size → careful n →
  careful (StateMachineInterface.on_election_timedout n).
Proof.
  intros Ht Hid Hn.
  change (StateMachineInterface.on_election_timedout n) with (raft_handle (S 1) kTimedout n).
  pose proof (mk_interface_contract 0) as Hcontract.
  assert (∀ st, careful (depart st n)) as Hdep.
  { intros st. eapply same_store_careful; [apply state_change_same_store, depart_change|done]. }
  rewrite raft_handle_S. unfold state_handle.
  destruct (raft_state n); simpl; try (case_decide; [apply Hdep|done]).
  - case_decide; [|done]. unfold goto. simpl. unfold candidate_entry.
    pose proof (depart_change kCandidate n) as [Hs _ Hi _ _ _ _ _ _ _].
    apply (@start_election_careful _ _ _ _ Hcontract); [by rewrite Hs|by rewrite Hi|done].
  - unfold candidate_on_timedout.
    pose proof (@start_election_careful _ _ _ _ Hcontract s0 p n Ht Hid Hn) as Hn1.
    case_decide; [|done]. unfold goto. simpl.
    eapply same_store_careful; [apply state_change_same_store, depart_change|done].
Qed.

Lemma handle_pending_commit_response_careful id index term success n : fits n → room n →
  uncommitted n → careful n → careful (handle_pending_commit_response id index term success n).
Proof.
  intros Hf Hr Hu Hn. unfold handle_pending_commit_response.
  destruct (pending_commit_ (context_ n)) as [q|] eqn:Hq; [|done].
  destruct (_ || _); [done|]. case_test; [done|].
  apply complete_commit_careful; try done. by apply (fits_pending _ Hf q Hq).
Qed.

Lemma update_term_room term n : room n → room (update_term term false n).2.
Proof. unfold room, logs_size. by rewrite (kept_logs _ _ (update_term_kept term n)). Qed.

Lemma update_term_uncommitted term n : uncommitted n →
  uncommitted (update_term term false n).2.
Proof. unfold Crash.uncommitted. by rewrite (kept_logs _ _ (update_term_kept term n)). Qed.

Lemma on_append_entries_response_careful id r resp n :
  append_entries_fits r → ae_response_term resp < u64_size → fits n → room n →
  uncommitted n → careful n → careful (RaftContext.on_append_entries_response id r resp n).
Proof.
  intros Hr Hresp Hf Hroom Hu Hn.
  unfold RaftContext.on_append_entries_response, on_broadcast_response.
  pose proof (peers_answer_fits id r resp n Hr Hf) as Hf1.
  set (n1 := on_context _ n) in *.
  assert (room n1 ∧ uncommitted n1 ∧ careful n1) as (Hroom1 & Hu1 & Hn1) by done.
  clearbody n1. case_test; [|by apply handle_pending_commit_response_careful].
  apply handle_pending_commit_response_careful; [by apply update_term_fits| | |].
  - by apply update_term_room.
  - by apply update_term_uncommitted.
  - by apply update_term_careful.
Qed.

Lemma contacted_careful r n : ae_term r < u64_size → careful n → careful (contacted r n).
Proof.
  intros Ht Hn. unfold contacted. case_test; [done|].
  eapply same_store_careful; [apply state_change_same_store, on_leader_discovered_change|].
  by apply (update_term_careful s0 p (ae_term r) false n).
Qed.

Lemma on_append_entries_requested_careful r n : append_entries_fits r → room n →
  uncommitted n → careful n → careful (on_append_entries_requested r n).2.
Proof.
  intros (Ht & _) Hr Hu Hn. destruct (is_valid_node (ae_leader_id r) n) eqn:Hv.
  2: { unfold on_append_entries_requested. by rewrite Hv. }
  rewrite on_append_entries_requested_eq by done. cbv zeta.
  destruct (contacted_frame r n) as (Hl & _ & _ & _).
  pose proof (contacted_careful r n Ht Hn) as Hn1.
  assert (room (contacted r n) ∧ uncommitted (contacted r n)) as [Hr1 Hu1].
  { unfold room, Crash.uncommitted, logs_size. by rewrite Hl. }
  set (n1 := contacted r n) in *. clearbody n1.
  pose proof (request_local_commit_careful _ _ r n1 Ht Hr1 Hu1 Hn1) as Hc.
  destruct (_ =? _)%nat; [done|].
  destruct (request_local_commit r n1) as [ok n2]. case_test; [done|].
  destruct (log _ _); [|done]. destruct (negb _); [|done].
  by apply (revert_log_careful s0 p).
Qed.

Lemma commit_command_careful command callback n : fits n → room n →
  uncommitted n → careful n → careful (commit_command command callback n).2.
Proof.
  intros Hf Hr Hu Hn. unfold commit_command. cbv zeta.
  set (n1 := on_context _ n). assert (same_store n n1) as E1 by done.
  assert (room n1 ∧ uncommitted n1 ∧ careful n1) as (Hr1 & Hu1 & Hn1) by done.
  pose proof (fits_term _ (fits_store _ Hf)) as Ht.
  clearbody n1. destruct (negb _).
  { eapply same_store_careful; [apply cancel_commit_same_store|done]. }
  case_test.
  { apply complete_commit_careful; try done. simpl. by rewrite E1. }
  match goal with |- context [set_pending_commit ?q ?m] =>
    pose proof (set_pending_commit_same_store q m) as E2;
    destruct (set_pending_commit q m) as [[] n2] end; cbn [negb snd] in *.
  - by eapply same_store_careful.
  - eapply same_store_careful; [|exact Hn1]. etrans; [exact E2|apply cancel_commit_same_store].
Qed.

Lemma broadcast_timedout_same_store n :
  same_store n (StateMachineInterface.on_broadcast_timedout n).
Proof.
  change (StateMachineInterface.on_broadcast_timedout n) with
    (raft_handle (S 1) kBroadcastTimedout n).
  rewrite raft_handle_S. unfold state_handle.
  destruct (raft_state n); simpl;
    try (case_decide; [apply state_change_same_store, depart_change|done]).
  unfold leader_on_broadcast_timedout. pose proof (broadcast_same_store n) as E.
  case_decide; [|done]. etrans; [exact E|]. apply state_change_same_store, depart_change.
Qed.

(** An input keeps every restart safe. *)
Lemma run_input_careful input n : input_fits input n →
  (input = ElectionTimer → current_term_ (store n) + 1 < u64_size) →
  fits n → room n → uncommitted n → careful n → careful (run_input input n).
Proof.
  intros Hi Ht Hf Hr Hu Hn. destruct input; simpl in Hi |- *; try done.
  - destruct (election_timer_ _); [|done]. unfold on_election_timer.
    destruct (broadcast_received_ _); [done|].
    apply election_timedout_careful; [by apply Ht|apply Hf|done].
  - destruct (broadcast_timer_ _); [|done]. unfold on_broadcast_timer.
    eapply same_store_careful; [apply broadcast_timedout_same_store|done].
  - by apply on_append_entries_requested_careful.
  - by apply on_request_vote_requested_careful.
  - destruct Hi. by apply on_append_entries_response_careful.
  - by apply on_request_vote_response_careful.
  - by apply commit_command_careful.
Qed.

End machine.

(** ** Starting again after a crash *)

Section restart.
  Context `{CrashHistory}.
  Implicit Types (n : Node) (d e : DB).

(** An election timer fires before the term reaches its last 64-bit value. *)
Definition term_left (input : NodeInput) n : Prop :=
  input = ElectionTimer → current_term_ (store n) + 1 < u64_size.

(** Node [n] runs [input], its database being [d] before and [d'] afterwards: every
    write succeeds, and the integers fit their types. *)
Record crash_run (input : NodeInput) n d d' : Prop := {
  crash_persisted : persisted (store n) d;
  crash_writable : db_writable d;
  crash_fits : fits n;
  crash_room : room n;
  crash_input : input_fits input n;
  crash_term : term_left input n;
  crash_after : db_ (store (run_input input n)) = Some d';
}.

Lemma crash_run_tracked input n d d' : crash_run input n d d' →
  tracked_at (store n) (length (snapshots d)) d' (store (run_input input n)).
Proof.
  intros [Hp Hw Hf Hr Hi Ht Ha].
  destruct (run_input_careful (store n) (length (snapshots d)) input n) as (d2 & Hd); try done.
  - apply cut_log_refl.
  - by apply tracked_start.
  - pose proof (persisted_db _ _ (tracked_persisted _ _ _ _ Hd)). by simplify_eq.
Qed.

(** What the store of the next start holds. *)
Lemma crash_run_store input n d d' e : crash_run input n d d' →
  e ∈ crash_points d d' → db_readable e →
  ∃ m, survives (store n) (store (run_input input n)) m ∧ persisted m e ∧
    new_ContextStore (Some e) = with_vote_received 0 m.
Proof.
  intros Hrun%crash_run_tracked He Hr.
  destruct (tracked_crash _ _ _ _ Hrun e He) as (m & Hm & Hs).
  exists m. split_and!; [done..|]. by apply new_ContextStore_persisted.
Qed.

(** C4: a crash in the middle of a handler.  If the memory of a node is what its
    database holds, and the node runs any input while all its writes succeed and its
    integers stay in their ranges, then its memory is again what its database holds.  And if the process ends after any
    of the writes, a new node on the database of that moment is a follower, its
    term has not fallen back, it has kept the vote of the old node when the term is
    the same, and its log is the old log, a beginning of it, or the new log. *)
Theorem crash_recovers cluster_name id ids options g input n d d' :
  crash_run input n d d' →
  persisted (store (run_input input n)) d' ∧
  ∀ e, e ∈ crash_points d d' → db_readable e →
    let n' := new_ClusterNode cluster_name id ids options (λ _, Some e) g in
    raft_state n' = kFollower ∧
    get_term n ≤ get_term n' ∧
    (get_term n' = get_term n → voted (store n) = true →
      voted (store n') = true ∧ voted_for (store n') = voted_for (store n)) ∧
    (cut_log (logs_ (store n)) (logs_ (store n')) ∨
     logs_ (store n') = logs_ (store (run_input input n))).
Proof.
  intros Hrun. split; [apply (crash_run_tracked _ _ _ _ Hrun)|]. intros e He Hr n'.
  destruct (new_ClusterNode_facts cluster_name id ids options (λ _, Some e) g)
    as (Hstore & _ & _ & _ & Hst).
  destruct (crash_run_store _ _ _ _ _ Hrun He Hr) as (m & [[Ht Hv] Hl] & _ & E).
  unfold n', get_term, current_term, voted, voted_for. by rewrite Hstore, E, Hst.
Qed.

End restart.

(** ** Witness

    A follower hears of term 1 and takes an entry: three writes of the term and the
    vote, three of the log. *)

Definition demo_crash_input : NodeInput := AppendEntries demo_request.
Definition demo_crash_node : Node := run_input demo_crash_input (demo_node [1; 2; 3] 1).
Definition demo_crash_db : @DB mem_platform := default empty_db (db_ (store demo_crash_node)).

Lemma demo_node_crash_run ids i input d : i < u32_size →
  input_fits input (demo_node ids i) → term_left input (demo_node ids i) →
  db_ (store (run_input input (demo_node ids i))) = Some d →
  crash_run input (demo_node ids i) empty_db d.
Proof.
  intros Hi Hf Ht Hd.
  assert (store (demo_node ids i) = mkContextStore (Some empty_db) 0 0 false 0 []) as E.
  { unfold demo_node.
    rewrite (proj1 (new_ClusterNode_facts "demo" i ids demo_options (λ _, Some empty_db) 3)).
    apply new_ContextStore_empty; [done|apply mem_platform_readable]. }
  split; [| |unfold demo_node; by apply new_ClusterNode_fits| |done..].
  - rewrite E. by apply persisted_empty.
  - by apply mem_writable.
  - unfold room. by rewrite E.
Qed.

Lemma demo_crash_run :
  crash_run demo_crash_input (demo_node [1; 2; 3] 1) empty_db demo_crash_db.
Proof.
  apply demo_node_crash_run; [reflexivity|vm_compute; done|done|vm_compute; reflexivity].
Qed.

Definition demo_crash_point : @DB mem_platform :=
  default empty_db (crash_points empty_db demo_crash_db !! 4%nat).

Lemma crash_recovers_witness :
  let n' := new_ClusterNode "demo" 1 [1; 2; 3] demo_options (λ _, Some demo_crash_point) 5 in
  length (crash_points empty_db demo_crash_db) = 6%nat ∧
  persisted (store demo_crash_node) demo_crash_db ∧ raft_state n' = kFollower ∧
  (cut_log [] (logs_ (store n')) ∨ logs_ (store n') = [entry_of demo_request]).
Proof.
  split; [vm_compute; reflexivity|].
  destruct (crash_recovers (H := mem_platform) "demo" 1 [1; 2; 3] demo_options 5 demo_crash_input
    (demo_node [1; 2; 3] 1) empty_db demo_crash_db demo_crash_run) as [Hp Hcrash].
  split; [exact Hp|]. destruct (Hcrash demo_crash_point) as (Hst & _ & _ & Hl).
  - apply (list_elem_of_lookup_2 _ 4%nat). vm_compute. reflexivity.
  - apply mem_platform_readable.
  - split; [exact Hst|]. exact Hl.
Defined.
