(* ===== verification/Cluster.v ===== *)
(** * A cluster of nodes

    The nodes of a cluster and the answers to vote requests that travel between
    them.  Each step runs one input of one node ([ClusterNodeImpl.run_input]):
    messages may be delayed, reordered and lost, nodes may stop between two inputs
    or in the middle of one and start again from their database.
    [cluster_simulation] relates these steps to Election.v. *)

From S2P Require Import Prelude Codec Platform LogEntry ContextStore ContextStoreFacts.
From S2P Require Import NodeUtil RaftTypes OtherNode StateMachine Lifecycle Node.
From S2P Require Import StateMachineInterface RaftContext RaftContextFacts.
From S2P Require Import RaftStateMachine RaftStateMachineFacts ClusterNodeOptions.
From S2P Require Import ClusterNodeImpl Election VoteFacts ElectionRefinement NodeInvariant Demo.
From S2P Require Import Journal Crash.

Local Open Scope N_scope.

(** ** The cluster *)

Section cluster.
  Context `{CrashHistory} (cluster_name : string) (ids : list N) (options : ClusterNodeOptions).

(** An answer carries the candidate it is for and the voter it is from: the
    middleware gives it to the client that made the request. *)
Record Answer := mkAnswer { answer_to : N; answer_from : N; answer : RequestVoteResponse }.

Record Cluster := mkCluster { nodes : gmap N Node; answers : list Answer }.

(** Inputs other than vote requests and their answers. *)
Definition local_input (input : NodeInput) : bool :=
  match input with
  | RequestVote _ | RequestVoteAnswer _ => false
  | _ => true
  end.

(** [step_local] covers the timers, the user, and append-entries requests and
    answers of any content. [step_request] delivers any vote request, sent or
    not, once or more.  In [step_crash] the node stops after one of the writes of
    an input, whatever that input is, and starts again. *)
Inductive cluster_step (c : Cluster) : Cluster → Prop :=
  | step_local i n input :
      nodes c !! i = Some n → local_input input = true → term_left input n →
      cluster_step c (mkCluster (<[i := run_input input n]> (nodes c)) (answers c))
  | step_request i n r resp n' :
      nodes c !! i = Some n → on_request_vote_requested r n = (resp, n') →
      cluster_step c (mkCluster (<[i := n']> (nodes c))
        (answers c ++ [mkAnswer (rv_candidate_id r) i resp]))
  | step_answer i n u resp l1 l2 :
      nodes c !! i = Some n → answers c = l1 ++ mkAnswer i u resp :: l2 →
      cluster_step c
        (mkCluster (<[i := run_input (RequestVoteAnswer resp) n]> (nodes c)) (l1 ++ l2))
  | step_answer_lost a l1 l2 :
      answers c = l1 ++ a :: l2 → cluster_step c (mkCluster (nodes c) (l1 ++ l2))
  | step_restart i n d g :
      nodes c !! i = Some n → persisted (store n) d → db_readable d →
      cluster_step c
        (mkCluster (<[i := new_ClusterNode cluster_name i ids options (λ _, Some d) g]> (nodes c))
           (answers c))
  | step_crash i n input d d' e g :
      nodes c !! i = Some n → crash_run input n d d' → e ∈ crash_points d d' → db_readable e →
      cluster_step c
        (mkCluster (<[i := new_ClusterNode cluster_name i ids options (λ _, Some e) g]> (nodes c))
           (answers c)).

(** Every node is started on some database. *)
Definition cluster_init (c : Cluster) : Prop :=
  answers c = [] ∧ dom (nodes c) = list_to_set ids ∧
  ∀ i n, nodes c !! i = Some n → ∃ open_db g,
    n = new_ClusterNode cluster_name i ids options open_db g.

(** ** Simulation *)

Definition cluster_majority : N := N.of_nat (length ids) / 2 + 1.

(** The granted votes among the answers. *)
Definition granted (a : Answer) : option Vote :=
  if rv_vote_granted (answer a)
  then Some (mkVote (answer_to a) (answer_from a) (rv_response_term (answer a)))
  else None.

Definition abstraction (c : Cluster) : Election :=
  mkElection (view_of <$> nodes c) (omap granted (answers c)).

(** What never changes in the node with identifier [i]. *)
Record configured (i : N) (n : Node) : Prop := {
  configured_id : node_id_ (context_ n) = i;
  configured_majority : majority_ (context_ n) = cluster_majority;
  configured_states : states_ (raft_fsm_ n) = raft_states;
}.

Definition cluster_ok (c : Cluster) : Prop :=
  ∀ i n, nodes c !! i = Some n → configured i n.

(** The cluster has fewer nodes than 32 bits can count. *)
Context (ids_small : N.of_nat (length ids) < u32_size).

Lemma majority_small :
  wrap32 (N.shiftr (wrap32 (N.of_nat (length ids))) 1 + 1) = cluster_majority.
Proof.
  unfold cluster_majority. rewrite (wrap32_small (N.of_nat _)) by done.
  rewrite N.shiftr_div_pow2. change (2 ^ 1) with 2. apply wrap32_small.
  unfold u32_size in *. pose proof (N.div_lt_upper_bound (N.of_nat (length ids)) 2 2147483648).
  lia.
Qed.

Lemma new_node_configured i open_db g :
  configured i (new_ClusterNode cluster_name i ids options open_db g).
Proof.
  destruct (new_ClusterNode_facts cluster_name i ids options open_db g) as (_ & Hid & Hm & Hs & _).
  split; [done|by rewrite Hm, majority_small|done].
Qed.

Lemma silent_configured i n n' : silent n n' → configured i n → configured i n'.
Proof. intros [] []. split; congruence. Qed.

Lemma cluster_ok_insert c i n a :
  configured i n → cluster_ok c → cluster_ok (mkCluster (<[i := n]> (nodes c)) a).
Proof.
  intros Hn Hc j m. simpl. rewrite lookup_insert_Some. intros [[<- <-]|[_ ?]]; [done|by apply Hc].
Qed.

Lemma broadcast_timedout_silent n :
  states_ (raft_fsm_ n) = raft_states → silent n (StateMachineInterface.on_broadcast_timedout n).
Proof.
  intros Hs. rewrite broadcast_timedout_eq by done.
  destruct (raft_state n); try done. apply calm_silent, broadcast_calm.
Qed.

(** Every local input is quiet, or starts an election. *)
Lemma local_input_view input n : states_ (raft_fsm_ n) = raft_states →
  local_input input = true → term_left input n →
  silent n (run_input input n) ∨
  (raft_state n ≠ kLeader ∧ candidacy n (run_input input n)).
Proof.
  intros Hs Hl Ht. destruct input; try done; simpl; try by left.
  - destruct (election_timer_ _); [|by left]. unfold on_election_timer.
    destruct (broadcast_received_ _); [by left|].
    pose proof (election_timedout_view n Hs (Ht eq_refl)) as Hv. cbv zeta in Hv.
    destruct (raft_state n); [left; by rewrite Hv|by right|by right|left; by rewrite Hv..].
  - destruct (broadcast_timer_ _); left; [by apply broadcast_timedout_silent|done].
  - left. by apply on_append_entries_requested_silent.
  - left. by apply on_append_entries_response_silent.
  - left. apply calm_silent, commit_command_calm.
Qed.

Lemma abstraction_insert c i n a :
  abstraction (mkCluster (<[i := n]> (nodes c)) a) =
    mkElection (<[i := view_of n]> (view_of <$> nodes c)) (omap granted a).
Proof. unfold abstraction. simpl. by rewrite fmap_insert. Qed.

(** Taking an answer out takes the vote in it out, if there is one. *)
Lemma omap_granted_middle l1 a l2 :
  match granted a with
  | Some v => omap granted (l1 ++ a :: l2) ≡ₚ v :: omap granted (l1 ++ l2)
  | None => omap granted (l1 ++ a :: l2) = omap granted (l1 ++ l2)
  end.
Proof.
  rewrite !omap_app. simpl. destruct (granted a); [|done]. by rewrite Permutation_middle.
Qed.

Abbreviation simulates := (λ c c' : Cluster,
  cluster_ok c' ∧ rtc (election_step cluster_majority) (abstraction c) (abstraction c')).

Lemma view_lookup c i n : nodes c !! i = Some n →
  views (abstraction c) !! i = Some (view_of n).
Proof. intros Hi. simpl. by rewrite lookup_fmap, Hi. Qed.

Lemma quiet_simulates c i n n' : cluster_ok c → nodes c !! i = Some n → silent n n' →
  simulates c (mkCluster (<[i := n']> (nodes c)) (answers c)).
Proof.
  intros Hc Hi Hn. split.
  - apply cluster_ok_insert; [|done]. by eapply silent_configured, Hc.
  - rewrite abstraction_insert. apply rtc_once.
    apply (step_quiet _ (abstraction c) i (view_of n)); [by apply view_lookup|apply Hn].
Qed.

Lemma local_simulates c i n input : cluster_ok c → nodes c !! i = Some n →
  local_input input = true → term_left input n →
  simulates c (mkCluster (<[i := run_input input n]> (nodes c)) (answers c)).
Proof.
  intros Hc Hi Hl Ht. pose proof (Hc _ _ Hi) as [Hid Hmaj Hs].
  destruct (local_input_view input n Hs Hl Ht) as [Hn|[Hnl (Hv & Hid' & Hmaj' & Hs')]].
  { by eapply quiet_simulates. }
  split.
  - apply cluster_ok_insert; [|done]. split; congruence.
  - rewrite abstraction_insert. rewrite Hid in Hv.
    pose proof (step_candidacy cluster_majority (abstraction c) i (view_of n)
      (view_lookup _ _ _ Hi) Hnl) as Hcand.
    destruct Hv as [[-> _]|[-> Hone]]; [by apply rtc_once|].
    eapply rtc_l; [exact Hcand|]. apply rtc_once.
    match type of Hcand with election_step _ _ ?e =>
      pose proof (step_elected cluster_majority e i
        (mkView (view_term (view_of n) + 1) (Some i) 1 kCandidate)) as Hel end.
    simpl in Hel. rewrite lookup_insert_eq, insert_insert_eq in Hel.
    apply Hel; [done|by rewrite <-Hmaj].
Qed.

Lemma request_simulates c i n r resp n' : cluster_ok c → nodes c !! i = Some n →
  on_request_vote_requested r n = (resp, n') →
  simulates c (mkCluster (<[i := n']> (nodes c))
    (answers c ++ [mkAnswer (rv_candidate_id r) i resp])).
Proof.
  intros Hc Hi Hr. pose proof (Hc _ _ Hi) as Hcfg.
  pose proof (on_request_vote_requested_view r n (configured_states _ _ Hcfg)) as Hv.
  rewrite Hr in Hv. destruct Hv as (n1 & Hn1 & Hv).
  pose proof (silent_configured _ _ _ Hn1 Hcfg) as Hcfg1.
  destruct (quiet_simulates c i n n1 Hc Hi Hn1) as [_ Hq].
  destruct Hv as [[Hg ->]|(-> & Hnone & Hview & Hid & Hmaj & Hs)].
  - split; [by apply cluster_ok_insert|]. etrans; [exact Hq|].
    rewrite !abstraction_insert, omap_app. simpl. unfold granted at 3. simpl.
    by rewrite Hg, app_nil_r.
  - split.
    + apply cluster_ok_insert; [|done]. destruct Hcfg1. split; congruence.
    + etrans; [exact Hq|]. rewrite !abstraction_insert, omap_app. simpl. rewrite Hview.
      apply rtc_once.
      pose proof (step_grant cluster_majority (abstraction (mkCluster (<[i := n1]> (nodes c))
        (answers c))) i (view_of n1) (rv_candidate_id r)) as Hgr.
      rewrite abstraction_insert in Hgr. simpl in Hgr.
      rewrite lookup_insert_eq, insert_insert_eq in Hgr. by apply Hgr.
Qed.

Lemma lost_simulates c a l1 l2 : cluster_ok c → answers c = l1 ++ a :: l2 →
  simulates c (mkCluster (nodes c) (l1 ++ l2)).
Proof.
  intros Hc Ha. split; [exact Hc|]. unfold abstraction. rewrite Ha. simpl nodes. simpl answers.
  pose proof (omap_granted_middle l1 a l2) as Hm. destruct (granted a) as [v|].
  - apply rtc_once. by apply (step_lost _ (mkElection _ _) v).
  - by rewrite Hm.
Qed.

Lemma answer_simulates c i n u resp l1 l2 : cluster_ok c → nodes c !! i = Some n →
  answers c = l1 ++ mkAnswer i u resp :: l2 →
  simulates c (mkCluster (<[i := run_input (RequestVoteAnswer resp) n]> (nodes c)) (l1 ++ l2)).
Proof.
  intros Hc Hi Ha. pose proof (Hc _ _ Hi) as Hcfg. simpl.
  destruct (lost_simulates c _ l1 l2 Hc Ha) as [Hc1 Hlost].
  destruct (on_request_vote_response_view (rv_response_term resp) (rv_vote_granted resp) n
    (configured_states _ _ Hcfg)) as [Hn|(Hg & Ht & r & Hr & Hv & Hid & Hmaj & Hs)].
  { destruct (quiet_simulates (mkCluster (nodes c) (l1 ++ l2)) i n _ Hc1 Hi Hn) as [? ?].
    split; [done|by etrans]. }
  split.
  { apply cluster_ok_insert; [|done]. destruct Hcfg. split; congruence. }
  rewrite abstraction_insert.
  pose proof (omap_granted_middle l1 (mkAnswer i u resp) l2) as Hm.
  rewrite <-Ha in Hm. unfold granted at 1 in Hm. simpl in Hm. rewrite Hg, Ht in Hm.
  pose proof (step_count cluster_majority (abstraction c) i (view_of n) u r _
    (view_lookup _ _ _ Hi) Hm Hr) as Hcount.
  destruct Hv as [->|(-> & _ & Hle)]; [by apply rtc_once|].
  eapply rtc_l; [exact Hcount|]. apply rtc_once.
  match type of Hcount with election_step _ _ ?e =>
    pose proof (step_elected cluster_majority e i (with_received r (view_of n))) as Hel end.
  simpl in Hel. rewrite lookup_insert_eq, insert_insert_eq in Hel.
  apply Hel; [done|]. by rewrite <-(configured_majority _ _ Hcfg).
Qed.

(** A node that restarts keeps its term and its vote. *)
Lemma restart_silent i n d g : configured i n → persisted (store n) d → db_readable d →
  silent n (new_ClusterNode cluster_name i ids options (λ _, Some d) g).
Proof.
  intros [Hid Hmaj Hs] Hp Hr.
  destruct (new_node_configured i (λ _, Some d) g) as [Hid' Hmaj' Hs'].
  destruct (new_ClusterNode_facts cluster_name i ids options (λ _, Some d) g)
    as (Hstore & _ & _ & _ & Hst).
  rewrite (new_ContextStore_persisted _ _ Hp Hr) in Hstore.
  split; [|congruence..]. unfold view_of. rewrite Hstore, Hst.
  apply quiet_same; simpl; [done|done|lia|done..].
Qed.

(** A node that crashes. *)
Lemma crash_view n input d d' i e g : crash_run input n d d' →
  e ∈ crash_points d d' → db_readable e →
  crashed (view_of n) (view_of (new_ClusterNode cluster_name i ids options (λ _, Some e) g)).
Proof.
  intros Hrun He Hr.
  destruct (crash_run_store _ _ _ _ _ Hrun He Hr) as (m & [[Ht Hv] _] & _ & E).
  destruct (new_ClusterNode_facts cluster_name i ids options (λ _, Some e) g)
    as (Hstore & _ & _ & _ & Hst).
  split; unfold view_of; rewrite Hstore, E, ?Hst; simpl; try done.
  intros Heq c. destruct (voted_ (store n)); [|done].
  by destruct (Hv Heq eq_refl) as [-> ->].
Qed.

Lemma crash_simulates c i n input d d' e g : cluster_ok c → nodes c !! i = Some n →
  crash_run input n d d' → e ∈ crash_points d d' → db_readable e →
  simulates c (mkCluster
    (<[i := new_ClusterNode cluster_name i ids options (λ _, Some e) g]> (nodes c)) (answers c)).
Proof.
  intros Hc Hi Hrun He Hr. split.
  - apply cluster_ok_insert; [|done]. apply new_node_configured.
  - rewrite abstraction_insert. apply rtc_once.
    apply (step_crashed _ (abstraction c) i (view_of n)); [by apply view_lookup|].
    by eapply crash_view.
Qed.

Lemma step_simulates c c' : cluster_ok c → cluster_step c c' → simulates c c'.
Proof.
  intros Hc [i n input Hi Hl Ht|i n r resp n' Hi Hr|i n u resp l1 l2 Hi Ha|a l1 l2 Ha
    |i n d g Hi Hp Hd|i n input d d' e g Hi Hrun He Hd].
  - by apply local_simulates.
  - by eapply request_simulates.
  - by eapply answer_simulates.
  - by eapply lost_simulates.
  - eapply quiet_simulates; [done|done|]. apply restart_silent; [by apply Hc|done..].
  - by eapply crash_simulates.
Qed.

Lemma cluster_simulation c c' : cluster_ok c → rtc cluster_step c c' → simulates c c'.
Proof.
  intros Hc Hs. revert Hc. induction Hs as [|c1 c2 c3 Hs _ IH]; intros Hc; [done|].
  destruct (step_simulates _ _ Hc Hs) as [Hc2 Hr]. destruct (IH Hc2). split; [done|by etrans].
Qed.

Lemma cluster_init_ok c : cluster_init c → cluster_ok c ∧ election_init (abstraction c).
Proof.
  intros (Ha & _ & Hn). split.
  - intros i n (open_db & g & ->)%Hn. apply new_node_configured.
  - split; [simpl; by rewrite Ha|]. intros i v. simpl. rewrite lookup_fmap.
    destruct (nodes c !! i) as [n|] eqn:Hi; simpl; intros [= <-].
    destruct (Hn _ _ Hi) as (open_db & g & ->).
    destruct (new_ClusterNode_facts cluster_name i ids options open_db g)
      as (Hstore & _ & _ & _ & Hst).
    simpl. by rewrite Hstore, Hst, new_ContextStore_vote_received.
Qed.

(** ** Election safety *)

(** The nodes of a run are the identifiers of the cluster. *)
Lemma cluster_dom c0 c : cluster_init c0 → rtc cluster_step c0 c →
  dom (nodes c) = list_to_set ids.
Proof.
  intros Hinit Hs. destruct (cluster_init_ok _ Hinit) as [Hok _].
  destruct (cluster_simulation _ _ Hok Hs) as [_ Hr%election_steps_dom].
  simpl in Hr. rewrite !dom_fmap_L in Hr. rewrite Hr. by destruct Hinit as (_ & ? & _).
Qed.

Lemma leaders_agree c0 c1 c2 i j v w :
  cluster_init c0 → rtc cluster_step c0 c1 → rtc cluster_step c1 c2 →
  views (abstraction c1) !! i = Some v → view_state v = kLeader →
  views (abstraction c2) !! j = Some w → view_state w = kLeader →
  view_term v = view_term w → i = j.
Proof.
  intros Hinit Hs1 Hs2 Hi Hli Hj Hlj Ht.
  destruct (cluster_init_ok _ Hinit) as [Hok0 He0].
  destruct (cluster_simulation _ _ Hok0 Hs1) as [Hok1 Hr1].
  destruct (cluster_simulation _ _ Hok1 Hs2) as [_ Hr2].
  apply (leader_unique cluster_majority (abstraction c0) (abstraction c1) (abstraction c2)
    i j v w); try done.
  destruct Hinit as (_ & Hdom & _). simpl. rewrite dom_fmap_L, Hdom.
  pose proof (size_list_to_set_le ids) as Hsz. unfold cluster_majority.
  pose proof (N.Div0.div_mod (N.of_nat (length ids)) 2).
  pose proof (N.mod_lt (N.of_nat (length ids)) 2). lia.
Qed.

(** C1: election safety.  Take a cluster whose nodes are the identifiers [ids], fewer
    than [2 ^ 32], each started on any database, and any sequence of steps: inputs of any node, except that no
    election timer fires at the last 64-bit term ([term_left]); vote requests
    delivered late, twice or forged; answers delayed or lost; restarts of nodes from
    a readable database that holds what they have in memory; and crashes of nodes
    after any write of any input, when writes succeed and integers stay in range.  If
    node [i] is the leader of a term at some point and node [j] is the leader of the
    same term at that point or any later one, they are the same node. *)
Theorem election_safety c0 c1 c2 i j n m :
  cluster_init c0 → rtc cluster_step c0 c1 → rtc cluster_step c1 c2 →
  nodes c1 !! i = Some n → raft_state n = kLeader →
  nodes c2 !! j = Some m → raft_state m = kLeader →
  get_term n = get_term m → i = j.
Proof.
  intros Hinit Hs1 Hs2 Hi Hli Hj Hlj Ht.
  by apply (leaders_agree c0 c1 c2 i j (view_of n) (view_of m)); try apply view_lookup.
Qed.

End cluster.

(** ** Witness

    Nodes 1, 2 and 3; the election timer of node 1 fires, node 2 gets its vote
    request and crashes before the last of its five writes, gets the request again,
    node 1 gets the answer, and then its broadcast timer fires. *)

Definition demo_cluster : Cluster (H := mem_platform) :=
  mkCluster (list_to_map ((λ i, (i, demo_node [1; 2; 3] i)) <$> [1; 2; 3])) [].

Definition node_of (i : N) (c : Cluster (H := mem_platform)) : Node :=
  default (demo_node [1; 2; 3] i) (nodes c !! i).

Definition run_local (i : N) (input : NodeInput) (c : Cluster (H := mem_platform)) : Cluster :=
  mkCluster (<[i := run_input input (node_of i c)]> (nodes c)) (answers c).

Definition run_request (i : N) (r : RequestVoteRequest) (c : Cluster (H := mem_platform)) :
    Cluster :=
  let '(resp, n') := on_request_vote_requested r (node_of i c) in
  mkCluster (<[i := n']> (nodes c)) (answers c ++ [mkAnswer (rv_candidate_id r) i resp]).

Definition run_answer (i : N) (resp : RequestVoteResponse) (c : Cluster (H := mem_platform)) :
    Cluster :=
  mkCluster (<[i := run_input (RequestVoteAnswer resp) (node_of i c)]> (nodes c)) [].

Abbreviation demo_step := (cluster_step "demo" [1; 2; 3] demo_options).

Lemma node_of_lookup i c : is_Some (nodes c !! i) → nodes c !! i = Some (node_of i c).
Proof. intros [n Hn]. unfold node_of. by rewrite Hn. Qed.

Lemma run_local_step i input c : is_Some (nodes c !! i) → local_input input = true →
  term_left input (node_of i c) → demo_step c (run_local i input c).
Proof. intros Hi Hl Ht. apply step_local; [by apply node_of_lookup|done..]. Qed.

Lemma run_request_step i r c : is_Some (nodes c !! i) → demo_step c (run_request i r c).
Proof.
  intros Hi. unfold run_request. destruct (on_request_vote_requested _ _) as [resp n'] eqn:E.
  eapply step_request; [by apply node_of_lookup|exact E].
Qed.

Lemma run_answer_step i u resp c : is_Some (nodes c !! i) →
  answers c = [mkAnswer i u resp] → demo_step c (run_answer i resp c).
Proof.
  intros Hi Ha. apply (step_answer _ _ _ c i (node_of i c) u resp [] []); [|done].
  by apply node_of_lookup.
Qed.

Definition demo_vote_request : RequestVoteRequest := mkRequestVoteRequest 1 1 0 0.

(** The database of node 2 after the request, and after all its writes but one. *)
Definition demo_vote_db : @DB mem_platform :=
  default empty_db (db_ (store (run_input (RequestVote demo_vote_request) (demo_node [1; 2; 3] 2)))).
Definition demo_vote_point : @DB mem_platform :=
  default empty_db (crash_points empty_db demo_vote_db !! 3%nat).

Definition run_crash (i : N) (e : @DB mem_platform) (c : Cluster (H := mem_platform)) : Cluster :=
  mkCluster (<[i := new_ClusterNode "demo" i [1; 2; 3] demo_options (λ _, Some e) 5]> (nodes c))
    (answers c).

Definition demo_candidacy : Cluster := run_local 1 ElectionTimer demo_cluster.
Definition demo_crashed : Cluster := run_crash 2 demo_vote_point demo_candidacy.
Definition demo_voted : Cluster := run_request 2 demo_vote_request demo_crashed.
Definition demo_elected : Cluster := run_answer 1 (mkRequestVoteResponse 1 true) demo_voted.
Definition demo_later : Cluster := run_local 1 BroadcastTimer demo_elected.

Lemma demo_elected_reachable : rtc demo_step demo_cluster demo_elected.
Proof.
  apply rtc_l with demo_candidacy; [|apply rtc_l with demo_crashed;
    [|apply rtc_l with demo_voted; [|apply rtc_once]]].
  - apply run_local_step; [compute_decision|reflexivity|].
    intros _. vm_compute. reflexivity.
  - apply (step_crash _ _ _ demo_candidacy 2 (demo_node [1; 2; 3] 2)
      (RequestVote demo_vote_request) empty_db demo_vote_db demo_vote_point 5).
    + reflexivity.
    + apply demo_node_crash_run; [reflexivity|vm_compute; done|done|vm_compute; reflexivity].
    + apply (list_elem_of_lookup_2 _ 3%nat). vm_compute. reflexivity.
    + apply mem_platform_readable.
  - apply run_request_step. compute_decision.
  - apply (run_answer_step 1 2); [compute_decision|vm_compute; reflexivity].
Qed.

Lemma demo_later_reachable : rtc demo_step demo_elected demo_later.
Proof.
  apply rtc_once, run_local_step; [compute_decision|reflexivity|done].
Qed.

Lemma demo_cluster_init : cluster_init "demo" [1; 2; 3] demo_options demo_cluster.
Proof.
  split; [reflexivity|]. split; [compute_decision|].
  intros i n Hn. exists (λ _, Some empty_db), 3.
  apply elem_of_list_to_map_2 in Hn.
  apply list_elem_of_fmap in Hn as (j & [= -> ->] & _). done.
Qed.

Lemma election_safety_witness :
  raft_state (node_of 1 demo_elected) = kLeader ∧ raft_state (node_of 1 demo_later) = kLeader ∧
  1 = 1.
Proof.
  split; [vm_compute; reflexivity|split; [vm_compute; reflexivity|]].
  apply (election_safety "demo" [1; 2; 3] demo_options eq_refl demo_cluster demo_elected
    demo_later 1 1 (node_of 1 demo_elected) (node_of 1 demo_later)).
  - apply demo_cluster_init.
  - apply demo_elected_reachable.
  - apply demo_later_reachable.
  - apply node_of_lookup. compute_decision.
  - vm_compute. reflexivity.
  - apply node_of_lookup. compute_decision.
  - vm_compute. reflexivity.
  - vm_compute. reflexivity.
Defined.
