(* ===== verification/ReplicationTheorems.v ===== *)
(** * Theorems about replication on the side of the follower *)

From S2P Require Import Prelude Codec Platform LogEntry ContextStore ContextStoreFacts.
From S2P Require Import StoreTheorems NodeUtil RaftTypes OtherNode StateMachine Lifecycle Node.
From S2P Require Import StateMachineInterface RaftContext RaftContextFacts Election VoteFacts.
From S2P Require Import RaftStateMachine RaftStateMachineFacts ClusterNodeImpl.
From S2P Require Import ElectionRefinement NodeInvariant AppendEntries Demo.

Local Open Scope N_scope.

Section replication.
  Context `{PlatformSpec}.
  Implicit Types (n : Node).


(** Applying an accepted request again changes nothing. *)
Lemma replicate_twice r l l' evs :
  ae_prev_log_index r < ae_leader_commit r ∨ ae_leader_commit r = 0 →
  log_wf l → replicate r l = (true, l', evs) → replicate r l' = (true, l', []).
Proof.
  intros Hprev Hwf Hrep.
  assert (accept r l = (true, l', evs) → accept r l' = (true, l', []) ∧
    ∀ j, j < ae_leader_commit r → l' !! N.to_nat j = l !! N.to_nat j) as Hacc.
  { unfold accept. set (i := ae_leader_commit r). intros Ha.
    assert (∀ k, accept r (k ++ [entry_of r]) = (true, k ++ [entry_of r], [])) as Hagain.
    { intros k. unfold accept. rewrite last_snoc. simpl. by rewrite !N.eqb_refl. }
    destruct (last l) as [e|] eqn:Hl.
    - destruct (last_wf _ _ Hwf Hl) as [Hid _].
      destruct (_ && _) eqn:Hdup; [by simplify_eq; rewrite Hl, Hdup|].
      repeat case_test_in Ha; simplify_eq; (split; [apply Hagain|]); intros j Hj.
      + rewrite lookup_app_l by (rewrite length_take; lia). rewrite lookup_take by lia.
        case_decide; [done|lia].
      + by rewrite lookup_app_l by lia.
    - apply last_None in Hl as ->. case_test_in Ha; simplify_eq.
      split; [apply (Hagain [])|]. intros j Hj. lia. }
  unfold replicate in *. case_test; [by apply Hacc|].
  destruct (l !! N.to_nat (ae_prev_log_index r)) as [p|] eqn:Hp; [|done].
  destruct (term_ p =? ae_prev_log_term r) eqn:Ht; [|done].
  destruct (Hacc Hrep) as [Ha Hl]. rewrite Hl by lia. by rewrite Hp, Ht.
Qed.

(** The sender of a request that is not stale is followed. *)
Lemma contacted_state r n : states_ (raft_fsm_ n) = raft_states →
  current_term_ (store n) ≤ ae_term r →
  raft_state (contacted r n) = stepped_down (raft_state n) ∧
  states_ (raft_fsm_ (contacted r n)) = raft_states ∧
  broadcast_received_ (context_ (contacted r n)) = true.
Proof.
  intros Hs Hle. unfold contacted, current_term. case_test; [lia|].
  set (n1 := (update_term (ae_term r) false n).2).
  assert (states_ (raft_fsm_ n1) = raft_states) as Hs1
    by (subst n1; by rewrite (silent_states _ _ (update_term_silent (ae_term r) n Hs))).
  assert (stepped_down (raft_state n1) = stepped_down (raft_state n)) as Hst.
  { subst n1. destruct (decide (ae_term r ≤ current_term_ (store n))).
    { by rewrite update_term_old. }
    destruct (update_term_new (ae_term r) false n) as [d ->]; [lia|]. cbn [snd].
    rewrite on_new_term_received_state by done.
    change (raft_state (in_new_term d (ae_term r) n)) with (raft_state n).
    by destruct (raft_state n). }
  clearbody n1. set (n2 := on_context (set_broadcast_received true) n1).
  assert (states_ (raft_fsm_ n2) = raft_states) as Hs2 by done.
  destruct (on_leader_discovered_change n2) as [_ _ _ _ _ Hb _ _ Hss _].
  rewrite on_leader_discovered_state, Hss, Hb by done. done.
Qed.

(** A node that already follows the sender is not changed. *)
Lemma contacted_again r n : states_ (raft_fsm_ n) = raft_states →
  (current_term_ (store n) ≤ ae_term r → current_term_ (store n) = ae_term r ∧
    stepped_down (raft_state n) = raft_state n ∧ broadcast_received_ (context_ n) = true) →
  contacted r n = n.
Proof.
  intros Hs Hfresh. unfold contacted, current_term. destruct (N.ltb_spec (ae_term r) (current_term_ (store n))) as [|Ht]; [done|].
  destruct (Hfresh Ht) as (Heq & Hst & Hb). rewrite update_term_old by lia. cbn [snd].
  assert (on_context (set_broadcast_received true) n = n) as ->.
  { destruct n as [[]]. simpl in Hb. by subst. }
  change (raft_handle (S 1) kLeaderDiscovered n = n).
  rewrite raft_handle_simple, Hs by done.
  destruct (raft_state n); try done; simpl; try by rewrite decide_False by apply kStay_not_state.
Qed.

Lemma request_local_commit_again r n :
  accept r (logs_ (store n)) = (true, logs_ (store n), []) → log_wf (logs_ (store n)) →
  request_local_commit r n = (true, n).
Proof.
  unfold accept, request_local_commit, last_log. intros Ha Hwf.
  destruct (last (logs_ (store n))) as [e|] eqn:Hl; [|by case_test_in Ha].
  destruct (last_wf _ _ Hwf Hl) as [_ Hc]. rewrite (bool_decide_true _ Hc). simpl.
  destruct (_ && _); [done|]. by repeat case_test_in Ha.
Qed.

(** Looking at the entries changes nothing of the context but the store. *)
Lemma push_and_notify_context e n :
  ∃ s, context_ (push_and_notify e n).2 = set_store s (context_ n).
Proof.
  unfold push_and_notify. destruct (push_log _ _) as [[] s]; exists s; [|done].
  apply invoke_commit_callback_context.
Qed.

Lemma request_local_commit_context r n :
  ∃ s, context_ (request_local_commit r n).2 = set_store s (context_ n).
Proof.
  unfold request_local_commit. destruct (last_log _) as [e|]; [|apply push_and_notify_context].
  destruct (_ && _ && _); [exists (store n); by destruct n as [[]]|].
  match goal with |- context [push_and_notify ?e ?n] =>
    destruct (push_and_notify_context e n) as [s ->] end.
  case_test; [|by exists s]. exists s. by rewrite (proj2 (outputs_invoke_revert _ _)).
Qed.

(** The part of the handler that looks at the entries. *)
Lemma entries_calm r n : is_valid_node (ae_leader_id r) n = true →
  calm (contacted r n) (on_append_entries_requested r n).2 ∧
  ∃ s, context_ (on_append_entries_requested r n).2 = set_store s (context_ (contacted r n)).
Proof.
  intros Hv. rewrite on_append_entries_requested_eq by done. cbv zeta.
  set (n1 := contacted r n). clearbody n1.
  assert (∃ s, context_ n1 = set_store s (context_ n1)) as Hself
    by (exists (store n1); by destruct n1 as [[]]).
  pose proof (request_local_commit_calm r n1) as Hc.
  pose proof (request_local_commit_context r n1) as Hs.
  destruct (request_local_commit r n1) as [ok n2]. repeat case_match; simpl in *; try done.
  split; [apply request_local_rollback_calm|by eexists].
Qed.

Lemma contacted_peers r n : other_nodes_ (context_ (contacted r n)) = other_nodes_ (context_ n).
Proof.
  unfold contacted. case_test; [done|].
  rewrite (state_change_other_nodes _ _ (on_leader_discovered_change _)).
  cbn [on_context set_context context_ set_broadcast_received other_nodes_].
  destruct (decide (ae_term r ≤ current_term_ (store n))).
  { by rewrite update_term_old. }
  destruct (update_term_new (ae_term r) false n) as [d ->]; [lia|]. cbn [snd].
  by rewrite (state_change_other_nodes _ _ (on_new_term_received_change _)).
Qed.

Lemma success_follows r n resp n' : is_valid_node (ae_leader_id r) n = true →
  on_append_entries_requested r n = (resp, n') →
  calm (contacted r n) n' ∧ get_term n' = N.max (get_term n) (ae_term r) ∧
  other_nodes_ (context_ n') = other_nodes_ (context_ n).
Proof.
  intros Hv E. destruct (entries_calm r n Hv) as (Hc & s & Hs). rewrite E in Hc, Hs. simpl in *.
  split_and!; [done| |by rewrite Hs, <-(contacted_peers r n)].
  unfold get_term, current_term. rewrite (calm_term _ _ Hc). apply contacted_frame.
Qed.

(** C20: a request may be delivered twice.  Let a node in a reachable state get a request
    with entries from a known node, for the first position of the log or with a
    previous position before its own.  When the node has accepted it, handling the same
    request again answers success again, with the node's term, and changes nothing at
    all: no callback, no write, no timer. *)
Theorem append_entries_idempotent r n :
  reachable n → is_valid_node (ae_leader_id r) n = true → ae_entries r ≠ [] →
  ae_prev_log_index r < ae_leader_commit r ∨ ae_leader_commit r = 0 →
  let '(resp, n1) := on_append_entries_requested r n in
  ae_success resp = true →
  on_append_entries_requested r n1 = (mkAppendEntriesResponse (get_term n1) true, n1).
Proof.
  intros Hr Hv Hne Hprev.
  pose proof (on_append_entries_requested_replicate r n Hv Hne (reachable_log _ Hr)) as Hrep.
  destruct (replicate r (logs_ (store n))) as [[ok l] evs] eqn:Hl.
  destruct (on_append_entries_requested r n) as [resp n1] eqn:E. intros Hok.
  destruct Hrep as (-> & Hlogs & _); [by right|]. simpl in Hok. subst ok.
  destruct (success_follows _ _ _ _ Hv E) as (Hc & Ht & Hpeers).
  assert (reachable n1) as Hr1.
  { pose proof (reachable_run [AppendEntries r] n Hr) as Hr1. simpl in Hr1. by rewrite E in Hr1. }
  apply replicate_twice in Hl; [|done|by apply reachable_log].
  rewrite <-Hlogs in Hl.
  rewrite on_append_entries_requested_eq by (by unfold is_valid_node in *; rewrite Hpeers).
  cbv zeta. rewrite (contacted_again r n1 (reachable_states _ Hr1)); cycle 1.
  { intros Hle. unfold get_term, current_term in *.
    destruct (contacted_state r n (reachable_states _ Hr)) as (Hst & _ & Hb); [lia|].
    rewrite (raft_state_calm _ _ Hc), (calm_broadcast_received _ _ Hc), Hst, Hb.
    split_and!; [lia|by destruct (raft_state n)|done]. }
  destruct (Nat.eqb_spec (length (ae_entries r)) 0) as [Hlen|_]; [by apply nil_length_inv in Hlen|].
  unfold replicate in Hl. rewrite log_eq. case_test_in Hl.
  { by rewrite request_local_commit_again by (done || by apply reachable_log). }
  destruct (logs_ (store n1) !! _) as [p|]; [|done]. destruct (term_ p =? _); [|done].
  simpl. by rewrite request_local_commit_again by (done || by apply reachable_log).
Qed.

(** C21: following a leader.  Any append-entries request of a known node whose term is not
    older than the node's makes a node in a reachable state adopt that term, leave the
    candidacy or the leadership (a standby node stays standby) and remember that it has
    heard from a leader.  One without entries, a heartbeat, is answered
    [success = false] with the term before the request, and leaves the log alone. *)
Theorem leader_followed r n :
  reachable n → is_valid_node (ae_leader_id r) n = true → get_term n ≤ ae_term r →
  let '(resp, n') := on_append_entries_requested r n in
  get_term n' = ae_term r ∧ raft_state n' = stepped_down (raft_state n) ∧
  broadcast_received_ (context_ n') = true ∧
  (ae_entries r = [] →
    resp = mkAppendEntriesResponse (get_term n) false ∧ logs_ (store n') = logs_ (store n)).
Proof.
  intros Hr Hv Hle. destruct (on_append_entries_requested r n) as [resp n'] eqn:E.
  destruct (success_follows _ _ _ _ Hv E) as (Hc & Ht & _).
  destruct (contacted_state r n (reachable_states _ Hr) Hle) as (Hst & _ & Hb).
  split_and!.
  - rewrite Ht. lia.
  - by rewrite (raft_state_calm _ _ Hc).
  - by rewrite (calm_broadcast_received _ _ Hc).
  - intros Hnil. rewrite on_append_entries_requested_eq, Hnil in E by done. simpl in E.
    simplify_eq. split; [done|]. apply contacted_frame.
Qed.

(** The log after the entries have been looked at, whichever writes fail. *)
Lemma push_and_notify_logs e n :
  logs_ (store (push_and_notify e n).2) = logs_ (store n) ∨
  logs_ (store (push_and_notify e n).2) = logs_ (store n) ++ [e].
Proof.
  unfold push_and_notify. destruct (push_log (Some e) (store n)) as [[] s] eqn:E.
  - pose proof (push_log_true _ _ _ E) as (e' & [= <-] & _ & _ & F). right. cbn [negb snd].
    by rewrite (proj2 (outputs_invoke_commit _ _)), store_on_store, F.
  - pose proof (push_log_false _ _ _ E) as F. left. cbn [negb snd].
    by rewrite store_on_store, F.
Qed.

Lemma request_local_commit_prefix r n j : log_wf (logs_ (store n)) →
  j < ae_leader_commit r → j < logs_size (store n) →
  logs_ (store (request_local_commit r n).2) !! N.to_nat j = logs_ (store n) !! N.to_nat j.
Proof.
  intros Hwf Hj Hlt. unfold logs_size in Hlt.
  assert (∀ n1 : Node, logs_ (store n1) !! N.to_nat j = logs_ (store n) !! N.to_nat j →
    logs_ (store (push_and_notify (entry_of r) n1).2) !! N.to_nat j =
      logs_ (store n) !! N.to_nat j) as Hpush.
  { intros n1 Hn1.
    destruct (push_and_notify_logs (entry_of r) n1) as [->| ->]; [done|].
    destruct (lookup_lt_is_Some_2 (logs_ (store n)) (N.to_nat j)) as [x Hx]; [lia|].
    rewrite lookup_app_l; [done|]. apply lookup_lt_is_Some_1. rewrite Hn1. by exists x. }
  unfold request_local_commit. fold (entry_of r).
  destruct (last_log _) as [e|]; [|by apply Hpush].
  destruct (_ && _ && _); [done|]. apply Hpush. case_test; [|done].
  unfold store. rewrite (proj2 (outputs_invoke_revert _ _)). fold (store n).
  change (logs_ (revert_log (ae_leader_commit r) (store n)).2 !! N.to_nat j =
    logs_ (store n) !! N.to_nat j).
  rewrite revert_log_logs. rewrite lookup_take by lia. case_decide; [done|lia].
Qed.

(** C18: what replication cannot touch.  Whatever a request contains and whichever
    writes fail, the entries of the log before both the position of the request
    and the position of its previous entry are as before. *)
Theorem append_entries_keeps_prefix r n j :
  reachable n → j < ae_leader_commit r → j < ae_prev_log_index r → j < get_commands_size n →
  log j (store (on_append_entries_requested r n).2) = log j (store n).
Proof.
  intros Hr Hc Hp Hlt. rewrite !log_eq. pose proof (reachable_log _ Hr) as Hwf.
  destruct (is_valid_node (ae_leader_id r) n) eqn:Hv.
  2: { unfold on_append_entries_requested. by rewrite Hv. }
  rewrite on_append_entries_requested_eq by done. cbv zeta.
  destruct (contacted_frame r n) as (Hlogs & _). set (n1 := contacted r n) in *. clearbody n1.
  pose proof (request_local_commit_prefix r n1 j) as Hl. unfold logs_size in Hl.
  rewrite Hlogs in Hl. specialize (Hl Hwf Hc Hlt).
  destruct (request_local_commit r n1) as [ok n2]. rewrite log_eq, Hlogs.
  destruct (Nat.eqb _ 0); [by rewrite <-Hlogs|]. case_test; [done|].
  destruct (logs_ (store n) !! N.to_nat (ae_prev_log_index r)) as [p|] eqn:Hprev;
    [|by rewrite <-Hlogs].
  case_test; [exact Hl|]. simpl. unfold request_local_rollback. rewrite store_on_store, revert_log_logs.
  destruct (Hwf _ _ Hprev) as [-> _]. rewrite N2Nat.id, Hlogs.
  rewrite lookup_take by lia. case_decide; [done|lia].
Qed.

(** C19: what success means.  Let a node in a reachable state get a request with
    entries from a known node, for the first position of the log or with a previous
    position before its own, as a leader announces it.  When the node answers success,
    its log ends exactly at the position of the request, with an entry of the
    request's term; and unless that is the first position, the log has an entry at the
    announced previous position, with the announced term. *)
Theorem append_entries_success r n :
  reachable n → is_valid_node (ae_leader_id r) n = true → ae_entries r ≠ [] →
  ae_prev_log_index r < ae_leader_commit r ∨ ae_leader_commit r = 0 →
  let '(resp, n') := on_append_entries_requested r n in
  ae_success resp = true →
  get_commands_size n' = ae_leader_commit r + 1 ∧
  (∃ e, last_log (store n') = Some e ∧ id_ e = ae_leader_commit r ∧ term_ e = ae_term r) ∧
  (ae_leader_commit r ≠ 0 → ∃ p, log (ae_prev_log_index r) (store n') = Some p ∧
    term_ p = ae_prev_log_term r).
Proof.
  intros Hr Hv Hne Hprev. pose proof (reachable_log _ Hr) as Hwf.
  pose proof (on_append_entries_requested_replicate r n Hv Hne Hwf) as Hrep.
  destruct (replicate r (logs_ (store n))) as [[ok l] evs] eqn:Hl.
  destruct (on_append_entries_requested r n) as [resp n1] eqn:E. intros Hok.
  destruct Hrep as (-> & Hlogs & _); [by right|]. simpl in Hok. subst ok.
  assert (reachable n1) as Hr1.
  { pose proof (reachable_run [AppendEntries r] n Hr) as Hr1. simpl in Hr1. by rewrite E in Hr1. }
  apply replicate_twice in Hl; [|done..]. pose proof (reachable_log _ Hr1) as Hwf1.
  rewrite Hlogs in Hwf1.
  unfold get_commands_size, logs_size, last_log. rewrite log_eq, Hlogs.
  assert (accept r l = (true, l, []) ∧ (ae_leader_commit r ≠ 0 →
    ∃ p, l !! N.to_nat (ae_prev_log_index r) = Some p ∧ term_ p = ae_prev_log_term r))
    as [Ha Hp].
  { unfold replicate in Hl. case_test_in Hl; [done|].
    destruct (l !! _) as [p|]; [|done].
    destruct (N.eqb_spec (term_ p) (ae_prev_log_term r)); [|done]. eauto. }
  unfold accept in Ha. destruct (last l) as [e|] eqn:Hlast; [|by case_test_in Ha].
  destruct (last_wf _ _ Hwf1 Hlast) as [Hid _].
  destruct (N.eqb_spec (id_ e) (ae_leader_commit r)) as [He|]; simpl in Ha;
    [|by repeat case_test_in Ha].
  destruct (N.eqb_spec (term_ e) (ae_term r)); [|by repeat case_test_in Ha].
  split_and!; [lia|by eauto|done].
Qed.

(** Requests of unknown nodes.  A request whose sender is not another node
    of the cluster is answered with the default response and changes nothing. *)
Lemma unknown_sender_ignored n :
  (∀ r, is_valid_node (ae_leader_id r) n = false →
    on_append_entries_requested r n = (default_append_entries_response, n)) ∧
  (∀ r, is_valid_node (rv_candidate_id r) n = false →
    on_request_vote_requested r n = (default_request_vote_response, n)).
Proof.
  split; intros r Hv.
  - unfold on_append_entries_requested. by rewrite Hv.
  - unfold on_request_vote_requested. by rewrite Hv.
Qed.

End replication.

(** ** Findings *)

(** Node 1 of three after leader 3 has replicated one entry in term 5. *)
Definition demo_term5 : Node (H := mem_platform) :=
  run_inputs [AppendEntries (mkAppendEntriesRequest 5 3 0 0 [x62] 0)] (demo_node [1; 2; 3] 1).

(** A request of an old term is processed all the same.  On a node in term 5
    with one entry of that term, an append-entries request of term 1 is answered
    with success, and its entry replaces the one of term 5: the comparison of
    terms only decides whether the sender is followed. *)
Theorem stale_request_overwrites :
  get_term demo_term5 = 5 ∧
  logs_ (store demo_term5) = [mkLogEntry 0 5 (Some (mkCommand [x62]))] ∧
  let '(resp, n') := on_append_entries_requested demo_request demo_term5 in
  ae_success resp = true ∧ get_term n' = 5 ∧
  logs_ (store n') = [mkLogEntry 0 1 (Some (mkCommand [x61]))].
Proof. vm_compute. done. Qed.

(** ** Witnesses *)

Abbreviation demo_fresh := (demo_node [1; 2; 3] 1).

Lemma demo_fresh_reachable : reachable demo_fresh.
Proof. apply demo_node_reachable. Qed.



Lemma append_entries_idempotent_witness :
  let '(resp, n1) := on_append_entries_requested demo_request demo_fresh in
  ae_success resp = true →
  on_append_entries_requested demo_request n1 = (mkAppendEntriesResponse (get_term n1) true, n1).
Proof.
  apply (append_entries_idempotent demo_request demo_fresh demo_fresh_reachable).
  - vm_compute. reflexivity.
  - discriminate.
  - right. reflexivity.
Defined.

Lemma leader_followed_witness :
  let '(resp, n') := on_append_entries_requested demo_request demo_fresh in
  get_term n' = 1 ∧ raft_state n' = stepped_down (raft_state demo_fresh) ∧
  broadcast_received_ (context_ n') = true ∧
  (ae_entries demo_request = [] →
    resp = mkAppendEntriesResponse (get_term demo_fresh) false ∧
    logs_ (store n') = logs_ (store demo_fresh)).
Proof.
  apply (leader_followed demo_request demo_fresh demo_fresh_reachable).
  - vm_compute. reflexivity.
  - vm_compute. discriminate.
Defined.

(** A node with two entries, and a request for a third. *)
Definition demo_two : Node (H := mem_platform) :=
  run_inputs [AppendEntries demo_request; AppendEntries (mkAppendEntriesRequest 1 2 0 1 [x62] 1)]
    demo_fresh.

Lemma append_entries_keeps_prefix_witness :
  log 0 (store (on_append_entries_requested (mkAppendEntriesRequest 1 2 1 1 [x63] 2) demo_two).2) =
  log 0 (store demo_two).
Proof.
  apply (append_entries_keeps_prefix (mkAppendEntriesRequest 1 2 1 1 [x63] 2) demo_two 0).
  - apply demo_reachable.
  - reflexivity.
  - reflexivity.
  - vm_compute. reflexivity.
Defined.

Lemma append_entries_success_witness :
  let r := mkAppendEntriesRequest 1 2 1 1 [x63] 2 in
  let '(resp, n') := on_append_entries_requested r demo_two in
  ae_success resp = true →
  get_commands_size n' = ae_leader_commit r + 1 ∧
  (∃ e, last_log (store n') = Some e ∧ id_ e = ae_leader_commit r ∧ term_ e = ae_term r) ∧
  (ae_leader_commit r ≠ 0 → ∃ p, log (ae_prev_log_index r) (store n') = Some p ∧
    term_ p = ae_prev_log_term r).
Proof.
  apply (append_entries_success (mkAppendEntriesRequest 1 2 1 1 [x63] 2) demo_two).
  - apply demo_reachable.
  - vm_compute. reflexivity.
  - discriminate.
  - left. reflexivity.
Defined.
