(* ===== verification/Replication.v ===== *)
(** * The replication protocol, abstractly

    The part of a cluster's state that its logs depend on, and the changes the
    nodes may make to it.  [logs_match] is log matching for this protocol;
    ReplicationRefinement.v shows that the nodes of the sources follow it. *)

From S2P Require Import Prelude LogEntry RaftTypes ContextStore ContextStoreFacts.
From S2P Require Import AppendEntries.

Local Open Scope N_scope.

(** ** The protocol *)

(** What replication sees of a node; [log_pending] is the entry that the node is
    about to put at the end of its log. *)
Record LogView := mkLogView {
  log_term : N;
  log_state : RaftTypes.StateType;
  log_entries : list LogEntry;
  log_pending : option LogEntry;
}.

(** Roles and terms outside an election: the leadership and the candidacy may be
    lost, the term may grow, and then both are lost. *)
Definition demoted (v v' : LogView) : Prop :=
  log_term v ≤ log_term v' ∧
  (log_state v' = kLeader → log_state v = kLeader ∧ log_term v' = log_term v) ∧
  (log_state v' = kCandidate → log_state v = kCandidate ∧ log_term v' = log_term v).

Definition same_role (v v' : LogView) : Prop :=
  log_term v' = log_term v ∧ log_state v' = log_state v.

(** What one node may do, given the requests that leaders have sent so far. *)
Inductive log_change (sent : list AppendEntriesRequest) (v v' : LogView) : Prop :=
  | change_quiet :
      demoted v v' → log_entries v' = log_entries v →
      log_pending v' = (if decide (log_state v' = kLeader) then log_pending v else None) →
      log_change sent v v'
  | change_candidacy :
      log_state v ≠ kLeader → log_term v' = log_term v + 1 →
      log_entries v' = log_entries v → log_pending v' = None → log_change sent v v'
  | change_elected :
      log_state v = kCandidate → log_state v' = kLeader → log_term v' = log_term v →
      log_entries v' = log_entries v → log_pending v' = None → log_change sent v v'
  | change_propose e :
      log_state v = kLeader → same_role v v' → log_pending v = None →
      log_entries v' = log_entries v → log_pending v' = Some e →
      id_ e = N.of_nat (length (log_entries v)) → term_ e = log_term v → log_change sent v v'
  | change_append e :
      log_state v = kLeader → demoted v v' → log_pending v = Some e →
      log_entries v' = log_entries v ++ [e] → log_pending v' = None → log_change sent v v'
  | change_accept r :
      r ∈ sent → ae_entries r ≠ [] → demoted v v' → log_state v' ≠ kLeader →
      log_entries v' = (replicate r (log_entries v)).1.2 → log_pending v' = None →
      log_change sent v v'
  | change_cut k :
      demoted v v' → log_state v' ≠ kLeader → log_entries v' = take k (log_entries v) →
      log_pending v' = None → log_change sent v v'.

(** A change that is cut short, its node leading no more. *)
Lemma log_change_crash sent v v1 v' : log_change sent v v1 → demoted v v' →
  log_state v' ≠ kLeader → log_pending v' = None → log_entries v' = log_entries v1 →
  log_change sent v v'.
Proof.
  intros Hc Hd Hst Hp He.
  assert (∀ k, log_entries v1 = take k (log_entries v) → log_change sent v v') as Hcut.
  { intros k Hk. apply (change_cut _ _ _ k); congruence. }
  assert (log_entries v1 = log_entries v → log_change sent v v') as Hsame.
  { intros E. apply (Hcut (length (log_entries v))). by rewrite firstn_all. }
  destruct Hc as [| | | |e ? ? ? E ?|r ? ? ? ? E ?|k ? ? E ?]; auto.
  - apply (change_append _ _ _ e); congruence.
  - apply (change_accept _ _ _ r); congruence.
  - by apply (Hcut k).
Qed.

(** A request without entries, or for an entry of the node that sends it with the
    entry before. *)
Definition sendable (v : LogView) (r : AppendEntriesRequest) : Prop :=
  ae_entries r = [] ∨
  let k := ae_leader_commit r in
  (log_entries v ++ option_list (log_pending v)) !! N.to_nat k = Some (entry_of r) ∧
  (k ≠ 0 → ae_prev_log_index r = k - 1 ∧
    ∃ p, log_entries v !! N.to_nat (k - 1) = Some p ∧ ae_prev_log_term r = term_ p).

(** [past_leaders] lists the nodes that have led, with the term. *)
Record Replication := mkReplication {
  log_views : gmap N LogView;
  requests : list AppendEntriesRequest;
  past_leaders : list (N * N);
}.

Definition led (i : N) (v : LogView) : list (N * N) :=
  if decide (log_state v = kLeader) then [(i, log_term v)] else [].

(** A node makes a change or sends a request; a request stays in [requests], as
    it may be delivered late or twice.  No node leads in a term in which another
    one has led. *)
Inductive replication_step (s : Replication) : Replication → Prop :=
  | step_change i v v' :
      log_views s !! i = Some v → log_change (requests s) v v' →
      (∀ j, log_state v' = kLeader → (j, log_term v') ∈ past_leaders s → j = i) →
      replication_step s (mkReplication (<[i := v']> (log_views s)) (requests s)
        (led i v' ++ past_leaders s))
  | step_send i v r :
      log_views s !! i = Some v → sendable v r →
      replication_step s
        (mkReplication (log_views s) (requests s ++ [r]) (past_leaders s)).

(** All logs are empty, nothing has been sent, nobody leads. *)
Definition replication_init (s : Replication) : Prop :=
  requests s = [] ∧ past_leaders s = [] ∧
  ∀ i v, log_views s !! i = Some v →
    log_entries v = [] ∧ log_pending v = None ∧ log_state v ≠ kLeader.

(** ** Invariant

    The history [h] holds every entry ever made, with the log it was made for. *)

Abbreviation History := (list (list LogEntry * LogEntry)).

Definition recorded (h : History) (l : list LogEntry) : Prop :=
  ∀ k e, l !! k = Some e → (take k l, e) ∈ h.

Record history_ok (h : History) : Prop := {
  history_id L e : (L, e) ∈ h → id_ e = N.of_nat (length L);
  history_closed L e : (L, e) ∈ h → recorded h L;
  history_unique L L' e e' : (L, e) ∈ h → (L', e') ∈ h →
    id_ e = id_ e' → term_ e = term_ e' → L = L' ∧ e = e';
}.

Definition request_ok (h : History) (r : AppendEntriesRequest) : Prop :=
  ae_entries r = [] ∨
  ∃ L, (L, entry_of r) ∈ h ∧
    (ae_leader_commit r ≠ 0 → ∃ p, last L = Some p ∧
      ae_prev_log_index r = ae_leader_commit r - 1 ∧ ae_prev_log_term r = term_ p).

Record view_ok (h : History) (leaders : list (N * N)) (i : N) (v : LogView) : Prop := {
  view_log : recorded h (log_entries v);
  view_pending e : log_pending v = Some e →
    (log_entries v, e) ∈ h ∧ term_ e = log_term v ∧ log_state v = kLeader;
  view_leader : log_state v = kLeader → (i, log_term v) ∈ leaders;
  view_complete L e : log_state v = kLeader → (L, e) ∈ h → term_ e = log_term v →
    (length L < length (log_entries v))%nat ∨ log_pending v = Some e;
  view_past t : (i, t) ∈ leaders →
    t ≤ log_term v ∧ (t = log_term v → log_state v ≠ kCandidate);
}.

Record replication_inv (h : History) (s : Replication) : Prop := {
  inv_history : history_ok h;
  inv_view i v : log_views s !! i = Some v → view_ok h (past_leaders s) i v;
  inv_request r : r ∈ requests s → request_ok h r;
  inv_maker L e : (L, e) ∈ h → ∃ i, (i, term_ e) ∈ past_leaders s;
  inv_unique i j t : (i, t) ∈ past_leaders s → (j, t) ∈ past_leaders s → i = j;
}.

Lemma recorded_nil h : recorded h [].
Proof. by intros k e. Qed.

Lemma recorded_mono h h' l : h ⊆ h' → recorded h l → recorded h' l.
Proof. intros Hh Hl k e He. by apply Hh, Hl. Qed.

Lemma recorded_take h j l : recorded h l → recorded h (take j l).
Proof.
  intros Hl k e [He Hk]%lookup_take_Some.
  rewrite take_take, Nat.min_l by lia. by apply Hl.
Qed.

Lemma recorded_snoc h l e : recorded h l → (l, e) ∈ h → recorded h (l ++ [e]).
Proof.
  intros Hl He k x [Hx|[Hk Hx]]%lookup_app_Some.
  - rewrite take_app_le; [by apply Hl|]. apply lookup_lt_Some in Hx. lia.
  - apply list_lookup_singleton_Some in Hx as [Hx <-].
    rewrite take_app_length' by lia. done.
Qed.

Lemma recorded_wf h l k e : history_ok h → recorded h l → l !! k = Some e →
  id_ e = N.of_nat k.
Proof.
  intros Hh Hl He. rewrite (history_id _ Hh _ _ (Hl _ _ He)).
  apply lookup_lt_Some in He. rewrite length_take. lia.
Qed.

(** Two logs with the same entry, by position and term, agree up to it. *)
Lemma recorded_agree h l l' k e e' : history_ok h → recorded h l → recorded h l' →
  l !! k = Some e → l' !! k = Some e' → term_ e = term_ e' → take (S k) l = take (S k) l'.
Proof.
  intros Hh Hl Hl' He He' Ht.
  pose proof (recorded_wf _ _ _ _ Hh Hl He) as Hid.
  pose proof (recorded_wf _ _ _ _ Hh Hl' He') as Hid'.
  destruct (history_unique _ Hh _ _ _ _ (Hl _ _ He) (Hl' _ _ He')) as [Hpre ->];
    [congruence|done|].
  by rewrite (take_S_r l k e'), (take_S_r l' k e'), Hpre.
Qed.

(** What an accepted entry leaves is recorded. *)
Lemma accept_recorded h r l L : history_ok h → recorded h l → (L, entry_of r) ∈ h →
  take (length L) l = L → recorded h (accept r l).1.2.
Proof.
  intros Hh Hl Hr Hpre. pose proof (history_id _ Hh _ _ Hr) as Hid. simpl in Hid.
  pose proof (recorded_snoc h L _ (history_closed _ Hh _ _ Hr) Hr) as Hnew.
  unfold accept. rewrite Hid, Nat2N.id.
  destruct (last l) as [x|] eqn:Hx.
  - destruct (_ && _); [done|]. case_test; simpl; [by rewrite Hpre|].
    case_test; [|done]. simpl. rewrite take_ge in Hpre by lia. by subst.
  - apply last_None in Hx as ->. rewrite take_nil in Hpre. subst. by case_test.
Qed.

Lemma replicate_recorded h r l : history_ok h → recorded h l → request_ok h r →
  ae_entries r ≠ [] → recorded h (replicate r l).1.2.
Proof.
  intros Hh Hl Hreq Hne. destruct Hreq as [|(L & Hr & Hprev)]; [done|]. unfold replicate.
  pose proof (history_id _ Hh _ _ Hr) as Hid. simpl in Hid.
  case_test.
  { apply accept_recorded with L; [done..|].
    replace (length L) with 0%nat by lia. destruct L; [done|simpl in *; lia]. }
  destruct Hprev as (p & Hp & -> & ->); [done|]. rewrite Hid.
  replace (N.to_nat (N.of_nat (length L) - 1)) with (pred (length L)) by lia.
  destruct (l !! pred (length L)) as [q|] eqn:Hq; [|done].
  case_test; [|by apply recorded_take].
  apply accept_recorded with L; [done..|].
  rewrite last_lookup in Hp.
  pose proof (recorded_agree h l L _ q p Hh Hl (history_closed _ Hh _ _ Hr) Hq Hp) as Hag.
  replace (S (pred (length L))) with (length L) in Hag by lia.
  by rewrite Hag, firstn_all.
Qed.

(** ** Preservation *)

Lemma request_ok_mono h h' r : h ⊆ h' → request_ok h r → request_ok h' r.
Proof. intros Hh [|(L & Hr & Hp)]; [by left|]. right. exists L. split; [by apply Hh|done]. Qed.

Lemma sendable_ok h v r : history_ok h → recorded h (log_entries v) →
  (∀ e, log_pending v = Some e → (log_entries v, e) ∈ h) → sendable v r → request_ok h r.
Proof.
  intros Hh Hl Hp [|[Hr Hprev]]; [by left|]. right.
  assert (recorded h (log_entries v ++ option_list (log_pending v))) as Hall.
  { destruct (log_pending v) as [e|]; simpl; [|by rewrite app_nil_r].
    apply recorded_snoc; auto. }
  pose proof (Hall _ _ Hr) as Hin. eexists. split; [exact Hin|].
  intros Hk. destruct (Hprev Hk) as (Hi & p & Hpl & Ht). exists p. split_and!; [|done..].
  apply lookup_lt_Some in Hr. set (k := N.to_nat (ae_leader_commit r)) in *.
  rewrite last_lookup, length_take, Nat.min_l by lia.
  rewrite lookup_take_lt by lia. apply lookup_app_l_Some.
  rewrite <-Hpl. f_equal. lia.
Qed.

(** A new entry for the end of a recorded log. *)
Lemma history_cons h l e : history_ok h → recorded h l → id_ e = N.of_nat (length l) →
  (∀ L e', (L, e') ∈ h → id_ e' = id_ e → term_ e' ≠ term_ e) → history_ok ((l, e) :: h).
Proof.
  intros Hh Hl Hid Hnew. assert (h ⊆ (l, e) :: h) as Hsub by (intros x Hx; by right). split.
  - intros L e' [[= -> ->]|Hin]%elem_of_cons; [done|by apply (history_id h)].
  - intros L e' [[= -> ->]|Hin]%elem_of_cons; apply (recorded_mono h); [done..| |]; [done|].
    by apply (history_closed h Hh L e').
  - intros L L' e1 e2 [[= -> ->]|Hin]%elem_of_cons [[= -> ->]|Hin']%elem_of_cons Heid Het;
      [done|by destruct (Hnew L' e2)|by destruct (Hnew L e1)|by apply (history_unique h)].
Qed.

(** *** The view that a change leaves *)

Section change.
  Context (h : History) (s : Replication) (i : N) (v v' : LogView).
  Context (HI : replication_inv h s) (Hi : log_views s !! i = Some v).
  Context (Hguard : ∀ j, log_state v' = kLeader → (j, log_term v') ∈ past_leaders s → j = i).

Abbreviation leaders := (led i v' ++ past_leaders s).

Let Hv : view_ok h (past_leaders s) i v := inv_view _ _ HI _ _ Hi.

Lemma led_here : log_state v' = kLeader → (i, log_term v') ∈ leaders.
Proof using Type. intros Hst. unfold led. rewrite decide_True by done. by left. Qed.

Lemma led_before t : (i, t) ∈ leaders →
  (i, t) ∈ past_leaders s ∨ t = log_term v' ∧ log_state v' = kLeader.
Proof using Type.
  unfold led. case_decide; [|by left]. intros [[= <-]|]%elem_of_cons; [by right|by left].
Qed.

Lemma past_kept t : log_term v ≤ log_term v' →
  (log_state v' = kCandidate → log_state v = kCandidate ∧ log_term v' = log_term v) →
  (i, t) ∈ leaders → t ≤ log_term v' ∧ (t = log_term v' → log_state v' ≠ kCandidate).
Proof using Hv.
  intros Hle Hcand Ht. destruct (led_before t Ht) as [Hin|[-> ->]]; [|done].
  destruct (view_past _ _ _ _ Hv t Hin) as [Hlt Hnc]. split; [lia|]. intros -> Hst.
  destruct (Hcand Hst) as [Hst' Heq]. by apply Hnc.
Qed.

(** Nothing has been made in a term in which the node starts to lead. *)
Lemma fresh_term L e : log_state v' = kLeader → (L, e) ∈ h → term_ e = log_term v' →
  ¬ (log_term v < log_term v' ∨ log_term v = log_term v' ∧ log_state v = kCandidate).
Proof using HI Hv Hguard.
  intros Hst He Ht Hcase. destruct (inv_maker _ _ HI L e He) as [j Hj]. rewrite Ht in Hj.
  pose proof (Hguard j Hst Hj) as ->. destruct (view_past _ _ _ _ Hv _ Hj) as [Hle Hnc].
  destruct Hcase as [|[Heq Hcand]]; [lia|]. by apply Hnc.
Qed.

Lemma quiet_view_ok : demoted v v' → log_entries v' = log_entries v →
  log_pending v' = (if decide (log_state v' = kLeader) then log_pending v else None) →
  view_ok h leaders i v'.
Proof using Hv.
  intros (Hle & Hl & Hc) He Hp. split; rewrite ?He, ?Hp; try apply Hv; try apply led_here.
  - intros e. case_decide as Hst'; [|done]. destruct (Hl Hst') as [Hst ->]. intros Hsome.
    by destruct (view_pending _ _ _ _ Hv e Hsome) as (? & ? & _).
  - intros L e Hst' Hin. rewrite decide_True by done. destruct (Hl Hst') as [Hst ->].
    by apply (view_complete _ _ _ _ Hv).
  - intros t. by apply past_kept.
Qed.

Lemma candidacy_view_ok : log_term v' = log_term v + 1 →
  log_entries v' = log_entries v → log_pending v' = None → view_ok h leaders i v'.
Proof using HI Hv Hguard.
  intros Ht He Hp. split; rewrite ?He, ?Hp; try apply Hv; try apply led_here; try done.
  - intros L e Hst' Hin Hte. destruct (fresh_term L e Hst' Hin Hte). left. lia.
  - intros t Hin. destruct (led_before t Hin) as [Hin'|[-> ->]]; [|done].
    destruct (view_past _ _ _ _ Hv t Hin') as [Hle _]. split; [lia|]. intros ->. lia.
Qed.

Lemma elected_view_ok : log_state v = kCandidate → log_state v' = kLeader →
  log_term v' = log_term v → log_entries v' = log_entries v → log_pending v' = None →
  view_ok h leaders i v'.
Proof using HI Hv Hguard.
  intros Hst Hst' Ht He Hp. split; rewrite ?He, ?Hp; try apply Hv; try apply led_here; try done.
  - intros L e _ Hin Hte. by destruct (fresh_term L e Hst' Hin Hte); right.
  - intros t. apply past_kept; [lia|]. by rewrite Hst'.
Qed.

Lemma propose_view_ok e : log_state v = kLeader → same_role v v' → log_pending v = None →
  log_entries v' = log_entries v → log_pending v' = Some e →
  id_ e = N.of_nat (length (log_entries v)) → term_ e = log_term v →
  let h' := (log_entries v, e) :: h in view_ok h' leaders i v' ∧ history_ok h'.
Proof using HI Hv.
  intros Hst [Ht Hst'] Hnone He Hp Hid Hte. rewrite Hst in Hst'.
  pose proof (inv_history _ _ HI) as Hh. pose proof (view_complete _ _ _ _ Hv) as Hcomp.
  assert (h ⊆ (log_entries v, e) :: h) as Hsub by (intros x Hx; by right).
  split; [split|]; rewrite ?He, ?Hp; try apply led_here.
  - apply (recorded_mono h); [done|apply Hv].
  - intros e' [= <-]. split_and!; [by left|congruence|done].
  - intros L e' _ [[= -> ->]|Hin]%elem_of_cons Hte'; [by right|].
    destruct (Hcomp L e' Hst Hin) as [|Hx]; [congruence|by left|congruence].
  - intros t. apply past_kept; [lia|]. by rewrite Hst'.
  - apply history_cons; [done|apply Hv|done|]. intros L e' Hin Heid Het.
    pose proof (history_id _ Hh _ _ Hin).
    destruct (Hcomp L e' Hst Hin) as [|]; [congruence|lia|congruence].
Qed.

Lemma append_view_ok e : log_state v = kLeader → demoted v v' → log_pending v = Some e →
  log_entries v' = log_entries v ++ [e] → log_pending v' = None → view_ok h leaders i v'.
Proof using HI Hv.
  intros Hst (Hle & Hl & Hc) Hsome He Hp.
  destruct (view_pending _ _ _ _ Hv e Hsome) as (Hin & Hte & _).
  split; rewrite ?He, ?Hp; try apply led_here; try done.
  - apply recorded_snoc; [apply Hv|done].
  - intros L e' Hst' Hin' Hte'. destruct (Hl Hst') as [_ Ht]. left. rewrite length_app. simpl.
    destruct (view_complete _ _ _ _ Hv L e' Hst Hin') as [|Heq]; [congruence|lia|].
    assert (e' = e) as -> by congruence.
    destruct (history_unique _ (inv_history _ _ HI) _ _ _ _ Hin Hin') as [-> _]; [done..|lia].
  - intros t. by apply past_kept.
Qed.

Lemma cut_view_ok k : demoted v v' → log_state v' ≠ kLeader →
  log_entries v' = take k (log_entries v) → log_pending v' = None → view_ok h leaders i v'.
Proof using Hv.
  intros (Hle & _ & Hc) Hst' He Hp. split; rewrite ?He, ?Hp; try apply led_here; try done.
  - apply recorded_take, Hv.
  - intros t. by apply past_kept.
Qed.

Lemma accept_view_ok r : r ∈ requests s → ae_entries r ≠ [] → demoted v v' →
  log_state v' ≠ kLeader → log_entries v' = (replicate r (log_entries v)).1.2 →
  log_pending v' = None → view_ok h leaders i v'.
Proof using HI Hv.
  intros Hr Hne (Hle & _ & Hc) Hst' He Hp. split; rewrite ?He, ?Hp; try apply led_here; try done.
  - apply replicate_recorded; [apply HI|apply Hv|by apply (inv_request _ _ HI)|done].
  - intros t. by apply past_kept.
Qed.

Lemma change_view_ok : log_change (requests s) v v' →
  ∃ new : History, view_ok (new ++ h) leaders i v' ∧ history_ok (new ++ h) ∧
    ∀ L e, (L, e) ∈ new → log_state v = kLeader ∧ term_ e = log_term v.
Proof using HI Hv Hguard.
  intros Hc. pose proof (inv_history _ _ HI) as Hh.
  destruct Hc as [? ? ?|? ? ? ?|? ? ? ? ?|e Hst ? ? ? ? ? Ht|e ? ? ? ? ?|r ? ? ? ? ? ?|k ? ? ? ?].
  4: { exists [(log_entries v, e)].
    destruct (propose_view_ok e) as [Hok Hh']; [done..|]. split_and!; [done..|].
    by intros L e' [[= -> ->]|[]%not_elem_of_nil]%elem_of_cons. }
  all: exists []; split_and!; [|done|by intros ? ? ?%not_elem_of_nil].
  - by apply quiet_view_ok.
  - by apply candidacy_view_ok.
  - by apply elected_view_ok.
  - by apply (append_view_ok e).
  - by apply (accept_view_ok r).
  - by apply (cut_view_ok k).
Qed.

End change.

(** ** Steps *)

(** The views of the other nodes. *)
Lemma view_ok_other h new leaders i j v w : view_ok h leaders j w → j ≠ i →
  (∀ L e, (L, e) ∈ new → (i, term_ e) ∈ leaders) →
  (∀ k l t, (k, t) ∈ leaders → (l, t) ∈ leaders → k = l) →
  view_ok (new ++ h) (led i v ++ leaders) j w.
Proof.
  intros [Hlog Hpend Hlead Hcomp Hpast] Hne Hnew Huniq.
  assert (h ⊆ new ++ h) as Hsub by set_solver.
  split.
  - by apply (recorded_mono h).
  - intros e He. destruct (Hpend e He) as (? & ? & ?). split_and!; [by apply Hsub|done..].
  - intros Hst. apply elem_of_app. right. by apply Hlead.
  - intros L e Hst [Hin|Hin]%elem_of_app Ht; [|by apply Hcomp].
    destruct Hne. apply (Huniq j i (log_term w)); [by apply Hlead|].
    rewrite <-Ht. by apply (Hnew L).
  - intros t. unfold led. case_decide; [|by apply Hpast].
    intros [[= -> ->]|Hin]%elem_of_cons; [done|by apply Hpast].
Qed.

Lemma change_inv h s i v v' : replication_inv h s → log_views s !! i = Some v →
  log_change (requests s) v v' →
  (∀ j, log_state v' = kLeader → (j, log_term v') ∈ past_leaders s → j = i) →
  ∃ new, replication_inv (new ++ h)
    (mkReplication (<[i := v']> (log_views s)) (requests s) (led i v' ++ past_leaders s)).
Proof.
  intros HI Hi Hc Hguard.
  destruct (change_view_ok h s i v v' HI Hi Hguard Hc) as (new & Hok & Hh & Hnew).
  destruct HI as [_ Hv Hreq Hmaker Huniq]. exists new.
  assert (∀ L e, (L, e) ∈ new → (i, term_ e) ∈ past_leaders s) as Hnewlead.
  { intros L e Hin. destruct (Hnew L e Hin) as [Hst ->]. by apply (view_leader _ _ _ _ (Hv _ _ Hi)). }
  split; simpl; [done|..].
  - intros j w. rewrite lookup_insert_Some. intros [[<- <-]|[Hne Hj]]; [done|].
    by apply view_ok_other; [apply Hv| | |].
  - intros r Hr. eapply request_ok_mono; [|by apply Hreq]. set_solver.
  - intros L e [Hin|Hin]%elem_of_app.
    + exists i. apply elem_of_app. right. by apply (Hnewlead L).
    + destruct (Hmaker L e Hin) as [j Hj]. exists j. set_solver.
  - intros j k t. unfold led. case_decide as Hst; [|by apply Huniq]. simpl.
    intros [Hj|Hj]%elem_of_cons [Hk|Hk]%elem_of_cons; simplify_eq; [done|..].
    + symmetry. by apply Hguard.
    + by apply Hguard.
    + by apply (Huniq j k t).
Qed.

Lemma send_inv h s i v r : replication_inv h s → log_views s !! i = Some v → sendable v r →
  replication_inv h (mkReplication (log_views s) (requests s ++ [r]) (past_leaders s)).
Proof.
  intros [Hh Hv Hreq Hmaker Huniq] Hi Hr. split; simpl; try done.
  intros r' [Hr'| ->%list_elem_of_singleton]%elem_of_app; [by apply Hreq|].
  destruct (Hv _ _ Hi) as [Hlog Hpend _ _ _].
  apply (sendable_ok h v); [done..| |done]. intros e He. by destruct (Hpend e He).
Qed.

Lemma replication_step_inv h s s' : replication_inv h s → replication_step s s' →
  ∃ h', replication_inv h' s'.
Proof.
  intros HI [i v v' Hi Hc Hguard|i v r Hi Hr].
  - destruct (change_inv h s i v v') as [new ?]; eauto.
  - exists h. by eapply send_inv.
Qed.

Lemma replication_steps_inv h s s' : replication_inv h s → rtc replication_step s s' →
  ∃ h', replication_inv h' s'.
Proof.
  intros HI Hs. revert h HI. induction Hs as [|s1 s2 s3 Hs _ IH]; intros h HI; [eauto|].
  destruct (replication_step_inv _ _ _ HI Hs) as [h2 HI2]. by apply (IH h2).
Qed.

Lemma replication_init_inv s : replication_init s → replication_inv [] s.
Proof.
  intros (Hr & Hl & Hv). split; rewrite ?Hr, ?Hl.
  - split; [intros L e ?%not_elem_of_nil; done|intros L e ?%not_elem_of_nil; done|].
    by intros L L' e e' ?%not_elem_of_nil.
  - intros i v Hi. destruct (Hv i v Hi) as (He & Hp & Hst). split; rewrite ?He, ?Hp; try done.
    by intros t ?%not_elem_of_nil.
  - by intros r ?%not_elem_of_nil.
  - by intros L e ?%not_elem_of_nil.
  - by intros i j t ?%not_elem_of_nil.
Qed.

(** ** Log matching *)

Lemma logs_match s0 s i j v w k a b :
  replication_init s0 → rtc replication_step s0 s →
  log_views s !! i = Some v → log_views s !! j = Some w →
  log_entries v !! k = Some a → log_entries w !! k = Some b → term_ a = term_ b →
  take (S k) (log_entries v) = take (S k) (log_entries w).
Proof.
  intros H0 Hs Hi Hj Ha Hb Ht.
  destruct (replication_steps_inv _ _ _ (replication_init_inv _ H0) Hs) as [h [Hh Hv _ _ _]].
  apply (recorded_agree h _ _ k a b); [done|apply (Hv _ _ Hi)|apply (Hv _ _ Hj)|done..].
Qed.
