(* ===== verification/VoteTheorems.v ===== *)
(** * Theorems about terms, votes and elections of one node *)

From S2P Require Import Prelude Codec Platform LogEntry ContextStore ContextStoreFacts.
From S2P Require Import NodeUtil RaftTypes OtherNode StateMachine Lifecycle Node.
From S2P Require Import StateMachineInterface RaftContext RaftContextFacts Election VoteFacts.
From S2P Require Import RaftStateMachine RaftStateMachineFacts ClusterNodeImpl.
From S2P Require Import ElectionRefinement NodeInvariant Demo Crash Cluster.

Local Open Scope N_scope.

Section votes.
  Context `{PlatformSpec}.
  Implicit Types (n : Node).

(** C12: the answer to a vote request.  For a known candidate the node first
    adopts a newer term, and answers with the term it then has.  It grants the
    vote exactly when the request is not older than its term, it has not voted
    in the term of the request, and its last entry is at most the position that
    the candidate announces; then the vote is recorded.  A request that brings
    no newer term and is refused changes nothing, and no request touches the log. *)
Theorem on_request_vote_requested_spec r n :
  is_valid_node (rv_candidate_id r) n = true →
  let grant := (get_term n <=? rv_term r) &&
    ((get_term n <? rv_term r) || negb (voted (store n))) &&
    log_allows (rv_last_data_index r) (store n) in
  let '(resp, n') := on_request_vote_requested r n in
  resp = mkRequestVoteResponse (N.max (get_term n) (rv_term r)) grant ∧
  get_term n' = N.max (get_term n) (rv_term r) ∧
  logs_ (store n') = logs_ (store n) ∧
  (grant = true → voted (store n') = true ∧ voted_for (store n') = rv_candidate_id r) ∧
  (grant = false → rv_term r ≤ get_term n → n' = n).
Proof.
  intros Hv grant. unfold on_request_vote_requested. rewrite Hv. cbn [negb].
  subst grant. unfold get_term, current_term, voted, voted_for.
  destruct (N.ltb_spec (current_term_ (store n)) (rv_term r)) as [Hlt|Hle].
  - destruct (update_term_new (rv_term r) false n) as [d ->]; [done|].
    set (n1 := StateMachineInterface.on_new_term_received (in_new_term d (rv_term r) n)).
    assert (store n1 = mkContextStore d (rv_term r) 0 false 0 (logs_ (store n))) as Hs
      by (subst n1; by rewrite (state_change_store _ _ (on_new_term_received_change _))).
    cbv beta iota. clearbody n1.
    pose proof (vote_eq (rv_term r) (rv_candidate_id r) (rv_last_data_index r)
      (rv_loat_data_term r) n1) as E.
    cbv zeta in E. rewrite Hs in E. simpl in E. rewrite N.leb_refl in E. simpl in E.
    rewrite (proj2 (N.leb_le _ _)) by lia. simpl.
    assert (log_allows (rv_last_data_index r) (store n) = log_allows (rv_last_data_index r)
      (mkContextStore d (rv_term r) 0 false 0 (logs_ (store n)))) as -> by done.
    rewrite N.max_r by lia.
    destruct (log_allows _ _).
    + destruct E as [d' ->]. rewrite !store_on_store, Hs. by split_and!.
    + rewrite E, Hs. split_and!; try done. lia.
  - rewrite update_term_old by done. rewrite N.max_l by done.
    pose proof (vote_eq (rv_term r) (rv_candidate_id r) (rv_last_data_index r)
      (rv_loat_data_term r) n) as E. cbv zeta in E. simpl.
    destruct (_ && _ && _); [destruct E as [d' ->]|rewrite E]; by split_and!.
Qed.

(** What inputs do to the term and the vote. *)
Definition vote_kept (v w : View) : Prop :=
  view_term v ≤ view_term w ∧
  (view_term v = view_term w → ∀ c, view_vote v = Some c → view_vote w = Some c).

Lemma quiet_vote_kept v w : quiet v w → vote_kept v w.
Proof. intros []; split; try lia. congruence. Qed.

Lemma run_input_vote_kept input n :
  states_ (raft_fsm_ n) = raft_states → term_left input n →
  vote_kept (view_of n) (view_of (run_input input n)).
Proof.
  intros Hs Ht. destruct (local_input input) eqn:Hl.
  - destruct (local_input_view input n Hs Hl Ht) as [Hn|[_ [Hv _]]].
    + apply quiet_vote_kept, Hn.
    + destruct Hv as [[-> _]|[-> _]]; split; simpl; lia.
  - destruct input; try done; simpl.
    + pose proof (on_request_vote_requested_view request n Hs) as Hv.
      destruct (on_request_vote_requested request n) as [resp n'].
      destruct Hv as (n1 & Hn1 & [[_ ->]|(_ & Hnone & Hview & _)]);
        destruct (quiet_vote_kept _ _ (silent_quiet _ _ Hn1)) as [Hle Hk]; [by split|].
      simpl snd. rewrite Hview. split; [done|]. intros Heq c Hc.
      rewrite (Hk Heq c Hc) in Hnone. done.
    + destruct (on_request_vote_response_view (rv_response_term response)
        (rv_vote_granted response) n Hs) as [Hn|(_ & _ & k & _ & [->|[-> _]] & _)];
        [apply quiet_vote_kept, Hn|done..].
Qed.

(** An election never makes the term smaller, even in the last term. *)
Lemma start_election_term `{!StateMachineInterface} `{!StateMachineContract} n :
  current_term_ (store n) ≤ current_term_ (store (start_election n)).
Proof.
  assert (current_term_ (store n) ≤ current_term_ (store (increase_term n))) as Hle.
  { destruct (increase_term_eq n) as [[_ ->]|[Hlt [d ->]]]; [done|]. simpl. lia. }
  unfold start_election. set (n1 := increase_term n) in *. clearbody n1.
  destruct (reset_vote_eq n1) as [d2 ->].
  match goal with |- context [vote_for_me ?n] => destruct (vote_for_me_eq n) as [d3 ->] end.
  match goal with |- context [reset_election_timer ?n] => set (n2 := n) end.
  assert (calm n2 (foldl request_vote_to (reset_election_timer n2)
    (map_ids (other_nodes_ (context_ (reset_election_timer n2)))))) as Hc.
  { etrans; [apply reset_election_timer_calm|]. apply foldl_calm, request_vote_to_calm. }
  unfold request_vote, check_elected. set (n3 := foldl _ _ _) in *. clearbody n3.
  case_test; [by rewrite (calm_term _ _ Hc)|].
  rewrite (state_change_store _ _ (on_elected_change _)).
  change (current_term_ (store n) ≤ current_term_ (store n3)). by rewrite (calm_term _ _ Hc).
Qed.

Lemma election_timedout_term n : node_ok n →
  current_term_ (store n) ≤
    current_term_ (store (StateMachineInterface.on_election_timedout n)).
Proof.
  intros Hok. pose proof (ok_states _ (node_machines _ Hok)) as Hs.
  change (StateMachineInterface.on_election_timedout n) with (raft_handle (S 1) kTimedout n).
  pose proof (mk_interface_contract 0) as Hcontract.
  rewrite raft_handle_S. unfold state_handle.
  destruct (raft_state n) eqn:Hst; simpl.
  all: try (by rewrite Hs, decide_False by apply kStay_not_state).
  - rewrite Hs, decide_True by by apply (bool_decide_unpack _).
    unfold goto. simpl. unfold candidate_entry.
    rewrite <-(state_change_store _ _ (depart_change kCandidate n)).
    apply (@start_election_term _ Hcontract).
  - unfold candidate_on_timedout. pose proof (@start_election_term _ Hcontract n) as Hle.
    pose proof (ok_states _ (node_machines _ (start_election_ok 0 n Hst Hok))) as ->.
    by rewrite decide_False by apply kStay_not_state.
Qed.

Lemma run_input_term input n : node_ok n → get_term n ≤ get_term (run_input input n).
Proof.
  intros Hok. pose proof (ok_states _ (node_machines _ Hok)) as Hs.
  assert (input = ElectionTimer ∨ input ≠ ElectionTimer) as [->|Hne]
    by (destruct input; (by left) || by right).
  - simpl. destruct (election_timer_ _); [|done]. unfold on_election_timer.
    destruct (broadcast_received_ _); [done|]. by apply election_timedout_term.
  - destruct (run_input_vote_kept input n Hs) as [Hle _]; [by intros ?|exact Hle].
Qed.

Lemma run_inputs_term inputs n : node_ok n → get_term n ≤ get_term (run_inputs inputs n).
Proof.
  revert n; induction inputs as [|i l IH]; intros n Hok; [done|]. simpl.
  etrans; [by apply (run_input_term i)|]. by apply IH, run_input_ok.
Qed.

(** The vote is kept as long as the term is not the last one. *)
Lemma run_inputs_vote_kept inputs n : node_ok n →
  get_term (run_inputs inputs n) + 1 < u64_size →
  vote_kept (view_of n) (view_of (run_inputs inputs n)).
Proof.
  revert n; induction inputs as [|i l IH]; intros n Hok Hlt; [by split|]. simpl in *.
  pose proof (run_input_ok i n Hok) as Hok1.
  pose proof (run_input_term i n Hok) as Ht1. pose proof (run_inputs_term l _ Hok1) as Ht2.
  destruct (run_input_vote_kept i n) as [Hle1 Hk1].
  { apply (ok_states _ (node_machines _ Hok)). }
  { intros _. unfold get_term, current_term in *. lia. }
  destruct (IH _ Hok1 Hlt) as [Hle2 Hk2]. split; [lia|].
  intros Heq c Hc. apply Hk2; [lia|]. apply Hk1; [lia|done].
Qed.

(** C3: one vote per term.  Whatever inputs a node in a reachable state runs, its
    term never decreases; and while it stays in the same term, short of the last
    64-bit one, a vote it has given stays given to the same node. *)
Theorem vote_once_per_term inputs n :
  reachable n →
  get_term n ≤ get_term (run_inputs inputs n) ∧
  (get_term (run_inputs inputs n) = get_term n → get_term n + 1 < u64_size →
   voted (store n) = true →
   voted (store (run_inputs inputs n)) = true ∧
   voted_for (store (run_inputs inputs n)) = voted_for (store n)).
Proof.
  intros Hr%reachable_ok. split; [by apply run_inputs_term|]. intros Heq Hlt Hv.
  destruct (run_inputs_vote_kept inputs n Hr) as [_ Hk]; [by rewrite Heq|].
  unfold voted, voted_for in *. simpl in Hk. rewrite Hv in Hk.
  specialize (Hk (eq_sym Heq) _ eq_refl).
  destruct (voted_ (store (run_inputs inputs n))); [|done]. by injection Hk.
Qed.

(** The candidate's last term is ignored.  Two vote requests that differ only
    in the term of the candidate's last entry get the same answer and have the
    same effect; and a node whose log holds a single entry allows a vote for a
    candidate that announces position 0, which is what a candidate with an empty
    log announces. *)
Lemma last_term_ignored n term id index t1 t2 :
  on_request_vote_requested (mkRequestVoteRequest term id index t1) n =
    on_request_vote_requested (mkRequestVoteRequest term id index t2) n ∧
  (∀ e, log_wf (logs_ (store n)) → logs_ (store n) = [e] → log_allows 0 (store n) = true) ∧
  (∀ o : OtherNode, request_vote_ready o = true →
    rv_last_data_index <$> OtherNode.request_vote term id None o = Some 0).
Proof.
  split_and!; [done| |].
  - intros e Hwf He. unfold log_allows, last_log. rewrite He in *. simpl.
    destruct (Hwf 0%nat e eq_refl) as [-> _]. done.
  - intros o Ho. unfold OtherNode.request_vote. by rewrite Ho.
Qed.

End votes.

(** ** Findings *)

(** Node 1 of three has voted for node 2 in the last 64-bit term. *)
Definition demo_last_term : Node (H := mem_platform) :=
  run_inputs [RequestVote (mkRequestVoteRequest 18446744073709551615 2 0 0)] (demo_node [1; 2; 3] 1).

(** In the last term a node votes twice.  The next term wraps to 0 and is
    refused, but the election goes on: the node drops the vote it gave to node 2
    and votes for itself, in the same term. *)
Lemma last_term_votes_twice :
  voted_for (store demo_last_term) = 2 ∧
  let n := run_inputs [ElectionTimer] demo_last_term in
  get_term n = get_term demo_last_term ∧ raft_state n = kCandidate ∧
  voted (store n) = true ∧ voted_for (store n) = 1.
Proof. vm_compute. done. Qed.

(** *** Votes that are not written

    The steps of [election_safety], and restarts of a node from its database without
    the condition that it holds what the node has in memory: some write may have
    failed. *)
Inductive lossy_step (c : Cluster (H := mem_platform)) : Cluster → Prop :=
  | lossy_step_safe c' :
      cluster_step "demo" [1; 2; 3] demo_options c c' → lossy_step c c'
  | lossy_step_restart i n d g :
      nodes c !! i = Some n → db_ (store n) = Some d → db_readable d →
      lossy_step c (mkCluster (<[i := new_ClusterNode "demo" i [1; 2; 3] demo_options
        (λ _, Some d) g]> (nodes c)) (answers c)).

(** Node 2 starts on a database that takes three writes, those of a new term, and
    refuses the next two. *)
Definition demo_refusing_node : Node :=
  new_ClusterNode "demo" 2 [1; 2; 3] demo_options
    (λ _, Some (mkMemDB ∅ [false; false; false; true; true] [])) 3.

Definition demo_refusing : Cluster (H := mem_platform) :=
  mkCluster (<[2 := demo_refusing_node]> (nodes demo_cluster)) [].

(** Nodes 1 and 3 stand one after the other, and ask node 2 for its vote. *)
Definition run_election (i : N) (c : Cluster (H := mem_platform)) : Cluster :=
  run_answer i (mkRequestVoteResponse 1 true)
    (run_request 2 (mkRequestVoteRequest 1 i 0 0) (run_local i ElectionTimer c)).

Definition demo_forgetful : Cluster :=
  let c := run_election 1 demo_refusing in
  run_crash 2 (default empty_db (db_ (store (node_of 2 c)))) c.

Lemma run_election_lossy i c : is_Some (nodes c !! i) → term_left ElectionTimer (node_of i c) →
  answers c = [] → answers (run_request 2 (mkRequestVoteRequest 1 i 0 0)
    (run_local i ElectionTimer c)) = [mkAnswer i 2 (mkRequestVoteResponse 1 true)] →
  is_Some (nodes c !! 2) → rtc lossy_step c (run_election i c).
Proof.
  intros Hi Ht Hnone Ha H2. unfold run_election.
  assert (∀ j input, is_Some (nodes c !! j) → is_Some (nodes (run_local i input c) !! j)) as Hl.
  { intros j input Hj. simpl. destruct (decide (i = j)) as [->|].
    - by rewrite lookup_insert_eq.
    - by rewrite lookup_insert_ne. }
  apply rtc_l with (run_local i ElectionTimer c);
    [|apply rtc_l with (run_request 2 (mkRequestVoteRequest 1 i 0 0) (run_local i ElectionTimer c));
      [|apply rtc_once]]; apply lossy_step_safe.
  - by apply run_local_step.
  - apply run_request_step. by apply Hl.
  - apply (run_answer_step i 2); [|done]. unfold run_request.
    destruct (on_request_vote_requested _ _) as [resp n']. simpl.
    destruct (decide (i = 2)) as [->|]; [by rewrite lookup_insert_eq|].
    rewrite lookup_insert_ne by done. by rewrite lookup_insert_eq.
Qed.

Lemma demo_refusing_init : cluster_init "demo" [1; 2; 3] demo_options demo_refusing.
Proof.
  destruct demo_cluster_init as (_ & Hdom & Hnew). unfold demo_refusing, cluster_init.
  cbn [nodes answers]. split; [done|]. split.
  - rewrite dom_insert_L, Hdom. set_solver.
  - intros i n Hn. apply lookup_insert_Some in Hn as [[<- <-]|[_ Hn]]; [|by apply Hnew].
    exists (λ _, Some (mkMemDB ∅ [false; false; false; true; true] [])), 3. reflexivity.
Qed.

(** C36: a vote that was not written elects two leaders.  [vote] grants without looking
    at the results of the two writes that record the vote.  So [election_safety] does not
    survive restarts from a database that a failed write has left behind: from a start
    of nodes 1, 2 and 3 there are steps, those of [election_safety] and such restarts
    only, to a point where nodes 1 and 3 both lead the same term.  In them the database
    of node 2 takes the new term and refuses both writes of its vote for node 1; it
    restarts in the same term and votes for node 3. *)
Theorem unwritten_vote_elects_two :
  ∃ c0 c n m, cluster_init "demo" [1; 2; 3] demo_options c0 ∧ rtc lossy_step c0 c ∧
    nodes c !! 1 = Some n ∧ nodes c !! 3 = Some m ∧
    raft_state n = kLeader ∧ raft_state m = kLeader ∧ get_term n = get_term m.
Proof.
  set (c := run_election 3 demo_forgetful).
  exists demo_refusing, c, (node_of 1 c), (node_of 3 c).
  split; [apply demo_refusing_init|]. split.
  - transitivity (run_election 1 demo_refusing);
      [|apply rtc_l with demo_forgetful].
    + apply run_election_lossy; [compute_decision|intros _; vm_compute; done|done|
        vm_compute; done|compute_decision].
    + apply (lossy_step_restart _ 2 (node_of 2 (run_election 1 demo_refusing))).
      * apply node_of_lookup. compute_decision.
      * vm_compute. done.
      * apply mem_platform_readable.
    + apply run_election_lossy; [compute_decision|intros _; vm_compute; done|done|
        vm_compute; done|compute_decision].
  - split_and!; [apply node_of_lookup; compute_decision..|vm_compute; done|vm_compute; done|].
    vm_compute. done.
Qed.

(** ** Witnesses *)

Lemma on_request_vote_requested_spec_witness :
  let r := mkRequestVoteRequest 1 2 0 0 in let n := demo_node [1; 2; 3] 1 in
  let grant := (get_term n <=? rv_term r) &&
    ((get_term n <? rv_term r) || negb (voted (store n))) &&
    log_allows (rv_last_data_index r) (store n) in
  let '(resp, n') := on_request_vote_requested r n in
  resp = mkRequestVoteResponse (N.max (get_term n) (rv_term r)) grant ∧
  get_term n' = N.max (get_term n) (rv_term r) ∧
  logs_ (store n') = logs_ (store n) ∧
  (grant = true → voted (store n') = true ∧ voted_for (store n') = rv_candidate_id r) ∧
  (grant = false → rv_term r ≤ get_term n → n' = n).
Proof.
  apply (on_request_vote_requested_spec (mkRequestVoteRequest 1 2 0 0) (demo_node [1; 2; 3] 1)).
  vm_compute. reflexivity.
Defined.

(** Node 1 of three has voted for node 2 in term 1; a request of node 3 follows. *)
Lemma vote_once_per_term_witness :
  let n := run_inputs [RequestVote (mkRequestVoteRequest 1 2 0 0)] (demo_node [1; 2; 3] 1) in
  let n' := run_inputs [RequestVote (mkRequestVoteRequest 1 3 0 0)] n in
  voted (store n') = true ∧ voted_for (store n') = voted_for (store n).
Proof.
  intros n n'.
  apply (vote_once_per_term [RequestVote (mkRequestVoteRequest 1 3 0 0)] n).
  - apply demo_reachable.
  - vm_compute. reflexivity.
  - vm_compute. reflexivity.
  - vm_compute. reflexivity.
Defined.
