(* ===== verification/CommitTheorems.v ===== *)
(** * Theorems about commits on the side of the leader *)

From S2P Require Import Prelude Codec Platform LogEntry ContextStore ContextStoreFacts.
From S2P Require Import NodeUtil RaftTypes OtherNode StateMachine Lifecycle Node.
From S2P Require Import StateMachineInterface RaftContext RaftContextFacts Election VoteFacts.
From S2P Require Import RaftStateMachine RaftStateMachineFacts ClusterNodeImpl.
From S2P Require Import ElectionRefinement NodeInvariant Demo.

Local Open Scope N_scope.

Section commits.
  Context `{PlatformSpec}.
  Implicit Types (n : Node).

(** What a promise holds: nothing yet, or the response it was answered with. *)
Definition promised (p : N) n : option (option CommandCommitResponse) :=
  promises_ (context_ n) !! N.to_nat p.

Lemma set_value_open p r n : open_promise p n →
  set_value p r n =
    on_context (λ c, set_promises (<[N.to_nat p := Some r]> (promises_ c)) c) n.
Proof. unfold set_value, open_promise. by intros ->. Qed.

Lemma set_value_promised p r n : open_promise p n → promised p (set_value p r n) = Some (Some r).
Proof.
  intros Hp. rewrite set_value_open by done. unfold promised. simpl.
  apply list_lookup_insert_eq. by eapply lookup_lt_Some.
Qed.

Lemma set_value_store p r n : store (set_value p r n) = store n.
Proof. destruct (set_value_context p r n) as [l E]. unfold store. by rewrite E. Qed.

Lemma set_value_pending p r n :
  pending_commit_ (context_ (set_value p r n)) = pending_commit_ (context_ n).
Proof. destruct (set_value_context p r n) as [l ->]. done. Qed.

(** Completing and cancelling, with an open promise. *)
Lemma complete_commit_spec p log result callback n : open_promise p n →
  let n' := complete_commit p log result callback n in
  promised p n' = Some (Some (mkCommandCommitResponse (id_ log) (command_ log) result)) ∧
  store n' = (if result then (push_log (Some log) (store n)).2 else store n) ∧
  pending_commit_ (context_ n') = pending_commit_ (context_ n) ∧
  other_nodes_ (context_ n') = other_nodes_ (context_ n).
Proof.
  intros Hp. unfold complete_commit. cbv zeta.
  set (n1 := if result then _ else n).
  assert (open_promise p n1 ∧ pending_commit_ (context_ n1) = pending_commit_ (context_ n) ∧
    other_nodes_ (context_ n1) = other_nodes_ (context_ n) ∧
    store n1 = if result then (push_log (Some log) (store n)).2 else store n)
    as (Hp1 & Hpend & Hpeers & Hstore).
  { subst n1. destruct result; [|done]. unfold open_promise, store.
    by rewrite invoke_commit_callback_context. }
  clearbody n1. unfold promised, store in *. rewrite call_response_callback_context.
  rewrite <-Hpend, <-Hstore, <-Hpeers. split_and!.
  - by apply set_value_promised.
  - apply set_value_store.
  - apply set_value_pending.
  - destruct (set_value_context p (mkCommandCommitResponse (id_ log) (command_ log) result) n1)
      as [l ->]. done.
Qed.

Lemma cancel_commit_spec p id callback n : open_promise p n →
  let n' := cancel_commit p id callback n in
  promised p n' = Some (Some (mkCommandCommitResponse id None false)) ∧
  store n' = store n ∧ pending_commit_ (context_ n') = pending_commit_ (context_ n).
Proof.
  intros Hp. unfold cancel_commit. cbv zeta. unfold promised, store.
  rewrite call_response_callback_context. split_and!.
  - by apply set_value_promised.
  - apply set_value_store.
  - apply set_value_pending.
Qed.

(** Whether the end of the log is taken by a commit in progress. *)
Definition occupied n : bool :=
  match pending_commit_ (context_ n) with
  | Some p => id_ (log_ p) =? logs_size (store n)
  | None => false
  end.

(** C10: committing a command.  The call always makes one new promise.  A node
    that does not lead answers it at once with a failure.  A leader alone in its
    cluster pushes the command on its log and answers success.  Any other leader
    refuses while the end of the log is taken by another commit, and otherwise
    keeps the command as the commit in progress, with an open promise, and does
    not touch its log. *)
Theorem commit_command_spec command callback n :
  reachable n →
  let size := logs_size (store n) in
  let log := mkLogEntry size (get_term n) command in
  let '(p, n') := commit_command command callback n in
  p = N.of_nat (length (promises_ (context_ n))) ∧
  if is_leader n then
    if cluster_size_ (context_ n) <=? 1 then
      promised p n' = Some (Some (mkCommandCommitResponse size command true)) ∧
      store n' = (push_log (Some log) (store n)).2 ∧
      pending_commit_ (context_ n') = pending_commit_ (context_ n)
    else if occupied n then
      promised p n' = Some (Some (mkCommandCommitResponse size None false)) ∧
      store n' = store n ∧ pending_commit_ (context_ n') = pending_commit_ (context_ n)
    else
      promised p n' = Some None ∧ store n' = store n ∧
      pending_commit_ (context_ n') = Some (mkPendingCommit log p callback ∅)
  else
    promised p n' = Some (Some (mkCommandCommitResponse size None false)) ∧
    store n' = store n ∧ pending_commit_ (context_ n') = pending_commit_ (context_ n).
Proof.
  intros Hr size entry. destruct (new_promise_ok n (reachable_ok _ Hr)) as (_ & Hop & _).
  unfold commit_command. set (n1 := on_context _ n) in *.
  set (p := N.of_nat (length (promises_ (context_ n)))) in *.
  change (is_leader n1) with (is_leader n).
  destruct (is_leader n); simpl negb; cbv iota.
  2: { split; [done|]. by apply (cancel_commit_spec p size callback n1). }
  change (cluster_size_ (context_ n1)) with (cluster_size_ (context_ n)).
  case_test.
  { split; [done|]. destruct (complete_commit_spec p entry true callback n1 Hop)
      as (E1 & E2 & E3 & _). done. }
  unfold set_pending_commit, occupied. simpl log_. simpl id_.
  rewrite N.eqb_refl. simpl negb. cbv iota.
  change (pending_commit_ (context_ n1)) with (pending_commit_ (context_ n)).
  destruct (match pending_commit_ (context_ n) with Some _ => _ | None => _ end); simpl negb; cbv iota.
  - split; [done|]. by apply (cancel_commit_spec p size callback n1).
  - split; [done|]. done.
Qed.

(** ** Answers to a commit in progress *)

(** The peers whose last answer is [success]. *)
Definition agreeing (success : bool) (p : PendingCommit) n : list N :=
  filter (λ id, result_map_ p !! id = Some success) (map_ids (other_nodes_ (context_ n))).

Lemma count_results_length success ids results :
  count_results success ids results =
    wrap32 (1 + N.of_nat (length (filter (λ id, results !! id = Some success) ids))).
Proof.
  unfold count_results.
  assert (∀ k, foldl (λ count id, if bool_decide (results !! id = Some success)
      then wrap32 (count + 1) else count) (wrap32 k) ids =
    wrap32 (k + N.of_nat (length (filter (λ id, results !! id = Some success) ids)))) as Hk.
  { induction ids as [|x l IH]; intros k; simpl; [by rewrite N.add_0_r|].
    rewrite filter_cons. case_bool_decide; [rewrite decide_True by done|by rewrite decide_False].
    assert (wrap32 (wrap32 k + 1) = wrap32 (k + 1)) as -> by apply N.Div0.add_mod_idemp_l.
    rewrite IH. f_equal. simpl length. lia. }
  apply (Hk 1).
Qed.

(** C9: answers to a commit in progress.  An answer for the position and term of
    the commit is recorded for its sender; then, counting the node itself, the
    peers whose last answer is the same as this one decide: below the majority
    nothing else changes, from the majority on the commit is over, its entry is
    pushed on the log and its promise is answered with success. *)
Theorem pending_commit_response_spec id index term success n p :
  reachable n → pending_commit_ (context_ n) = Some p →
  id_ (log_ p) = index → term_ (log_ p) = term →
  N.of_nat (size (other_nodes_ (context_ n))) + 1 < u32_size →
  let n' := handle_pending_commit_response id index term success n in
  let q := with_result id success p in
  if 1 + N.of_nat (length (agreeing success q n)) <? majority_ (context_ n) then
    pending_commit_ (context_ n') = Some q ∧ promised (promise_ p) n' = Some None ∧
    store n' = store n
  else
    pending_commit_ (context_ n') = None ∧
    promised (promise_ p) n' =
      Some (Some (mkCommandCommitResponse index (command_ (log_ p)) true)) ∧
    store n' = (push_log (Some (log_ p)) (store n)).2.
Proof.
  intros Hr Hp Hid Ht Hsize. cbv zeta. unfold handle_pending_commit_response.
  rewrite Hp, Hid, Ht, !N.eqb_refl. cbn [negb orb].
  destruct (pending_leads _ p (reachable_ok _ Hr) Hp) as [_ Hop].
  rewrite count_results_length. unfold agreeing.
  cbn [on_context set_context context_ Node.set_pending_commit other_nodes_ majority_].
  set (m := other_nodes_ (context_ n)) in *.
  pose proof (length_filter (λ id0, result_map_ (with_result id success p) !! id0 = Some success)
    (map_ids m)) as Hlen.
  rewrite map_ids_length in Hlen. rewrite wrap32_small by lia.
  case_test; [by split_and!|].
  set (n1 := on_context _ (on_context _ n)).
  destruct (complete_commit_spec (promise_ p) (log_ p) true (callback_ p) n1) as (E1 & E2 & E3 & _);
    [done|].
  rewrite Hid in E1. split_and!; [exact E3|exact E1|exact E2].
Qed.

End commits.

(** ** Findings *)

(** Leader 1 of three with a first command in progress, its log and those of the
    other nodes being empty. *)
Definition demo_committing : Node (H := mem_platform) :=
  run_inputs [CommitCommand (Some demo_command) true] demo_leader.

(** The heartbeat that it sends next to node 2, and the answer of node 2. *)
Definition demo_heartbeat : AppendEntriesRequest := mkAppendEntriesRequest 1 1 0 1 [] 0.

Definition demo_follower2 : Node (H := mem_platform) :=
  run_inputs [RequestVote (mkRequestVoteRequest 1 1 0 0)] (demo_node [1; 2; 3] 2).

Definition demo_answer : AppendEntriesResponse :=
  (on_append_entries_requested demo_heartbeat demo_follower2).1.

(** The answer to a heartbeat commits.  Node 1 of three leads and has a first command
    in progress; it sends node 2 a heartbeat without entries, which node 2 answers, as
    it answers every heartbeat, with [success = false].  That one answer completes the
    commit: the promise is answered with success and the command is in the log of node
    1, while that of node 2 is empty and node 3 has got nothing.
    [CommitRound.refusals_commit] is the general case. *)
Lemma heartbeat_answer_commits :
  last (outputs_ (run_inputs [BroadcastTimer] demo_committing)) =
    Some (SendAppendEntries 2 demo_heartbeat) ∧
  ae_success demo_answer = false ∧ logs_ (store demo_follower2) = [] ∧
  let n := run_inputs [BroadcastTimer; AppendEntriesAnswer 2 demo_heartbeat demo_answer]
    demo_committing in
  promised 0 n = Some (Some (mkCommandCommitResponse 0 (Some demo_command) true)) ∧
  logs_ (store n) = [mkLogEntry 0 1 (Some demo_command)].
Proof. vm_compute. done. Qed.

(** Leader 1 of five, that has seen node 2. *)
Definition demo_leader5 : Node (H := mem_platform) :=
  run_inputs [ServiceDiscovery 2 true true; ElectionTimer;
    RequestVoteAnswer (mkRequestVoteResponse 1 true);
    RequestVoteAnswer (mkRequestVoteResponse 1 true)] (demo_node [1; 2; 3; 4; 5] 1).

(** Null commands.  A leader alone in its cluster that is given a null command
    answers its promise with success and runs the commit callback, although
    nothing was pushed on its log, the result of the push being ignored.  The
    leader of five nodes keeps it as the commit in progress; when a heartbeat has
    been answered with a failure, which moves the next position of node 2 back,
    the next broadcast dereferences the null command and the process ends. *)
Theorem null_command_mishandled :
  (let n0 := run_inputs [RegisterOnCommitted; ElectionTimer] (demo_node [1] 1) in
   let n := run_inputs [CommitCommand None false] n0 in
   promised 0 n = Some (Some (mkCommandCommitResponse 0 None true)) ∧
   outputs_ n = outputs_ n0 ++ [CommitCallback 0 None] ∧ logs_ (store n) = []) ∧
  raft_state demo_leader5 = kLeader ∧
  fault_ (run_inputs [CommitCommand None false; BroadcastTimer;
    AppendEntriesAnswer 2 demo_heartbeat (mkAppendEntriesResponse 1 false);
    BroadcastTimer] demo_leader5) = Some NullCommandDereference.
Proof. vm_compute. done. Qed.

(** A commit in progress may be dropped without an answer.  While leader 1 has
    a first command in progress, a stale request of node 2 fills the first
    position of its log; the next broadcast finds the commit out of place and
    drops it, and its promise is left open. *)
Theorem dropped_commit_never_answered :
  let n := run_inputs [AppendEntries (mkAppendEntriesRequest 0 2 0 0 [x62] 0); BroadcastTimer]
    demo_committing in
  raft_state n = kLeader ∧ pending_commit_ (context_ demo_committing) ≠ None ∧
  pending_commit_ (context_ n) = None ∧ promised 0 n = Some None.
Proof. vm_compute. done. Qed.

(** ** Witnesses *)

Lemma commit_command_spec_witness :
  let n := demo_leader in
  let '(p, n') := commit_command (Some demo_command) true n in
  p = 0 ∧ promised p n' = Some None ∧ store n' = store n ∧
  pending_commit_ (context_ n') =
    Some (mkPendingCommit (mkLogEntry 0 1 (Some demo_command)) p true ∅).
Proof.
  pose proof (commit_command_spec (Some demo_command) true demo_leader) as Ht.
  cbv zeta in *. destruct (commit_command _ _ _) as [p n'].
  apply Ht. apply demo_reachable.
Defined.

Lemma pending_commit_response_spec_witness :
  let p := mkPendingCommit (mkLogEntry 0 1 (Some demo_command)) 0 true ∅ in
  let n' := handle_pending_commit_response 2 0 1 true demo_committing in
  pending_commit_ (context_ n') = None ∧
  promised 0 n' = Some (Some (mkCommandCommitResponse 0 (Some demo_command) true)) ∧
  store n' = (push_log (Some (log_ p)) (store demo_committing)).2.
Proof.
  pose proof (pending_commit_response_spec 2 0 1 true demo_committing
    (mkPendingCommit (mkLogEntry 0 1 (Some demo_command)) 0 true ∅)) as Ht.
  cbv zeta in *.
  assert ((1 + N.of_nat (length (agreeing true (with_result 2 true
    (mkPendingCommit (mkLogEntry 0 1 (Some demo_command)) 0 true ∅)) demo_committing)) <?
    majority_ (context_ demo_committing)) = false) as E by (vm_compute; reflexivity).
  rewrite E in Ht. apply Ht.
  - apply (reachable_run [_]), demo_reachable.
  - vm_compute. reflexivity.
  - reflexivity.
  - reflexivity.
  - vm_compute. reflexivity.
Defined.
