(* ===== verification/NodeTheorems.v ===== *)
(** * Theorems about a node as a whole

    The state machines, the timers, the promises, the peers, and the life of a
    node from its creation to its restart. *)

From S2P Require Import Prelude Codec Platform LogEntry ClusterNodeOptions.
From S2P Require Import ContextStore ContextStoreFacts NodeUtil RaftTypes OtherNode StateMachine.
From S2P Require Import Lifecycle Node StateMachineInterface RaftContext RaftContextFacts.
From S2P Require Import Election VoteFacts RaftStateMachine RaftStateMachineFacts.
From S2P Require Import ClusterNodeImpl ClusterNode ElectionRefinement NodeInvariant Demo.

Local Open Scope N_scope.

(** ** State machines *)

Section machines.
  Context `{PlatformSpec}.
  Implicit Types (n : Node).

(** C13: the node is active exactly when it leads.  In every reachable state the
    lifecycle state is the image of the RAFT state, so a publisher that the node
    creates lets messages through, and a service that it creates answers
    requests, exactly while the node is the leader; objects that no node has
    adopted always do. *)
Theorem active_iff_leader n :
  reachable n →
  current_state_ (lifecycle_fsm_ n) = lifecycle_of (raft_state n) ∧
  ClusterNode_is_activated n = is_leader n ∧
  (∀ (MessageT : Type) topic (m : MessageT),
    ClusterNodePublisher_publish (create_publisher topic) m n =
      (if is_leader n then Some m else None) ∧
    ClusterNodePublisher_publish (new_ClusterNodePublisher topic) m n = Some m) ∧
  (∀ (Request Response : Type) name (callback : Request → Response) request,
    ClusterNodeService_handle_request (create_service name callback) request n =
      (if is_leader n then Some (callback request) else None) ∧
    ClusterNodeService_handle_request (new_ClusterNodeService name callback) request n =
      Some (callback request)).
Proof.
  intros Hr. split; [apply (ok_lifecycle _ (node_machines _ (reachable_ok _ Hr)))|].
  split; [by apply activated_leader|].
  split; intros; (split; [|done]).
  - by apply gate_leader.
  - change (callback <$> gate (Some n) request =
      if is_leader n then Some (callback request) else None).
    rewrite gate_leader by done. by destruct (is_leader n).
Qed.

(** The transitions of the RAFT machine, as in its diagram; [alone] says that one
    vote is a majority. *)
Inductive raft_transition (alone : bool) :
    RaftTypes.StateType → RaftTypes.Event → RaftTypes.StateType → Prop :=
  | tr_started : raft_transition alone RaftTypes.kStandby kStarted kFollower
  | tr_terminated st : st ≠ RaftTypes.kStandby →
      raft_transition alone st kTerminated RaftTypes.kStandby
  | tr_timedout st : st = kFollower ∨ st = kCandidate → alone = false →
      raft_transition alone st kTimedout kCandidate
  | tr_alone st : st = kFollower ∨ st = kCandidate → alone = true →
      raft_transition alone st kTimedout kLeader
  | tr_elected : raft_transition alone kCandidate kElected kLeader
  | tr_leader_discovered st : st = kCandidate ∨ st = kLeader →
      raft_transition alone st kLeaderDiscovered kFollower
  | tr_new_term st : st = kCandidate ∨ st = kLeader →
      raft_transition alone st kNewTermReceived kFollower.

(** C11: the RAFT machine implements its diagram.  Handling an event in a
    reachable state whose term is not the last 64-bit one either follows a transition
    of the diagram, or the diagram has no transition for it and the state stays the
    same. *)
Theorem handle_event_transition ev n :
  reachable n → get_term n + 1 < u64_size →
  let alone := majority_ (context_ n) <=? 1 in
  let st := raft_state n in
  let st' := raft_state (handle_event ev n) in
  raft_transition alone st ev st' ∨
  (st' = st ∧ ∀ st'', ¬ raft_transition alone st ev st'').
Proof.
  intros Hr%reachable_ok Hlt. pose proof (ok_states _ (node_machines _ Hr)) as Hs.
  pose proof (ok_state _ (node_machines _ Hr)) as Hst. cbv zeta.
  destruct (decide (ev = kTimedout)) as [->|Ht];
    [|destruct (decide (ev = kBroadcastTimedout)) as [->|Hb]].
  - pose proof (election_timedout_view n Hs Hlt) as Hv. cbv zeta in Hv.
    change (StateMachineInterface.on_election_timedout n) with (handle_event kTimedout n) in Hv.
    destruct (raft_state n) eqn:E; try by apply kStay_not_state in Hst.
    + right. rewrite Hv, E. split; [done|]. intros st'' Htr. inversion Htr; naive_solver.
    + left. rewrite (candidacy_transition _ _ Hv). case_test; constructor; auto.
    + left. rewrite (candidacy_transition _ _ Hv). case_test; constructor; auto.
    + right. rewrite Hv, E. split; [done|]. intros st'' Htr. inversion Htr; naive_solver.
  - right. split; [|by intros st'' Htr; inversion Htr].
    change (handle_event kBroadcastTimedout n) with
      (StateMachineInterface.on_broadcast_timedout n).
    rewrite broadcast_timedout_eq by done. destruct (raft_state n) eqn:E; try done.
    by rewrite (raft_state_calm _ _ (broadcast_calm n)).
  - unfold handle_event, max_depth. rewrite raft_handle_simple_state by done.
    destruct (raft_state n) eqn:E; try by apply kStay_not_state in Hst.
    all: destruct ev; try done; simpl; try (left; constructor; solve [auto]).
    all: right; split; [done|]; intros st'' Htr; inversion Htr; naive_solver.
Qed.

(** C27: the depth of the recursion.  The machine and the context call each other;
    following the calls to depth 2 is enough: any larger depth computes the same
    function, and the bound is never met. In particular handling an event always
    terminates. *)
Theorem handle_event_depth d ev n :
  raft_handle (2 + d) ev n = handle_event ev n ∧
  (reachable n → fault_ (handle_event ev n) ≠ Some CallTooDeep).
Proof.
  split; [apply raft_handle_depth|]. intros Hr%reachable_ok.
  eapply ok_depth, node_commit, handle_event_ok, Hr.
Qed.

(** C28: timers.  In every reachable state the election timer runs in all states
    but standby, with a period within the configured interval, and the broadcast
    timer exactly in a leader, at least ten times as often. *)
Theorem timers_match_state n :
  reachable n →
  (election_timer_ (context_ n) = None ↔ raft_state n = RaftTypes.kStandby) ∧
  (∀ period, election_timer_ (context_ n) = Some period →
    election_timeout_min_ (context_ n) ≤ period ≤ election_timeout_max_ (context_ n)) ∧
  (is_Some (broadcast_timer_ (context_ n)) ↔ raft_state n = kLeader) ∧
  (∀ period interval, election_timer_ (context_ n) = Some period →
    broadcast_timer_ (context_ n) = Some interval → 10 * interval ≤ period).
Proof.
  intros Hr%reachable_ok. destruct (node_timers _ Hr) as [[Hi Hp] He Hb].
  split_and!.
  - destruct (election_timer_ (context_ n)); [|done]. split; [done|]. by destruct He.
  - intros period Hper. rewrite Hper in He. by destruct He.
  - rewrite Hb. case_decide; [by split|]. split; [by intros [? ?]|done].
  - intros period interval Hper Hint. rewrite Hper in He. rewrite Hint in Hb.
    case_decide; [|done]. injection Hb as ->. rewrite Hp. destruct He as [_ [He _]].
    pose proof (N.Div0.mul_div_le (election_timeout_min_ (context_ n)) 10). lia.
Qed.

(** Promises are answered at most once.  No input of a node in a reachable
    state answers a promise that has been answered before (which would throw
    [std::future_error]); a commit in progress belongs to a leader, and its
    promise is still open. *)
Theorem promises_answered_once n inputs :
  reachable n →
  let n' := run_inputs inputs n in
  fault_ n' ≠ Some PromiseAlreadySatisfied ∧
  (∀ p, pending_commit_ (context_ n') = Some p →
    raft_state n' = kLeader ∧ promises_ (context_ n') !! N.to_nat (promise_ p) = Some None).
Proof.
  intros Hr%reachable_ok. cbv zeta. apply (run_inputs_ok inputs) in Hr.
  split; [apply (node_commit _ Hr)|]. intros p Hp. by apply pending_leads.
Qed.

(** Commands by identifier.  In every reachable state the command of an
    identifier is not null exactly for the identifiers below the number of
    commands, and log entries carry the identifier of their position. *)
Lemma get_command_defined id n :
  reachable n →
  (is_Some (ClusterNode_get_command id n) ↔ id < ClusterNode_get_commands_size n) ∧
  (∀ e, log id (store n) = Some e → id_ e = id).
Proof.
  intros Hr%reachable_log.
  unfold ClusterNode_get_command, ClusterNodeImpl_get_command, get_command.
  unfold ClusterNode_get_commands_size, ClusterNodeImpl_get_commands_size, get_commands_size, log.
  case_test; [split; [|done]; split; [by intros [? ?]|lia]|].
  destruct (logs_ (store n) !! N.to_nat id) as [e|] eqn:E.
  - destruct (Hr _ _ E) as [Hid Hc]. split; [done|]. intros e' [= <-]. lia.
  - apply lookup_ge_None in E. unfold logs_size in *. lia.
Qed.

End machines.

(** ** The life of a node *)

Section life.
  Context `{PlatformSpec} (cluster_name : string) (id : N) (ids : list N).
  Context (options : ClusterNodeOptions) (open_db : string → option DB) (g : RNG).
  Implicit Types (n : Node).

(** C30: a new node of a cluster of at least one and fewer than [2 ^ 32] identifiers,
    with a non-empty interval of election timeouts.  It follows, is not active, has
    the content of its database and no commit; its majority is more than half of the cluster and at most the
    whole of it; and its peers are exactly the other identifiers of the cluster,
    each with the end of the log as its next position. *)
Theorem new_node_spec :
  election_timeout_min options ≤ election_timeout_max options →
  ids ≠ [] → N.of_nat (length ids) < u32_size →
  let n := new_ClusterNode cluster_name id ids options open_db g in
  let size := N.of_nat (length ids) in
  raft_state n = kFollower ∧ is_activated n = false ∧
  store n = new_ContextStore (open_db (db_file cluster_name id options)) ∧
  pending_commit_ (context_ n) = None ∧
  majority_ (context_ n) = size / 2 + 1 ∧ size < 2 * majority_ (context_ n) ∧
  majority_ (context_ n) ≤ size ∧
  (∀ j, other_nodes_ (context_ n) !! j =
    if decide (j ∈ ids ∧ j ≠ id)
    then Some (new_OtherNode cluster_name j (logs_size (store n))) else None).
Proof.
  intros Hle Hne Hsize n size.
  destruct (new_ClusterNode_facts cluster_name id ids options open_db g)
    as (Hstore & _ & Hmaj & _ & Hst). fold n in Hstore, Hmaj, Hst.
  assert (node_ok n) as Hok by by apply new_ClusterNode_ok.
  assert (majority_ (context_ n) = size / 2 + 1) as Hm.
  { rewrite Hmaj, (wrap32_small (N.of_nat _)), N.shiftr_div_pow2 by done.
    change (2 ^ 1) with 2. apply wrap32_small. unfold u32_size in *.
    pose proof (N.Div0.div_le_upper_bound size 2 2147483648). subst size. lia. }
  assert (size ≠ 0) as Hnz by (subst size; destruct ids; simpl; [done|lia]).
  assert (size < 2 * (size / 2 + 1) ∧ size / 2 + 1 ≤ size) as [Hlo Hhi].
  { clearbody size. pose proof (N.Div0.div_mod size 2) as Hd.
    pose proof (N.mod_lt size 2 ltac:(done)) as Hm2.
    set (q := size / 2) in *. set (r := size mod 2) in *. clearbody q r. lia. }
  split_and!; try done.
  - unfold is_activated, get_current_state_type. simpl.
    rewrite (ok_lifecycle _ (node_machines _ Hok)), Hst. done.
  - destruct (pending_commit_ (context_ n)) as [p|] eqn:Hp; [|done].
    destruct (pending_leads _ p Hok Hp) as [Hl _]. congruence.
  - by rewrite Hm.
  - by rewrite Hm.
  - intros j. rewrite Hstore.
    assert (other_nodes_ (context_ n) = other_nodes_ (context_ (constructed cluster_name id ids
      options open_db g))) as ->.
    { change n with (raft_handle (S 1) kStarted (constructed cluster_name id ids options open_db g)).
      by apply state_change_other_nodes, raft_handle_simple_change. }
    apply constructed_peers.
Qed.

(** Restarting a node.  If the memory of a node is what its database holds
    ([store_recovery]: after any sequence of successful writes), a new node on
    that database has its term, its vote and its whole log. *)
Theorem restart_recovers n d :
  persisted (store n) d → db_readable d →
  (open_db (db_file cluster_name id options)) = Some d →
  let n' := new_ClusterNode cluster_name id ids options open_db g in
  get_term n' = get_term n ∧ voted (store n') = voted (store n) ∧
  voted_for (store n') = voted_for (store n) ∧ logs_ (store n') = logs_ (store n) ∧
  raft_state n' = kFollower.
Proof.
  intros Hp Hr Hopen. cbv zeta.
  destruct (new_ClusterNode_facts cluster_name id ids options open_db g)
    as (Hstore & _ & _ & _ & Hst).
  rewrite Hopen, (new_ContextStore_persisted _ _ Hp Hr) in Hstore.
  unfold get_term. by rewrite Hstore.
Qed.

End life.

(** ** Witnesses *)

Lemma active_iff_leader_witness :
  ClusterNode_is_activated demo_leader = is_leader demo_leader ∧
  ClusterNodePublisher_publish (create_publisher "topic") 7 demo_leader =
    (if is_leader demo_leader then Some 7 else None).
Proof.
  destruct (active_iff_leader demo_leader) as (_ & Ha & Hp & _); [apply demo_reachable|].
  split; [exact Ha|]. exact (proj1 (Hp _ "topic"%string 7)).
Defined.

Lemma handle_event_transition_witness :
  let alone := majority_ (context_ demo_leader) <=? 1 in
  let st' := raft_state (handle_event kNewTermReceived demo_leader) in
  raft_transition alone (raft_state demo_leader) kNewTermReceived st' ∨
  (st' = raft_state demo_leader ∧
   ∀ st'', ¬ raft_transition alone (raft_state demo_leader) kNewTermReceived st'').
Proof.
  apply (handle_event_transition kNewTermReceived demo_leader).
  - apply demo_reachable.
  - vm_compute. reflexivity.
Defined.

Lemma handle_event_depth_witness :
  fault_ (handle_event kTimedout demo_leader) ≠ Some CallTooDeep.
Proof. apply (handle_event_depth 0 kTimedout demo_leader). apply demo_reachable. Defined.

Lemma timers_match_state_witness :
  is_Some (broadcast_timer_ (context_ demo_leader)) ↔ raft_state demo_leader = kLeader.
Proof.
  destruct (timers_match_state demo_leader) as (_ & _ & Hb & _); [apply demo_reachable|exact Hb].
Defined.

Lemma promises_answered_once_witness :
  let n := run_inputs [CommitCommand (Some demo_command) true; BroadcastTimer] demo_leader in
  fault_ n ≠ Some PromiseAlreadySatisfied ∧
  (∀ p, pending_commit_ (context_ n) = Some p →
    raft_state n = kLeader ∧ promises_ (context_ n) !! N.to_nat (promise_ p) = Some None).
Proof.
  apply (promises_answered_once demo_leader
    [CommitCommand (Some demo_command) true; BroadcastTimer]).
  apply demo_reachable.
Defined.

Lemma new_node_spec_witness :
  majority_ (context_ (demo_node [1; 2; 3] 1)) = 2 ∧
  is_activated (demo_node [1; 2; 3] 1) = false.
Proof.
  destruct (new_node_spec "demo" 1 [1; 2; 3] demo_options (λ _, Some empty_db) 3)
    as (_ & Ha & _ & _ & Hm & _).
  - vm_compute. discriminate.
  - discriminate.
  - vm_compute. reflexivity.
  - split; [exact Hm|exact Ha].
Defined.

(** The database of [demo_single], and a node restarted on it. *)
Definition demo_single_db : @DB mem_platform := default empty_db (db_ (store demo_single)).

Lemma demo_single_persisted : persisted (store demo_single) demo_single_db.
Proof.
  split; [vm_compute; reflexivity..|left; vm_compute; reflexivity|left; vm_compute; reflexivity
    |left; vm_compute; reflexivity|].
  split; [vm_compute; reflexivity|split; [left; vm_compute; reflexivity|]].
  intros i e He. assert (i = 0%nat) as ->.
  { destruct i; [done|]. apply lookup_lt_Some in He. vm_compute in He. lia. }
  vm_compute in He. injection He as <-. exists demo_command.
  repeat split; vm_compute; reflexivity.
Qed.

Lemma restart_recovers_witness :
  let n' := new_ClusterNode "demo" 1 [1] demo_options (λ _, Some demo_single_db) 5 in
  get_term n' = get_term demo_single ∧ logs_ (store n') = logs_ (store demo_single).
Proof.
  destruct (restart_recovers "demo" 1 [1] demo_options (λ _, Some demo_single_db) 5
    demo_single demo_single_db) as (Ht & _ & _ & Hl & _).
  - apply demo_single_persisted.
  - apply mem_platform_readable.
  - reflexivity.
  - split; [exact Ht|exact Hl].
Defined.
