(* ===== verification/PeerFacts.v ===== *)
(** * Facts about the leader's peers

    The request that a broadcast makes for a peer, as a function of the log, and
    what an answer leaves alone. *)

From S2P Require Import Prelude Codec Platform LogEntry ContextStore ContextStoreFacts.
From S2P Require Import NodeUtil RaftTypes OtherNode StateMachine Lifecycle Node.
From S2P Require Import StateMachineInterface RaftContext RaftContextFacts Election VoteFacts.
From S2P Require Import RaftStateMachine RaftStateMachineFacts ClusterNodeImpl.
From S2P Require Import ElectionRefinement NodeInvariant AppendEntries.

Local Open Scope N_scope.

Section peers.
  Context `{PlatformSpec}.
  Implicit Types (n : Node) (o : OtherNode).

(** ** Requests *)

(** The request for a peer whose next position is [next], made from the log. *)
Definition request_for (term me next : N) (l : list LogEntry) : AppendEntriesRequest :=
  let entry := l !! N.to_nat next in
  let prev := if 0 <? next then l !! N.to_nat (next - 1) else None in
  {| ae_term := match entry with Some e => term_ e | None => term end;
     ae_leader_id := me;
     ae_prev_log_index := match prev with Some p => id_ p | None => 0 end;
     ae_prev_log_term := match prev with Some p => term_ p | None => 0 end;
     ae_entries := match entry with
       | Some e => match command_ e with Some c => data c | None => [] end
       | None => [] end;
     ae_leader_commit := match entry with Some e => next | None => 0 end |}.

(** No commit in progress is out of place. *)
Definition settled n : Prop :=
  ∀ p, pending_commit_ (context_ n) = Some p → id_ (log_ p) = logs_size (store n).

(** The log with the entry of the commit in progress. *)
Definition extended_log n : list LogEntry :=
  logs_ (store n) ++ option_list (log_ <$> pending_commit_ (context_ n)).

Lemma on_log_get_request_settled i n : settled n →
  on_log_get_request i n = (extended_log n !! N.to_nat i, n).
Proof.
  intros Hset. unfold on_log_get_request, get_pending_commit, extended_log.
  destruct (pending_commit_ (context_ n)) as [p|] eqn:Hp; simpl.
  2: { by rewrite app_nil_r, log_eq. }
  rewrite (Hset p Hp), N.eqb_refl. simpl. rewrite (Hset p Hp), log_eq. unfold logs_size.
  case_test.
  - subst. by rewrite Nat2N.id, list_lookup_middle.
  - destruct (logs_ (store n) !! N.to_nat i) as [e|] eqn:He.
    + by rewrite (lookup_app_l_Some _ _ _ _ He).
    + apply lookup_ge_None in He. by rewrite lookup_ge_None_2 by (rewrite length_app; simpl; lia).
Qed.

Lemma extended_log_no_commit n : pending_commit_ (context_ n) = None →
  settled n ∧ extended_log n = logs_ (store n).
Proof.
  intros Hp. unfold settled, extended_log. rewrite Hp. split; [done|by rewrite app_nil_r].
Qed.

(** The entry that a broadcast announces is the last one. *)
Lemma announced_log n :
  match pending_commit_ (context_ n) with
  | Some p => Some (log_ p)
  | None => last_log (store n)
  end = last (extended_log n).
Proof.
  unfold extended_log, last_log.
  destruct (pending_commit_ (context_ n)); simpl; [by rewrite last_snoc|by rewrite app_nil_r].
Qed.

(** A broadcast reads the log and the commit in progress only. *)
Lemma broadcast_settled term me o n : settled n → log_wf (extended_log n) →
  OtherNode.broadcast (Some on_log_get_request) term me (last (extended_log n)) o n =
    (if append_entries_ready o
     then Sent (request_for term me (next_index_ o) (extended_log n)) else NotReady, n).
Proof.
  intros Hset Hr. unfold OtherNode.broadcast.
  destruct (append_entries_ready o); [|done]. simpl negb. cbv iota zeta.
  assert (∀ i, on_log_get_request i n = (extended_log n !! N.to_nat i, n)) as Hget
    by (intros; by apply on_log_get_request_settled).
  set (next := next_index_ o). set (l := extended_log n) in *.
  assert (add_next_entry on_log_get_request (last l) next
      (mkAppendEntriesRequest term me 0 0 [] 0) n =
    (Some match l !! N.to_nat next with
      | Some e => mkAppendEntriesRequest (term_ e) me 0 0
          (match command_ e with Some c => data c | None => [] end) next
      | None => mkAppendEntriesRequest term me 0 0 [] 0
      end, n)) as ->.
  { unfold add_next_entry. destruct (last l) as [e|] eqn:Hl.
    2: { apply last_None in Hl. by rewrite Hl. }
    destruct (last_wf _ _ Hr Hl) as [Hid _].
    destruct (N.leb_spec next (id_ e)).
    - rewrite Hget. destruct (lookup_lt_is_Some_2 l (N.to_nat next)) as [e' He']; [lia|].
      rewrite He'. destruct (Hr _ _ He') as [Hid' [c Hc]]. rewrite Hc. unfold with_entry. simpl.
      by rewrite Hid', N2Nat.id.
    - rewrite (lookup_ge_None_2 l (N.to_nat next)) by lia. done. }
  unfold add_prev_entry, request_for. rewrite Hget.
  destruct (0 <? next); [|by destruct (l !! N.to_nat next)].
  destruct (l !! N.to_nat (next - 1)), (l !! N.to_nat next); done.
Qed.

(** ** Messages among the outputs *)

(** A loop that only makes the node send. *)
Lemma foldl_outputs {A} (f : Node → A → Node) (message : A → option Output) n l :
  (∀ outs x, f (set_outputs outs n) x =
    match message x with
    | Some o => set_outputs (outs ++ [o]) n
    | None => set_outputs outs n
    end) →
  foldl f n l = set_outputs (outputs_ n ++ omap message l) n.
Proof.
  intros Hf. assert (∀ outs, foldl f (set_outputs outs n) l =
    set_outputs (outs ++ omap message l) n) as Hfold.
  { induction l as [|x l IH]; intros outs; simpl; [by rewrite app_nil_r|]. rewrite Hf.
    destruct (message x) as [o|]; [|apply IH]. by rewrite IH, <-app_assoc. }
  specialize (Hfold (outputs_ n)). by destruct n.
Qed.

(** One of the messages sent is the one picked. *)
Lemma last_message {R} (pick : Output → option R) (message : N → option Output) ids j r :
  j ∈ ids → message j ≫= pick = Some r →
  (∀ id y, message id ≫= pick = Some y → id = j) →
  last (omap pick (omap message ids)) = Some r.
Proof.
  intros Hj Hr Hall. assert (∀ x, x ∈ omap pick (omap message ids) → x = r) as Hx.
  { intros x (o & Ho & Hpick)%list_elem_of_omap.
    apply list_elem_of_omap in Ho as (id & _ & Hm).
    assert (message id ≫= pick = Some x) as Hid by by rewrite Hm.
    rewrite (Hall id x Hid), Hr in Hid. by injection Hid. }
  destruct (last _) as [x|] eqn:Hl.
  - f_equal. apply Hx. apply last_Some in Hl as [l ->]. set_solver.
  - apply last_None in Hl. destruct (message j) as [o|] eqn:Hm; [|done].
    assert (r ∈ omap pick (omap message ids)) as Hin by
      (apply list_elem_of_omap; exists o; split; [apply list_elem_of_omap; eauto|exact Hr]).
    rewrite Hl in Hin. set_solver.
Qed.

(** ** Answers *)

Lemma complete_commit_context p log result callback n :
  ∃ l s, context_ (complete_commit p log result callback n) =
    set_promises l (set_store s (context_ n)).
Proof.
  unfold complete_commit. rewrite call_response_callback_context.
  match goal with |- context [set_value ?p ?r ?n] =>
    destruct (set_value_context p r n) as [l ->] end.
  exists l. destruct result.
  - rewrite invoke_commit_callback_context. by eexists.
  - exists (store n). by destruct n as [[]].
Qed.

Lemma handle_pending_commit_response_peers id index term success n :
  other_nodes_ (context_ (handle_pending_commit_response id index term success n)) =
    other_nodes_ (context_ n).
Proof.
  unfold handle_pending_commit_response. destruct (pending_commit_ _) as [p|]; [|done].
  destruct (_ || _); [done|]. case_test; [done|].
  match goal with |- context [complete_commit ?p ?l ?r ?c ?n] =>
    destruct (complete_commit_context p l r c n) as (k & s & ->) end.
  done.
Qed.

Lemma update_term_peers term n :
  other_nodes_ (context_ (update_term term false n).2) = other_nodes_ (context_ n).
Proof.
  destruct (decide (term ≤ current_term_ (store n))).
  { by rewrite update_term_old. }
  destruct (update_term_new term false n) as [d ->]; [lia|]. cbn [snd].
  by rewrite (state_change_other_nodes _ _ (on_new_term_received_change _)).
Qed.

End peers.
