(* ===== verification/PeerTheorems.v ===== *)
(** * Theorems about the leader's peers

    What a broadcast sends to a peer, what the peer's answer changes, and the
    names under which nodes find each other. *)

From S2P Require Import Prelude Codec Platform LogEntry ContextStore ContextStoreFacts.
From S2P Require Import NodeUtil RaftTypes OtherNode StateMachine Lifecycle Node.
From S2P Require Import StateMachineInterface RaftContext RaftContextFacts Election VoteFacts.
From S2P Require Import RaftStateMachine RaftStateMachineFacts ClusterNodeImpl.
From S2P Require Import ElectionRefinement NodeInvariant AppendEntries PeerFacts Demo.

Local Open Scope N_scope.

Section peers.
  Context `{PlatformSpec}.
  Implicit Types (n : Node) (o : OtherNode).

(** ** Answers *)

(** C29: the answer of a peer.  Success makes the position of the request the
    peer's match and the position after it its next; a failure moves its next
    position one back, never below 0, and keeps its match.  The other peers are
    not touched; and an answer from a newer term makes the node adopt that term
    and leave the leadership. *)
Theorem append_entries_answer id o r resp n :
  reachable n → other_nodes_ (context_ n) !! id = Some o →
  let n' := RaftContext.on_append_entries_response id r resp n in
  (∃ o', other_nodes_ (context_ n') !! id = Some o' ∧
    if ae_success resp
    then match_index_ o' = ae_leader_commit r ∧
      next_index_ o' = wrap64 (ae_leader_commit r + 1)
    else match_index_ o' = match_index_ o ∧ next_index_ o' = N.pred (next_index_ o)) ∧
  (∀ j, j ≠ id → other_nodes_ (context_ n') !! j = other_nodes_ (context_ n) !! j) ∧
  (get_term n < ae_response_term resp →
    get_term n' = ae_response_term resp ∧ raft_state n' = stepped_down (raft_state n)).
Proof.
  intros Hr Ho. cbv zeta. unfold RaftContext.on_append_entries_response, on_broadcast_response.
  set (n1 := on_context (λ c, set_other_nodes _ c) n).
  set (n2 := if _ <=? _ then _ else n1).
  assert (other_nodes_ (context_ n2) = alter (OtherNode.on_append_entries_response r resp) id
    (other_nodes_ (context_ n))) as Hn2.
  { subst n2. case_test; [|done]. by rewrite update_term_peers. }
  rewrite handle_pending_commit_response_peers, Hn2. split_and!.
  - eexists. split; [by rewrite lookup_alter_eq, Ho|].
    unfold OtherNode.on_append_entries_response.
    destruct (ae_success resp); [done|]. case_test; simpl; [split; [done|lia]|].
    split; [done|]. lia.
  - intros j Hj. by rewrite lookup_alter_ne.
  - intros Hlt. unfold get_term, current_term in *.
    pose proof (handle_pending_commit_response_calm id (ae_leader_commit r)
      (ae_response_term resp) (ae_success resp) n2) as Hc.
    rewrite (calm_term _ _ Hc), (raft_state_calm _ _ Hc). subst n2.
    change (store n1) with (store n). case_test; [|lia].
    destruct (update_term_new (ae_response_term resp) false n1) as [d ->]; [done|]. cbn [snd].
    rewrite (state_change_store _ _ (on_new_term_received_change _)).
    rewrite on_new_term_received_state by apply (reachable_states _ Hr). done.
Qed.

End peers.

(** ** Names *)

Lemma service_names_differ s t :
  s +:+ kAppendEntriesServiceName ≠ t +:+ kRequestVoteServiceName.
Proof.
  intros Heq%(f_equal String.list_ascii_of_string).
  rewrite !list_ascii_of_string_app in Heq. apply (f_equal last) in Heq.
  by rewrite !last_app in Heq.
Qed.

(** Service names are unique in a cluster.  Two services of the nodes of a
    cluster have the same name only if they are the same service of the same
    node; so a request reaches the peer it is meant for. *)
Lemma service_names_unique cluster_name i j :
  (∀ service, get_service_name cluster_name i service = get_service_name cluster_name j service →
    i = j) ∧
  get_service_name cluster_name i kAppendEntriesServiceName ≠
    get_service_name cluster_name j kRequestVoteServiceName.
Proof.
  split; [|apply service_names_differ].
  intros service Heq. apply string_app_suffix_inj in Heq as [Heq _]; [|done].
  by apply get_node_name_inj in Heq.
Qed.

(** ** Findings *)

(** Node 1 of three leads in term 2, with one entry of term 1 in its log. *)
Definition demo_leader2 : Node (H := mem_platform) :=
  run_inputs [AppendEntries demo_request; ServiceDiscovery 3 true true; ElectionTimer;
    ElectionTimer; RequestVoteAnswer (mkRequestVoteResponse 2 true)] (demo_node [1; 2; 3] 1).

(** What it sends to node 3 after a failure of node 3 has moved its next position
    back to that entry. *)
Definition demo_old_entry : AppendEntriesRequest := mkAppendEntriesRequest 1 1 0 0 [x61] 0.

(** Node 3, that has voted for node 1 in term 2. *)
Definition demo_follower3 : Node (H := mem_platform) :=
  run_inputs [RequestVote (mkRequestVoteRequest 2 1 0 1)] (demo_node [1; 2; 3] 3).

(** An old entry is sent under its old term.  The leader of term 2 that brings
    an entry of term 1 to node 3 sends it in a request of term 1.  Node 3, in
    term 2, takes the entry but does not take the request for a sign of its
    leader: at the next timeout of its election timer it starts an election,
    which a heartbeat of the leader would have prevented. *)
Theorem old_entry_disrupts_leader :
  get_term demo_leader2 = 2 ∧ raft_state demo_leader2 = kLeader ∧
  last (outputs_ (run_inputs [BroadcastTimer; AppendEntriesAnswer 3
    (mkAppendEntriesRequest 2 1 0 1 [] 0) (mkAppendEntriesResponse 2 false); BroadcastTimer]
    demo_leader2)) = Some (SendAppendEntries 3 demo_old_entry) ∧
  ae_success (on_append_entries_requested demo_old_entry demo_follower3).1 = true ∧
  get_term (run_inputs [AppendEntries demo_old_entry; ElectionTimer] demo_follower3) = 3 ∧
  get_term (run_inputs [AppendEntries (mkAppendEntriesRequest 2 1 0 0 [] 0); ElectionTimer]
    demo_follower3) = 2.
Proof. vm_compute. done. Qed.

(** ** Witnesses *)

(** The peer 2 of the leader of three, whose services are ready. *)
Definition demo_peer : OtherNode :=
  default (new_OtherNode "demo" 2 0) (other_nodes_ (context_ demo_leader) !! 2).

Lemma append_entries_answer_witness :
  let r := mkAppendEntriesRequest 1 1 0 0 [x61] 0 in
  let n' := RaftContext.on_append_entries_response 2 r (mkAppendEntriesResponse 1 true)
    demo_leader in
  ∃ o', other_nodes_ (context_ n') !! 2 = Some o' ∧ match_index_ o' = 0 ∧
    next_index_ o' = wrap64 1.
Proof.
  apply (append_entries_answer 2 demo_peer (mkAppendEntriesRequest 1 1 0 0 [x61] 0)
    (mkAppendEntriesResponse 1 true) demo_leader).
  - apply demo_reachable.
  - vm_compute. reflexivity.
Defined.
