(* ===== verification/ReplicationRefinement.v ===== *)
(** * The nodes follow the replication protocol

    What each input of a node does to its log, and what the node sends, in terms
    of the changes of Replication.v. *)

From S2P Require Import Prelude Codec Platform LogEntry ContextStore ContextStoreFacts.
From S2P Require Import StoreTheorems NodeUtil RaftTypes OtherNode StateMachine Lifecycle Node.
From S2P Require Import StateMachineInterface RaftContext RaftContextFacts.
From S2P Require Import RaftStateMachine RaftStateMachineFacts ClusterNodeOptions.
From S2P Require Import ClusterNodeImpl Election VoteFacts ElectionRefinement NodeInvariant.
From S2P Require Import AppendEntries CommitTheorems PeerFacts Replication Kept.

Local Open Scope N_scope.

(** ** Views *)

Section views.
  Context `{PlatformSpec}.
  Implicit Types (n : Node).

(** The entry of the commit in progress, if it can still be pushed. *)
Definition pending_entry n : option LogEntry :=
  match pending_commit_ (context_ n) with
  | Some p =>
      if (id_ (log_ p) =? logs_size (store n)) && bool_decide (is_Some (command_ (log_ p)))
      then Some (log_ p) else None
  | None => None
  end.

Definition log_view n : LogView :=
  mkLogView (current_term_ (store n)) (raft_state n) (logs_ (store n)) (pending_entry n).

(** What one input of a node may do, given the requests sent so far in the cluster. *)
Record follows (sent : list AppendEntriesRequest) n n' : Prop := {
  follows_change : log_change sent (log_view n) (log_view n');
  follows_size : cluster_size_ (context_ n') = cluster_size_ (context_ n);
  follows_outputs : ∃ os, outputs_ n' = outputs_ n ++ os ∧
    Forall (sendable (log_view n')) (requests_in os);
}.

Lemma silent_demoted n n' : silent n n' → demoted (log_view n) (log_view n').
Proof.
  intros [[Ht _ _ Hl Hc|Ht _ _ Hl Hc] _ _ _]; unfold demoted, log_view in *; simpl in *.
  - split_and!; [lia|intros Hst; split; auto..].
  - split_and!; [lia|done..].
Qed.

Lemma pending_entry_same n n' : pending_commit_ (context_ n') = pending_commit_ (context_ n) →
  logs_ (store n') = logs_ (store n) → pending_entry n' = pending_entry n.
Proof. intros Hp Hl. unfold pending_entry, logs_size. by rewrite Hp, Hl. Qed.

(** A commit in progress belongs to a leader. *)
Lemma no_pending n : node_ok n → raft_state n ≠ kLeader → pending_commit_ (context_ n) = None.
Proof.
  intros Hok Hst. destruct (pending_commit_ _) as [p|] eqn:Hp; [|done].
  by destruct (pending_leads _ p Hok Hp).
Qed.

Lemma no_pending_entry n n' : node_ok n → raft_state n ≠ kLeader →
  pending_commit_ (context_ n') = pending_commit_ (context_ n) ∨
  pending_commit_ (context_ n') = None → pending_entry n' = None.
Proof.
  intros Hok Hst Hp. unfold pending_entry. rewrite (no_pending n Hok Hst) in Hp.
  by destruct Hp as [->| ->].
Qed.

(** Inputs that change neither the log nor, while the node leads, the commit in
    progress, and that send nothing. *)
Lemma quiet_follows sent n n' : logs_ (store n') = logs_ (store n) →
  cluster_size_ (context_ n') = cluster_size_ (context_ n) →
  (∃ os, outputs_ n' = outputs_ n ++ os ∧ requests_in os = []) →
  demoted (log_view n) (log_view n') → node_ok n' →
  (raft_state n' = kLeader → pending_entry n' = pending_entry n) → follows sent n n'.
Proof.
  intros Hl Hs (os & Ho & Hr) Hd Hok Hp. split; [|done|].
  - apply change_quiet; [done..|]. simpl. case_decide as Hst; [by apply Hp|].
    by apply (no_pending_entry n'); auto.
  - exists os. by rewrite Hr.
Qed.

Lemma kept_follows sent n n' : kept n n' → demoted (log_view n) (log_view n') → node_ok n' →
  (raft_state n' = kLeader → pending_commit_ (context_ n') = pending_commit_ (context_ n)) →
  follows sent n n'.
Proof.
  intros [Hl _ Hs Ho] Hd Hok Hp. apply quiet_follows; [done..|].
  intros Hst. by apply pending_entry_same; auto.
Qed.

Lemma follows_refl sent n : node_ok n → follows sent n n.
Proof. intros Hok. by apply kept_follows; [|apply silent_demoted| |]. Qed.

(** ** Changes of role *)

Lemma update_term_leader term n : states_ (raft_fsm_ n) = raft_states →
  raft_state (update_term term false n).2 = kLeader → (update_term term false n).2 = n.
Proof.
  intros Hs. destruct (decide (term ≤ current_term_ (store n))).
  { by rewrite update_term_old. }
  destruct (update_term_new term false n) as [d ->]; [lia|]. cbn [snd].
  rewrite on_new_term_received_state by done. by destruct (raft_state _).
Qed.

Lemma contacted_leader r n : states_ (raft_fsm_ n) = raft_states →
  raft_state (contacted r n) = kLeader → contacted r n = n.
Proof.
  intros Hs. unfold contacted. case_test; [done|].
  pose proof (silent_states _ _ (update_term_silent (ae_term r) n Hs)) as Hs'.
  rewrite on_leader_discovered_state by (simpl; by rewrite Hs'). by destruct (raft_state _).
Qed.

Lemma contacted_kept r n : kept n (contacted r n).
Proof.
  unfold contacted. case_test; [done|].
  etrans; [apply (update_term_kept (ae_term r))|].
  etrans; [apply (set_broadcast_received_kept true)|]. by apply handle_event_kept.
Qed.

Lemma contacted_silent r n : states_ (raft_fsm_ n) = raft_states → silent n (contacted r n).
Proof.
  intros Hs. unfold contacted. case_test; [done|].
  pose proof (update_term_silent (ae_term r) n Hs) as Hn.
  etrans; [exact Hn|]. etrans; [apply (set_broadcast_received_silent true)|].
  apply on_leader_discovered_silent. simpl. by rewrite (silent_states _ _ Hn).
Qed.

Lemma election_timer_follows sent n : node_ok n →
  current_term_ (store n) + 1 < u64_size → follows sent n (run_input ElectionTimer n).
Proof.
  intros Hok Hlt. pose proof (run_input_ok ElectionTimer n Hok) as Hok'. revert Hok'.
  unfold run_input. destruct (election_timer_ (context_ n)); [|intros _; by apply follows_refl].
  unfold on_election_timer. destruct (broadcast_received_ (context_ n)).
  { intros Hok'. apply kept_follows; [kept|by apply silent_demoted|done|done]. }
  intros Hok'. pose proof (handle_event_kept kTimedout n ltac:(done)) as Hk.
  pose proof (election_timedout_view n (ok_states _ (node_machines _ Hok)) Hlt) as Hv.
  cbv zeta in Hv.
  change (handle_event kTimedout n) with (StateMachineInterface.on_election_timedout n) in Hk.
  set (n' := StateMachineInterface.on_election_timedout n) in *. clearbody n'.
  assert (raft_state n ≠ kLeader → candidacy n n' → follows sent n n') as Hcand.
  { intros Hst [Hview _]. destruct Hk as [Hl Hp Hs (os & Ho & Hr)].
    split; [|done|exists os; by rewrite Hr]. apply change_candidacy; simpl; [done| |done|].
    - change (view_term (view_of n') = view_term (view_of n) + 1).
      by destruct Hview as [[-> _]|[-> _]].
    - by apply (no_pending_entry n). }
  destruct (raft_state n); try (rewrite Hv; by apply follows_refl); by apply Hcand.
Qed.

Lemma request_vote_follows sent r n : node_ok n → follows sent n (run_input (RequestVote r) n).
Proof.
  intros Hok. pose proof (run_input_ok (RequestVote r) n Hok) as Hok'. revert Hok'.
  unfold run_input, on_request_vote_requested.
  destruct (negb _); [intros _; by apply follows_refl|].
  pose proof (ok_states _ (node_machines _ Hok)) as Hs.
  pose proof (update_term_silent (rv_term r) n Hs) as Hsil.
  pose proof (update_term_kept (rv_term r) n) as Hk.
  pose proof (update_term_leader (rv_term r) n Hs) as Hl.
  destruct (update_term _ _ _) as [b n1]. cbn [snd] in *.
  pose proof (vote_kept (rv_term r) (rv_candidate_id r) (rv_last_data_index r)
    (rv_loat_data_term r) n1) as Hvk.
  pose proof (vote_eq (rv_term r) (rv_candidate_id r) (rv_last_data_index r)
    (rv_loat_data_term r) n1) as Hv. cbv zeta in Hv.
  destruct (vote _ _ _ _ n1) as [[t granted] n']. cbn [snd] in *. intros Hok'.
  assert (current_term_ (store n') = current_term_ (store n1) ∧ raft_fsm_ n' = raft_fsm_ n1 ∧
    pending_commit_ (context_ n') = pending_commit_ (context_ n1)) as (Ht & Hf & Hp).
  { destruct (_ && _ && _); [destruct Hv as [d Hv]|]; by simplify_eq. }
  apply kept_follows; [by etrans| |done|].
  - pose proof (silent_demoted _ _ Hsil) as Hd. unfold demoted, log_view, raft_state in *.
    simpl in *. by rewrite Ht, Hf.
  - intros Hst. rewrite Hp. by rewrite Hl; [|unfold raft_state in *; rewrite <-Hf].
Qed.

(** A leader that has its votes counted again. *)
Lemma check_elected_leader n : states_ (raft_fsm_ n) = raft_states → raft_state n = kLeader →
  pending_commit_ (context_ (check_elected n)) = pending_commit_ (context_ n).
Proof.
  intros Hs Hst. unfold check_elected. case_test; [done|].
  set (n1 := on_context _ n).
  change (StateMachineInterface.on_elected n1) with (raft_handle (S 1) kElected n1).
  rewrite raft_handle_simple by done.
  change (raft_state n1) with (raft_state n). change (raft_fsm_ n1) with (raft_fsm_ n).
  rewrite Hst. change (find_transition _ _) with (@None RaftTypes.StateType). cbv iota.
  rewrite Hs. by rewrite decide_False by apply kStay_not_state.
Qed.

(** Counting an answer: what the views say, and the commit in progress. *)
Lemma request_vote_answer_kept resp n : states_ (raft_fsm_ n) = raft_states →
  let n' := run_input (RequestVoteAnswer resp) n in
  kept n n' ∧ (raft_state n = kLeader → raft_state n' = kLeader →
    pending_commit_ (context_ n') = pending_commit_ (context_ n)).
Proof.
  intros Hs. unfold run_input, on_request_vote_response. case_test; [done|].
  pose proof (update_term_silent (rv_response_term resp) n Hs) as Hsil.
  pose proof (update_term_kept (rv_response_term resp) n) as Hk.
  pose proof (update_term_leader (rv_response_term resp) n Hs) as Hl.
  destruct (update_term _ _ _) as [b n1]. cbn [snd] in *. cbv zeta.
  assert (raft_state n1 = kLeader → pending_commit_ (context_ n1) = pending_commit_ (context_ n))
    as Hp1 by (intros Hst; by rewrite Hl).
  destruct b; [by auto|]. destruct (rv_vote_granted resp); simpl negb; cbv iota; [|by auto].
  set (n2 := on_store _ n1). assert (kept n1 n2) as Hk2 by by apply on_store_kept.
  split.
  - etrans; [exact Hk|]. etrans; [exact Hk2|]. apply (check_elected_kept 1).
  - intros Hst Hst'.
    assert (states_ (raft_fsm_ n2) = raft_states) as Hs2
      by (simpl; by rewrite (silent_states _ _ Hsil)).
    destruct (decide (raft_state n1 = kLeader)) as [E|E].
    { etrans; [by apply check_elected_leader|by apply Hp1]. }
    destruct (silent_demoted _ _ Hsil) as (_ & _ & Hc). simpl in Hc. exfalso.
    destruct (check_elected_view n2 Hs2) as [Hv _].
    apply (f_equal view_state) in Hv. simpl in Hv. rewrite Hst' in Hv. revert Hv.
    change (raft_state n2) with (raft_state n1).
    case_test; simpl; [naive_solver|]. rewrite Hst in Hc. destruct (raft_state n1); naive_solver.
Qed.

Lemma request_vote_answer_follows sent resp n : node_ok n →
  follows sent n (run_input (RequestVoteAnswer resp) n).
Proof.
  intros Hok. pose proof (run_input_ok (RequestVoteAnswer resp) n Hok) as Hok'.
  pose proof (ok_states _ (node_machines _ Hok)) as Hs.
  pose proof (on_request_vote_response_view (rv_response_term resp) (rv_vote_granted resp) n Hs)
    as Hv. cbv zeta in Hv.
  destruct (request_vote_answer_kept resp n Hs) as [Hk Hp].
  change (on_request_vote_response _ _ n) with (run_input (RequestVoteAnswer resp) n) in Hv.
  set (n' := run_input _ n) in *. clearbody n'.
  assert (demoted (log_view n) (log_view n') → follows sent n n') as Hquiet.
  { intros Hd. apply kept_follows; [done..|]. intros Hst. apply Hp; [|done].
    by destruct Hd as (_ & Hl & _), (Hl Hst). }
  destruct Hv as [Hv|(_ & _ & r & _ & [Hv|(Hv & Hst & _)] & _)].
  - by apply Hquiet, silent_demoted.
  - apply Hquiet. pose proof (f_equal view_term Hv) as Ht. pose proof (f_equal view_state Hv) as Hst.
    simpl in Ht, Hst. unfold demoted, log_view. simpl. rewrite Ht, Hst.
    split_and!; [lia|intros E; split; done..].
  - pose proof (f_equal view_term Hv) as Ht. pose proof (f_equal view_state Hv) as Hst'.
    simpl in Ht, Hst'. destruct Hk as [Hl Hpend Hsize (os & Ho & Hr)].
    split; [|done|exists os; by rewrite Hr]. apply change_elected; try done. simpl.
    apply (no_pending_entry n); [done|by rewrite Hst|done].
Qed.

(** ** Append-entries requests *)

Lemma requests_in_app os os' : requests_in (os ++ os') = requests_in os ++ requests_in os'.
Proof. apply omap_app. Qed.

Lemma requests_in_events n evs : requests_in (outputs_of n evs) = [].
Proof.
  induction evs as [|ev evs IH]; [done|].
  change (outputs_of n (ev :: evs)) with
    (output_of (commit_callback_ (context_ n)) (revert_callback_ (context_ n)) ev ++
     outputs_of n evs).
  rewrite requests_in_app, IH, app_nil_r.
  unfold output_of. by repeat case_match.
Qed.

(** After the contact, a request only works on the log. *)
Lemma append_entries_calm r n : is_valid_node (ae_leader_id r) n = true →
  calm (contacted r n) (on_append_entries_requested r n).2.
Proof.
  intros Hv. rewrite on_append_entries_requested_eq by done. cbv zeta.
  pose proof (request_local_commit_calm r (contacted r n)) as Hc.
  destruct (_ =? _)%nat; [done|]. destruct (request_local_commit _ _) as [ok n'].
  case_test; [done|]. destruct (log _ _); [|done].
  case_test; [done|apply request_local_rollback_calm].
Qed.

Lemma append_entries_follows sent r n : node_ok n → r ∈ sent → writable (store n) →
  (raft_state n = kLeader → ae_entries r ≠ [] → current_term_ (store n) < ae_term r) →
  follows sent n (run_input (AppendEntries r) n).
Proof.
  intros Hok Hin Hw Hguard. pose proof (run_input_ok (AppendEntries r) n Hok) as Hok'.
  revert Hok'. unfold run_input. pose proof (ok_states _ (node_machines _ Hok)) as Hs.
  pose proof (contacted_kept r n) as Hk. pose proof (contacted_silent r n Hs) as Hsil.
  pose proof (contacted_leader r n Hs) as Hlead.
  destruct (is_valid_node (ae_leader_id r) n) eqn:Hv.
  2: { unfold on_append_entries_requested. rewrite Hv. intros _. by apply follows_refl. }
  destruct (decide (ae_entries r = [])) as [Hnil|Hne].
  { rewrite on_append_entries_requested_eq, Hnil by done. simpl. intros Hok'.
    apply kept_follows; [done|by apply silent_demoted|done|]. intros Hst. by rewrite Hlead. }
  intros Hok'. pose proof (append_entries_calm r n Hv) as Hc.
  pose proof (on_append_entries_requested_silent r n Hs) as Hsil'.
  pose proof (on_append_entries_requested_replicate r n Hv Hne (node_log _ Hok)) as Hrep.
  destruct (replicate r (logs_ (store n))) as [[ok l] evs] eqn:E.
  destruct (on_append_entries_requested r n) as [resp n']. cbn [snd] in *.
  destruct Hrep as (_ & Hl & Ho); [by left|].
  assert (raft_state n' ≠ kLeader) as Hst'.
  { rewrite (raft_state_calm _ _ Hc). intros Hst.
    destruct (contacted_frame r n) as (_ & Ht & _). pose proof (Hlead Hst) as E'.
    rewrite E' in Hst, Ht.
    pose proof (Hguard Hst Hne). lia. }
  split.
  - apply (change_accept _ _ _ r); simpl; try done.
    + by apply silent_demoted.
    + by rewrite E.
    + apply (no_pending_entry n'); auto.
  - rewrite (calm_cluster_size _ _ Hc). apply Hk.
  - destruct (kept_outputs _ _ Hk) as (os & Hos & Hr). exists (os ++ outputs_of n evs).
    split; [by rewrite Ho, Hos, app_assoc|]. by rewrite requests_in_app, Hr, requests_in_events.
Qed.

(** ** Commits *)

Lemma complete_commit_kept p log callback n :
  kept (on_store (λ s, (push_log (Some log) s).2) n) (complete_commit p log true callback n).
Proof. unfold complete_commit. kept. Qed.

(** Completing a commit of a leader appends its entry, if it can be pushed. *)
Lemma complete_commit_follows sent n p c : node_ok n → writable (store n) →
  raft_state n = kLeader → pending_commit_ (context_ n) = Some p →
  let n' := complete_commit (promise_ p) (log_ p) true c
    (on_context (Node.set_pending_commit None) n) in
  node_ok n' → follows sent n n'.
Proof.
  intros Hok Hw Hst Hp. set (n1 := on_context _ n). intros n' Hok'.
  pose proof (complete_commit_kept (promise_ p) (log_ p) c n1) as [Hl Hpend Hs Ho].
  pose proof (complete_commit_calm (promise_ p) (log_ p) true c n1) as Hc.
  fold n' in Hl, Hpend, Hs, Ho, Hc. clearbody n'.
  assert (pending_entry n' = None) as Hnone.
  { unfold pending_entry. by destruct Hpend as [->| ->]. }
  assert (raft_state n' = kLeader ∧ current_term_ (store n') = current_term_ (store n))
    as [Hst' Ht].
  { split; [by rewrite (raft_state_calm _ _ Hc)|by rewrite (calm_term _ _ Hc)]. }
  destruct (pending_entry n) as [e|] eqn:He.
  - unfold pending_entry in He. rewrite Hp in He.
    destruct (_ && _) eqn:Hb; [|done]. injection He as <-.
    apply andb_true_iff in Hb as [Hid%N.eqb_eq Hcmd%bool_decide_eq_true].
    destruct (push_log_writable (log_ p) (store n) Hw Hid Hcmd) as (d & E & _).
    rewrite store_on_store in Hl. change (store n1) with (store n) in Hl. rewrite E in Hl.
    split; [|done|destruct Ho as (os & Ho & Hr); exists os; by rewrite Hr].
    apply (change_append _ _ _ (log_ p)); simpl; try done.
    { unfold demoted, log_view. simpl. rewrite Ht, Hst, Hst'. split_and!; [lia|done..]. }
    unfold pending_entry. by rewrite Hp, Hid, N.eqb_refl, (bool_decide_true _ Hcmd).
  - assert (logs_ (store n') = logs_ (store n)) as Hl'.
    { rewrite Hl, store_on_store. change (store n1) with (store n).
      destruct (push_log (Some (log_ p)) (store n)) as [[] s] eqn:E; cbn [snd].
      - destruct (push_log_true _ _ _ E) as (e & [= <-] & Hid & Hcmd & _).
        unfold pending_entry in He. by rewrite Hp, Hid, N.eqb_refl, (bool_decide_true _ Hcmd) in He.
      - by rewrite (push_log_false _ _ _ E). }
    apply quiet_follows; [done..| |done|by rewrite Hnone].
    unfold demoted, log_view. simpl. rewrite Ht, Hst, Hst'. split_and!; [lia|done..].
Qed.

Lemma handle_pending_commit_response_follows sent id index term success n :
  node_ok n → writable (store n) →
  follows sent n (handle_pending_commit_response id index term success n).
Proof.
  intros Hok Hw. pose proof (handle_pending_commit_response_ok id index term success n Hok) as Hok'.
  revert Hok'. unfold handle_pending_commit_response.
  destruct (pending_commit_ (context_ n)) as [p|] eqn:Hp; [|intros _; by apply follows_refl].
  destruct (_ || _); [intros _; by apply follows_refl|].
  set (p' := with_result id success p).
  case_test; intros Hok'.
  - apply quiet_follows; try done; [exists []; by rewrite app_nil_r|].
    intros _. unfold pending_entry. simpl. by rewrite Hp.
  - apply (complete_commit_follows sent n p (callback_ p) Hok Hw); [|done|exact Hok'].
    by destruct (pending_leads _ p Hok Hp).
Qed.

(** Nothing but the peers' indices and a term changes before the answer is counted. *)
Lemma follows_same sent n n1 n' : log_view n1 = log_view n →
  cluster_size_ (context_ n1) = cluster_size_ (context_ n) → outputs_ n1 = outputs_ n →
  follows sent n1 n' → follows sent n n'.
Proof. intros Hv Hs Ho [Hc Hs' Ho']. rewrite Hv in Hc. split; [done|congruence|by rewrite <-Ho]. Qed.

Lemma append_entries_answer_follows sent id r resp n : node_ok n → writable (store n) →
  follows sent n (run_input (AppendEntriesAnswer id r resp) n).
Proof.
  intros Hok Hw. pose proof (run_input_ok (AppendEntriesAnswer id r resp) n Hok) as Hok'.
  revert Hok'. unfold run_input, RaftContext.on_append_entries_response, on_broadcast_response.
  set (n1 := on_context _ n). assert (node_ok n1) as Hok1 by node_same Hok.
  pose proof (ok_states _ (node_machines _ Hok1)) as Hs.
  set (n2 := if _ <=? _ then _ else n1).
  assert (kept n n2 ∧ silent n n2 ∧ node_ok n2 ∧ (raft_state n2 = kLeader → n2 = n1))
    as (Hk & Hsil & Hok2 & Hl).
  { assert (kept n n1) as Hk1 by apply set_other_nodes_kept.
    subst n2. case_test; [|done].
    split_and!; [| |by apply update_term_ok|by apply update_term_leader].
    - etrans; [exact Hk1|apply update_term_kept].
    - etrans; [by apply (calm_silent n n1)|by apply update_term_silent]. }
  clearbody n2. intros Hok'. destruct (decide (raft_state n2 = kLeader)) as [Hst|Hst].
  - rewrite (Hl Hst) in *.
    apply (follows_same sent n n1); [done..|]. by apply handle_pending_commit_response_follows.
  - unfold handle_pending_commit_response. rewrite no_pending by done.
    apply kept_follows; [done|by apply silent_demoted|done|done].
Qed.

Lemma commit_command_follows sent command callback n : node_ok n →
  1 < cluster_size_ (context_ n) →
  follows sent n (run_input (CommitCommand command callback) n).
Proof.
  intros Hok Hsize. pose proof (run_input_ok (CommitCommand command callback) n Hok) as Hok'.
  revert Hok'. unfold run_input. simpl. unfold commit_command.
  destruct (new_promise_ok n Hok) as (Hok1 & Hop & _).
  set (n1 := on_context _ n) in *. set (p := N.of_nat _) in *.
  assert (∀ n' : Node, kept n1 n' → calm n1 n' → node_ok n' →
    (raft_state n = kLeader → pending_commit_ (context_ n') = pending_commit_ (context_ n)) →
    follows sent n n') as Hkept.
  { intros n' Hk Hc Hok' Hp. apply (follows_same sent n n1); [done..|].
    apply kept_follows; [done|by apply silent_demoted, calm_silent|done|].
    rewrite (raft_state_calm _ _ Hc). apply Hp. }
  rewrite is_leader_state. change (raft_state n1) with (raft_state n).
  case_bool_decide as Hst; simpl negb; cbv iota; intros Hok'.
  2: { apply Hkept; [apply cancel_commit_kept|apply cancel_commit_calm|done|done]. }
  change (cluster_size_ (context_ n1)) with (cluster_size_ (context_ n)) in *.
  destruct (N.leb_spec (cluster_size_ (context_ n)) 1); [lia|]. revert Hok'.
  set (e := mkLogEntry _ _ command). unfold set_pending_commit.
  change (id_ (log_ (mkPendingCommit e p callback ∅))) with (logs_size (store n1)).
  rewrite N.eqb_refl. simpl negb. cbv iota.
  change (pending_commit_ (context_ n1)) with (pending_commit_ (context_ n)).
  destruct (match pending_commit_ (context_ n) with Some _ => _ | None => _ end) eqn:Hocc;
    simpl negb; cbv iota; intros Hok'.
  { apply Hkept; [apply cancel_commit_kept|apply cancel_commit_calm|done|].
    intros _. by apply (cancel_commit_spec p _ callback n1). }
  assert (pending_entry n = None) as Hnone.
  { unfold pending_entry. destruct (pending_commit_ (context_ n)) as [q|]; [|done].
    change (logs_size (store n1)) with (logs_size (store n)) in Hocc. by rewrite Hocc. }
  destruct command as [cmd|].
  - split; [|done|exists []; by rewrite app_nil_r].
    apply (change_propose _ _ _ e); try done. simpl. unfold pending_entry. simpl.
    change (logs_size (store n1)) with (logs_size (store n)). by rewrite N.eqb_refl.
  - apply quiet_follows; try done; [exists []; by rewrite app_nil_r|].
    intros _. rewrite Hnone. unfold pending_entry. simpl. by rewrite andb_false_r.
Qed.

(** ** Broadcasts *)

Lemma get_pending_commit_settled n :
  get_pending_commit n = (pending_commit_ (context_ (get_pending_commit n).2),
    (get_pending_commit n).2) ∧
  settled (get_pending_commit n).2.
Proof.
  unfold get_pending_commit, settled.
  destruct (pending_commit_ (context_ n)) as [p|] eqn:Hp; simpl; [|by rewrite Hp].
  case_test; simpl; [|done]. rewrite Hp. split; [done|]. by intros q [= <-].
Qed.

Lemma get_pending_commit_view n : log_view (get_pending_commit n).2 = log_view n ∧
  cluster_size_ (context_ (get_pending_commit n).2) = cluster_size_ (context_ n) ∧
  outputs_ (get_pending_commit n).2 = outputs_ n.
Proof.
  unfold get_pending_commit. destruct (pending_commit_ (context_ n)) as [p|] eqn:Hp; [|done].
  case_test; [done|]. simpl. split; [|done]. unfold log_view, pending_entry. simpl. rewrite Hp.
  by rewrite (proj2 (N.eqb_neq _ _)).
Qed.

(** The entry that a request carries, and the one before. *)
Lemma extended_log_entry n k e : log_wf (logs_ (store n)) → settled n →
  extended_log n !! N.to_nat k = Some e → is_Some (command_ e) →
  id_ e = k ∧ (log_entries (log_view n) ++ option_list (log_pending (log_view n))) !!
    N.to_nat k = Some e ∧
  (k ≠ 0 → ∃ p, extended_log n !! N.to_nat (k - 1) = Some p ∧
    logs_ (store n) !! N.to_nat (k - 1) = Some p ∧ id_ p = k - 1).
Proof.
  intros Hwf Hset He Hcmd. unfold extended_log in *.
  assert (k ≠ 0 → ∃ p, logs_ (store n) !! N.to_nat (k - 1) = Some p) as Hprev.
  { intros Hk. apply lookup_lt_is_Some_2. apply lookup_lt_Some in He.
    rewrite length_app in He. destruct (pending_commit_ _); simpl in He; lia. }
  assert (id_ e = k ∧ (log_entries (log_view n) ++ option_list (log_pending (log_view n))) !!
    N.to_nat k = Some e) as [Hid Hin].
  { simpl. apply lookup_app_Some in He as [He|[Hlen He]].
    - destruct (Hwf _ _ He) as [-> _]. split; [lia|]. by apply lookup_app_l_Some.
    - unfold pending_entry. destruct (pending_commit_ (context_ n)) as [p|] eqn:Hp; [|done].
      simpl in He. apply list_lookup_singleton_Some in He as [Hk <-].
      rewrite (Hset p Hp), N.eqb_refl, (bool_decide_true _ Hcmd). simpl. unfold logs_size.
      split; [lia|]. rewrite lookup_app_r by done. by replace (_ - _)%nat with 0%nat by lia. }
  split_and!; [done..|]. intros Hk. destruct (Hprev Hk) as [p Hp]. exists p.
  split_and!; [by apply lookup_app_l_Some|done|]. destruct (Hwf _ _ Hp) as [-> _]. lia.
Qed.

(** What a broadcast makes for one peer. *)
Lemma OtherNode_broadcast_sendable term me log o n : log_wf (logs_ (store n)) → settled n →
  ∃ res, OtherNode.broadcast (Some on_log_get_request) term me log o n = (res, n) ∧
    ∀ r, res = Sent r → sendable (log_view n) r.
Proof.
  intros Hwf Hset. unfold OtherNode.broadcast.
  destruct (negb (append_entries_ready o)); [by eexists|].
  set (r0 := mkAppendEntriesRequest term me 0 0 [] 0). set (k := next_index_ o).
  assert (∀ r, ae_entries r = [] → ∃ res,
    (let '(request, w) := add_prev_entry on_log_get_request k r n in (Sent request, w)) = (res, n) ∧
    ∀ r, res = Sent r → sendable (log_view n) r) as Hempty.
  { intros r Hr. unfold add_prev_entry. rewrite on_log_get_request_settled by done.
    destruct (0 <? k); [destruct (extended_log n !! _)|]; (eexists; split; [done|]);
      intros r' [= <-]; by left. }
  unfold add_next_entry. destruct log as [last|]; [|by apply Hempty].
  case_test; [|by apply Hempty]. rewrite on_log_get_request_settled by done.
  destruct (extended_log n !! N.to_nat k) as [e|] eqn:He; [|by apply Hempty].
  destruct (command_ e) as [c|] eqn:Hc; [|by eexists].
  destruct (extended_log_entry n k e Hwf Hset He ltac:(by rewrite Hc)) as (Hid & Hin & Hprev).
  assert (mkLogEntry (id_ e) (term_ e) (Some (mkCommand (data c))) = e) as Heq.
  { destruct e as [? ? ?]. simpl in *. subst. by destruct c. }
  unfold add_prev_entry. rewrite on_log_get_request_settled by done.
  destruct (N.ltb_spec 0 k) as [Hk|Hk].
  - destruct (Hprev ltac:(lia)) as (p & -> & Hp & Hidp). eexists. split; [done|].
    intros r [= <-]. right. simpl. rewrite Hid. unfold entry_of. simpl. rewrite Heq.
    split; [done|]. intros _. split; [done|]. by exists p.
  - eexists. split; [done|]. intros r [= <-]. right. simpl. rewrite Hid. unfold entry_of. simpl.
    rewrite Heq. split; [done|]. lia.
Qed.

Lemma broadcast_follows sent n : node_ok n → follows sent n (broadcast n).
Proof.
  intros Hok. destruct (get_pending_commit_view n) as (Hv & Hs & Ho).
  destruct (get_pending_commit_settled n) as [E Hset].
  pose proof (get_pending_commit_ok n Hok) as Hok1. unfold broadcast. rewrite E.
  set (n1 := (get_pending_commit n).2) in *. clearbody n1. clear E.
  apply (follows_same sent n n1); [done..|]. clear Hv Hs Ho Hok n.
  set (log := match pending_commit_ (context_ n1) with Some p => Some (log_ p) | None => _ end).
  set (P := λ n, context_ n = context_ n1 ∧ raft_fsm_ n = raft_fsm_ n1 ∧
    ∃ os, outputs_ n = outputs_ n1 ++ os ∧ Forall (sendable (log_view n1)) (requests_in os)).
  assert (∀ ids n, P n → P (foldl (broadcast_to log) n ids)) as Hfold.
  { induction ids as [|id ids IH]; intros n Hn; [done|]. simpl. apply IH.
    destruct Hn as (Hctx & Hfsm & os & Ho & Hos). unfold broadcast_to.
    destruct (fault_ n); [by split_and!; eauto|].
    destruct (other_nodes_ (context_ n) !! id) as [o|]; [|by split_and!; eauto].
    assert (log_view n = log_view n1) as Hv
      by (unfold log_view, pending_entry, store, raft_state; by rewrite Hctx, Hfsm).
    destruct (OtherNode_broadcast_sendable (current_term (store n)) (node_id_ (context_ n)) log o n)
      as (res & -> & Hres).
    { unfold store. rewrite Hctx. apply Hok1. }
    { unfold settled, store. rewrite Hctx. apply Hset. }
    destruct res as [| |r]; [by split_and!; eauto|..].
    - unfold halt. destruct (fault_ n); by split_and!; eauto.
    - split_and!; [done..|]. exists (os ++ [SendAppendEntries id r]).
      split; [simpl; by rewrite Ho, <-app_assoc|]. rewrite requests_in_app, Forall_app.
      split; [done|]. simpl. apply Forall_singleton. rewrite <-Hv. by apply Hres. }
  destruct (Hfold (map_ids (other_nodes_ (context_ n1))) n1) as (Hctx & Hfsm & os & Ho & Hos).
  { split_and!; [done..|]. exists []. by rewrite app_nil_r. }
  set (n' := foldl _ _ _) in *. clearbody n'.
  assert (log_view n' = log_view n1) as Hv
    by (unfold log_view, pending_entry, store, raft_state; by rewrite Hctx, Hfsm).
  split; [rewrite Hv; by apply (follows_refl sent)|by rewrite Hctx|].
  exists os. by rewrite Hv.
Qed.

Lemma broadcast_timer_follows sent n : node_ok n → follows sent n (run_input BroadcastTimer n).
Proof.
  intros Hok. unfold run_input, on_broadcast_timer.
  destruct (broadcast_timer_ (context_ n)); [|by apply follows_refl].
  rewrite broadcast_timedout_eq by apply Hok.
  destruct (raft_state n); try (by apply follows_refl). by apply broadcast_follows.
Qed.

(** ** Inputs *)

(** When the input is an append-entries request, it is one of [sent]. *)
Definition genuine (sent : list AppendEntriesRequest) (input : NodeInput) : Prop :=
  match input with AppendEntries r => r ∈ sent | _ => True end.

(** A leader does not get an entry of its own or an earlier term. *)
Definition harmless (input : NodeInput) n : Prop :=
  match input with
  | AppendEntries r =>
      raft_state n = kLeader → ae_entries r ≠ [] → current_term_ (store n) < ae_term r
  | _ => True
  end.

Lemma run_input_follows sent input n : node_ok n → writable (store n) →
  1 < cluster_size_ (context_ n) → genuine sent input → harmless input n →
  (input = ElectionTimer → current_term_ (store n) + 1 < u64_size) →
  follows sent n (run_input input n).
Proof.
  intros Hok Hw Hsize Hg Hh Ht. pose proof (run_input_ok input n Hok) as Hok'.
  destruct input; try (apply kept_follows; [by apply kept_same; auto|by apply silent_demoted|done..]).
  - apply election_timer_follows; auto.
  - by apply broadcast_timer_follows.
  - by apply append_entries_follows.
  - by apply request_vote_follows.
  - by apply append_entries_answer_follows.
  - by apply request_vote_answer_follows.
  - by apply commit_command_follows.
Qed.

End views.
