(* ===== verification/LogCluster.v ===== *)
(** * Log matching in a cluster

    A cluster together with the append-entries requests that its nodes have sent.
    Its steps are those of Cluster.v with genuine append-entries requests.
    [log_simulation] relates them to Replication.v. *)

From S2P Require Import Prelude Codec Platform LogEntry ContextStore ContextStoreFacts.
From S2P Require Import StoreTheorems NodeUtil RaftTypes OtherNode StateMachine Lifecycle Node.
From S2P Require Import StateMachineInterface RaftContext RaftContextFacts.
From S2P Require Import RaftStateMachine RaftStateMachineFacts ClusterNodeOptions.
From S2P Require Import ClusterNodeImpl Election VoteFacts ElectionRefinement NodeInvariant Demo.
From S2P Require Import Journal Crash Cluster AppendEntries Replication Kept.
From S2P Require Import ReplicationRefinement.

Local Open Scope N_scope.

(** ** Writing and sending

    No input both writes to the database and sends an append-entries request. *)

Definition mute `{Platform} (n n' : Node) : Prop :=
  ∃ os, outputs_ n' = outputs_ n ++ os ∧ requests_in os = [].

#[export] Instance mute_refl `{Platform} : Reflexive mute.
Proof. intros n. exists []. by rewrite app_nil_r. Qed.

#[export] Instance mute_trans `{Platform} : Transitive mute.
Proof.
  intros n1 n2 n3 (os & O & R) (os' & O' & R'). exists (os ++ os').
  split; [by rewrite O', O, app_assoc|]. by rewrite requests_in_app, R, R'.
Qed.

Section mute.
  Context `{PlatformSpec}.
  Implicit Types (n : Node).

Lemma kept_mute n n' : kept n n' → mute n n'.
Proof. by intros [_ _ _ Ho]. Qed.

Lemma on_store_mute f n : mute n (on_store f n).
Proof. exists []. by rewrite app_nil_r. Qed.

Lemma push_and_notify_mute e n : mute n (push_and_notify e n).2.
Proof.
  unfold push_and_notify. destruct (push_log _ _) as [[] s]; simpl; [|apply on_store_mute].
  etrans; [apply (on_store_mute (λ _, s))|apply kept_mute, invoke_commit_callback_kept].
Qed.

Lemma request_local_commit_mute r n : mute n (request_local_commit r n).2.
Proof.
  unfold request_local_commit. destruct (last_log _); [|apply push_and_notify_mute].
  destruct (_ && _ && _); [done|]. etrans; [|apply push_and_notify_mute]. case_test; [|done].
  etrans; [apply on_store_mute|apply kept_mute, invoke_revert_callback_kept].
Qed.

Lemma on_append_entries_requested_mute r n : mute n (on_append_entries_requested r n).2.
Proof.
  destruct (is_valid_node (ae_leader_id r) n) eqn:Hv.
  2: { unfold on_append_entries_requested. by rewrite Hv. }
  rewrite on_append_entries_requested_eq by done. cbv zeta.
  pose proof (request_local_commit_mute r (contacted r n)) as Hc.
  etrans; [apply kept_mute, (contacted_kept r)|]. set (n1 := contacted r n) in *. clearbody n1.
  destruct (_ =? _)%nat; [done|]. destruct (request_local_commit _ _) as [ok n2].
  case_test; [done|]. destruct (log _ _); [|done].
  destruct (negb _); [apply on_store_mute|done].
Qed.

Lemma complete_commit_mute p e callback n : mute n (complete_commit p e true callback n).
Proof. etrans; [apply on_store_mute|apply kept_mute, complete_commit_kept]. Qed.

Lemma handle_pending_commit_response_mute id index term success n :
  mute n (handle_pending_commit_response id index term success n).
Proof.
  unfold handle_pending_commit_response. destruct (pending_commit_ _) as [q|]; [|done].
  destruct (_ || _); [done|]. set (n1 := on_context _ n).
  assert (mute n n1) as Hn1 by (exists []; by rewrite app_nil_r).
  case_test; [done|]. etrans; [exact Hn1|].
  apply (complete_commit_mute _ _ _ (on_context (Node.set_pending_commit None) n1)).
Qed.

Lemma commit_command_mute command callback n : mute n (commit_command command callback n).2.
Proof.
  unfold commit_command. set (n1 := on_context _ n).
  assert (mute n n1) as Hn1 by (exists []; by rewrite app_nil_r).
  etrans; [exact Hn1|]. clearbody n1. destruct (negb _); [apply kept_mute, cancel_commit_kept|].
  case_test; [apply complete_commit_mute|]. unfold set_pending_commit.
  destruct (negb _); [apply kept_mute, cancel_commit_kept|].
  match goal with |- context [if ?b then (false, _) else _] => destruct b end;
    [apply kept_mute, cancel_commit_kept|].
  exists []. by rewrite app_nil_r.
Qed.

Lemma writes_or_sends input n : states_ (raft_fsm_ n) = raft_states →
  requests_in (outputs_since n (run_input input n)) = [] ∨ same_store n (run_input input n).
Proof.
  intros Hs. assert (mute n (run_input input n) ∨ same_store n (run_input input n))
    as [(os & Ho & Hr)|]; [|left|by right].
  { destruct input; simpl; try (left; by exists []; rewrite app_nil_r).
    2: { right. destruct (broadcast_timer_ _); [|done]. apply broadcast_timedout_same_store. }
    all: left.
    - destruct (election_timer_ _); [|done]. unfold on_election_timer.
      destruct (broadcast_received_ _); [by exists []; rewrite app_nil_r|].
      by apply kept_mute, (handle_event_kept kTimedout).
    - apply on_append_entries_requested_mute.
    - apply kept_mute. unfold on_request_vote_requested. destruct (negb _); [done|].
      pose proof (update_term_kept (rv_term request) n) as Hk.
      destruct (update_term _ _ _) as [b n1]. cbn [snd] in Hk.
      pose proof (vote_kept (rv_term request) (rv_candidate_id request)
        (rv_last_data_index request) (rv_loat_data_term request) n1) as Hv.
      destruct (vote _ _ _ _ _) as [[t g] n2]. by etrans.
    - unfold RaftContext.on_append_entries_response, on_broadcast_response.
      etrans; [|apply handle_pending_commit_response_mute].
      etrans; [apply kept_mute, set_other_nodes_kept|].
      case_test; [apply kept_mute, update_term_kept|done].
    - apply kept_mute. by apply request_vote_answer_kept.
    - apply commit_command_mute. }
  unfold outputs_since. by rewrite Ho, drop_app_length.
Qed.

End mute.

Section log_cluster.
  Context `{CrashHistory} (cluster_name : string) (ids : list N) (options : ClusterNodeOptions).

(** ** The cluster *)

(** A request that has been sent stays in [sent]: it may be delivered late, more
    than once, or never. *)
Record LogCluster := mkLogCluster {
  cluster : Cluster;
  sent : list AppendEntriesRequest;
}.

(** Node [i] turns from [n] into [n'], and what it has sent meanwhile is on its way. *)
Definition after (c : LogCluster) (i : N) (n n' : Node) (answers : list Answer) : LogCluster :=
  mkLogCluster (mkCluster (<[i := n']> (nodes (cluster c))) answers)
    (sent c ++ requests_in (outputs_since n n')).

(** The steps of a cluster when append-entries requests are genuine and the databases
    accept the writes; [allowed] says which inputs a node may get.  A node that
    crashes in [log_step_crash] has sent none ([writes_or_sends]). *)
Inductive log_cluster_step (allowed : NodeInput → Node → Prop) (c : LogCluster) :
    LogCluster → Prop :=
  | log_step_local i n input :
      nodes (cluster c) !! i = Some n → local_input input = true → term_left input n →
      writable (store n) → genuine (sent c) input → allowed input n →
      log_cluster_step allowed c (after c i n (run_input input n) (answers (cluster c)))
  | log_step_request i n r resp n' :
      nodes (cluster c) !! i = Some n → on_request_vote_requested r n = (resp, n') →
      log_cluster_step allowed c
        (after c i n n' (answers (cluster c) ++ [mkAnswer (rv_candidate_id r) i resp]))
  | log_step_answer i n u resp l1 l2 :
      nodes (cluster c) !! i = Some n → answers (cluster c) = l1 ++ mkAnswer i u resp :: l2 →
      log_cluster_step allowed c (after c i n (run_input (RequestVoteAnswer resp) n) (l1 ++ l2))
  | log_step_answer_lost a l1 l2 :
      answers (cluster c) = l1 ++ a :: l2 →
      log_cluster_step allowed c (mkLogCluster (mkCluster (nodes (cluster c)) (l1 ++ l2)) (sent c))
  | log_step_restart i n d g :
      nodes (cluster c) !! i = Some n → persisted (store n) d → db_readable d →
      let n' := new_ClusterNode cluster_name i ids options (λ _, Some d) g in
      log_cluster_step allowed c (mkLogCluster
        (mkCluster (<[i := n']> (nodes (cluster c))) (answers (cluster c)))
        (sent c ++ requests_in (outputs_ n')))
  | log_step_crash i n input d d' e g :
      nodes (cluster c) !! i = Some n → crash_run input n d d' →
      genuine (sent c) input → allowed input n → e ∈ crash_points d d' → db_readable e →
      let n' := new_ClusterNode cluster_name i ids options (λ _, Some e) g in
      log_cluster_step allowed c (mkLogCluster
        (mkCluster (<[i := n']> (nodes (cluster c))) (answers (cluster c)))
        (sent c ++ requests_in (outputs_ n'))).

(** Every node is started with an empty log. *)
Definition log_cluster_init (c : LogCluster) : Prop :=
  cluster_init cluster_name ids options (cluster c) ∧ sent c = [] ∧
  ∀ i n, nodes (cluster c) !! i = Some n → logs_ (store n) = [].

Abbreviation step := (cluster_step cluster_name ids options).

Lemma log_step_cluster_step allowed c c' : log_cluster_step allowed c c' → step (cluster c) (cluster c').
Proof. intros []; by econstructor. Qed.

Lemma log_steps_cluster_steps allowed c c' :
  rtc (log_cluster_step allowed) c c' → rtc step (cluster c) (cluster c').
Proof.
  induction 1 as [|c1 c2 c3 Hs _ IH]; [done|]. eapply rtc_l; [by eapply log_step_cluster_step|done].
Qed.

(** ** Simulation *)

Definition log_abstraction (c : LogCluster) (leaders : list (N * N)) : Replication :=
  mkReplication (log_view <$> nodes (cluster c)) (sent c) leaders.

Context (ids_small : N.of_nat (length ids) < u32_size) (several : (1 < length ids)%nat).
Context (interval : election_timeout_min options ≤ election_timeout_max options).

(** What holds of every node. *)
Definition log_node_ok (n : Node) : Prop :=
  node_ok n ∧ cluster_size_ (context_ n) = N.of_nat (length ids).

(** [leaders] have led at some point of the run from [c0] to [c]. *)
Definition led_before (c0 c : Cluster) (leaders : list (N * N)) : Prop :=
  ∀ j t, (j, t) ∈ leaders → ∃ c1 m, rtc step c0 c1 ∧ rtc step c1 c ∧
    nodes c1 !! j = Some m ∧ raft_state m = kLeader ∧ get_term m = t.

Record log_cluster_ok (c0 c : LogCluster) (leaders : list (N * N)) : Prop := {
  log_run : rtc step (cluster c0) (cluster c);
  log_nodes i n : nodes (cluster c) !! i = Some n → log_node_ok n;
  log_leaders : led_before (cluster c0) (cluster c) leaders;
}.

(** A new node, and one that restarts. *)
Lemma new_node_log_ok i open_db g :
  log_node_ok (new_ClusterNode cluster_name i ids options open_db g).
Proof.
  split; [by apply new_ClusterNode_ok|].
  destruct (constructed_context cluster_name i ids options open_db g) as [m E].
  change (new_ClusterNode _ _ _ _ _ _) with
    (handle_event kStarted (constructed cluster_name i ids options open_db g)).
  rewrite (kept_size _ _ (handle_event_kept kStarted _ ltac:(done))), E.
  simpl. by apply wrap32_small.
Qed.

Lemma new_node_sends_nothing i open_db g :
  requests_in (outputs_ (new_ClusterNode cluster_name i ids options open_db g)) = [].
Proof.
  change (new_ClusterNode _ _ _ _ _ _) with
    (handle_event kStarted (constructed cluster_name i ids options open_db g)).
  destruct (kept_outputs _ _ (handle_event_kept kStarted
    (constructed cluster_name i ids options open_db g) ltac:(done))) as (os & -> & Hos).
  by rewrite requests_in_app, Hos, app_nil_r.
Qed.

Lemma restart_change sent n i d g : persisted (store n) d → db_readable d → node_ok n →
  log_change sent (log_view n)
    (log_view (new_ClusterNode cluster_name i ids options (λ _, Some d) g)).
Proof.
  intros Hp Hr Hok.
  destruct (new_ClusterNode_facts cluster_name i ids options (λ _, Some d) g)
    as (Hs & _ & _ & _ & Hst).
  pose proof (new_node_log_ok i (λ _, Some d) g) as [Hok' _].
  rewrite (new_ContextStore_persisted _ _ Hp Hr) in Hs. set (n' := new_ClusterNode _ _ _ _ _ _) in *.
  clearbody n'. apply change_quiet; unfold demoted, log_view; simpl; rewrite ?Hst, ?Hs.
  - simpl. split_and!; [lia|done..].
  - done.
  - rewrite decide_False by done. unfold pending_entry. by rewrite no_pending by (rewrite ?Hst; done).
Qed.

(** A new node leads nothing and has no commit in progress. *)
Lemma new_node_view i open_db g :
  let v := log_view (new_ClusterNode cluster_name i ids options open_db g) in
  log_state v = kFollower ∧ log_pending v = None.
Proof.
  destruct (new_ClusterNode_facts cluster_name i ids options open_db g) as (_ & _ & _ & _ & Hst).
  pose proof (new_node_log_ok i open_db g) as [Hok _]. simpl. rewrite Hst.
  split; [done|]. apply (no_pending_entry _ _ Hok); [by rewrite Hst|by left].
Qed.

Lemma crash_change sent n i input d d' e g : crash_run input n d d' → node_ok n →
  1 < cluster_size_ (context_ n) → genuine sent input → harmless input n →
  e ∈ crash_points d d' → db_readable e →
  log_change sent (log_view n)
    (log_view (new_ClusterNode cluster_name i ids options (λ _, Some e) g)).
Proof.
  intros Hrun Hok Hsize Hg Hh He Hr.
  destruct (crash_run_store _ _ _ _ _ Hrun He Hr) as (m & [[Ht _] Hl] & _ & E).
  destruct (new_ClusterNode_facts cluster_name i ids options (λ _, Some e) g)
    as (Hs & _ & _ & _ & _).
  destruct (new_node_view i (λ _, Some e) g) as [Hst Hp]. rewrite E in Hs.
  set (n' := new_ClusterNode _ _ _ _ _ _) in *. clearbody n'.
  assert (demoted (log_view n) (log_view n')) as Hd.
  { unfold demoted. rewrite Hst. split_and!; [|done..]. simpl. by rewrite Hs. }
  destruct Hl as [[k Hl]|Hl].
  - apply (change_cut _ _ _ k); [done|by rewrite Hst|simpl; by rewrite Hs|done].
  - assert (writable (store n)) as Hw.
    { exists d. split; [apply (crash_persisted _ _ _ _ Hrun)|apply (crash_writable _ _ _ _ Hrun)]. }
    destruct (run_input_follows sent input n Hok Hw Hsize Hg Hh (crash_term _ _ _ _ Hrun))
      as [Hc _ _].
    eapply log_change_crash; [exact Hc|done|by rewrite Hst|done|]. simpl. by rewrite Hs.
Qed.

(** Sending several requests. *)
Lemma sends vs reqs leaders rs i v : vs !! i = Some v → Forall (sendable v) rs →
  rtc replication_step (mkReplication vs reqs leaders) (mkReplication vs (reqs ++ rs) leaders).
Proof.
  intros Hi Hrs. revert reqs. induction Hrs as [|r rs Hr _ IH]; intros reqs; [by rewrite app_nil_r|].
  eapply rtc_l; [by apply (step_send (mkReplication vs reqs leaders) i v r)|]. simpl.
  specialize (IH (reqs ++ [r])). by rewrite <-app_assoc in IH.
Qed.

(** A node changes and sends. *)
Lemma change_simulates c0 c i n n' ans rs leaders :
  cluster_init cluster_name ids options (cluster c0) → log_cluster_ok c0 c leaders →
  nodes (cluster c) !! i = Some n →
  step (cluster c) (mkCluster (<[i := n']> (nodes (cluster c))) ans) →
  log_change (sent c) (log_view n) (log_view n') → log_node_ok n' →
  Forall (sendable (log_view n')) rs →
  let c' := mkLogCluster (mkCluster (<[i := n']> (nodes (cluster c))) ans) (sent c ++ rs) in
  let leaders' := led i (log_view n') ++ leaders in
  log_cluster_ok c0 c' leaders' ∧
  rtc replication_step (log_abstraction c leaders) (log_abstraction c' leaders').
Proof.
  intros Hinit [Hrun Hnodes Hled] Hi Hstep Hc Hok' Hrs c' leaders'.
  assert (rtc step (cluster c0) (cluster c')) as Hrun' by (eapply rtc_r; [done|exact Hstep]).
  split; [split|].
  - done.
  - intros j m. simpl. rewrite lookup_insert_Some. intros [[<- <-]|[_ ?]]; [done|by eauto].
  - intros j t. unfold leaders', led. case_decide as Hst.
    + intros [[= -> ->]|Hj]%elem_of_cons.
      { exists (cluster c'), n'. split_and!; try done. simpl. by rewrite lookup_insert_eq. }
      destruct (Hled j t Hj) as (c1 & m & ? & ? & ?). exists c1, m.
      split_and!; try naive_solver. eapply rtc_r; [done|exact Hstep].
    + intros Hj. destruct (Hled j t Hj) as (c1 & m & ? & ? & ?). exists c1, m.
      split_and!; try naive_solver. eapply rtc_r; [done|exact Hstep].
  - eapply rtc_l.
    { apply (step_change (log_abstraction c leaders) i (log_view n) (log_view n')).
      - simpl. by rewrite lookup_fmap, Hi.
      - exact Hc.
      - intros j Hst Hj. destruct (Hled j _ Hj) as (c1 & m & Hs1 & Hs2 & Hm & Hlm & Ht).
        apply (leaders_agree cluster_name ids options ids_small (cluster c0) c1 (cluster c')
          j i (view_of m) (view_of n')); try done.
        + eapply rtc_r; [exact Hs2|exact Hstep].
        + by apply view_lookup.
        + apply view_lookup. simpl. by rewrite lookup_insert_eq. }
    unfold log_abstraction. simpl. rewrite fmap_insert.
    apply sends with i (log_view n'); [by rewrite lookup_insert_eq|done].
Qed.

(** What the inputs of a node send. *)
Lemma follows_simulates c0 c i n n' ans leaders :
  cluster_init cluster_name ids options (cluster c0) → log_cluster_ok c0 c leaders →
  nodes (cluster c) !! i = Some n → node_ok n' → follows (sent c) n n' →
  step (cluster c) (mkCluster (<[i := n']> (nodes (cluster c))) ans) →
  let leaders' := led i (log_view n') ++ leaders in
  log_cluster_ok c0 (after c i n n' ans) leaders' ∧
  rtc replication_step (log_abstraction c leaders) (log_abstraction (after c i n n' ans) leaders').
Proof.
  intros Hinit Hok Hi Hn' [Hc Hs (os & Ho & Hos)] Hstep. unfold after.
  assert (outputs_since n n' = os) as -> by (unfold outputs_since; by rewrite Ho, drop_app_length).
  apply (change_simulates c0 c i n n' ans _ leaders); try done.
  split; [done|]. rewrite Hs. by destruct (log_nodes _ _ _ Hok i n Hi).
Qed.

Lemma log_step_simulates c0 c c' leaders :
  cluster_init cluster_name ids options (cluster c0) → log_cluster_ok c0 c leaders →
  log_cluster_step harmless c c' → ∃ leaders', log_cluster_ok c0 c' leaders' ∧
    rtc replication_step (log_abstraction c leaders) (log_abstraction c' leaders').
Proof.
  intros Hinit Hok Hs. pose proof (log_step_cluster_step _ _ _ Hs) as Hstep.
  destruct Hs as [i n input Hi Hl Ht Hw Hg Hh|i n r resp n' Hi Hr|i n u resp l1 l2 Hi Ha
    |a l1 l2 Ha|i n d g Hi Hp Hd n'|i n input d d' e g Hi Hrun Hg Hh He Hd n'].
  - destruct (log_nodes _ _ _ Hok i n Hi) as [Hn Hsize].
    eexists. apply follows_simulates; [done..|by apply run_input_ok| |exact Hstep].
    apply run_input_follows; try done. rewrite Hsize. lia.
  - destruct (log_nodes _ _ _ Hok i n Hi) as [Hn _].
    assert (n' = run_input (RequestVote r) n) as E by (simpl; by rewrite Hr).
    eexists. apply follows_simulates; [done..| | |exact Hstep]; rewrite E.
    + by apply run_input_ok.
    + by apply request_vote_follows.
  - destruct (log_nodes _ _ _ Hok i n Hi) as [Hn _].
    eexists. apply follows_simulates; [done..|by apply run_input_ok| |exact Hstep].
    by apply request_vote_answer_follows.
  - exists leaders. split; [|done]. destruct Hok as [Hrun Hnodes Hled].
    assert (∀ c1, rtc step c1 (cluster c) → rtc step c1 (mkCluster (nodes (cluster c)) (l1 ++ l2)))
      as Hend by (intros; eapply rtc_r; [done|exact Hstep]).
    split; simpl; [by apply Hend|done|]. intros j t Hj.
    destruct (Hled j t Hj) as (c1 & m & ? & ? & ?). exists c1, m. naive_solver.
  - destruct (log_nodes _ _ _ Hok i n Hi) as [Hn _].
    pose proof (new_node_sends_nothing i (λ _, Some d) g) as Hno. fold n' in Hno.
    rewrite Hno. eexists. apply change_simulates with n; [done..|exact Hstep| | |done].
    + by apply restart_change.
    + by apply new_node_log_ok.
  - destruct (log_nodes _ _ _ Hok i n Hi) as [Hn Hsize].
    pose proof (new_node_sends_nothing i (λ _, Some e) g) as Hno. fold n' in Hno.
    rewrite Hno. eexists. apply change_simulates with n; [done..|exact Hstep| | |done].
    + eapply crash_change; try done. rewrite Hsize. lia.
    + by apply new_node_log_ok.
Qed.

Lemma log_steps_simulate c0 c1 c leaders :
  cluster_init cluster_name ids options (cluster c0) → log_cluster_ok c0 c1 leaders →
  rtc (log_cluster_step harmless) c1 c → ∃ leaders', log_cluster_ok c0 c leaders' ∧
    rtc replication_step (log_abstraction c1 leaders) (log_abstraction c leaders').
Proof.
  intros Hinit Hok Hs. revert leaders Hok.
  induction Hs as [|c1 c2 c3 Hs _ IH]; intros leaders Hok; [by exists leaders|].
  destruct (log_step_simulates c0 c1 c2 leaders Hinit Hok Hs) as (leaders2 & Hok2 & Hr2).
  destruct (IH leaders2 Hok2) as (leaders3 & Hok3 & Hr3).
  exists leaders3. split; [done|]. by etrans.
Qed.

Lemma log_simulation c0 c : log_cluster_init c0 → rtc (log_cluster_step harmless) c0 c →
  ∃ leaders, log_cluster_ok c0 c leaders ∧
    rtc replication_step (log_abstraction c0 []) (log_abstraction c leaders).
Proof.
  intros (Hinit & _ & _) Hs. apply log_steps_simulate; [done| |done].
  split; [done| |by intros j t ?%not_elem_of_nil].
  intros i n Hi. destruct Hinit as (_ & _ & Hn). destruct (Hn i n Hi) as (open_db & g & ->).
  by apply new_node_log_ok.
Qed.

Lemma log_cluster_init_abstraction c : log_cluster_init c →
  replication_init (log_abstraction c []).
Proof.
  intros ((_ & _ & Hn) & Hsent & Hlogs). split_and!; [done..|]. intros i v. simpl.
  rewrite lookup_fmap. destruct (nodes (cluster c) !! i) as [n|] eqn:Hi; [|done].
  intros [= <-]. destruct (Hn i n Hi) as (open_db & g & E).
  pose proof (new_node_log_ok i open_db g) as [Hok _].
  destruct (new_ClusterNode_facts cluster_name i ids options open_db g) as (_ & _ & _ & _ & Hst).
  rewrite <-E in Hok, Hst. simpl. rewrite Hst. split_and!; [by apply (Hlogs i)| |done].
  apply (no_pending_entry n); [done|by rewrite Hst|by left].
Qed.

End log_cluster.
