(* ===== verification/LogMatching.v ===== *)
(** * Log matching

    The logs of a cluster agree, as long as no leader is given a stale entry; a run
    in which one is, and in which the logs disagree. *)

From S2P Require Import Prelude Codec Platform LogEntry ContextStore ContextStoreFacts.
From S2P Require Import NodeUtil RaftTypes OtherNode StateMachine Lifecycle Node.
From S2P Require Import StateMachineInterface RaftContext RaftContextFacts.
From S2P Require Import RaftStateMachine RaftStateMachineFacts ClusterNodeOptions.
From S2P Require Import ClusterNodeImpl Election VoteFacts NodeInvariant Demo Crash Cluster.
From S2P Require Import AppendEntries ReplicationTheorems Replication Kept.
From S2P Require Import ReplicationRefinement LogCluster.

Local Open Scope N_scope.

(** ** Log matching *)

Section matching.
  Context `{CrashHistory} (cluster_name : string) (ids : list N) (options : ClusterNodeOptions).

(** C2: log matching.  Take a cluster of fewer than [2 ^ 32] nodes, with a non-empty
    interval of election timeouts, that start with empty logs and any sequence of
    steps: inputs of any node, votes and answers as in [election_safety], with no
    election timer at the last 64-bit term, append-entries requests that some node
    has sent, delivered to any node, late, twice or never, answers to them of any
    content, restarts of nodes from their database, and crashes of nodes after any
    write of any input.  If the databases accept the writes and no leader is given an
    entry of its own or an earlier term, then the logs of any two nodes that have
    entries of the same term at the same position are equal up to it. *)
Theorem log_matching c0 c i j n m k a b :
  N.of_nat (length ids) < u32_size →
  election_timeout_min options ≤ election_timeout_max options →
  log_cluster_init cluster_name ids options c0 →
  rtc (log_cluster_step cluster_name ids options harmless) c0 c →
  nodes (cluster c) !! i = Some n → nodes (cluster c) !! j = Some m →
  logs_ (store n) !! k = Some a → logs_ (store m) !! k = Some b → term_ a = term_ b →
  take (S k) (logs_ (store n)) = take (S k) (logs_ (store m)).
Proof.
  intros Hsmall Hint Hinit Hs Hi Hj Ha Hb Ht.
  destruct (decide (1 < length ids)%nat) as [Hseveral|Hone].
  - destruct (log_simulation cluster_name ids options Hsmall Hseveral Hint c0 c Hinit Hs)
      as (leaders & _ & Hr).
    apply (logs_match (log_abstraction c0 []) (log_abstraction c leaders) i j
      (log_view n) (log_view m) k a b); try done.
    + by eapply log_cluster_init_abstraction.
    + simpl. by rewrite lookup_fmap, Hi.
    + simpl. by rewrite lookup_fmap, Hj.
  - destruct Hinit as (Hinit & _ & _).
    pose proof (cluster_dom cluster_name ids options Hsmall _ _ Hinit
      (log_steps_cluster_steps _ _ _ _ _ _ Hs)) as Hdom.
    assert (i ∈ ids ∧ j ∈ ids) as [Hii Hjj].
    { split; [apply elem_of_dom_2 in Hi|apply elem_of_dom_2 in Hj];
        rewrite Hdom in *; set_solver. }
    destruct ids as [|x [|]]; simpl in Hone; [by apply not_elem_of_nil in Hii| |lia].
    apply list_elem_of_singleton in Hii as ->, Hjj as ->. congruence.
Qed.

End matching.

(** ** Runs of a cluster in memory *)

#[export] Instance AppendEntriesRequest_eq_dec : EqDecision AppendEntriesRequest.
Proof. solve_decision. Defined.

Abbreviation DemoCluster := (LogCluster (H := mem_platform)).

(** A node takes an input, gets a vote request, or gets the oldest answer. *)
Inductive Move :=
  | Take (i : N) (input : NodeInput)
  | AskVote (i : N) (r : RequestVoteRequest)
  | GiveAnswer.

(** Whether a node may take an input: [shielded] says that stale entries are kept
    from leaders. *)
Definition may_take (shielded : bool) (sent : list AppendEntriesRequest) (input : NodeInput)
    (n : Node (H := mem_platform)) : bool :=
  local_input input &&
  match db_ (store n) with Some d => bool_decide (faults d = []) | None => false end &&
  match input with
  | ElectionTimer => current_term_ (store n) + 1 <? u64_size
  | AppendEntries r => bool_decide (r ∈ sent) &&
      (negb shielded || bool_decide (raft_state n ≠ kLeader) || bool_decide (ae_entries r = []) ||
       (current_term_ (store n) <? ae_term r))
  | _ => true
  end.

Definition move (shielded : bool) (c : DemoCluster) (m : Move) : option DemoCluster :=
  match m with
  | Take i input =>
      n ← nodes (cluster c) !! i;
      if may_take shielded (sent c) input n
      then Some (after c i n (run_input input n) (answers (cluster c))) else None
  | AskVote i r =>
      n ← nodes (cluster c) !! i;
      let '(resp, n') := on_request_vote_requested r n in
      Some (after c i n n' (answers (cluster c) ++ [mkAnswer (rv_candidate_id r) i resp]))
  | GiveAnswer =>
      match answers (cluster c) with
      | mkAnswer i u resp :: l =>
          n ← nodes (cluster c) !! i;
          Some (after c i n (run_input (RequestVoteAnswer resp) n) l)
      | [] => None
      end
  end.

Fixpoint moves (shielded : bool) (c : DemoCluster) (ms : list Move) : option DemoCluster :=
  match ms with
  | [] => Some c
  | m :: ms => c' ← move shielded c m; moves shielded c' ms
  end.

Definition allowed_when (shielded : bool) : NodeInput → Node (H := mem_platform) → Prop :=
  if shielded then harmless else λ _ _, True.

Abbreviation demo_log_step := (log_cluster_step "demo" [1; 2; 3] demo_options).

Lemma may_take_true shielded sent input n : may_take shielded sent input n = true →
  local_input input = true ∧ writable (store n) ∧ term_left input n ∧ genuine sent input ∧
  allowed_when shielded input n.
Proof.
  unfold may_take, allowed_when, term_left, genuine, harmless.
  rewrite !andb_true_iff. intros [[Hl Hd] Hi].
  destruct (db_ (store n)) as [d|] eqn:E; [|done]. apply bool_decide_eq_true in Hd.
  split_and!; [done|exists d; split; [done|by apply mem_writable]|..];
    destruct input; try done; try by destruct shielded.
  - intros _. by apply N.ltb_lt.
  - by apply andb_true_iff in Hi as [?%bool_decide_eq_true _].
  - apply andb_true_iff in Hi as [_ Hi]. destruct shielded; [|done]. simpl in Hi.
    rewrite !orb_true_iff, !bool_decide_eq_true, N.ltb_lt in Hi. naive_solver.
Qed.

Lemma move_step shielded c m c' : move shielded c m = Some c' →
  demo_log_step (allowed_when shielded) c c'.
Proof.
  destruct m as [i input|i r|]; simpl.
  - destruct (nodes (cluster c) !! i) as [n|] eqn:Hi; [|done]. simpl.
    destruct (may_take _ _ _ _) eqn:Hm; [|done]. intros [= <-].
    apply may_take_true in Hm as (? & ? & ? & ? & ?). by apply log_step_local.
  - destruct (nodes (cluster c) !! i) as [n|] eqn:Hi; [|done]. simpl.
    destruct (on_request_vote_requested r n) as [resp n'] eqn:Hr. intros [= <-].
    by eapply log_step_request.
  - destruct (answers (cluster c)) as [|[i u resp] l] eqn:Ha; [done|].
    destruct (nodes (cluster c) !! i) as [n|] eqn:Hi; [|done]. simpl. intros [= <-].
    by apply (log_step_answer _ _ _ _ _ i n u resp [] l).
Qed.

Lemma moves_steps shielded c ms c' : moves shielded c ms = Some c' →
  rtc (demo_log_step (allowed_when shielded)) c c'.
Proof.
  revert c. induction ms as [|m ms IH]; intros c; simpl; [by intros [= <-]|].
  destruct (move shielded c m) as [c1|] eqn:Hm; [|done]. simpl. intros Hms.
  eapply rtc_l; [by eapply move_step|by apply IH].
Qed.

Definition demo_log_cluster : DemoCluster := mkLogCluster demo_cluster [].

Lemma demo_log_cluster_init :
  log_cluster_init "demo" [1; 2; 3] demo_options demo_log_cluster.
Proof.
  split; [apply demo_cluster_init|]. split; [done|]. intros i n Hn.
  destruct demo_cluster_init as (_ & _ & Hnew).
  apply elem_of_list_to_map_2 in Hn. apply list_elem_of_fmap in Hn as (j & [= -> ->] & Hj).
  assert (Forall (λ j, logs_ (store (demo_node [1; 2; 3] j)) = []) [1; 2; 3]) as Hall
    by (repeat constructor; vm_compute; reflexivity).
  by apply (Forall_forall _ _) with (x := j) in Hall.
Qed.

(** The log of node [i]. *)
Definition log_of (i : N) (c : DemoCluster) : list LogEntry :=
  from_option (λ n, logs_ (store n)) [] (nodes (cluster c) !! i).

Definition heartbeat (term me prev : N) : AppendEntriesRequest :=
  mkAppendEntriesRequest term me 0 prev [] 0.
Definition failure (term : N) : AppendEntriesResponse := mkAppendEntriesResponse term false.
Definition success (term : N) : AppendEntriesResponse := mkAppendEntriesResponse term true.
Definition commit_data (b : byte) : NodeInput := CommitCommand (Some (mkCommand [b])) false.

(** Node 1 leads with the vote of node 2 and replicates its first command. *)
Definition demo_replication : list Move :=
  let r := mkAppendEntriesRequest 1 1 0 0 [x61] 0 in
  [Take 1 (ServiceDiscovery 2 true true); Take 1 ElectionTimer;
   AskVote 2 (mkRequestVoteRequest 1 1 0 0); GiveAnswer;
   Take 1 (commit_data x61); Take 1 BroadcastTimer;
   Take 2 (AppendEntries (heartbeat 1 1 1));
   Take 1 (AppendEntriesAnswer 2 (heartbeat 1 1 1) (failure 1)); Take 1 BroadcastTimer;
   Take 2 (AppendEntries r); Take 1 (AppendEntriesAnswer 2 r (success 1))].

(** Node 3 leads term 1 and sends its first command to node 1, which it does not
    reach yet.  Node 1 leads term 2, commits two commands of its own and
    replicates them to node 2, sending the second one twice. *)
Definition demo_two_leaders : list Move :=
  let r0 := mkAppendEntriesRequest 2 1 0 0 [x62] 0 in
  let r1 := mkAppendEntriesRequest 2 1 0 2 [x63] 1 in
  [Take 3 (ServiceDiscovery 1 true true); Take 3 ElectionTimer;
   AskVote 2 (mkRequestVoteRequest 1 3 0 0); GiveAnswer;
   Take 3 (commit_data x61); Take 3 BroadcastTimer;
   Take 1 (AppendEntries (heartbeat 1 3 1));
   Take 3 (AppendEntriesAnswer 1 (heartbeat 1 3 1) (failure 0)); Take 3 BroadcastTimer;
   Take 1 (ServiceDiscovery 2 true true); Take 1 ElectionTimer; Take 1 ElectionTimer;
   AskVote 2 (mkRequestVoteRequest 2 1 0 0); GiveAnswer;
   Take 1 (commit_data x62); Take 1 BroadcastTimer;
   Take 2 (AppendEntries (heartbeat 2 1 2));
   Take 1 (AppendEntriesAnswer 2 (heartbeat 2 1 2) (failure 2)); Take 1 BroadcastTimer;
   Take 2 (AppendEntries r0); Take 1 (AppendEntriesAnswer 2 r0 (success 2));
   Take 1 (commit_data x63); Take 1 BroadcastTimer; Take 1 BroadcastTimer;
   Take 2 (AppendEntries r1); Take 2 (AppendEntries r1);
   Take 1 (AppendEntriesAnswer 2 r1 (success 2))].

(** Then the entry of term 1 reaches node 1, which commits another command. *)
Definition demo_stale : list Move :=
  let r1 := mkAppendEntriesRequest 2 1 0 2 [x63] 1 in
  demo_two_leaders ++
  [Take 1 (AppendEntries (mkAppendEntriesRequest 1 3 0 0 [x61] 0));
   Take 1 (commit_data x64); Take 1 (AppendEntriesAnswer 2 r1 (success 2))].

Definition demo_matching_cluster : DemoCluster :=
  default demo_log_cluster (moves true demo_log_cluster demo_replication).

Lemma moves_default shielded c ms : is_Some (moves shielded c ms) →
  rtc (demo_log_step (allowed_when shielded)) c (default c (moves shielded c ms)).
Proof. intros [c' Hc]. rewrite Hc. by eapply moves_steps. Qed.

Lemma log_of_lookup i e k c : log_of i c !! k = Some e →
  ∃ n, nodes (cluster c) !! i = Some n ∧ logs_ (store n) = log_of i c.
Proof.
  unfold log_of. destruct (nodes (cluster c) !! i) as [n|]; simpl; [|done].
  intros _. by exists n.
Qed.

(** C37: a stale entry breaks log matching.  Without the condition on leaders in
    [log_matching], three nodes with empty logs reach a point where node 1 and
    node 2 have different commands at position 1 in the same term: node 1, the
    leader of term 2, has replicated an entry there to node 2; then the delayed
    entry of the leader of term 1 for position 0 reaches node 1, which gives up
    both its entries and leads on, and puts its next command at position 1 in the
    same term.  Every append-entries request of the run has been sent by a node. *)
Theorem stale_entry_breaks_matching :
  ∃ c n m a b, log_cluster_init "demo" [1; 2; 3] demo_options demo_log_cluster ∧
    rtc (demo_log_step (λ _ _, True)) demo_log_cluster c ∧
    nodes (cluster c) !! 1 = Some n ∧ nodes (cluster c) !! 2 = Some m ∧
    logs_ (store n) !! 1%nat = Some a ∧ logs_ (store m) !! 1%nat = Some b ∧
    term_ a = term_ b ∧ command_ a ≠ command_ b.
Proof.
  pose proof (moves_default false demo_log_cluster demo_stale ltac:(compute_decision)) as Hrun.
  set (c := default demo_log_cluster _) in Hrun.
  assert (log_of 1 c !! 1%nat = Some (mkLogEntry 1 2 (Some (mkCommand [x64]))) ∧
    log_of 2 c !! 1%nat = Some (mkLogEntry 1 2 (Some (mkCommand [x63])))) as [H1 H2]
    by (vm_compute; done).
  clearbody c. destruct (log_of_lookup _ _ _ _ H1) as (n & Hn & Ln).
  destruct (log_of_lookup _ _ _ _ H2) as (m & Hm & Lm).
  exists c, n, m, (mkLogEntry 1 2 (Some (mkCommand [x64]))),
    (mkLogEntry 1 2 (Some (mkCommand [x63]))).
  split_and!; [apply demo_log_cluster_init|done..| | | |].
  - by rewrite Ln.
  - by rewrite Lm.
  - done.
  - done.
Qed.

(** ** Committed commands *)

(** Node 1 leads term 1 and commits its command with node 2. *)
Definition demo_first_commit : list Move :=
  let r := mkAppendEntriesRequest 1 1 0 0 [x61] 0 in
  [Take 1 (ServiceDiscovery 2 true true); Take 1 ElectionTimer;
   AskVote 2 (mkRequestVoteRequest 1 1 0 0); GiveAnswer; Take 1 BroadcastTimer;
   Take 2 (AppendEntries (heartbeat 1 1 0));
   Take 1 (AppendEntriesAnswer 2 (heartbeat 1 1 0) (failure 1));
   Take 1 (commit_data x61); Take 1 BroadcastTimer;
   Take 2 (AppendEntries r); Take 1 (AppendEntriesAnswer 2 r (success 1))].

(** Node 3, whose log is empty, leads term 2 with the vote of node 2 and commits
    another command with it. *)
Definition demo_second_commit : list Move :=
  let r := mkAppendEntriesRequest 2 3 0 0 [x62] 0 in
  [Take 3 (ServiceDiscovery 2 true true); Take 3 ElectionTimer; Take 3 ElectionTimer;
   AskVote 2 (mkRequestVoteRequest 2 3 0 0); GiveAnswer; Take 3 BroadcastTimer;
   Take 2 (AppendEntries (heartbeat 2 3 0));
   Take 3 (AppendEntriesAnswer 2 (heartbeat 2 3 0) (failure 2));
   Take 3 (commit_data x62); Take 3 BroadcastTimer;
   Take 2 (AppendEntries r); Take 3 (AppendEntriesAnswer 2 r (success 2))].

Definition demo_first : DemoCluster :=
  default demo_log_cluster (moves true demo_log_cluster demo_first_commit).
Definition demo_second : DemoCluster :=
  default demo_first (moves true demo_first demo_second_commit).

(** Node [i] has told its user that [e] is committed, and a majority of the three
    nodes, [i] and [j], have it in their logs. *)
Definition committed (c : DemoCluster) (i j : N) (e : LogEntry) : Prop :=
  promises_ (context_ (node_of i (cluster c))) !! 0%nat =
    Some (Some (mkCommandCommitResponse (id_ e) (command_ e) true)) ∧
  log_of i c !! N.to_nat (id_ e) = Some e ∧ log_of j c !! N.to_nat (id_ e) = Some e.

(** C35: a committed command is lost.  Three nodes with empty logs reach, by steps as in
    [log_matching], a point where node 1 has told its user that a command is committed
    and nodes 1 and 2 have it at position 0, and from there a point where node 3 has
    told its user the same of another command, which nodes 2 and 3 have at position 0:
    node 2 votes for node 3, whose empty log announces position 0, the last one of
    node 2, and then gives up its entry. *)
Theorem committed_command_lost :
  ∃ c1 c2 a b, log_cluster_init "demo" [1; 2; 3] demo_options demo_log_cluster ∧
    rtc (demo_log_step harmless) demo_log_cluster c1 ∧ rtc (demo_log_step harmless) c1 c2 ∧
    committed c1 1 2 a ∧ committed c2 3 2 b ∧ id_ a = id_ b ∧ command_ a ≠ command_ b.
Proof.
  exists demo_first, demo_second,
    (mkLogEntry 0 1 (Some (mkCommand [x61]))), (mkLogEntry 0 2 (Some (mkCommand [x62]))).
  split_and!; [apply demo_log_cluster_init|..|done|done].
  - apply (moves_default true). compute_decision.
  - apply (moves_default true). compute_decision.
  - vm_compute. done.
  - vm_compute. done.
Qed.

(** ** Witness *)

Lemma log_matching_witness :
  log_of 1 demo_matching_cluster = [mkLogEntry 0 1 (Some (mkCommand [x61]))] ∧
  take 1 (logs_ (store (node_of 1 (cluster demo_matching_cluster)))) =
  take 1 (logs_ (store (node_of 2 (cluster demo_matching_cluster)))).
Proof.
  split; [vm_compute; reflexivity|].
  apply (log_matching "demo" [1; 2; 3] demo_options demo_log_cluster demo_matching_cluster 1 2
    _ _ 0 (mkLogEntry 0 1 (Some (mkCommand [x61]))) (mkLogEntry 0 1 (Some (mkCommand [x61])))).
  - reflexivity.
  - vm_compute. discriminate.
  - apply demo_log_cluster_init.
  - apply (moves_default true). compute_decision.
  - apply node_of_lookup. compute_decision.
  - apply node_of_lookup. compute_decision.
  - vm_compute. reflexivity.
  - vm_compute. reflexivity.
  - reflexivity.
Defined.
