(* ===== verification/CommitCall.v ===== *)
(** * Calls of [commit_command] that the executor interrupts

    [Context::commit_command] may run in threads of the user.  It reads the state of the
    node, the size of the log and the term one after the other, and takes
    [pending_commit_mutex_] at its end; in between the executor runs callbacks, and
    other threads run their calls.  Here a call is a sequence of atomic steps, which
    without interruption are [RaftContext.commit_command].  However the steps of
    several calls and the inputs of the executor alternate, promises are answered at
    most once; but an entry may get a term that the node did not lead.  A callback of
    the executor is not split. *)

From S2P Require Import Prelude Codec Platform LogEntry ContextStore NodeUtil RaftTypes OtherNode.
From S2P Require Import StateMachine Lifecycle Node StateMachineInterface RaftContext.
From S2P Require Import RaftStateMachine ClusterNodeOptions ClusterNodeImpl NodeInvariant Demo.
From S2P Require Import Cluster.
From S2P Require Import ReplicationRefinement LogCluster LogMatching.

Local Open Scope N_scope.

(** ** The call step by step *)

(** Where the call is: it has found that the node does not lead, or is about to read
    the size of the log, or the term; it has made the entry; [set_pending_commit] has
    compared the entry's position, or has refused it. *)
Inductive CommitCall :=
  | Called
  | Refused (promise : N)
  | Sizing (promise : N)
  | Terming (promise size : N)
  | Created (promise : N) (log : LogEntry)
  | Compared (promise : N) (log : LogEntry)
  | Rejected (promise : N) (log : LogEntry)
  | Returned (promise : N).

Section call.
  Context `{Platform} (command : option Command) (callback : bool).

(** A step reads one shared member, runs the block that a mutex guards, or ends the
    call. *)
Definition commit_call_step (call : CommitCall) (n : Node) : CommitCall * Node :=
  match call with
  | Called =>
      let promise := N.of_nat (length (promises_ (context_ n))) in
      (if is_leader n then Sizing promise else Refused promise,
       on_context (λ c, set_promises (promises_ c ++ [None]) c) n)
  | Refused promise =>
      (Returned promise, cancel_commit promise (logs_size (store n)) callback n)
  | Sizing promise => (Terming promise (logs_size (store n)), n)
  | Terming promise size =>
      (Created promise (mkLogEntry size (current_term (store n)) command), n)
  | Created promise log =>
      if cluster_size_ (context_ n) <=? 1 then
        (Returned promise, complete_commit promise log true callback n)
      else if negb (id_ log =? logs_size (store n)) then (Rejected promise log, n)
      else (Compared promise log, n)
  | Compared promise log =>
      if match pending_commit_ (context_ n) with
         | Some p => id_ (log_ p) =? logs_size (store n)
         | None => false
         end
      then (Rejected promise log, n)
      else (Returned promise,
        on_context (Node.set_pending_commit (Some (mkPendingCommit log promise callback ∅))) n)
  | Rejected promise log => (Returned promise, cancel_commit promise (id_ log) callback n)
  | Returned promise => (call, n)
  end.

Definition commit_call_steps (k : nat) (cn : CommitCall * Node) : CommitCall * Node :=
  Nat.iter k (λ cn, commit_call_step cn.1 cn.2) cn.

(** [set_pending_commit] is the comparison of the position and the guarded block. *)
Lemma set_pending_commit_steps promise log n :
  commit_call_steps 3 (Created promise log, n) =
  if cluster_size_ (context_ n) <=? 1 then
    (Returned promise, complete_commit promise log true callback n)
  else
    let '(ok, n) := set_pending_commit (mkPendingCommit log promise callback ∅) n in
    (Returned promise, if ok then n else cancel_commit promise (id_ log) callback n).
Proof.
  unfold commit_call_steps, set_pending_commit. simpl.
  destruct (cluster_size_ _ <=? 1); [done|]. destruct (id_ log =? logs_size _); simpl; [|done].
  by destruct (match _ with Some _ => _ | None => _ end).
Qed.

End call.

(** ** Theorems *)

Section theorems.
  Context `{Platform}.

(** A call that is not interrupted is [commit_command]: its steps, one after the other on
    any node, return the promise and leave the node that the method as a whole
    returns and leaves. *)
Lemma commit_call_uninterrupted command callback n :
  commit_call_steps command callback 6 (Called, n) =
  let '(promise, n') := commit_command command callback n in (Returned promise, n').
Proof.
  change 6%nat with (3 + 3)%nat. unfold commit_call_steps. rewrite Nat.iter_add.
  unfold commit_command. cbn [Nat.iter nat_rect fst snd commit_call_step].
  change (is_leader (on_context _ n)) with (is_leader n).
  destruct (is_leader n); cbn [negb fst snd commit_call_step]; [|done].
  etransitivity; [apply set_pending_commit_steps|].
  cbn [id_]. destruct (cluster_size_ _ <=? 1); [done|].
  by destruct (set_pending_commit _ _) as [[] ?].
Qed.

End theorems.

(** ** Threads of the user next to the executor *)

(** A call that a thread makes. *)
Record UserCall := mkUserCall {
  user_command : option Command;
  user_callback : bool;
  user_call : CommitCall;
}.

(** Whose turn it is: a call takes a step, or the executor runs a callback. *)
Inductive Turn := UserTurn (i : nat) | ExecutorTurn (input : NodeInput).

Section turns.
  Context `{Platform}.

Definition user_turn (u : UserCall) (n : Node) : UserCall * Node :=
  let '(call, n') := commit_call_step (user_command u) (user_callback u) (user_call u) n in
  (mkUserCall (user_command u) (user_callback u) call, n').

Definition take_turn (s : list UserCall * Node) (t : Turn) : list UserCall * Node :=
  match t with
  | UserTurn i =>
      match s.1 !! i with
      | Some u => let '(u', n') := user_turn u s.2 in (<[i := u']> s.1, n')
      | None => s
      end
  | ExecutorTurn input => (s.1, run_input input s.2)
  end.

Definition take_turns (s : list UserCall * Node) (ts : list Turn) : list UserCall * Node :=
  foldl take_turn s ts.

End turns.

(** The promise that a call has made and not handed over yet. *)
Definition holds (call : CommitCall) : list N :=
  match call with
  | Called | Returned _ => []
  | Refused p | Sizing p | Terming p _ | Created p _ | Compared p _ | Rejected p _ => [p]
  end.

Definition held_promises (users : list UserCall) : list N :=
  users ≫= λ u, holds (user_call u).

Section interruptions.
  Context `{PlatformSpec}.

(** The invariant, with the promises of the interrupted calls. *)
Definition calls_ok (reserved : list N) (n : Node) : Prop :=
  node_ok_in False reserved n ∧ NoDup reserved.

Lemma calls_ok_perm reserved reserved' n :
  reserved ≡ₚ reserved' → calls_ok reserved n → calls_ok reserved' n.
Proof.
  intros Hp [[Hm Ht [H1 H2 H3 H4] Hl] Hn]. split; [|by rewrite <-Hp].
  split; [done..| |done]. split; [..|done|done].
  - intros p. rewrite <-Hp. apply H1.
  - intros p. rewrite <-Hp. apply H2.
Qed.

(** A call hands over its promise: it is open, and no commit in progress holds it. *)
Lemma release p rest n : calls_ok (p :: rest) n →
  node_ok_in False rest n ∧ open_promise p n ∧ p ∉ rest ∧
  ∀ q, pending_commit_ (context_ n) = Some q → promise_ q ≠ p.
Proof.
  intros [[Hm Ht [H1 H2 H3 H4] Hl] [Hn _]%NoDup_cons]. split_and!.
  - split; [done..| |done]. split; [..|done|done].
    + intros q Hq. destruct (H1 q Hq) as (? & ? & Hnot).
      split_and!; [done..|]. by intros ?%(list_elem_of_further _ p).
    + intros q Hq. apply H2. by right.
  - apply H2. by left.
  - done.
  - intros q Hq <-. destruct (H1 q Hq) as (_ & _ & Hnot). apply Hnot. by left.
Qed.

Lemma commit_call_step_ok command callback call rest n :
  calls_ok (holds call ++ rest) n →
  let '(call', n') := commit_call_step command callback call n in
  calls_ok (holds call' ++ rest) n'.
Proof.
  intros Hok. pose proof Hok as [Hnode Hnodup]. destruct call as [|p|p|p size|p log|p log|p log|p].
  - destruct (new_promise_ok n Hnode) as ([Hm Ht [H1 H2 H3 H4] Hl] & Hop & Hr & Hq).
    assert (calls_ok (N.of_nat (length (promises_ (context_ n))) :: rest)
      (on_context (λ c, set_promises (promises_ c ++ [None]) c) n)) as Hnew.
    { split; [|by constructor]. split; [done..| |done]. split; [..|done|done].
      - intros q Hq'. destruct (H1 q Hq') as (? & ? & ?). split_and!; [done..|].
        intros [Heq|?]%elem_of_cons; [by eapply Hq|done].
      - intros q [->|?]%elem_of_cons; [done|by apply H2]. }
    unfold commit_call_step. by destruct (is_leader n).
  - destruct (release _ _ _ Hok) as (Hn & Hop & Hnot & Hq). simpl.
    split; [by apply cancel_commit_ok|by inversion Hnodup].
  - done.
  - done.
  - destruct (release _ _ _ Hok) as (Hn & Hop & Hnot & Hq). simpl.
    destruct (cluster_size_ _ <=? 1).
    + split; [by apply complete_commit_ok|by inversion Hnodup].
    + by destruct (negb _).
  - destruct (release _ _ _ Hok) as (Hn & Hop & Hnot & Hq). simpl.
    destruct (match _ with Some _ => _ | None => _ end); [done|].
    split; [|by inversion Hnodup]. apply set_pending_ok; [|done]. by intros q [= <-].
  - destruct (release _ _ _ Hok) as (Hn & Hop & Hnot & Hq). simpl.
    split; [by apply cancel_commit_ok|by inversion Hnodup].
  - done.
Qed.

Lemma held_promises_split l1 u l2 :
  held_promises (l1 ++ u :: l2) ≡ₚ holds (user_call u) ++ held_promises (l1 ++ l2).
Proof.
  unfold held_promises. rewrite !bind_app, bind_cons, !app_assoc.
  f_equiv. apply Permutation_app_comm.
Qed.

Lemma take_turn_ok s t :
  calls_ok (held_promises s.1) s.2 → calls_ok (held_promises (take_turn s t).1) (take_turn s t).2.
Proof.
  destruct s as [users n], t as [i|input]; simpl; intros Hok.
  - destruct (users !! i) as [u|] eqn:Hu; [|done]. unfold user_turn.
    pose proof (commit_call_step_ok (user_command u) (user_callback u) (user_call u)
      (held_promises (take i users ++ drop (S i) users)) n) as Hstep.
    destruct (commit_call_step _ _ _ n) as [call n']. simpl.
    rewrite insert_take_drop by (by eapply lookup_lt_Some).
    eapply calls_ok_perm; [symmetry; apply held_promises_split|]. apply Hstep.
    eapply calls_ok_perm; [apply held_promises_split|]. by rewrite take_drop_middle.
  - destruct Hok. split; [by apply run_input_ok|done].
Qed.

Lemma take_turns_ok s ts :
  calls_ok (held_promises s.1) s.2 → calls_ok (held_promises (take_turns s ts).1) (take_turns s ts).2.
Proof.
  revert s. induction ts as [|t ts IH]; intros s Hs; [done|]. by apply IH, take_turn_ok.
Qed.

Lemma calls_ok_start users n : reachable n → Forall (λ u, user_call u = Called) users →
  held_promises users = [] ∧ calls_ok [] n.
Proof.
  intros Hr Hu. split.
  - induction Hu as [|u users Hc _ IH]; [done|]. unfold held_promises in *.
    by rewrite bind_cons, IH, Hc.
  - apply reachable_ok in Hr as [Hm Ht [H1 H2 H3 H4] Hl]. split; [|constructor].
    split; [done..| |done]. split; [|done..]. intros p Hp. by destruct (H1 p Hp) as (_ & ? & ?).
Qed.

(** C22: promises are answered at most once, whatever is interrupted.  On a node in a
    reachable state threads of the user call [commit_command] and the executor runs
    inputs, the steps of the calls and the inputs interleaved in any order: no
    promise is answered twice (which would throw [std::future_error]); the promise of a
    commit in progress is open, and so is the one that a call has made and not yet
    handed over, which is its own; the node is active exactly while it leads. *)
Theorem interrupted_promises_answered_once users n ts :
  reachable n → Forall (λ u, user_call u = Called) users →
  let '(users', n') := take_turns (users, n) ts in
  fault_ n' ≠ Some PromiseAlreadySatisfied ∧
  (∀ p, pending_commit_ (context_ n') = Some p →
    promises_ (context_ n') !! N.to_nat (promise_ p) = Some None) ∧
  NoDup (held_promises users') ∧
  Forall (λ p, promises_ (context_ n') !! N.to_nat p = Some None ∧
    ∀ q, pending_commit_ (context_ n') = Some q → promise_ q ≠ p) (held_promises users') ∧
  ClusterNode_is_activated n' = is_leader n'.
Proof.
  intros Hr Hu. destruct (calls_ok_start users n Hr Hu) as [Hnil Hok].
  rewrite <-Hnil in Hok. apply (take_turns_ok (users, n) ts) in Hok.
  destruct (take_turns (users, n) ts) as [users' n']. destruct Hok as [[Hm _ [H1 H2 H3 _] _] Hn].
  split_and!; [done| |done| |].
  - intros p Hp. by destruct (H1 p Hp) as (_ & ? & _).
  - apply Forall_forall. intros p Hp. split; [by apply H2|]. intros q Hq Heq.
    destruct (H1 q Hq) as (_ & _ & Hnot). by rewrite Heq in Hnot.
  - by apply machines_activated.
Qed.

End interruptions.

(** ** A call that outlives its leadership *)

(** A move of the cluster, or a step of the call on node 1. *)
Inductive ClusterTurn := Moved (m : Move) | Resumed.

Definition cluster_turn (command : option Command) (s : CommitCall * DemoCluster)
    (t : ClusterTurn) : option (CommitCall * DemoCluster) :=
  let '(call, c) := s in
  match t with
  | Moved m => c' ← move true c m; Some (call, c')
  | Resumed =>
      n ← nodes (cluster c) !! 1;
      let '(call', n') := commit_call_step command false call n in
      Some (call', LogCluster.after c 1 n n' (answers (cluster c)))
  end.

Definition cluster_turns (command : option Command) (ts : list ClusterTurn) :
    option (CommitCall * DemoCluster) :=
  foldl (λ s t, s ≫= λ s, cluster_turn command s t) (Some (Called, demo_log_cluster)) ts.

(** Node 1 leads term 1, and the call finds it leading. *)
Definition straddle_call : list ClusterTurn :=
  (Moved <$> [Take 1 (ServiceDiscovery 2 true true); Take 1 ElectionTimer;
              AskVote 3 (mkRequestVoteRequest 1 1 0 0); GiveAnswer]) ++ [Resumed].

(** Node 2 leads term 2, tells node 1, and sends its first command to node 3. *)
Definition straddle_leader : list ClusterTurn :=
  let h := heartbeat 2 2 0 in
  Moved <$>
  [Take 2 (ServiceDiscovery 1 true true); Take 2 (ServiceDiscovery 3 true true);
   Take 2 ElectionTimer; Take 2 ElectionTimer;
   AskVote 3 (mkRequestVoteRequest 2 2 0 0); GiveAnswer; Take 2 BroadcastTimer;
   Take 1 (AppendEntries h); Take 3 (AppendEntries h);
   Take 2 (AppendEntriesAnswer 3 h (failure 2)); Take 2 (commit_data x62);
   Take 2 BroadcastTimer; Take 3 (AppendEntries (mkAppendEntriesRequest 2 2 0 0 [x62] 0))].

(** The call goes on; node 1 leads term 3 with the vote of node 2 and sends it the entry. *)
Definition straddle_return : list ClusterTurn :=
  let h := heartbeat 3 1 2 in
  replicate 4 Resumed ++
  (Moved <$>
   [Take 1 ElectionTimer; Take 1 ElectionTimer; AskVote 2 (mkRequestVoteRequest 3 1 0 0);
    GiveAnswer; Take 1 BroadcastTimer; Take 2 (AppendEntries h);
    Take 1 (AppendEntriesAnswer 2 h (failure 3)); Take 1 BroadcastTimer;
    Take 2 (AppendEntries (mkAppendEntriesRequest 2 1 0 0 [x61] 0))]).

(** A step of the cluster as [log_matching] allows it, or of the call on node 1. *)
Inductive interrupted_step (command : option Command) :
    CommitCall * DemoCluster → CommitCall * DemoCluster → Prop :=
  | interrupted_cluster call c c' :
      demo_log_step harmless c c' → interrupted_step command (call, c) (call, c')
  | interrupted_call call c n call' n' :
      nodes (cluster c) !! 1 = Some n → commit_call_step command false call n = (call', n') →
      interrupted_step command (call, c) (call', LogCluster.after c 1 n n' (answers (cluster c))).

Lemma cluster_turn_step command s t s' :
  cluster_turn command s t = Some s' → interrupted_step command s s'.
Proof.
  destruct s as [call c], t as [m|]; simpl.
  - destruct (move true c m) as [c'|] eqn:Hm; [|done]. intros [= <-].
    apply interrupted_cluster. by apply (move_step true c m).
  - destruct (nodes (cluster c) !! 1) as [n|] eqn:Hn; [|done]. simpl.
    destruct (commit_call_step command false call n) as [call' n'] eqn:Hc. intros [= <-].
    by eapply interrupted_call.
Qed.

Lemma cluster_turns_steps command ts s :
  cluster_turns command ts = Some s → rtc (interrupted_step command) (Called, demo_log_cluster) s.
Proof.
  unfold cluster_turns. revert s. induction ts as [|t ts IH] using rev_ind; intros s.
  - intros [= <-]. constructor.
  - rewrite foldl_snoc. intros (s1 & H1 & H2)%bind_Some.
    eapply rtc_r; [by apply IH|by eapply cluster_turn_step].
Qed.

Definition straddle : list ClusterTurn := straddle_call ++ straddle_leader ++ straddle_return.

(** Where the call is in the end, and what nodes 2 and 3 have at position 0. *)
Lemma straddle_outcome :
  (λ s, (s.1, log_of 2 s.2 !! 0%nat, log_of 3 s.2 !! 0%nat)) <$>
    cluster_turns (Some (mkCommand [x61])) straddle =
  Some (Returned 0, Some (mkLogEntry 0 2 (Some (mkCommand [x61]))),
    Some (mkLogEntry 0 2 (Some (mkCommand [x62])))).
Proof. vm_compute. reflexivity. Qed.

(** C38: an interrupted commit breaks log matching.  Three nodes with empty
    logs, and steps as in [log_matching]: a thread of the user calls
    [commit_command] on node 1, which leads term 1; before the call has read the term,
    node 2 leads term 2 and sends its own entry for position 0 to node 3; the call
    goes on, makes an entry of term 2 and leaves it in progress although node 1
    follows; node 1 leads term 3 and sends that entry to node 2.  Nodes 2 and 3 then
    have different commands at position 0 in the same term. *)
Theorem interrupted_commit_breaks_matching :
  ∃ promise c n m a b, log_cluster_init "demo" [1; 2; 3] demo_options demo_log_cluster ∧
    rtc (interrupted_step (Some (mkCommand [x61]))) (Called, demo_log_cluster)
      (Returned promise, c) ∧
    nodes (cluster c) !! 2 = Some n ∧ nodes (cluster c) !! 3 = Some m ∧
    logs_ (store n) !! 0%nat = Some a ∧ logs_ (store m) !! 0%nat = Some b ∧
    term_ a = term_ b ∧ command_ a ≠ command_ b.
Proof.
  pose proof straddle_outcome as Hout.
  destruct (cluster_turns _ straddle) as [[call c]|] eqn:Hrun; [|done].
  apply cluster_turns_steps in Hrun. cbn [fmap option_fmap option_map fst snd] in Hout.
  injection Hout as -> H2 H3.
  destruct (log_of_lookup _ _ _ _ H2) as (n & Hn & Ln).
  destruct (log_of_lookup _ _ _ _ H3) as (m & Hm & Lm).
  exists 0, c, n, m, (mkLogEntry 0 2 (Some (mkCommand [x61]))),
    (mkLogEntry 0 2 (Some (mkCommand [x62]))).
  split_and!; [apply demo_log_cluster_init|done..| | |done|done].
  - by rewrite Ln.
  - by rewrite Lm.
Qed.

(** ** Witness *)

(** Two calls on the leader of the demo cluster: a leader of term 2 is heard of after
    the first has been checked, while the second is about to be. *)
Lemma interrupted_promises_answered_once_witness :
  let '(users, n) := take_turns
    ([mkUserCall (Some demo_command) true Called; mkUserCall None false Called], demo_leader)
    [UserTurn 0; ExecutorTurn (AppendEntries (heartbeat 2 2 0)); UserTurn 1; UserTurn 0;
     UserTurn 0; UserTurn 0; UserTurn 0] in
  fault_ n ≠ Some PromiseAlreadySatisfied ∧
  (∀ p, pending_commit_ (context_ n) = Some p →
    promises_ (context_ n) !! N.to_nat (promise_ p) = Some None) ∧
  NoDup (held_promises users) ∧
  Forall (λ p, promises_ (context_ n) !! N.to_nat p = Some None ∧
    ∀ q, pending_commit_ (context_ n) = Some q → promise_ q ≠ p) (held_promises users) ∧
  ClusterNode_is_activated n = is_leader n.
Proof.
  apply (interrupted_promises_answered_once
    [mkUserCall (Some demo_command) true Called; mkUserCall None false Called] demo_leader).
  - apply demo_reachable.
  - repeat constructor.
Defined.
