(* ===== verification/CatchUp.v ===== *)
(** * Catching up with a leader

    A leader and one of its peers exchange broadcasts and answers until the log
    of the peer is the leader's.  The exchange is studied twice: on logs and the
    position [next_index_] alone ([round]), where it converges, and on the two
    nodes ([exchange]), which follow it. *)

From S2P Require Import Prelude Codec Platform LogEntry ContextStore ContextStoreFacts.
From S2P Require Import StoreTheorems NodeUtil RaftTypes OtherNode StateMachine Lifecycle Node.
From S2P Require Import StateMachineInterface RaftContext RaftContextFacts Election VoteFacts.
From S2P Require Import RaftStateMachine RaftStateMachineFacts ClusterNodeImpl.
From S2P Require Import ElectionRefinement NodeInvariant AppendEntries PeerFacts.
From S2P Require Import ReplicationTheorems Demo.

Local Open Scope N_scope.

(** ** On logs *)

Section logs.
  Context (term me : N) (L : list LogEntry).
  Implicit Types (F : list LogEntry) (k : N).

(** Two logs that agree on the term of a position agree up to it. *)
Definition matching F : Prop :=
  ∀ i a b, L !! i = Some a → F !! i = Some b → term_ a = term_ b →
    take (S i) F = take (S i) L.

(** One request for the peer's next position, its effect on the peer's log, and
    the position after the answer. *)
Definition round (p : N * list LogEntry) : N * list LogEntry :=
  let '(k, F) := p in
  let r := request_for term me k L in
  if decide (ae_entries r = []) then (N.pred k, F) else
  let '(ok, F', _) := replicate r F in
  (if ok then wrap64 (ae_leader_commit r + 1) else N.pred k, F').

Context (Hwf : log_wf L) (Hlen : N.of_nat (length L) < u64_size).

(** An entry without data cannot be told from a heartbeat. *)
Definition has_data (e : LogEntry) : Prop :=
  ∃ c, command_ e = Some c ∧ data c ≠ [].

Context (Hdata : Forall has_data L).

Lemma request_for_entry k e : L !! N.to_nat k = Some e →
  let r := request_for term me k L in
  entry_of r = e ∧ ae_leader_commit r = k ∧ ae_entries r ≠ [] ∧ ae_leader_id r = me ∧
  (k ≠ 0 → ∃ p, L !! N.to_nat (k - 1) = Some p ∧
     ae_prev_log_index r = k - 1 ∧ ae_prev_log_term r = term_ p).
Proof.
  intros He. destruct (Hwf _ _ He) as [Hid _].
  destruct (Forall_lookup_1 _ _ _ _ Hdata He) as (c & Hc & Hne).
  unfold request_for, entry_of. rewrite He. cbn. rewrite Hc. split_and!; try done.
  - destruct e as [i t [c'|]]; simplify_eq/=. rewrite N2Nat.id. by destruct c.
  - intros Hk. destruct (lookup_lt_is_Some_2 L (N.to_nat (k - 1))) as [p Hp].
    { apply lookup_lt_Some in He. lia. }
    exists p. rewrite (proj2 (N.ltb_lt 0 k)), Hp by lia.
    destruct (Hwf _ _ Hp) as [-> _]. by rewrite N2Nat.id.
Qed.

(** Nothing is left to send: the answer to the heartbeat moves the position back. *)
Lemma round_beyond k F : N.of_nat (length L) ≤ k → round (k, F) = (N.pred k, F).
Proof.
  intros Hk. unfold round, request_for. rewrite lookup_ge_None_2 by lia. by rewrite decide_True.
Qed.

(** An entry that continues a common prefix is accepted. *)
Lemma accept_next k e r F : L !! N.to_nat k = Some e → matching F → log_wf F →
  entry_of r = e → ae_leader_commit r = k → take (N.to_nat k) F = take (N.to_nat k) L →
  ∃ evs, accept r F = (true, take (S (N.to_nat k)) L, evs).
Proof.
  intros He Hm HF Hr Hk Hpre. unfold accept. rewrite Hk.
  assert (term_ e = ae_term r) as Ht by by rewrite <- Hr.
  assert (N.to_nat k < length L)%nat as HkL by by apply lookup_lt_Some in He.
  assert (take (S (N.to_nat k)) L = take (N.to_nat k) L ++ [e]) as HL by by apply take_S_r.
  assert (N.to_nat k ≤ length F)%nat as HkF.
  { apply (f_equal length) in Hpre. rewrite !length_take in Hpre. lia. }
  destruct (last F) as [x|] eqn:Hx.
  - destruct (last_wf _ _ HF Hx) as [Hid _].
    destruct ((id_ x =? k) && (term_ x =? ae_term r)) eqn:Hsame.
    { apply andb_true_iff in Hsame as [Hxk%N.eqb_eq Hxt%N.eqb_eq].
      exists []. f_equal. f_equal. rewrite last_lookup in Hx.
      replace (pred (length F)) with (N.to_nat k) in Hx by lia.
      rewrite <- (Hm _ _ _ He Hx) by congruence. rewrite take_ge; [done|lia]. }
    case_test; [eexists; by rewrite Hr, HL, Hpre|].
    case_test; [|lia]. eexists. rewrite Hr, HL, <- Hpre. by rewrite take_ge by lia.
  - apply last_None in Hx as ->. simpl in HkF. assert (k = 0) as -> by lia. simpl.
    rewrite Hr. destruct L; simplify_eq/=. by eexists.
Qed.

(** Every other request succeeds and extends the common prefix, or fails, moves
    the position back and at most shortens the peer's log. *)
Lemma round_entry k F : k < N.of_nat (length L) → matching F → log_wf F →
  round (k, F) = (k + 1, take (S (N.to_nat k)) L) ∨
  k ≠ 0 ∧ take (N.to_nat k) F ≠ take (N.to_nat k) L ∧
  ∃ j, round (k, F) = (k - 1, take j F).
Proof.
  intros Hk Hm HF. destruct (lookup_lt_is_Some_2 L (N.to_nat k)) as [e He]; [lia|].
  destruct (request_for_entry k e He) as (Hr & Hc & Hne & _ & Hprev).
  unfold round. set (r := request_for term me k L) in *. rewrite decide_False by done.
  unfold replicate. rewrite Hc.
  destruct (N.eqb_spec k 0) as [->|Hk0].
  { destruct (accept_next 0 e r F He Hm HF Hr Hc) as [evs ->]; [done|]. left.
    by rewrite wrap64_small by (unfold u64_size in *; lia). }
  destruct (Hprev Hk0) as (p & Hp & -> & ->).
  replace (N.pred k) with (k - 1) by lia.
  assert (∀ l : list LogEntry, take (N.to_nat k) l = take (S (N.to_nat (k - 1))) l) as Hk1.
  { intros l. f_equal. lia. }
  destruct (F !! N.to_nat (k - 1)) as [q|] eqn:Hq.
  - destruct (N.eqb_spec (term_ q) (term_ p)) as [Ht|Ht].
    + assert (take (N.to_nat k) F = take (N.to_nat k) L) as Hpre.
      { rewrite !Hk1. by apply (Hm _ _ _ Hp Hq). }
      destruct (accept_next k e r F He Hm HF Hr Hc Hpre) as [evs ->]. left.
      by rewrite wrap64_small by (unfold u64_size in *; lia).
    + right. split_and!; [done| |by eexists].
      rewrite !Hk1. intros Heq. apply (f_equal (.!! N.to_nat (k - 1))) in Heq.
      rewrite !lookup_take_lt in Heq by lia. congruence.
  - right. split_and!; [done| |exists (length F); by rewrite take_ge].
    rewrite !Hk1. intros Heq. apply (f_equal (.!! N.to_nat (k - 1))) in Heq.
    rewrite !lookup_take_lt in Heq by lia. congruence.
Qed.

Lemma matching_take j F : matching F → matching (take j F).
Proof.
  intros Hm i a b Ha Hb Ht. apply lookup_take_Some in Hb as [Hb Hj].
  rewrite take_take, (Nat.min_l (S i)) by lia. by apply (Hm i a b).
Qed.

Lemma matching_self j : matching (take j L).
Proof. apply matching_take. by intros i a b Ha Hb. Qed.

(** ** Convergence

    The peer agrees with the leader up to its next position, or it has the whole
    log and the position is the last one or the one after it. *)

Definition level (p : N * list LogEntry) : Prop :=
  p.1 ≠ 0 ∧ p.1 ≤ N.of_nat (length L) ∧ p.2 = take (N.to_nat p.1) L.

Definition caught_up (p : N * list LogEntry) : Prop :=
  p.2 = L ∧ (p.1 = N.of_nat (length L) ∨ p.1 + 1 = N.of_nat (length L)).

Lemma round_agreed k F : k < N.of_nat (length L) → matching F → log_wf F →
  take (N.to_nat k) F = take (N.to_nat k) L →
  round (k, F) = (k + 1, take (S (N.to_nat k)) L).
Proof. intros Hk Hm HF Hpre. by destruct (round_entry k F Hk Hm HF) as [|(_ & ? & _)]. Qed.

Lemma caught_up_round p : caught_up p → caught_up (round p).
Proof.
  destruct p as [k F]. intros [HF Hk]. cbn [fst snd] in *. subst F. destruct Hk as [Hk|Hk].
  - rewrite round_beyond by lia. split; simpl; [done|]. lia.
  - rewrite round_agreed; [|lia| |done|done].
    + split; simpl; [by rewrite take_ge by lia|lia].
    + intros i a b Ha Hb. done.
Qed.

Lemma caught_up_rounds m p : caught_up p → caught_up (Nat.iter m round p).
Proof. intros Hp. induction m as [|m IH]; [done|]. by apply caught_up_round. Qed.

Lemma level_rounds m p : level p → (length L ≤ N.to_nat p.1 + m)%nat →
  caught_up (Nat.iter m round p).
Proof.
  revert p. induction m as [|m IH]; intros [k F] (Hk0 & Hk & HF) Hm; cbn [fst snd] in *.
  - split; simpl; [|lia]. by rewrite HF, take_ge by lia.
  - destruct (decide (k = N.of_nat (length L))) as [->|Hne].
    { apply caught_up_rounds. split; simpl; [|by left].
      by rewrite HF, take_ge by lia. }
    rewrite Nat.iter_succ_r. apply IH.
    + rewrite HF, round_agreed; [|lia|apply matching_self|by apply log_wf_take|].
      * split_and!; simpl; [lia|lia|]. f_equal. lia.
      * by rewrite take_take, Nat.min_id.
    + rewrite HF, round_agreed; [simpl; lia|lia|apply matching_self|by apply log_wf_take|].
      by rewrite take_take, Nat.min_id.
Qed.

(** Any state converges in as many rounds as its position plus the length of the
    leader's log, and stays. *)
Lemma rounds_converge m k F : L ≠ [] → matching F → log_wf F →
  (N.to_nat k + length L ≤ m)%nat → caught_up (Nat.iter m round (k, F)).
Proof.
  intros HL. revert k F. induction m as [|m IH]; intros k F Hm HF Hle.
  { destruct L; simpl in Hle; [done|lia]. }
  assert (length L ≠ 0)%nat by by destruct L.
  rewrite Nat.iter_succ_r.
  destruct (decide (k < N.of_nat (length L))) as [Hk|Hk].
  - destruct (round_entry k F Hk Hm HF) as [->|(Hk0 & _ & j & ->)].
    + apply level_rounds; [|simpl; lia]. split_and!; simpl; [lia|lia|]. f_equal. lia.
    + apply IH; [by apply matching_take|by apply log_wf_take|lia].
  - rewrite round_beyond by lia. apply IH; [done..|lia].
Qed.

(** ** Commands without data *)

Lemma accept_length r F n : (length F ≤ n)%nat → (N.to_nat (ae_leader_commit r) < n)%nat →
  (length (accept r F).1.2 ≤ n)%nat.
Proof using Type.
  clear Hwf Hlen Hdata. intros HF Hr. unfold accept. destruct (last F) as [x|]; repeat case_test; simpl;
    rewrite ?length_app, ?length_take; simpl; lia.
Qed.

(** The peer's log does not reach an entry whose request looks like a heartbeat. *)
Lemma round_stuck i e k F : L !! i = Some e → (∀ c, command_ e = Some c → data c = []) →
  (length F ≤ i)%nat → (length (round (k, F)).2 ≤ i)%nat.
Proof using Hwf.
  clear Hlen Hdata.
  intros Hi He HF. unfold round. set (r := request_for term me k L). case_decide as Hr; [done|].
  assert (∃ e', L !! N.to_nat k = Some e' ∧ id_ e' = k) as (e' & Hk & _).
  { subst r. unfold request_for in Hr. simpl in Hr.
    destruct (L !! N.to_nat k) as [e'|] eqn:Hk; [|done].
    exists e'. split; [done|]. rewrite (proj1 (Hwf _ _ Hk)). by rewrite N2Nat.id. }
  assert (ae_leader_commit r = k) as Hc by (subst r; unfold request_for; simpl; by rewrite Hk).
  assert (N.to_nat k ≠ i) as Hne.
  { intros <-. rewrite Hi in Hk. simplify_eq. apply Hr. unfold r, request_for. simpl. rewrite Hi.
    destruct (command_ e') as [c|] eqn:Hcmd; [by apply He|done]. }
  assert ((N.to_nat k < i)%nat → (length (replicate r F).1.2 ≤ i)%nat) as Hlow.
  { intros Hlt. unfold replicate. rewrite Hc. case_test; [apply accept_length; [done|lia]|].
    destruct (F !! _); [|done]. case_test; [apply accept_length; [done|lia]|].
    simpl. rewrite length_take. lia. }
  assert ((i < N.to_nat k)%nat → (length (replicate r F).1.2 ≤ i)%nat) as Hhigh.
  { intros Hlt. unfold replicate. rewrite Hc. case_test; [lia|].
    assert (ae_prev_log_index r = k - 1) as ->.
    { unfold r, request_for. simpl. rewrite (proj2 (N.ltb_lt 0 k)) by lia.
      destruct (lookup_lt_is_Some_2 L (N.to_nat (k - 1))) as [p Hp];
        [apply lookup_lt_Some in Hk; lia|].
      rewrite Hp, (proj1 (Hwf _ _ Hp)). by rewrite N2Nat.id. }
    rewrite lookup_ge_None_2 by lia. done. }
  destruct (replicate r F) as [[ok F'] evs]. simpl in *. lia.
Qed.

Lemma rounds_stuck i e m p : L !! i = Some e → (∀ c, command_ e = Some c → data c = []) →
  (length p.2 ≤ i)%nat → (length (Nat.iter m round p).2 ≤ i)%nat.
Proof using Hwf.
  clear Hlen Hdata.
  intros Hi He Hp. induction m as [|m IH]; [done|]. simpl.
  destruct (Nat.iter m round p) as [k F]. by apply (round_stuck i e).
Qed.

End logs.

(** ** Broadcasts *)

Section nodes.
  Context `{PlatformSpec}.
  Implicit Types (n : Node).

(** What the timer makes a leader send to peer [id]. *)
Definition message n (id : N) : option Output :=
  o ← other_nodes_ (context_ n) !! id;
  if append_entries_ready o then
    Some (SendAppendEntries id (request_for (get_term n) (node_id_ (context_ n))
      (next_index_ o) (extended_log n)))
  else None.

Lemma broadcast_to_settled n id :
  log_wf (extended_log n) → settled n → fault_ n = None →
  broadcast_to (last (extended_log n)) n id =
    match message n id with Some o => output o n | None => n end.
Proof.
  intros Hwf Hp Hf. unfold broadcast_to, message. rewrite Hf.
  destruct (other_nodes_ (context_ n) !! id) as [o|]; [|done].
  rewrite broadcast_settled by done. simpl. by destruct (append_entries_ready o).
Qed.

(** With no commit out of place the timer only makes the leader send. *)
Lemma broadcast_outputs n :
  log_wf (extended_log n) → settled n → fault_ n = None →
  broadcast n = set_outputs
    (outputs_ n ++ omap (message n) (map_ids (other_nodes_ (context_ n)))) n.
Proof.
  intros Hwf Hp Hf. unfold broadcast.
  assert (get_pending_commit n = (pending_commit_ (context_ n), n)) as ->.
  { unfold get_pending_commit. destruct (pending_commit_ (context_ n)) as [p|] eqn:Hpend; [|done].
    by rewrite (Hp p Hpend), N.eqb_refl. }
  rewrite announced_log. apply foldl_outputs. intros outs id.
  pose proof (broadcast_to_settled (set_outputs outs n) id Hwf Hp Hf) as E.
  change (extended_log (set_outputs outs n)) with (extended_log n) in E.
  rewrite E. change (message (set_outputs outs n) id) with (message n id).
  by destruct (message n id).
Qed.

(** The request to peer [j] among outputs. *)
Definition sent_to (j : N) (o : Output) : option AppendEntriesRequest :=
  match o with SendAppendEntries id r => if id =? j then Some r else None | _ => None end.

Lemma broadcast_sends n j o :
  log_wf (extended_log n) → settled n → fault_ n = None →
  other_nodes_ (context_ n) !! j = Some o → append_entries_ready o = true →
  last (omap (sent_to j) (outputs_since n (broadcast n))) =
    Some (request_for (get_term n) (node_id_ (context_ n)) (next_index_ o) (extended_log n)).
Proof.
  intros Hwf Hp Hf Ho Hready. unfold outputs_since. rewrite broadcast_outputs by done.
  cbn [set_outputs outputs_]. rewrite drop_app_length.
  apply last_message with j.
  - apply elem_of_map_ids. by exists o.
  - unfold message. rewrite Ho. simpl. rewrite Hready. simpl. by rewrite N.eqb_refl.
  - intros id y Hy. unfold message in Hy. destruct (other_nodes_ _ !! id) as [o'|]; [|done].
    simpl in Hy. destruct (append_entries_ready o'); [|done]. simpl in Hy. by case_test_in Hy.
Qed.

(** ** One exchange

    The broadcast timer of the leader fires; its request to peer [j] arrives and
    is handled by the peer, and the answer is handled by the leader. *)

Definition exchange (j : N) (p : Node * Node) : Node * Node :=
  let '(leader, follower) := p in
  let leader' := run_input BroadcastTimer leader in
  match last (omap (sent_to j) (outputs_since leader leader')) with
  | None => (leader', follower)
  | Some r =>
      let '(resp, follower') := on_append_entries_requested r follower in
      (run_input (AppendEntriesAnswer j r resp) leader', follower')
  end.

(** A leader of [term] with log [L] that sends to its peer [j] from position [k]. *)
Record leading (j term : N) (L : list LogEntry) (k : N) n : Prop := {
  leading_reachable : reachable n;
  leading_state : raft_state n = kLeader;
  leading_fault : fault_ n = None;
  leading_pending : pending_commit_ (context_ n) = None;
  leading_log : logs_ (store n) = L;
  leading_term : get_term n = term;
  leading_peer : ∃ o, other_nodes_ (context_ n) !! j = Some o ∧
    append_entries_ready o = true ∧ next_index_ o = k;
}.

(** A node with log [F] that knows node [me], in a term up to [term], with a
    database that accepts its writes. *)
Record following (me term : N) (F : list LogEntry) n : Prop := {
  following_reachable : reachable n;
  following_valid : is_valid_node me n = true;
  following_log : logs_ (store n) = F;
  following_term : get_term n ≤ term;
  following_writable : writable (store n);
}.

Lemma broadcast_timer_eq n : reachable n → raft_state n = kLeader →
  run_input BroadcastTimer n = broadcast n.
Proof.
  intros Hr Hst. pose proof (ok_broadcast_timer _ (node_timers _ (reachable_ok _ Hr))) as Hb.
  rewrite decide_True in Hb by done. unfold run_input, on_broadcast_timer.
  rewrite Hb, broadcast_timedout_eq, Hst by by apply reachable_states. done.
Qed.

Lemma exchange_request j term L k n : leading j term L k n →
  last (omap (sent_to j) (outputs_since n (run_input BroadcastTimer n))) =
    Some (request_for term (node_id_ (context_ n)) k L).
Proof.
  intros [Hr Hst Hf Hp Hl Ht (o & Ho & Hready & Hk)].
  destruct (extended_log_no_commit n Hp) as [Hset E]. pose proof (reachable_log _ Hr) as Hwf.
  rewrite broadcast_timer_eq by done.
  rewrite (broadcast_sends n j o), E by (done || by rewrite E). by subst.
Qed.

Lemma on_broadcast_response_idle id index term success n :
  pending_commit_ (context_ n) = None → term ≤ get_term n →
  on_broadcast_response id index term success n = n.
Proof.
  intros Hp Hle. unfold get_term, current_term in Hle.
  unfold on_broadcast_response, handle_pending_commit_response.
  assert ((if current_term (store n) <=? term then (update_term term false n).2 else n) = n) as ->
    by (case_test; [by rewrite update_term_old|done]).
  by rewrite Hp.
Qed.

(** The timer and an answer that is not from a newer term leave a leader leading,
    and move its position. *)
Lemma leading_answer j term L k n r resp : leading j term L k n →
  ae_response_term resp ≤ term →
  let n' := run_input (AppendEntriesAnswer j r resp) (run_input BroadcastTimer n) in
  node_id_ (context_ n') = node_id_ (context_ n) ∧
  leading j term L (if ae_success resp then wrap64 (ae_leader_commit r + 1) else N.pred k) n'.
Proof.
  intros [Hr Hst Hf Hp Hl Ht (o & Ho & Hready & Hk)] Hle. cbv zeta.
  assert (reachable (run_input (AppendEntriesAnswer j r resp) (run_input BroadcastTimer n)))
    as Hr' by exact (reachable_run [BroadcastTimer; AppendEntriesAnswer j r resp] n Hr).
  destruct (extended_log_no_commit n Hp) as [Hset E]. pose proof (reachable_log _ Hr) as Hwf.
  revert Hr'. rewrite broadcast_timer_eq by done.
  rewrite broadcast_outputs by (done || by rewrite E).
  unfold run_input, RaftContext.on_append_entries_response.
  rewrite on_broadcast_response_idle by (done || by rewrite <-Ht in Hle).
  intros Hr'. split; [done|]. split; try done.
  exists (OtherNode.on_append_entries_response r resp o). cbn.
  rewrite lookup_alter_eq, Ho. split; [done|].
  unfold OtherNode.on_append_entries_response. destruct (ae_success resp); [done|].
  case_test; simpl; split; try done; lia.
Qed.

(** A request of the leader changes the log as in [round]. *)
Lemma following_request me term F r n : following me term F n →
  ae_leader_id r = me → ae_term r ≤ term →
  let '(resp, n') := on_append_entries_requested r n in
  ae_response_term resp ≤ term ∧
  if decide (ae_entries r = []) then ae_success resp = false ∧ following me term F n'
  else let '(ok, F', _) := replicate r F in ae_success resp = ok ∧ following me term F' n'.
Proof.
  intros [Hr Hv Hl Ht Hw] <- Hle.
  pose proof (on_append_entries_requested_writable r n Hw) as Hw'.
  pose proof (reachable_run [AppendEntries r] n Hr) as Hr'. simpl in Hr'.
  destruct (on_append_entries_requested r n) as [resp n'] eqn:E. cbn [snd] in *.
  destruct (success_follows _ _ _ _ Hv E) as (_ & Ht' & Hpeers).
  assert (∀ F', logs_ (store n') = F' → following (ae_leader_id r) term F' n') as Hfollow.
  { intros F' HF'. split; [done| |done|lia|done].
    unfold is_valid_node in *. by rewrite Hpeers. }
  case_decide as Hnil.
  - rewrite on_append_entries_requested_eq, Hnil in E by done. simpl in E. simplify_eq.
    split; [done|]. split; [done|]. apply Hfollow. by rewrite (proj1 (contacted_frame r n)).
  - pose proof (on_append_entries_requested_replicate r n Hv Hnil (reachable_log _ Hr)) as Hrep.
    rewrite Hl, E in Hrep. destruct (replicate r F) as [[ok F'] evs].
    destruct Hrep as (-> & HF' & _); [by left|]. split; [done|]. split; [done|by apply Hfollow].
Qed.

Lemma exchange_round j term L k F p :
  Forall (λ e, term_ e ≤ term) L →
  let me := node_id_ (context_ p.1) in
  leading j term L k p.1 → following me term F p.2 →
  let p' := exchange j p in
  let '(k', F') := round term me L (k, F) in
  node_id_ (context_ p'.1) = me ∧ leading j term L k' p'.1 ∧ following me term F' p'.2.
Proof.
  intros Hterms. destruct p as [n f]. cbn [fst snd]. intros Hn Hf. unfold exchange, round.
  rewrite (exchange_request _ _ _ _ _ Hn).
  set (r := request_for term (node_id_ (context_ n)) k L).
  assert (ae_term r ≤ term) as Hle.
  { unfold r, request_for. simpl. destruct (L !! N.to_nat k) as [e|] eqn:He; [|lia].
    by apply (Forall_lookup_1 _ _ _ _ Hterms He). }
  pose proof (following_request _ _ _ r f Hf eq_refl Hle) as Hreq.
  destruct (on_append_entries_requested r f) as [resp f']. destruct Hreq as [Hresp Hreq].
  destruct (leading_answer j term L k n r resp Hn Hresp) as [Hid Hlead]. cbn [fst snd].
  case_decide.
  - destruct Hreq as [Hok Hf']. rewrite Hok in Hlead. done.
  - destruct (replicate r F) as [[ok F'] evs]. destruct Hreq as [Hok Hf']. by rewrite Hok in Hlead.
Qed.

Lemma exchange_rounds j term L k F m p :
  Forall (λ e, term_ e ≤ term) L →
  let me := node_id_ (context_ p.1) in
  leading j term L k p.1 → following me term F p.2 →
  let '(k', F') := Nat.iter m (round term me L) (k, F) in
  let p' := Nat.iter m (exchange j) p in
  leading j term L k' p'.1 ∧ following me term F' p'.2.
Proof.
  intros Hterms. cbv zeta. revert k F p. induction m as [|m IH]; intros k F p Hn Hf; [done|].
  rewrite !Nat.iter_succ_r. pose proof (exchange_round j term L k F p Hterms Hn Hf) as Hx.
  cbv zeta in Hx. destruct (round _ _ _ (k, F)) as [k' F']. destruct Hx as (Hid & Hn' & Hf').
  rewrite <-Hid in Hf' |- *. by apply IH.
Qed.

(** C14: a follower catches up.  Take a leader with no commit in progress and a
    non-empty log, shorter than [2 ^ 64], whose entries carry data and terms up to
    the leader's, and one of its peers whose service is ready and whose database
    accepts its writes, in a term up to the leader's.  Their logs may differ in any way as long as entries with the
    same position and term have the same predecessors.  Let them exchange
    broadcasts and answers as often as the peer's next position plus the length
    of the leader's log, or more often: then the peer has exactly the leader's
    log, the next position is at or next to its end, and the leader still leads
    in the same term with the same log. *)
Theorem follower_catches_up j term L k F m p :
  L ≠ [] → N.of_nat (length L) < u64_size → Forall has_data L →
  Forall (λ e, term_ e ≤ term) L → matching L F →
  leading j term L k p.1 → following (node_id_ (context_ p.1)) term F p.2 →
  (N.to_nat k + length L ≤ m)%nat →
  let '(leader, follower) := Nat.iter m (exchange j) p in
  logs_ (store follower) = L ∧
  ∃ k', leading j term L k' leader ∧
    (k' = N.of_nat (length L) ∨ k' + 1 = N.of_nat (length L)).
Proof.
  intros Hne Hlen Hdata Hterms Hm Hn Hf Hle.
  assert (log_wf L) as Hwf by (rewrite <-(leading_log _ _ _ _ _ Hn);
    apply reachable_log, (leading_reachable _ _ _ _ _ Hn)).
  assert (log_wf F) as HF by (rewrite <-(following_log _ _ _ _ Hf);
    apply reachable_log, (following_reachable _ _ _ _ Hf)).
  pose proof (rounds_converge term (node_id_ (context_ p.1)) L Hwf Hlen Hdata m k F
    Hne Hm HF Hle) as Hr.
  pose proof (exchange_rounds j term L k F m p Hterms Hn Hf) as Hx. cbv zeta in Hx.
  destruct (Nat.iter m (round _ _ _) (k, F)) as [k' F'], (Nat.iter m (exchange j) p) as [n f].
  destruct Hr as [HF' Hk'], Hx as [Hn' Hf']. cbn [fst snd] in *. subst F'.
  split; [by destruct Hf'|eauto].
Qed.

(** C39: a command without data stops replication.  If an entry of the leader's log
    has no data, then a peer whose log does not reach it never gets it, nor
    anything after it, however often it exchanges broadcasts and answers with
    the leader: the request for the entry looks like a heartbeat to the peer, and
    the requests after it find no previous entry. *)
Theorem empty_command_stops_replication j term L k F m p i e :
  Forall (λ e, term_ e ≤ term) L → L !! i = Some e → (∀ c, command_ e = Some c → data c = []) →
  (length F ≤ i)%nat →
  leading j term L k p.1 → following (node_id_ (context_ p.1)) term F p.2 →
  let '(leader, follower) := Nat.iter m (exchange j) p in
  logs_ (store leader) = L ∧ (length (logs_ (store follower)) ≤ i)%nat.
Proof.
  intros Hterms Hi He HF Hn Hf.
  assert (log_wf L) as Hwf by (rewrite <-(leading_log _ _ _ _ _ Hn);
    apply reachable_log, (leading_reachable _ _ _ _ _ Hn)).
  pose proof (exchange_rounds j term L k F m p Hterms Hn Hf) as Hx. cbv zeta in Hx.
  pose proof (rounds_stuck term (node_id_ (context_ p.1)) L Hwf i e m (k, F) Hi He HF) as Hlen.
  destruct (Nat.iter m (round _ _ _) (k, F)) as [k' F'], (Nat.iter m (exchange j) p) as [n f].
  destruct Hx as [Hn' Hf']. cbn [fst snd] in *.
  split; [apply Hn'|]. by rewrite (following_log _ _ _ _ Hf').
Qed.

End nodes.

(** ** Witnesses

    Node 1 leads in term 2 with two entries of term 1; node 3 has three entries of
    term 0. *)

Definition demo_sender : Node (H := mem_platform) :=
  run_inputs [AppendEntries demo_request; AppendEntries (mkAppendEntriesRequest 1 2 0 1 [x62] 1);
    ServiceDiscovery 3 true true; ElectionTimer; ElectionTimer;
    RequestVoteAnswer (mkRequestVoteResponse 2 true)] (demo_node [1; 2; 3] 1).

Definition demo_receiver : Node (H := mem_platform) :=
  run_inputs [AppendEntries (mkAppendEntriesRequest 0 2 0 0 [x63] 0);
    AppendEntries (mkAppendEntriesRequest 0 2 0 0 [x64] 1);
    AppendEntries (mkAppendEntriesRequest 0 2 1 0 [x65] 2)] (demo_node [1; 2; 3] 3).

Definition demo_sent_log : list LogEntry :=
  [mkLogEntry 0 1 (Some (mkCommand [x61])); mkLogEntry 1 1 (Some (mkCommand [x62]))].

Lemma follower_catches_up_witness :
  length (logs_ (store demo_receiver)) = 3%nat ∧
  let '(leader, follower) := Nat.iter 4 (exchange 3) (demo_sender, demo_receiver) in
  logs_ (store follower) = demo_sent_log ∧
  ∃ k', leading 3 2 demo_sent_log k' leader ∧ (k' = 2 ∨ k' + 1 = 2).
Proof.
  split; [vm_compute; reflexivity|].
  apply (follower_catches_up 3 2 demo_sent_log 2 (logs_ (store demo_receiver)) 4
    (demo_sender, demo_receiver)).
  - discriminate.
  - vm_compute. reflexivity.
  - repeat constructor; eexists; (split; [reflexivity|discriminate]).
  - repeat constructor; vm_compute; discriminate.
  - intros [|[|[|i]]] a b; vm_compute; intros Ha Hb Ht; simplify_eq.
  - split; [apply demo_reachable|vm_compute; reflexivity..|].
    eexists. split; [vm_compute; reflexivity|split; reflexivity].
  - split; [apply demo_reachable|vm_compute; reflexivity..|vm_compute; discriminate|].
    eexists. split; [vm_compute; reflexivity|by apply mem_writable].
  - simpl. lia.
Defined.

(** The leader of three commits a command without data, which its peer's failure
    completes, and then another one. *)
Definition demo_empty : Node (H := mem_platform) :=
  run_inputs [CommitCommand (Some (mkCommand [])) false; BroadcastTimer;
    AppendEntriesAnswer 2 (mkAppendEntriesRequest 1 1 0 1 [] 0) (mkAppendEntriesResponse 1 false);
    CommitCommand (Some demo_command) false;
    AppendEntriesAnswer 2 (mkAppendEntriesRequest 1 1 0 1 [x61] 1) (mkAppendEntriesResponse 1 true)]
    demo_leader.

Lemma empty_command_stops_replication_witness :
  promises_ (context_ demo_empty) =
    [Some (mkCommandCommitResponse 0 (Some (mkCommand [])) true);
     Some (mkCommandCommitResponse 1 (Some demo_command) true)] ∧
  let '(leader, follower) := Nat.iter 100 (exchange 2) (demo_empty, demo_node [1; 2; 3] 2) in
  logs_ (store leader) =
    [mkLogEntry 0 1 (Some (mkCommand [])); mkLogEntry 1 1 (Some demo_command)] ∧
  (length (logs_ (store follower)) ≤ 0)%nat.
Proof.
  split; [vm_compute; reflexivity|].
  eapply (empty_command_stops_replication 2 1 _ 2 [] 100 (demo_empty, demo_node [1; 2; 3] 2) 0).
  - repeat constructor; vm_compute; discriminate.
  - vm_compute. reflexivity.
  - intros c [= <-]. reflexivity.
  - reflexivity.
  - split; [apply (reachable_run [_; _; _; _; _]), demo_reachable|vm_compute; reflexivity..|].
    eexists. split; [vm_compute; reflexivity|split; reflexivity].
  - split; [apply demo_node_reachable|vm_compute; reflexivity..|vm_compute; discriminate|].
    eexists. split; [vm_compute; reflexivity|by apply mem_writable].
Defined.
