(* ===== verification/CommitRound.v ===== *)
(** * A command from its commit to the logs

    A leader whose peers have the same log commits a command: what the broadcasts
    to one peer after the other and their answers do, from the call of the user to
    the answer of its promise, when all of them accept and when all refuse. *)

From S2P Require Import Prelude Codec Platform LogEntry ContextStore ContextStoreFacts.
From S2P Require Import StoreTheorems NodeUtil RaftTypes OtherNode StateMachine Lifecycle Node.
From S2P Require Import StateMachineInterface RaftContext RaftContextFacts Election VoteFacts.
From S2P Require Import RaftStateMachine RaftStateMachineFacts ClusterNodeImpl.
From S2P Require Import ElectionRefinement NodeInvariant AppendEntries CommitTheorems PeerFacts.
From S2P Require Import ReplicationTheorems CatchUp Demo.

Local Open Scope N_scope.

Section commit.
  Context `{PlatformSpec} (term : N) (L : list LogEntry) (c : Command).
  Implicit Types (n : Node) (V : gset N).

(** The entry of the command, the log with it, and what the user is told. *)
Definition new_entry : LogEntry := mkLogEntry (N.of_nat (length L)) term (Some c).
Definition new_log : list LogEntry := L ++ [new_entry].
Definition new_answer : CommandCommitResponse :=
  mkCommandCommitResponse (N.of_nat (length L)) (Some c) true.

(** ** The leader while the entry is offered *)

(** Its peer [j] is ready and gets the entry at position [k] next. *)
Definition sends_from (j k : N) n : Prop :=
  ∃ o, other_nodes_ (context_ n) !! j = Some o ∧
    append_entries_ready o = true ∧ next_index_ o = k.

(** The peers [V] have answered the new entry with [b], too few so far. *)
Definition gathering (b : bool) (q : N) (callback : bool) V n : Prop :=
  ∃ results, pending_commit_ (context_ n) = Some (mkPendingCommit new_entry q callback results) ∧
    logs_ (store n) = L ∧ (∀ id, results !! id = Some b ↔ id ∈ V) ∧
    (V = ∅ ∨ N.of_nat (size V) + 1 < majority_ (context_ n)).

Definition completed (q : N) n : Prop :=
  pending_commit_ (context_ n) = None ∧ logs_ (store n) = new_log ∧
  promised q n = Some (Some new_answer).

(** [q] is the promise of the call. *)
Record offering (b : bool) (q : N) (callback : bool) V n : Prop := {
  offering_reachable : reachable n;
  offering_state : raft_state n = kLeader;
  offering_fault : fault_ n = None;
  offering_term : get_term n = term;
  offering_writable : writable (store n);
  offering_peers : N.of_nat (size (other_nodes_ (context_ n))) + 1 < u32_size;
  offering_voters : V ⊆ dom (other_nodes_ (context_ n));
  offering_progress : gathering b q callback V n ∨ completed q n;
}.

Lemma commit_command_proposes command callback n :
  is_leader n = true → 1 < cluster_size_ (context_ n) → pending_commit_ (context_ n) = None →
  let p := N.of_nat (length (promises_ (context_ n))) in
  let e := mkLogEntry (logs_size (store n)) (current_term (store n)) command in
  commit_command command callback n =
    (p, on_context (Node.set_pending_commit (Some (mkPendingCommit e p callback ∅)))
          (on_context (λ c, set_promises (promises_ c ++ [None]) c) n)).
Proof.
  intros Hl Hsize Hp p e. unfold commit_command. fold p. set (n1 := on_context _ n).
  change (is_leader n1) with (is_leader n). rewrite Hl. simpl negb. cbv iota.
  change (cluster_size_ (context_ n1)) with (cluster_size_ (context_ n)).
  destruct (N.leb_spec (cluster_size_ (context_ n)) 1); [lia|].
  change (store n1) with (store n). fold e. unfold set_pending_commit.
  change (id_ (log_ (mkPendingCommit e p callback ∅))) with (logs_size (store n1)).
  rewrite N.eqb_refl. simpl negb. cbv iota.
  change (pending_commit_ (context_ n1)) with (pending_commit_ (context_ n)). by rewrite Hp.
Qed.

Lemma propose_offering b k callback n j : leading j term L k n → writable (store n) →
  N.of_nat (size (other_nodes_ (context_ n))) + 1 < u32_size → 1 < cluster_size_ (context_ n) →
  let n' := run_input (CommitCommand (Some c) callback) n in
  offering b (N.of_nat (length (promises_ (context_ n)))) callback ∅ n' ∧
  other_nodes_ (context_ n') = other_nodes_ (context_ n) ∧
  node_id_ (context_ n') = node_id_ (context_ n) ∧
  majority_ (context_ n') = majority_ (context_ n).
Proof.
  intros [Hr Hst Hf Hp Hl Ht Hpeer] Hw Hpeers Hsize.
  assert (reachable (run_input (CommitCommand (Some c) callback) n)) as Hr'
    by exact (reachable_run [CommitCommand (Some c) callback] n Hr).
  assert (is_leader n = true) as Hlead.
  { rewrite is_leader_state. by apply bool_decide_eq_true. }
  revert Hr'. simpl. rewrite commit_command_proposes by done. cbn [snd]. intros Hr'.
  split; [|done]. split; try done. left. exists ∅.
  split_and!; [|done|set_solver|by left]. unfold new_entry. by rewrite <-Hl, <-Ht.
Qed.

(** What it offers its peers is the log with the new entry, before and after the
    commit is complete. *)
Lemma offering_offers b q callback V n : offering b q callback V n →
  settled n ∧ extended_log n = new_log ∧ log_wf new_log.
Proof.
  intros [Hr _ _ _ _ _ _ [(results & Hp & Hl & _)|(Hp & Hl & _)]].
  - assert (settled n) as Hset.
    { intros p'. rewrite Hp. intros [= <-]. unfold logs_size. by rewrite Hl. }
    unfold extended_log. rewrite Hp, Hl. split_and!; [done..|].
    apply log_wf_snoc; [rewrite <-Hl; by apply reachable_log|done|by eexists].
  - destruct (extended_log_no_commit n Hp) as [Hset ->]. rewrite <-Hl.
    split_and!; [done..|by apply reachable_log].
Qed.

Lemma offering_request b q callback V j k n : offering b q callback V n → sends_from j k n →
  last (omap (sent_to j) (outputs_since n (run_input BroadcastTimer n))) =
    Some (request_for term (node_id_ (context_ n)) k new_log).
Proof.
  intros Hc (o & Ho & Hready & Hk).
  destruct (offering_offers _ _ _ _ _ Hc) as (Hset & E & Hwf). destruct Hc.
  rewrite broadcast_timer_eq by done.
  rewrite (broadcast_sends n j o), E by (done || by rewrite E). congruence.
Qed.

(** *** The answers of a peer *)

(** The node when it looks at the commit in progress: it has sent its requests and
    moved the position of peer [j]. *)
Definition answered (j : N) (r : AppendEntriesRequest) (resp : AppendEntriesResponse) n : Node :=
  on_context (λ c, set_other_nodes
    (alter (OtherNode.on_append_entries_response r resp) j (other_nodes_ c)) c)
    (run_input BroadcastTimer n).

Lemma answered_eq b q callback V j r resp n : offering b q callback V n →
  ae_response_term resp ≤ term →
  run_input (AppendEntriesAnswer j r resp) (run_input BroadcastTimer n) =
    handle_pending_commit_response j (ae_leader_commit r) (ae_response_term resp)
      (ae_success resp) (answered j r resp n).
Proof.
  intros Hc Hle. destruct (offering_offers _ _ _ _ _ Hc) as (Hset & E & Hwf).
  destruct Hc as [Hr Hst Hf Ht _ _ _ _]. unfold answered. rewrite broadcast_timer_eq by done.
  rewrite broadcast_outputs by (done || by rewrite E).
  unfold run_input, RaftContext.on_append_entries_response, on_broadcast_response.
  case_test; [|done]. rewrite update_term_old; [done|]. rewrite <-Ht in Hle. exact Hle.
Qed.

(** All but the outputs and the positions is the same then. *)
Record only_moved (j : N) (r : AppendEntriesRequest) (resp : AppendEntriesResponse) n m : Prop := {
  only_moved_store : store m = store n;
  only_moved_state : raft_state m = raft_state n;
  only_moved_fault : fault_ m = fault_ n;
  only_moved_id : node_id_ (context_ m) = node_id_ (context_ n);
  only_moved_majority : majority_ (context_ m) = majority_ (context_ n);
  only_moved_pending : pending_commit_ (context_ m) = pending_commit_ (context_ n);
  only_moved_promises : promises_ (context_ m) = promises_ (context_ n);
  only_moved_peers : other_nodes_ (context_ m) =
    alter (OtherNode.on_append_entries_response r resp) j (other_nodes_ (context_ n));
}.

Lemma answered_only_moved b q callback V j r resp n : offering b q callback V n →
  only_moved j r resp n (answered j r resp n).
Proof.
  intros Hc. destruct (offering_offers _ _ _ _ _ Hc) as (Hset & E & Hwf). destruct Hc.
  unfold answered. rewrite broadcast_timer_eq by done.
  by rewrite broadcast_outputs by (done || by rewrite E).
Qed.

Lemma only_moved_progress b q callback V j r resp n m : only_moved j r resp n m →
  gathering b q callback V n ∨ completed q n → gathering b q callback V m ∨ completed q m.
Proof.
  intros [Hs _ _ _ Hmaj Hp Hprom _].
  unfold gathering, completed, promised. by rewrite Hs, Hmaj, Hp, Hprom.
Qed.

(** Completing a commit with an open promise is no fault. *)
Lemma complete_commit_fault q e result callback n : open_promise q n →
  fault_ (complete_commit q e result callback n) = fault_ n.
Proof.
  intros Hop. unfold complete_commit.
  set (n1 := if result then _ else n).
  assert (open_promise q n1 ∧ fault_ n1 = fault_ n) as [Hop1 Hf].
  { subst n1. destruct result; [|done]. unfold open_promise. rewrite invoke_commit_callback_context.
    split; [done|]. unfold invoke_commit_callback. by case_test. }
  clearbody n1. rewrite set_value_open by done. by destruct callback.
Qed.

(** The answers counted are those of [V] and the node's own. *)
Lemma count_results_voters b V (peers : gmap N OtherNode) results :
  (∀ id, results !! id = Some b ↔ id ∈ V) → V ⊆ dom peers →
  N.of_nat (size peers) + 1 < u32_size →
  count_results b (map_ids peers) results = N.of_nat (size V) + 1.
Proof.
  intros Hres Hsub Hsize. rewrite count_results_length.
  assert (size V ≤ size peers)%nat as Hle by (rewrite <-size_dom; by apply subseteq_size).
  assert (filter (λ id, results !! id = Some b) (map_ids peers) ≡ₚ elements V) as ->.
  { apply NoDup_Permutation; [apply NoDup_filter, map_ids_NoDup|apply NoDup_elements|].
    intros id. rewrite list_elem_of_filter, elem_of_elements, Hres, elem_of_map_ids.
    split; [by intros []|]. intros Hid. split; [done|]. apply elem_of_dom, Hsub, Hid. }
  change (length (elements V)) with (size V). rewrite wrap32_small; lia.
Qed.

(** What changes neither role, term nor set of peers only has to show its progress. *)
Lemma offering_frame b q callback V V' n n' : offering b q callback V n → reachable n' →
  raft_state n' = raft_state n → fault_ n' = fault_ n → get_term n' = get_term n →
  writable (store n') → dom (other_nodes_ (context_ n')) = dom (other_nodes_ (context_ n)) →
  V' ⊆ dom (other_nodes_ (context_ n)) → gathering b q callback V' n' ∨ completed q n' →
  offering b q callback V' n'.
Proof.
  intros [] Hr Hst Hf Ht Hw Hd HV Hp. split; try congruence.
  - by rewrite <-size_dom, Hd, size_dom.
  - by rewrite Hd.
Qed.

(** An answer [b] of peer [j] for the new entry. *)
Lemma counted_progress b q callback V j n : open_promise q n → writable (store n) →
  gathering b q callback V n → j ∈ dom (other_nodes_ (context_ n)) →
  V ⊆ dom (other_nodes_ (context_ n)) →
  N.of_nat (size (other_nodes_ (context_ n))) + 1 < u32_size →
  let n' := handle_pending_commit_response j (N.of_nat (length L)) term b n in
  calm n n' ∧ fault_ n' = fault_ n ∧ other_nodes_ (context_ n') = other_nodes_ (context_ n) ∧
  writable (store n') ∧ (gathering b q callback ({[j]} ∪ V) n' ∨ completed q n').
Proof.
  intros Hop Hw (results & Hp & Hl & Hres & Hfew) Hj HV Hpeers n'.
  assert (calm n n') as Hcalm by apply handle_pending_commit_response_calm.
  assert (other_nodes_ (context_ n') = other_nodes_ (context_ n)) as Hothers
    by apply handle_pending_commit_response_peers.
  split; [done|].
  assert (∀ id, <[j:=b]> results !! id = Some b ↔ id ∈ {[j]} ∪ V) as Hres'.
  { intros id. rewrite elem_of_union, elem_of_singleton, <-Hres, lookup_insert_Some.
    destruct (decide (id = j)) as [->|]; naive_solver. }
  clear Hcalm. revert Hothers. unfold n', handle_pending_commit_response. rewrite Hp.
  cbn [log_ id_ term_ new_entry]. rewrite !N.eqb_refl. cbn [negb orb].
  cbn [result_map_ promise_ callback_ with_result log_]. cbv zeta.
  set (n1 := on_context (Node.set_pending_commit (Some _)) n).
  change (other_nodes_ (context_ n1)) with (other_nodes_ (context_ n)).
  rewrite (count_results_voters b ({[j]} ∪ V)) by (done || set_solver).
  case_test.
  - intros _. split_and!; [done..|]. left. exists (<[j:=b]> results).
    split_and!; [done..|by right].
  - set (n2 := on_context (Node.set_pending_commit None) n1). intros Hothers.
    assert (open_promise q n2) as Hop2 by exact Hop.
    destruct (complete_commit_spec q new_entry true callback n2 Hop2) as (E1 & E2 & E3 & E4).
    assert (store n2 = store n) as Hs2 by done.
    destruct (push_log_writable new_entry (store n)) as (d & Epush & Hd);
      [done|unfold logs_size; cbn; by rewrite Hl|by eexists|].
    rewrite Hs2, Epush in E2.
    split_and!; [by rewrite complete_commit_fault|done| |right; split_and!].
    + rewrite E2. by exists d.
    + by rewrite E3.
    + rewrite E2. cbn. by rewrite Hl.
    + exact E1.
Qed.

Lemma only_moved_dom j r resp n m : only_moved j r resp n m →
  dom (other_nodes_ (context_ m)) = dom (other_nodes_ (context_ n)).
Proof. intros []. rewrite only_moved_peers0. apply dom_alter_L. Qed.

(** Moving the position of a peer is no progress. *)
Lemma only_moved_offering b q callback V V' j r resp n m : offering b q callback V n →
  only_moved j r resp n m → reachable m → V' ⊆ dom (other_nodes_ (context_ n)) →
  completed q m ∨ V' = V → offering b q callback V' m.
Proof.
  intros Hc Hm Hr HV Hwhy. pose proof (only_moved_dom _ _ _ _ _ Hm) as Hd.
  pose proof (only_moved_progress b q callback V _ _ _ _ _ Hm (offering_progress _ _ _ _ _ Hc)) as Hp.
  destruct Hm as [Hs Hst Hf _ _ _ _ _].
  apply (offering_frame b _ _ V _ n m); try done; unfold get_term; rewrite ?Hs; try done.
  - apply Hc.
  - destruct Hwhy as [| ->]; [by right|done].
Qed.

(** Nor is an answer that is not for the entry of a commit in progress. *)
Lemma not_counted b q callback V j i n : gathering b q callback V n ∧ i ≠ N.of_nat (length L) ∨
  completed q n → handle_pending_commit_response j i term b n = n.
Proof.
  unfold handle_pending_commit_response. intros [[(results & Hp & _) Hi]|[Hp _]]; rewrite Hp; [|done].
  cbn [log_ id_ new_entry]. by rewrite (proj2 (N.eqb_neq _ _)).
Qed.

Lemma counted_offering b q callback V j r resp n m n' : offering b q callback V n →
  only_moved j r resp n m → gathering b q callback V m → j ∈ dom (other_nodes_ (context_ n)) →
  n' = handle_pending_commit_response j (N.of_nat (length L)) term b m → reachable n' →
  offering b q callback ({[j]} ∪ V) n' ∧ other_nodes_ (context_ n') = other_nodes_ (context_ m) ∧
  node_id_ (context_ n') = node_id_ (context_ m) ∧
  majority_ (context_ n') = majority_ (context_ m).
Proof.
  intros Hc Hm Hg Hj E Hr. pose proof (only_moved_dom _ _ _ _ _ Hm) as Hdom.
  pose proof (offering_voters _ _ _ _ _ Hc) as HV.
  destruct (counted_progress b q callback V j m) as (Hcalm & Hf & Ho & Hw & Hp);
    rewrite ?Hdom; try done.
  - destruct Hg as (results & Hp & _). unfold open_promise.
    rewrite (only_moved_pending _ _ _ _ _ Hm) in Hp. rewrite (only_moved_promises _ _ _ _ _ Hm).
    apply (pending_leads n _ (reachable_ok _ (offering_reachable _ _ _ _ _ Hc)) Hp).
  - rewrite (only_moved_store _ _ _ _ _ Hm). apply Hc.
  - rewrite <-size_dom, Hdom, size_dom. apply Hc.
  - rewrite <-E in *. split; [|split_and!; [done|apply Hcalm|apply Hcalm]].
    apply (offering_frame b _ _ V _ n n'); try done.
    + rewrite (raft_state_calm _ _ Hcalm). apply Hm.
    + rewrite Hf. apply Hm.
    + unfold get_term, current_term.
      by rewrite (calm_term _ _ Hcalm), (only_moved_store _ _ _ _ _ Hm).
    + by rewrite Ho.
    + set_solver.
Qed.

(** An answer [b]: [V] gains the peer if the request was for the new entry, and the
    commit is complete when [V] and the node are a majority. *)
Lemma answer_offering b q callback V j r resp n : offering b q callback V n →
  j ∈ dom (other_nodes_ (context_ n)) → ae_response_term resp = term → ae_success resp = b →
  let n' := run_input (AppendEntriesAnswer j r resp) (run_input BroadcastTimer n) in
  offering b q callback (if ae_leader_commit r =? N.of_nat (length L) then {[j]} ∪ V else V) n' ∧
  other_nodes_ (context_ n') =
    alter (OtherNode.on_append_entries_response r resp) j (other_nodes_ (context_ n)) ∧
  node_id_ (context_ n') = node_id_ (context_ n) ∧
  majority_ (context_ n') = majority_ (context_ n).
Proof.
  intros Hc Hj Ht Hok n'.
  pose proof (reachable_run [BroadcastTimer; AppendEntriesAnswer j r resp] n
    (offering_reachable _ _ _ _ _ Hc)) as Hr. change (reachable n') in Hr.
  pose proof (answered_eq b q callback V j r resp n Hc ltac:(lia)) as E.
  pose proof (answered_only_moved _ _ _ _ j r resp _ Hc) as Hm.
  change (run_input _ _) with n' in E. rewrite Ht, Hok in E. set (m := answered j r resp n) in *.
  rewrite <-(only_moved_peers _ _ _ _ _ Hm), <-(only_moved_id _ _ _ _ _ Hm),
    <-(only_moved_majority _ _ _ _ _ Hm).
  pose proof (offering_voters _ _ _ _ _ Hc) as HV.
  destruct (only_moved_progress b q callback V _ _ _ _ _ Hm (offering_progress _ _ _ _ _ Hc))
    as [Hg|Hd]; [destruct (N.eqb_spec (ae_leader_commit r) (N.of_nat (length L))) as [Hi|Hi]|].
  - rewrite Hi in E. by apply (counted_offering b q callback V j r resp n).
  - rewrite (not_counted b q callback V) in E by (by left). rewrite E in *.
    split; [|done]. eapply only_moved_offering; eauto.
  - rewrite (not_counted b q callback V) in E by (by right). rewrite E in *.
    split; [|done]. eapply only_moved_offering; eauto. case_test; set_solver.
Qed.

(** ** A peer *)

Context (Hlen : N.of_nat (length L) + 1 < u64_size).
Context (Hdata : Forall has_data L) (Hc : data c ≠ []) (Hterms : Forall (λ e, term_ e ≤ term) L).

Lemma new_log_data : Forall has_data new_log.
Proof. apply Forall_app_2; [done|]. constructor; [by exists c|done]. Qed.

Lemma new_log_terms : Forall (λ e, term_ e ≤ term) new_log.
Proof. apply Forall_app_2; [done|]. by constructor; [simpl|]. Qed.

Lemma new_log_matching : matching new_log L.
Proof.
  intros i a b Ha Hb _. apply lookup_lt_Some in Hb. unfold new_log.
  by rewrite take_app_le by lia.
Qed.

Lemma response_term r n : is_valid_node (ae_leader_id r) n = true →
  ae_response_term (on_append_entries_requested r n).1 = get_term n.
Proof.
  intros Hv. rewrite on_append_entries_requested_eq by done. cbv zeta.
  destruct (_ =? _)%nat; [done|]. destruct (request_local_commit _ _). case_test; [done|].
  destruct (log _ _); [|done]. by destruct (negb _).
Qed.

Lemma new_log_length k : k ≤ N.of_nat (length L) →
  N.of_nat (length new_log) < u64_size ∧ k < N.of_nat (length new_log).
Proof. unfold new_log. rewrite length_app. simpl. lia. Qed.

(** What a peer with log [F] does with a request for position [k]. *)
Lemma offered me k F f : log_wf new_log → following me term F f → get_term f = term →
  k ≤ N.of_nat (length L) →
  let r := request_for term me k new_log in
  let '(resp, f') := on_append_entries_requested r f in
  let '(ok, F', _) := replicate r F in
  ae_leader_commit r = k ∧ ae_response_term resp = term ∧ ae_success resp = ok ∧
  following me term F' f' ∧ get_term f' = term.
Proof.
  intros Hwf Hf Hft Hk r. destruct (new_log_length k Hk) as [Hlen' Hk2].
  destruct (lookup_lt_is_Some_2 new_log (N.to_nat k)) as [e He]; [lia|].
  destruct (request_for_entry term me new_log Hwf Hlen' new_log_data k e He)
    as (Hentry & Hcommit & Hne & Hid & _). fold r in Hentry, Hcommit, Hne, Hid.
  assert (ae_term r ≤ term) as Hrt.
  { change (ae_term r) with (term_ (entry_of r)). rewrite Hentry.
    by apply (Forall_lookup_1 _ _ _ _ new_log_terms He). }
  pose proof (following_request me term F r f Hf Hid Hrt) as Hreq.
  assert (is_valid_node (ae_leader_id r) f = true) as Hv by (rewrite Hid; apply Hf).
  pose proof (response_term r f Hv) as Hresp.
  destruct (on_append_entries_requested r f) as [resp f'] eqn:E. simpl in Hresp.
  destruct (success_follows _ _ _ _ Hv E) as (_ & Ht' & _).
  destruct Hreq as [_ Hreq]. rewrite decide_False in Hreq by done.
  destruct (replicate r F) as [[ok F'] evs]. destruct Hreq as [Hok Hf'].
  split_and!; [done|congruence|done..|]. rewrite Ht', Hft. lia.
Qed.

(** At or just before the end of its log, a peer that has [L] accepts. *)
Lemma level_accepts me k : log_wf new_log → log_wf L →
  k ≤ N.of_nat (length L) → N.of_nat (length L) ≤ k + 1 →
  ∃ evs, replicate (request_for term me k new_log) L =
    (true, take (S (N.to_nat k)) new_log, evs).
Proof.
  intros Hwf HL Hk Hk'. destruct (new_log_length k Hk) as [Hlen' Hk2].
  destruct (lookup_lt_is_Some_2 new_log (N.to_nat k)) as [e He]; [lia|].
  destruct (request_for_entry term me new_log Hwf Hlen' new_log_data k e He)
    as (_ & _ & Hne & _ & _).
  pose proof (round_agreed term me new_log Hwf Hlen' new_log_data k L Hk2 new_log_matching HL)
    as Hround.
  specialize (Hround ltac:(unfold new_log; by rewrite take_app_le by lia)).
  unfold round in Hround. rewrite decide_False in Hround by done.
  destruct (replicate _ L) as [[ok F'] evs]. exists evs.
  destruct ok; injection Hround; intros HF' Hnext; [by subst F'|lia].
Qed.

(** A log without the last entry of [L]. *)
Definition misses_last (F : list LogEntry) : Prop :=
  ∃ l, last L = Some l ∧ ∀ p, F !! pred (length L) = Some p → term_ p ≠ term_ l.

(** A peer that misses the last entry of [L] refuses the new one. *)
Lemma missing_refuses me F : log_wf new_log → misses_last F →
  ∃ F' evs, replicate (request_for term me (N.of_nat (length L)) new_log) F = (false, F', evs) ∧
    (length F' < length L)%nat.
Proof.
  intros Hwf (l & Hl & Hmiss). rewrite last_lookup in Hl.
  assert (pred (length L) < length L)%nat as Hpos by by apply lookup_lt_Some in Hl.
  destruct (new_log_length (N.of_nat (length L))) as [Hlen' Hk2]; [lia|].
  destruct (lookup_lt_is_Some_2 new_log (N.to_nat (N.of_nat (length L)))) as [e He]; [lia|].
  destruct (request_for_entry term me new_log Hwf Hlen' new_log_data _ e He)
    as (_ & Hcommit & _ & _ & Hprev).
  destruct Hprev as (p & Hp & Hpi & Hpt); [lia|].
  assert (N.to_nat (N.of_nat (length L) - 1) = pred (length L)) as Hi by lia.
  rewrite Hi in Hp. unfold new_log in Hp. rewrite lookup_app_l in Hp by lia.
  rewrite Hl in Hp. injection Hp as <-.
  unfold replicate. rewrite Hcommit, Hpi, Hpt, Hi. rewrite (proj2 (N.eqb_neq _ _)) by lia.
  destruct (F !! pred (length L)) as [x|] eqn:Hx.
  - rewrite (proj2 (N.eqb_neq _ _)) by by apply Hmiss. do 2 eexists. split; [done|].
    rewrite length_take. lia.
  - do 2 eexists. split; [done|]. apply lookup_ge_None_1 in Hx. lia.
Qed.

(** ** Exchanges *)

(** Peer [j] gets position [k] next; the other peers get what they got before. *)
Record moved (j k : N) n n' : Prop := {
  moved_id : node_id_ (context_ n') = node_id_ (context_ n);
  moved_majority : majority_ (context_ n') = majority_ (context_ n);
  moved_peer : sends_from j k n';
  moved_others i : i ≠ j → other_nodes_ (context_ n') !! i = other_nodes_ (context_ n) !! i;
}.

Lemma moved_trans j k k' n1 n2 n3 : moved j k n1 n2 → moved j k' n2 n3 → moved j k' n1 n3.
Proof. intros [] []. split; [congruence..|done|]. intros i Hi. rewrite moved_others1; auto. Qed.

(** One broadcast to peer [j] and the answer to it, [b]. *)
Lemma exchange_answered b q callback V j k F F' evs p :
  offering b q callback V p.1 → sends_from j k p.1 →
  following (node_id_ (context_ p.1)) term F p.2 → get_term p.2 = term →
  k ≤ N.of_nat (length L) →
  replicate (request_for term (node_id_ (context_ p.1)) k new_log) F = (b, F', evs) →
  let p' := exchange j p in
  offering b q callback (if k =? N.of_nat (length L) then {[j]} ∪ V else V) p'.1 ∧
  moved j (if b then k + 1 else N.pred k) p.1 p'.1 ∧
  following (node_id_ (context_ p.1)) term F' p'.2 ∧ get_term p'.2 = term.
Proof.
  destruct p as [n f]. cbn [fst snd]. intros Hn Hj Hf Hft Hk Hrep. unfold exchange.
  rewrite (offering_request _ _ _ _ _ _ _ Hn Hj).
  destruct (offering_offers _ _ _ _ _ Hn) as (_ & _ & Hwf).
  pose proof (offered (node_id_ (context_ n)) k F f Hwf Hf Hft Hk) as Hoff.
  cbv zeta in Hoff. set (r := request_for _ _ _ _) in *. rewrite Hrep in Hoff.
  destruct (on_append_entries_requested r f) as [resp f'].
  destruct Hoff as (Hi & Ht & Hok & Hf' & Hft'). cbn [fst snd].
  destruct Hj as (o & Ho & Hready & Hnext).
  destruct (answer_offering _ _ _ _ j r resp _ Hn) as (Hn' & Hothers & Hid & Hmaj); [|done..|].
  { apply elem_of_dom. by eexists. }
  rewrite Hi in Hn'. split; [exact Hn'|]. split; [|done]. split; [done..| |].
  - exists (OtherNode.on_append_entries_response r resp o).
    rewrite Hothers, lookup_alter_eq, Ho. split; [done|].
    unfold OtherNode.on_append_entries_response. rewrite Hok, Hi. destruct b.
    + split; [done|]. simpl. apply wrap64_small. lia.
    + case_test; simpl; (split; [done|lia]).
  - intros i Hne. rewrite Hothers. by apply lookup_alter_ne.
Qed.

Lemma exchange_accepted q callback V j k p : offering true q callback V p.1 → sends_from j k p.1 →
  following (node_id_ (context_ p.1)) term L p.2 → get_term p.2 = term →
  k ≤ N.of_nat (length L) → N.of_nat (length L) ≤ k + 1 →
  let p' := exchange j p in
  offering true q callback (if k =? N.of_nat (length L) then {[j]} ∪ V else V) p'.1 ∧
  moved j (k + 1) p.1 p'.1 ∧
  following (node_id_ (context_ p.1)) term (take (S (N.to_nat k)) new_log) p'.2 ∧
  get_term p'.2 = term.
Proof.
  intros Hn Hj Hf Hft Hk Hk'. destruct (offering_offers _ _ _ _ _ Hn) as (_ & _ & Hwf).
  assert (log_wf L) as HL.
  { replace L with (take (length L) new_log); [by apply log_wf_take|].
    unfold new_log. by rewrite take_app_length. }
  destruct (level_accepts (node_id_ (context_ p.1)) k Hwf HL Hk Hk') as [evs Hrep].
  by apply (exchange_answered true q callback V j k L _ evs).
Qed.

(** One exchange from the end of the log, two from its last entry. *)
Definition rounds_from (k : N) : nat := if k =? N.of_nat (length L) then 1 else 2.

Definition at_end (k : N) : Prop := k = N.of_nat (length L) ∨ k + 1 = N.of_nat (length L).

Lemma peer_served q callback V j k p : offering true q callback V p.1 → sends_from j k p.1 →
  following (node_id_ (context_ p.1)) term L p.2 → get_term p.2 = term → at_end k →
  let p' := Nat.iter (rounds_from k) (exchange j) p in
  offering true q callback ({[j]} ∪ V) p'.1 ∧ moved j (N.of_nat (length L) + 1) p.1 p'.1 ∧
  logs_ (store p'.2) = new_log.
Proof.
  intros Hn Hj Hf Hft Hk.
  assert (∀ p, offering true q callback V p.1 → sends_from j (N.of_nat (length L)) p.1 →
    following (node_id_ (context_ p.1)) term L p.2 → get_term p.2 = term →
    let p' := exchange j p in
    offering true q callback ({[j]} ∪ V) p'.1 ∧ moved j (N.of_nat (length L) + 1) p.1 p'.1 ∧
    logs_ (store p'.2) = new_log) as Hlast.
  { clear p k Hn Hj Hf Hft Hk. intros p Hn Hj Hf Hft.
    destruct (exchange_accepted _ _ _ _ _ p Hn Hj Hf Hft) as (Hn' & Hm & Hf' & _); [lia..|].
    rewrite N.eqb_refl in Hn'. split; [done|]. split; [done|].
    rewrite (following_log _ _ _ _ Hf'). apply take_ge. unfold new_log. rewrite length_app.
    simpl. lia. }
  unfold rounds_from. destruct (N.eqb_spec k (N.of_nat (length L))) as [->|Hne].
  - by apply Hlast.
  - destruct Hk as [|Hk]; [done|].
    destruct (exchange_accepted _ _ _ _ _ p Hn Hj Hf Hft) as (Hn' & Hm & Hf' & Hft'); [lia..|].
    rewrite (proj2 (N.eqb_neq _ _) Hne), Hk in *. cbn [Nat.iter nat_rect].
    destruct (Hlast (exchange j p)) as (Hn2 & Hm2 & Hlog); try done.
    + apply Hm.
    + rewrite (moved_id _ _ _ _ Hm).
      replace (take (S (N.to_nat k)) new_log) with L in Hf'; [done|].
      unfold new_log. rewrite take_app_length'; [done|lia].
    + split; [done|]. split; [by eapply moved_trans|done].
Qed.

(** *** One peer after the other *)

(** A peer: its identifier, the position the leader sends it next, and the node. *)
Definition Peer : Type := N * N * Node.

Definition peer_ids (peers : list Peer) : list N := (λ peer, peer.1.1) <$> peers.

Fixpoint replicate_to (peers : list Peer) n : Node * list Node :=
  match peers with
  | [] => (n, [])
  | (j, k, f) :: peers =>
      let '(n, f) := Nat.iter (rounds_from k) (exchange j) (n, f) in
      let '(n, fs) := replicate_to peers n in
      (n, f :: fs)
  end.

(** The leader's part, for peers that are all served in the same way: they satisfy [P],
    which the service of another peer does not change, answer [b], end with a log in
    [Q] and get position [k'] next. *)
Lemma replicate_to_offering b q callback k' (P : Node → Peer → Prop) (Q : list LogEntry → Prop) :
  (∀ V j k f n, offering b q callback V n → P n (j, k, f) →
    let p' := Nat.iter (rounds_from k) (exchange j) (n, f) in
    offering b q callback ({[j]} ∪ V) p'.1 ∧ moved j k' n p'.1 ∧ Q (logs_ (store p'.2))) →
  (∀ j n n' peer, moved j k' n n' → peer.1.1 ≠ j → P n peer → P n' peer) →
  ∀ peers V n, offering b q callback V n → NoDup (peer_ids peers) → Forall (P n) peers →
  let '(n', fs) := replicate_to peers n in
  offering b q callback (list_to_set (peer_ids peers) ∪ V) n' ∧
  majority_ (context_ n') = majority_ (context_ n) ∧
  Forall (λ f, Q (logs_ (store f))) fs ∧ length fs = length peers ∧
  Forall (λ j, sends_from j k' n') (peer_ids peers) ∧
  (∀ i, i ∉ peer_ids peers → other_nodes_ (context_ n') !! i = other_nodes_ (context_ n) !! i).
Proof.
  intros Hserve Hkeep peers.
  induction peers as [|[[j k] f] peers IH]; intros V n Hn Hnd Hpeers.
  { cbn. rewrite (left_id_L ∅ (∪)). by split_and!. }
  cbn [replicate_to]. change (peer_ids ((j, k, f) :: peers)) with (j :: peer_ids peers) in *.
  apply NoDup_cons in Hnd as [Hj Hnd]. apply Forall_cons in Hpeers as [Hp Hpeers].
  destruct (Hserve V j k f n Hn Hp) as (Hn1 & Hm & Hlog).
  destruct (Nat.iter _ _ _) as [n1 f1]. cbn [fst snd] in *.
  specialize (IH _ n1 Hn1 Hnd). destruct (replicate_to peers n1) as [n' fs].
  destruct IH as (Hn' & Hmaj & Hlogs & Hlen' & Hends & Hothers).
  { apply Forall_forall. intros peer Hin. apply (Hkeep j n _ _ Hm).
    - intros <-. apply Hj. by apply (list_elem_of_fmap_2' _ _ peer).
    - by eapply Forall_forall in Hpeers. }
  split_and!.
  - replace (list_to_set (j :: peer_ids peers) ∪ V) with
      (list_to_set (peer_ids peers) ∪ ({[j]} ∪ V)); [done|set_solver].
  - by rewrite Hmaj, (moved_majority _ _ _ _ Hm).
  - by constructor.
  - simpl. by rewrite Hlen'.
  - constructor; [|done]. destruct (moved_peer _ _ _ _ Hm) as (o & Ho & Hrest).
    exists o. by rewrite Hothers.
  - intros i Hi. apply not_elem_of_cons in Hi as [Hne Hi].
    by rewrite Hothers, (moved_others _ _ _ _ Hm).
Qed.

Lemma sends_from_moved j i k k' n n' : moved j k' n n' → i ≠ j → sends_from i k n →
  sends_from i k n'.
Proof. intros [_ _ _ Ho] Hne (o & Hi & Hrest). exists o. by rewrite Ho. Qed.

(** With the same answer of enough peers the commit is complete. *)
Lemma majority_completes b q callback peers n :
  offering b q callback (list_to_set (peer_ids peers) ∪ ∅) n → peers ≠ [] → NoDup (peer_ids peers) →
  majority_ (context_ n) ≤ N.of_nat (length peers) + 1 → completed q n.
Proof.
  intros Hn Hne Hnd Hmaj.
  destruct (offering_progress _ _ _ _ _ Hn) as [(results & _ & _ & _ & Hfew)|]; [|done].
  rewrite (right_id_L ∅ (∪)), size_list_to_set in Hfew by done.
  unfold peer_ids in Hfew. rewrite length_fmap in Hfew.
  destruct Hfew as [Hempty|]; [|unfold Peer in *; lia].
  destruct peers; [done|]. set_solver.
Qed.

(** From the call of the user: the commit is complete after the peers were served. *)
Lemma commit_completes b j k k' callback n (P : Node → Peer → Prop) (Q : list LogEntry → Prop) peers :
  let q := N.of_nat (length (promises_ (context_ n))) in
  (∀ V j k f n, offering b q callback V n → P n (j, k, f) →
    let p' := Nat.iter (rounds_from k) (exchange j) (n, f) in
    offering b q callback ({[j]} ∪ V) p'.1 ∧ moved j k' n p'.1 ∧ Q (logs_ (store p'.2))) →
  (∀ j n n' peer, moved j k' n n' → peer.1.1 ≠ j → P n peer → P n' peer) →
  (∀ n' peer, node_id_ (context_ n') = node_id_ (context_ n) →
    other_nodes_ (context_ n') = other_nodes_ (context_ n) → P n peer → P n' peer) →
  leading j term L k n → peers ≠ [] → NoDup (peer_ids peers) → Forall (P n) peers →
  writable (store n) → 1 < cluster_size_ (context_ n) →
  majority_ (context_ n) ≤ N.of_nat (length peers) + 1 →
  N.of_nat (size (other_nodes_ (context_ n))) + 1 < u32_size →
  let '(n', fs) := replicate_to peers (run_input (CommitCommand (Some c) callback) n) in
  reachable n' ∧ raft_state n' = kLeader ∧ fault_ n' = None ∧ get_term n' = term ∧
  completed q n' ∧ length fs = length peers ∧ Forall (λ f, Q (logs_ (store f))) fs ∧
  Forall (λ j, sends_from j k' n') (peer_ids peers).
Proof.
  intros q Hserve Hkeep Hsame Hlead Hne Hnd HP Hw Hsize Hmaj Hpeers.
  destruct (propose_offering b k callback n j Hlead Hw Hpeers Hsize) as (Hn & Ho & Hid & Hmaj').
  fold q in Hn. set (n1 := run_input _ n) in *. clearbody n1.
  pose proof (replicate_to_offering b q callback k' P Q Hserve Hkeep peers ∅ n1 Hn Hnd) as Hrep.
  destruct (replicate_to peers n1) as [n' fs].
  destruct Hrep as (Hn' & Hmaj2 & Hlogs & Hlen' & Hends & _).
  { eapply Forall_impl; [exact HP|]. intros peer. by apply Hsame. }
  assert (completed q n') as Hdone by (apply (majority_completes b q callback peers); congruence).
  split_and!; try done; apply Hn'.
Qed.

(** *** Peers with the same log *)

(** Such a peer of leader [n], which sends to it from the end. *)
Definition ready_peer n (peer : Peer) : Prop :=
  let '(j, k, f) := peer in
  leading j term L k n ∧ at_end k ∧
  following (node_id_ (context_ n)) term L f ∧ get_term f = term.

(** What of this still holds while the entry is offered. *)
Definition level_peer n (peer : Peer) : Prop :=
  let '(j, k, f) := peer in
  sends_from j k n ∧ at_end k ∧ following (node_id_ (context_ n)) term L f ∧ get_term f = term.

Lemma level_peer_moved j k n n' peer : moved j k n n' → peer.1.1 ≠ j →
  level_peer n peer → level_peer n' peer.
Proof.
  destruct peer as [[i k'] f]. intros Hm Hne (Hs & Hk & Hf & Ht).
  rewrite <-(moved_id _ _ _ _ Hm) in Hf. split; [by eapply sends_from_moved|done].
Qed.

(** C15: a command is replicated.  Take a leader in a cluster of more than one and
    fewer than [2 ^ 32] nodes, with no commit in progress, a database that accepts its
    writes, and a log that has room for an entry and whose entries carry data and
    terms up to the leader's; and some of its peers that together with it are a
    majority.  The service of each of them is ready, it accepts writes too, is in the
    leader's term and has the leader's log, and the leader sends to it from the end of
    that log, or from its last entry as [follower_catches_up] may leave it.  When the
    user commits a command with data, and then one peer after the other takes a
    broadcast and its answer comes back, once in the first case, twice in the second,
    then the promise of the call is answered with success and the index of the new
    entry, the logs of the leader and of all these peers are the old one with the
    command at its end, and the leader leads on, ready to send to each of them from
    behind it. *)
Theorem command_replicated peers callback n :
  peers ≠ [] → NoDup (peer_ids peers) → Forall (ready_peer n) peers → writable (store n) →
  1 < cluster_size_ (context_ n) → majority_ (context_ n) ≤ N.of_nat (length peers) + 1 →
  N.of_nat (size (other_nodes_ (context_ n))) + 1 < u32_size →
  let q := N.of_nat (length (promises_ (context_ n))) in
  let '(leader, followers) :=
    replicate_to peers (run_input (CommitCommand (Some c) callback) n) in
  let L' := L ++ [mkLogEntry (N.of_nat (length L)) term (Some c)] in
  length followers = length peers ∧ Forall (λ f, logs_ (store f) = L') followers ∧
  promised q leader = Some (Some (mkCommandCommitResponse (N.of_nat (length L)) (Some c) true)) ∧
  Forall (λ j, leading j term L' (N.of_nat (length L) + 1) leader) (peer_ids peers).
Proof.
  intros Hne Hnd Hready Hw Hsize Hmaj Hpeers q.
  destruct peers as [|[[j k] f] rest] eqn:E; [done|]. rewrite <-E in *. clear Hne.
  assert (leading j term L k n) as Hj
    by (rewrite E in Hready; by apply Forall_cons in Hready as [[? _] _]).
  pose proof (commit_completes true j k (N.of_nat (length L) + 1) callback n level_peer
    (.= new_log) peers) as Hrun. cbv zeta in Hrun. fold q in Hrun.
  destruct (replicate_to peers _) as [n' fs].
  destruct Hrun as (Hr & Hst & Hf & Ht & (Hnone & Hlog & Hprom) & Hlen' & Hlogs & Hends); try done.
  - intros V i k' f' m Hm (Hs & Hk & Hf & Ht). by apply (peer_served q callback V i k' (m, f')).
  - intros. by eapply level_peer_moved.
  - intros m [[i k'] f'] Hid Ho (Hs & Hrest). unfold level_peer, sends_from. by rewrite Hid, Ho.
  - by rewrite E.
  - eapply Forall_impl; [exact Hready|]. intros [[i k'] f'] (Hs & Hrest). split; [apply Hs|done].
  - split_and!; [done..|]. eapply Forall_impl; [exact Hends|]. done.
Qed.

(** *** Peers that refuse *)

(** A peer to which leader [n] sends the new entry, but whose log misses the last entry
    of [L]. *)
Definition lagging_peer n (peer : Peer) : Prop :=
  let '(j, k, f) := peer in
  leading j term L k n ∧ k = N.of_nat (length L) ∧ misses_last (logs_ (store f)) ∧
  following (node_id_ (context_ n)) term (logs_ (store f)) f ∧ get_term f = term.

Definition refusing_peer n (peer : Peer) : Prop :=
  let '(j, k, f) := peer in
  sends_from j k n ∧ k = N.of_nat (length L) ∧ misses_last (logs_ (store f)) ∧
  following (node_id_ (context_ n)) term (logs_ (store f)) f ∧ get_term f = term.

Lemma peer_refused q callback V j k f n : offering false q callback V n →
  refusing_peer n (j, k, f) →
  let p' := Nat.iter (rounds_from k) (exchange j) (n, f) in
  offering false q callback ({[j]} ∪ V) p'.1 ∧ moved j (N.pred (N.of_nat (length L))) n p'.1 ∧
  (length (logs_ (store p'.2)) < length L)%nat.
Proof.
  intros Hn (Hj & -> & Hmiss & Hf & Hft). unfold rounds_from. rewrite N.eqb_refl.
  cbn [Nat.iter nat_rect]. destruct (offering_offers _ _ _ _ _ Hn) as (_ & _ & Hwf).
  destruct (missing_refuses (node_id_ (context_ n)) _ Hwf Hmiss) as (F' & evs & Hrep & Hshort).
  destruct (exchange_answered false q callback V j _ _ F' evs (n, f) Hn Hj Hf Hft ltac:(done) Hrep)
    as (Hn' & Hm & Hf' & _).
  rewrite N.eqb_refl in Hn'. split; [done|]. split; [done|].
  by rewrite (following_log _ _ _ _ Hf').
Qed.

(** C40: refusals commit a command.  Take a leader as in [command_replicated], and some of
    its peers that together with it are a majority, in its term, with ready services and
    databases that accept writes; but each of them misses the last entry of the leader's
    log: it has none at that position, or one of another term.  The user commits a
    command with data, and one peer after the other takes one broadcast, which carries
    the new entry, and refuses it, as it should.  Then the promise of the call is
    answered with success and the command is in the log of the leader, which leads on,
    although the log of none of these peers even reaches the position before it: the
    leader counts the answers that are equal to the last one, and these are all
    refusals. *)
Theorem refusals_commit peers callback n :
  peers ≠ [] → NoDup (peer_ids peers) → Forall (lagging_peer n) peers → writable (store n) →
  1 < cluster_size_ (context_ n) → majority_ (context_ n) ≤ N.of_nat (length peers) + 1 →
  N.of_nat (size (other_nodes_ (context_ n))) + 1 < u32_size →
  let q := N.of_nat (length (promises_ (context_ n))) in
  let '(leader, followers) :=
    replicate_to peers (run_input (CommitCommand (Some c) callback) n) in
  length followers = length peers ∧
  Forall (λ f, (length (logs_ (store f)) < length L)%nat) followers ∧
  promised q leader = Some (Some (mkCommandCommitResponse (N.of_nat (length L)) (Some c) true)) ∧
  logs_ (store leader) = L ++ [mkLogEntry (N.of_nat (length L)) term (Some c)] ∧
  raft_state leader = kLeader ∧ get_term leader = term.
Proof.
  intros Hne Hnd Hlag Hw Hsize Hmaj Hpeers q.
  destruct peers as [|[[j k] f] rest] eqn:E; [done|]. rewrite <-E in *. clear Hne.
  assert (leading j term L k n) as Hj
    by (rewrite E in Hlag; by apply Forall_cons in Hlag as [[? _] _]).
  pose proof (commit_completes false j k (N.pred (N.of_nat (length L))) callback n refusing_peer
    (λ F, (length F < length L)%nat) peers) as Hrun. cbv zeta in Hrun. fold q in Hrun.
  destruct (replicate_to peers _) as [n' fs].
  destruct Hrun as (_ & Hst & _ & Ht & (_ & Hlog & Hprom) & Hlen' & Hlogs & _); try done.
  - intros V i k' f' m Hm Hp. by apply peer_refused.
  - intros i m m' [[i' k'] f'] Hm Hi (Hs & Hk & Hmiss & Hf & Ht).
    rewrite <-(moved_id _ _ _ _ Hm) in Hf. split; [by eapply sends_from_moved|done].
  - intros m [[i k'] f'] Hid Ho (Hs & Hrest). unfold refusing_peer, sends_from. by rewrite Hid, Ho.
  - by rewrite E.
  - eapply Forall_impl; [exact Hlag|]. intros [[i k'] f'] (Hs & Hrest). split; [apply Hs|done].
Qed.

End commit.

(** ** Witnesses

    Node 1 of five leads in term 2 with two entries, which nodes 3 and 4 have too; the
    other two are down.  A heartbeat and its answer leave the leader at the last
    entry of node 4. *)

Definition demo_entries : list NodeInput :=
  [AppendEntries demo_request; AppendEntries (mkAppendEntriesRequest 1 2 0 1 [x62] 1)].

Definition demo_voter (id : N) : Node (H := mem_platform) :=
  run_inputs (demo_entries ++ [RequestVote (mkRequestVoteRequest 2 1 1 2)])
    (demo_node [1; 2; 3; 4; 5] id).

Definition demo_elected : Node (H := mem_platform) :=
  run_inputs (demo_entries ++ [ServiceDiscovery 3 true true; ServiceDiscovery 4 true true;
    ElectionTimer; ElectionTimer; RequestVoteAnswer (mkRequestVoteResponse 2 true);
    RequestVoteAnswer (mkRequestVoteResponse 2 true)]) (demo_node [1; 2; 3; 4; 5] 1).

Definition demo_five : Node (H := mem_platform) := (exchange 4 (demo_elected, demo_voter 4)).1.

Definition demo_peers : list Peer := [(3, 2, demo_voter 3); (4, 1, demo_voter 4)].

Definition demo_new_log : list LogEntry := demo_sent_log ++ [mkLogEntry 2 2 (Some demo_command)].

Lemma demo_voter_follows id : id = 3 ∨ id = 4 →
  following 1 2 demo_sent_log (demo_voter id) ∧ get_term (demo_voter id) = 2.
Proof.
  intros [-> | ->]; (split; [|vm_compute; reflexivity]);
    (split; [apply demo_reachable|vm_compute; reflexivity..|vm_compute; discriminate|];
     eexists; split; [vm_compute; reflexivity|by apply mem_writable]).
Qed.

Lemma demo_five_leads j k : (j, k) = (3, 2) ∨ (j, k) = (4, 1) →
  leading j 2 demo_sent_log k demo_five.
Proof.
  assert (leading 4 2 demo_sent_log 2 demo_elected) as Hlead.
  { split; [apply demo_reachable|vm_compute; reflexivity..|].
    eexists. split; [vm_compute; reflexivity|split; reflexivity]. }
  assert (Forall (λ e, term_ e ≤ 2) demo_sent_log) as Hterms
    by (repeat constructor; vm_compute; discriminate).
  pose proof (exchange_round 4 2 demo_sent_log 2 demo_sent_log (demo_elected, demo_voter 4)
    Hterms Hlead (proj1 (demo_voter_follows 4 ltac:(by right)))) as Hx.
  assert (leading 4 2 demo_sent_log 1 demo_five) as H4 by apply Hx.
  intros [E|E]; injection E as -> ->; [|exact H4].
  destruct H4 as [Hr Hst Hf Hp Hl Ht _].
  split; [exact Hr|exact Hst|exact Hf|exact Hp|exact Hl|exact Ht|].
  eexists. split; [vm_compute; reflexivity|split; reflexivity].
Qed.

Lemma command_replicated_witness :
  let '(leader, followers) :=
    replicate_to demo_sent_log demo_peers
      (run_input (CommitCommand (Some demo_command) true) demo_five) in
  length followers = 2%nat ∧ Forall (λ f, logs_ (store f) = demo_new_log) followers ∧
  promised 0 leader = Some (Some (mkCommandCommitResponse 2 (Some demo_command) true)) ∧
  Forall (λ j, leading j 2 demo_new_log 3 leader) [3; 4].
Proof.
  assert (Forall has_data demo_sent_log) as Hdata
    by (repeat constructor; eexists; (split; [reflexivity|discriminate])).
  assert (Forall (λ e, term_ e ≤ 2) demo_sent_log) as Hterms
    by (repeat constructor; vm_compute; discriminate).
  assert (Forall (ready_peer 2 demo_sent_log demo_five) demo_peers) as Hready.
  { assert (node_id_ (context_ demo_five) = 1) as Hid by (vm_compute; reflexivity).
    constructor; [|constructor; [|constructor]];
      (split; [apply demo_five_leads|rewrite Hid; split; [|apply demo_voter_follows]]);
      [by left|by left|by left|by right|by right|by right]. }
  assert (writable (store demo_five)) as Hw
    by (eexists; split; [vm_compute; reflexivity|by apply mem_writable]).
  assert (length (promises_ (context_ demo_five)) = 0%nat) as Hq by (vm_compute; reflexivity).
  pose proof (command_replicated 2 demo_sent_log demo_command eq_refl Hdata
    ltac:(discriminate) Hterms demo_peers true demo_five ltac:(discriminate)
    ltac:(by apply (bool_decide_unpack _)) Hready Hw
    ltac:(vm_compute; reflexivity) ltac:(vm_compute; discriminate)
    ltac:(vm_compute; reflexivity)) as Hx.
  rewrite Hq in Hx. exact Hx.
Defined.

(** Two nodes that have voted for node 1 in term 2: node 3 has no entry, and node 4 the
    first one only. *)
Definition demo_lagging (inputs : list NodeInput) (id : N) : Node (H := mem_platform) :=
  run_inputs (inputs ++ [RequestVote (mkRequestVoteRequest 2 1 1 2)])
    (demo_node [1; 2; 3; 4; 5] id).

Definition demo_lagging_peers : list Peer :=
  [(3, 2, demo_lagging [] 3); (4, 2, demo_lagging [AppendEntries demo_request] 4)].

Lemma demo_elected_leads j : j = 3 ∨ j = 4 → leading j 2 demo_sent_log 2 demo_elected.
Proof.
  intros [-> | ->]; (split; [apply demo_reachable|vm_compute; reflexivity..|]);
    (eexists; split; [vm_compute; reflexivity|split; reflexivity]).
Qed.

Lemma demo_lagging_follows inputs id :
  is_valid_node 1 (demo_lagging inputs id) = true → get_term (demo_lagging inputs id) = 2 →
  bool_decide (faults <$> db_ (store (demo_lagging inputs id)) = Some []) = true →
  following 1 2 (logs_ (store (demo_lagging inputs id))) (demo_lagging inputs id).
Proof.
  intros Hv Ht Hw%bool_decide_eq_true. split; [apply demo_reachable|done|done|by rewrite Ht|].
  apply fmap_Some in Hw as (d & Hd & Hfaults). exists d. split; [done|by apply mem_writable].
Qed.

Lemma refusals_commit_witness :
  let '(leader, followers) :=
    replicate_to demo_sent_log demo_lagging_peers
      (run_input (CommitCommand (Some demo_command) true) demo_elected) in
  length followers = 2%nat ∧
  Forall (λ f, (length (logs_ (store f)) < 2)%nat) followers ∧
  promised 0 leader = Some (Some (mkCommandCommitResponse 2 (Some demo_command) true)) ∧
  logs_ (store leader) = demo_new_log ∧
  raft_state leader = kLeader ∧ get_term leader = 2.
Proof.
  assert (Forall has_data demo_sent_log) as Hdata
    by (repeat constructor; eexists; (split; [reflexivity|discriminate])).
  assert (Forall (λ e, term_ e ≤ 2) demo_sent_log) as Hterms
    by (repeat constructor; vm_compute; discriminate).
  assert (Forall (lagging_peer 2 demo_sent_log demo_elected) demo_lagging_peers) as Hlag.
  { assert (node_id_ (context_ demo_elected) = 1) as Hid by (vm_compute; reflexivity).
    constructor; [|constructor; [|constructor]]; unfold lagging_peer; rewrite Hid;
      (split; [apply demo_elected_leads|split; [reflexivity|split]]);
      try (split; [apply demo_lagging_follows|]; vm_compute; reflexivity);
      [by left| |by right|];
      (eexists; split; [reflexivity|]; intros p Hp; vm_compute in Hp; discriminate). }
  assert (writable (store demo_elected)) as Hw
    by (eexists; split; [vm_compute; reflexivity|by apply mem_writable]).
  assert (length (promises_ (context_ demo_elected)) = 0%nat) as Hq by (vm_compute; reflexivity).
  pose proof (refusals_commit 2 demo_sent_log demo_command eq_refl Hdata
    ltac:(discriminate) Hterms demo_lagging_peers true demo_elected ltac:(discriminate)
    ltac:(by apply (bool_decide_unpack _)) Hlag Hw
    ltac:(vm_compute; reflexivity) ltac:(vm_compute; discriminate)
    ltac:(vm_compute; reflexivity)) as Hx.
  rewrite Hq in Hx. exact Hx.
Defined.
