(* ===== verification/ExampleTheorems.v ===== *)
(** * Theorems about the example programs *)

From Stdlib Require Import Strings.Ascii.
From S2P Require Import Prelude Codec Platform LogEntry ContextStore ContextStoreFacts.
From S2P Require Import StoreTheorems NodeUtil RaftTypes OtherNode StateMachine Lifecycle Node.
From S2P Require Import StateMachineInterface RaftContext RaftContextFacts Election VoteFacts.
From S2P Require Import RaftStateMachine RaftStateMachineFacts ClusterNodeOptions ClusterNodeImpl.
From S2P Require Import ClusterNode Examples ElectionRefinement NodeInvariant AppendEntries.
From S2P Require Import ReplicationTheorems Demo.

Local Open Scope N_scope.

(** ** Arguments *)

Lemma digit_of_pretty x : digit_of (pretty_N_char (x mod 10)) = Some (x mod 10).
Proof.
  pose proof (N.mod_lt x 10). set (d := x mod 10) in *. clearbody d.
  assert (d = 0 ∨ d = 1 ∨ d = 2 ∨ d = 3 ∨ d = 4 ∨ d = 5 ∨ d = 6 ∨ d = 7 ∨ d = 8 ∨ d = 9)
    as Hd by lia.
  by repeat (destruct Hd as [->|Hd]; [done|]); subst.
Qed.

(** Reading the digits that [pretty] writes gives the number back. *)
Lemma read_digits_pretty x s : 0 < x → read_digits 0 (pretty_N_go x s) = read_digits x s.
Proof.
  revert s. induction (N.lt_wf_0 x) as [x _ IH]. intros s Hx.
  rewrite pretty_N_go_step by done. pose proof (N.div_mod x 10).
  destruct (decide (x < 10)) as [Hlt|Hge].
  - rewrite N.div_small by done. rewrite pretty_N_go_0. simpl.
    rewrite digit_of_pretty, N.mod_small by done. done.
  - pose proof (N.div_str_pos x 10). pose proof (N.div_lt x 10).
    rewrite IH by lia. simpl. rewrite digit_of_pretty. f_equal. lia.
Qed.

Lemma pretty_N_go_head x s : 0 < x →
  ∃ c s', pretty_N_go x s = String c s' ∧ is_Some (digit_of c).
Proof.
  revert s. induction (N.lt_wf_0 x) as [x _ IH]. intros s Hx. rewrite pretty_N_go_step by done.
  destruct (decide (x < 10)) as [Hlt|Hge].
  - rewrite N.div_small, pretty_N_go_0 by done. eexists _, _. split; [done|].
    rewrite digit_of_pretty. by eexists.
  - pose proof (N.div_str_pos x 10). pose proof (N.div_lt x 10). apply IH; lia.
Qed.

Lemma pretty_N_head (x : N) : ∃ c s, pretty x = String c s ∧ is_Some (digit_of c).
Proof.
  unfold pretty, pretty_N. case_decide as Hx.
  - eexists _, _. split; [reflexivity|]. by eexists.
  - apply pretty_N_go_head. lia.
Qed.

Lemma read_digits_pretty_N (x : N) : read_digits 0 (pretty x) = x.
Proof.
  unfold pretty, pretty_N. case_decide as Hx; [by subst|]. rewrite read_digits_pretty by lia. done.
Qed.

(** A digit is neither blank nor a sign. *)
Lemma digit_of_plain c : is_Some (digit_of c) → is_space c = false ∧ c ≠ "-"%char ∧ c ≠ "+"%char.
Proof.
  unfold digit_of, is_space. intros [d Hd]. set (n := N_of_ascii c) in *.
  destruct (N.leb_spec 48 n); [|done]. split_and!.
  - rewrite (proj2 (N.eqb_neq n 32)), (proj2 (N.leb_gt n 13)) by lia. by rewrite andb_false_r.
  - intros ->. compute in n. subst n. lia.
  - intros ->. compute in n. subst n. lia.
Qed.

Lemma stoul_pretty (x : N) : x < u64_size → stoul (pretty x) = Some x.
Proof.
  intros Hx. pose proof (read_digits_pretty_N x) as Hr.
  destruct (pretty_N_head x) as (c & s & E & Hc). rewrite E in *.
  destruct (digit_of_plain c Hc) as (Hsp & Hm & Hp). unfold stoul. simpl skip_space. rewrite Hsp.
  assert (match String c s with
    | String "-" s' => (true, s') | String "+" s' => (false, s') | _ => (false, String c s)
    end = (false, String c s)) as ->.
  { destruct c as [[] [] [] [] [] [] [] []]; try done. }
  cbn [starts_with_digit]. rewrite bool_decide_true by done. cbn [negb]. rewrite Hr.
  by rewrite (proj2 (N.leb_gt _ _)).
Qed.

Definition ids_below (size : N) : list N := N.of_nat <$> seq 0 (N.to_nat size).

Lemma elem_of_ids_below size id : id ∈ ids_below size ↔ id < size.
Proof.
  unfold ids_below. rewrite list_elem_of_fmap. setoid_rewrite elem_of_seq. split.
  - intros (i & -> & ?). lia.
  - intros ?. exists (N.to_nat id). lia.
Qed.

(** The arguments of the examples.  Given two decimal 32-bit numbers, a
    program refuses an identifier that is not below the size of the cluster,
    with status -1, and otherwise runs as the node with that identifier in a
    cluster of exactly the nodes 0 to size - 1, each listed once.  With fewer
    than two arguments it returns -1. *)
Theorem check_arguments_spec (id size : N) :
  (id < u32_size → size < u32_size →
   check_arguments [pretty id; pretty size] =
     if size <=? id then Returned (-1) [IdTooLarge] else Spinning (id, ids_below size)) ∧
  (∀ i, i ∈ ids_below size ↔ i < size) ∧ NoDup (ids_below size) ∧
  (∀ arg, check_arguments [] = Returned (-1) [UsageError] ∧
    check_arguments [arg] = Returned (-1) [UsageError]).
Proof.
  split_and!; [|apply elem_of_ids_below| |done].
  - intros Hid Hsize. unfold check_arguments, ids_below.
    rewrite !stoul_pretty by (unfold u32_size, u64_size in *; lia).
    by rewrite !wrap32_small.
  - apply NoDup_fmap_2; [apply _|]. apply NoDup_seq.
Qed.

(** ** Publishing and serving *)

Section serving.
  Context `{PlatformSpec}.
  Implicit Types (n : Node).

(** The names of the node at the timer events at which it leads. *)
Fixpoint leading_names (events : list TimedEvent) n : list string :=
  match events with
  | [] => []
  | NodeEvent input :: events => leading_names events (run_input input n)
  | TimerEvent :: events =>
      (if is_leader n then [ClusterNode_get_name n] else []) ++ leading_names events n
  end.

Fixpoint leading_responses (events : list ServiceEvent) n : list TriggerResponse :=
  match events with
  | [] => []
  | ServiceNodeEvent input :: events => leading_responses events (run_input input n)
  | ServiceRequest :: events =>
      (if is_leader n then [mkTriggerResponse true (ClusterNode_get_name n)] else []) ++
      leading_responses events n
  end.

Lemma published_leading events p topic : reachable (publisher_node p) →
  publisher p = create_publisher topic →
  published (foldl (λ p e, publisher_step e p) p events) =
    published p ++ leading_names events (publisher_node p).
Proof.
  revert p. induction events as [|e events IH]; intros p Hr Hp; cbn [foldl];
    [by rewrite app_nil_r|].
  destruct e as [input|]; cbn [publisher_step leading_names].
  - rewrite IH; [done|by apply (reachable_run [input])|done].
  - rewrite IH by done. cbn [published publisher_node]. rewrite Hp, app_assoc. do 2 f_equal.
    change (option_list (gate (Some (publisher_node p)) (ClusterNode_get_name (publisher_node p))) =
      if is_leader (publisher_node p) then [ClusterNode_get_name (publisher_node p)] else []).
    rewrite gate_leader by done. by destruct (is_leader (publisher_node p)).
Qed.

Lemma responses_leading events p : reachable (service_node p) →
  responses (foldl (λ p e, service_step e p) p events) =
    responses p ++ leading_responses events (service_node p).
Proof.
  revert p. induction events as [|e events IH]; intros p Hr; cbn [foldl];
    [by rewrite app_nil_r|].
  destruct e as [input|]; cbn [service_step leading_responses].
  - rewrite IH; [done|by apply (reachable_run [input])].
  - set (n := service_node p) in *. set (r := mkTriggerResponse true (ClusterNode_get_name n)).
    assert (ClusterNodeService_handle_request (trigger_service n) () n =
      if is_leader n then Some r else None) as ->.
    { change ((λ _, r) <$> gate (Some n) () = if is_leader n then Some r else None).
      rewrite gate_leader by done. by destruct (is_leader n). }
    destruct (is_leader n); [|by rewrite IH].
    rewrite IH by done. cbn [responses]. by rewrite <-app_assoc.
Qed.

(** C31: the examples speak for the leader only.  Whatever happens to the node of
    the publisher example, the messages it publishes are its name, one for each
    tick of its timer at which the node leads, and none at the others; and the
    service example answers its name, with success, to exactly the requests that
    arrive while its node leads. *)
Theorem examples_speak_while_leading directory open_db g id size :
  id < size → size < u32_size →
  (∀ events p, cluster_publisher directory open_db g [pretty id; pretty size] events = Spinning p →
    published p = leading_names events (register_lifecycle
      (default_node directory open_db g "test_cluster_publisher" id (ids_below size)))) ∧
  (∀ events p, cluster_service directory open_db g [pretty id; pretty size] events = Spinning p →
    responses p = leading_responses events (register_lifecycle
      (default_node directory open_db g "test_cluster_service" id (ids_below size)))).
Proof.
  intros Hid Hsize.
  assert (∀ name, reachable (register_lifecycle
    (default_node directory open_db g name id (ids_below size)))) as Hr.
  { intros name. apply (reachable_run
      [RegisterOnActivated; RegisterOnDeactivated; RegisterOnStandby]).
    apply new_ClusterNode_reachable. by vm_compute. }
  assert (check_arguments [pretty id; pretty size] = Spinning (id, ids_below size)) as E.
  { unfold check_arguments. rewrite !stoul_pretty by (unfold u32_size, u64_size in *; lia).
    rewrite !wrap32_small by lia. case_test; [lia|done]. }
  split; intros events p; unfold cluster_publisher, cluster_service, spin; rewrite E;
    intros [= <-].
  - rewrite (published_leading _ _ "test_cluster_echo"); [reflexivity|apply Hr|reflexivity].
  - rewrite responses_leading; [reflexivity|apply Hr].
Qed.

End serving.

(** ** The replicated log of one node *)

Section ticks.
  Context `{Platform}.
  Implicit Types (n : Node) (p : LogProgram).

(** A leader alone in its cluster, with log [L]. *)
Record alone_with (L : list LogEntry) (term : N) n : Prop := {
  alone_leader : is_leader n = true;
  alone_size : cluster_size_ (context_ n) <= 1;
  alone_callback : commit_callback_ (context_ n) = true;
  alone_writable : writable (store n);
  alone_log : logs_ (store n) = L;
  alone_term : get_term n = term;
}.

(** What the commit of one command leaves. *)
Lemma commit_alone L term c n : alone_with L term n →
  let e := mkLogEntry (N.of_nat (length L)) term (Some c) in
  let i := N.of_nat (length (promises_ (context_ n))) in
  let n' := (ClusterNode_commit_command (Some c) true n).2 in
  alone_with (L ++ [e]) term n' ∧
  outputs_ n' = outputs_ n ++ [CommitCallback (id_ e) (Some c); CommitResponseCallback i] ∧
  promises_ (context_ n') !! N.to_nat i =
    Some (Some (mkCommandCommitResponse (id_ e) (Some c) true)).
Proof.
  intros [Hl Hsize Hcb Hw HL Ht]. cbv zeta. simpl. unfold commit_command.
  change (is_leader (on_context (λ c, set_promises (promises_ c ++ [None]) c) n)) with (is_leader n).
  rewrite Hl. cbn [negb].
  set (n1 := on_context (λ c, set_promises (promises_ c ++ [None]) c) n).
  change (cluster_size_ (context_ n1)) with (cluster_size_ (context_ n)).
  rewrite (proj2 (N.leb_le _ _)) by done. cbn [snd].
  change (store n1) with (store n). unfold logs_size. rewrite HL.
  change (current_term (store n)) with (get_term n). rewrite Ht.
  set (e := mkLogEntry (N.of_nat (length L)) term (Some c)).
  unfold complete_commit.
  destruct (push_log_writable e (store n1)) as (d & E & Hd);
    [done|by unfold logs_size; change (store n1) with (store n); rewrite HL|by eexists|].
  assert (on_store (λ s, (push_log (Some e) s).2) n1 =
    on_store (λ s, with_db (Some d) (with_logs (logs_ s ++ [e]) s)) n1) as ->
    by (apply on_store_ext; by rewrite E).
  set (n2 := on_store _ n1).
  assert (invoke_commit_callback (Some e) n2 = output (CommitCallback (id_ e) (Some c)) n2) as ->.
  { unfold invoke_commit_callback. change (commit_callback_ (context_ n2)) with
      (commit_callback_ (context_ n)). by rewrite Hcb. }
  set (n3 := output _ n2). unfold set_value.
  change (promises_ (context_ n3)) with (promises_ (context_ n) ++ [None]).
  rewrite Nat2N.id, list_lookup_middle by done.
  assert (alone_with (L ++ [e]) term n3 ∧ outputs_ n3 = outputs_ n ++ [CommitCallback (id_ e) (Some c)])
    as [[] Hout].
  { split; [|done]. split; try done; [by exists d|]. change (logs_ (store n) ++ [e] = L ++ [e]).
    by rewrite HL. }
  cbn [call_response_callback]. split_and!.
  - by split.
  - change (outputs_ n3 ++ [CommitResponseCallback (N.of_nat (length (promises_ (context_ n))))] =
      outputs_ n ++ [CommitCallback (id_ e) (Some c);
        CommitResponseCallback (N.of_nat (length (promises_ (context_ n))))]).
    by rewrite Hout, <-app_assoc.
  - set (k := length (promises_ (context_ n))).
    set (r := mkCommandCommitResponse (N.of_nat (length L)) (Some c) true).
    change (<[k:=Some r]> (promises_ (context_ n) ++ [None]) !! k = Some (Some r)).
    apply list_lookup_insert_eq. rewrite length_app. simpl. lia.
Qed.

(** One entry, and the two lines that its commit prints. *)
Definition tick_entry (start : nat) (term c : N) (i : nat) : LogEntry :=
  mkLogEntry (N.of_nat (start + i)) term (Some (mkCommand [byte_of_N (c + N.of_nat i)])).

Definition tick_lines (start : nat) (c : N) (i : nat) : list Line :=
  [LineCommitted (N.of_nat (start + i)) (Some (byte_of_N (c + N.of_nat i)));
   LineCompleted (N.of_nat (start + i)) ((c + N.of_nat i) mod 256)].

Lemma tick_shift start term c :
  (∀ i, tick_entry (start + 1) term ((c + 1) mod 256) i = tick_entry start term c (S i)) ∧
  (∀ i, tick_lines (start + 1) ((c + 1) mod 256) i = tick_lines start c (S i)).
Proof.
  assert (∀ i, byte_of_N ((c + 1) mod 256 + N.of_nat i) = byte_of_N (c + N.of_nat (S i))) as Hb.
  { intros i. rewrite <-byte_of_N_mod, N.Div0.add_mod_idemp_l, byte_of_N_mod. f_equal. lia. }
  assert (∀ i, ((c + 1) mod 256 + N.of_nat i) mod 256 = (c + N.of_nat (S i)) mod 256) as Hm.
  { intros i. rewrite N.Div0.add_mod_idemp_l. f_equal. lia. }
  split; intros i; unfold tick_entry, tick_lines; rewrite Hb, ?Hm;
    replace (start + 1 + i)%nat with (start + S i)%nat by lia; done.
Qed.

Lemma log_step_tick L term p : alone_with L term (log_node p) → ch p < 256 →
  let p' := log_step TimerEvent p in
  alone_with (L ++ [tick_entry (length L) term (ch p) 0]) term (log_node p') ∧
  ch p' = (ch p + 1) mod 256 ∧
  log_lines p' = log_lines p ++ tick_lines (length L) (ch p) 0.
Proof.
  intros Hp Hc. cbv zeta. unfold log_step.
  destruct (commit_alone L term (mkCommand [byte_of_N (ch p)]) (log_node p) Hp)
    as (Hn & Hout & Hpr).
  set (n := (ClusterNode_commit_command _ _ _).2) in *. clearbody n.
  unfold outputs_since. rewrite Hout, drop_app_length. cbn [foldl log_callback log_line].
  rewrite Hpr. cbn [response_result_ response_id_ log_node ch log_lines].
  unfold tick_entry, tick_lines. rewrite Nat.add_0_r, N.add_0_r. split_and!; [exact Hn|done|].
  rewrite N.mod_small by done. by rewrite <-app_assoc.
Qed.

(** A log of one node.  While the node of the log example leads a cluster of
    one on a database that accepts its writes, every tick of its timer commits
    the next character: after [k] ticks the log has [k] more entries of the
    leader's term, at the next positions, with the characters from the current
    one on, modulo 256, and for each of them the program has printed that it was
    committed and that its commit was completed, in this order. *)
Theorem log_example_ticks k L term p :
  alone_with L term (log_node p) → ch p < 256 →
  let p' := foldl (λ p e, log_step e p) p (repeat TimerEvent k) in
  alone_with (L ++ (tick_entry (length L) term (ch p) <$> seq 0 k)) term (log_node p') ∧
  ch p' = (ch p + N.of_nat k) mod 256 ∧
  log_lines p' = log_lines p ++ (seq 0 k ≫= tick_lines (length L) (ch p)).
Proof.
  revert L p. induction k as [|k IH]; intros L p Hp Hc; cbn [repeat foldl].
  { rewrite N.add_0_r, N.mod_small, !app_nil_r by done. done. }
  destruct (log_step_tick L term p Hp Hc) as (Hp1 & Hc1 & Hl1).
  pose proof (N.mod_lt (ch p + 1) 256) as Hlt. rewrite <-Hc1 in Hlt.
  destruct (IH _ _ Hp1 ltac:(lia)) as (Hp' & Hc' & Hl'). cbv zeta in *.
  rewrite Hc1 in Hp', Hc', Hl'. rewrite Hl1 in Hl'. rewrite length_app in Hp', Hl'.
  cbn [length] in Hp', Hl'.
  destruct (tick_shift (length L) term (ch p)) as [He Hl].
  assert (seq 0 (S k) = 0%nat :: (S <$> seq 0 k)) as -> by (by rewrite fmap_S_seq).
  rewrite <-app_assoc in Hp', Hl'. split_and!.
  - rewrite fmap_cons, <-list_fmap_compose.
    rewrite (list_fmap_ext _ (tick_entry (length L + 1) term ((ch p + 1) mod 256))) by done.
    exact Hp'.
  - rewrite Hc', N.Div0.add_mod_idemp_l. f_equal. lia.
  - rewrite Hl'. cbn [mbind list_bind]. f_equal. f_equal.
    change (seq 0 k ≫= tick_lines (length L + 1) ((ch p + 1) mod 256) =
      (S <$> seq 0 k) ≫= tick_lines (length L) (ch p)).
    rewrite list_fmap_bind. by apply list_bind_ext.
Qed.

End ticks.

(** ** Witnesses *)

Lemma check_arguments_spec_witness :
  check_arguments ["1"; "3"]%string = Spinning (1, [0; 1; 2]).
Proof. apply (check_arguments_spec 1 3); reflexivity. Defined.

(** Node 0 of one is elected between two ticks. *)
Definition demo_events : list TimedEvent := [TimerEvent; NodeEvent ElectionTimer; TimerEvent].

Definition demo_publisher : PublisherProgram (H := mem_platform) :=
  foldl (λ p e, publisher_step e p)
    (mkPublisherProgram (register_lifecycle (default_node "/tmp" (λ _, Some empty_db) 3
      "test_cluster_publisher" 0 (ids_below 1))) [] (create_publisher "test_cluster_echo") [])
    demo_events.

Lemma examples_speak_while_leading_witness :
  published demo_publisher = leading_names demo_events (register_lifecycle
    (default_node (H := mem_platform) "/tmp" (λ _, Some empty_db) 3 "test_cluster_publisher" 0
      (ids_below 1))) ∧
  published demo_publisher = ["test_cluster_publisher0"]%string.
Proof.
  split; [|vm_compute; reflexivity].
  apply (proj1 (examples_speak_while_leading (H := mem_platform) "/tmp" (λ _, Some empty_db) 3
    0 1 eq_refl eq_refl) demo_events demo_publisher).
  vm_compute. reflexivity.
Defined.

(** The program on an empty database, once its node has been elected. *)
Definition demo_log_program : LogProgram (H := mem_platform) :=
  foldl (λ p e, log_step e p) (log_start "/tmp" (λ _, Some empty_db) 3 0 [0])
    [NodeEvent ElectionTimer].

Lemma log_example_ticks_witness :
  cluster_log_replication_with_commit (H := mem_platform) "/tmp" (λ _, Some empty_db) 3
    ["0"; "1"]%string [NodeEvent ElectionTimer] = Spinning demo_log_program ∧
  let p := foldl (λ p e, log_step e p) demo_log_program (repeat TimerEvent 300) in
  alone_with (tick_entry 0 1 97 <$> seq 0 300) 1 (log_node p) ∧ ch p = 141 ∧
  log_lines p = LineActivated :: (seq 0 300 ≫= tick_lines 0 97).
Proof.
  split; [vm_compute; reflexivity|].
  apply (log_example_ticks 300 [] 1 demo_log_program); [|reflexivity].
  split; try (vm_compute; reflexivity).
  - vm_compute. discriminate.
  - eexists. split; [vm_compute; reflexivity|by apply mem_writable].
Defined.
