(* ===== verification/ParameterTheorems.v ===== *)
(** * Theorems about the parameters of a clustered node

    They hold for any [NodeParametersInterface] whose declarations do what rclcpp
    documents ([ParametersLaws]). *)

From S2P Require Import Prelude Platform LogEntry ContextStore NodeUtil RaftTypes OtherNode.
From S2P Require Import StateMachine Lifecycle Node StateMachineInterface RaftContext.
From S2P Require Import RaftStateMachine ClusterNodeOptions ClusterNodeImpl ClusterNode.

(** What is declared, by name.  A declaration that returns a value has declared
    the parameter with it; one that throws has declared nothing. *)
Class ParametersLaws {W Param Value Descriptor PType SetResult ListResult : Type}
    (np : NodeParametersInterface W Param Value Descriptor PType SetResult ListResult)
    (declared : W → gmap string Value) : Prop := {
  declare_ok name v d ignore w value w' :
    NodeParameters_declare_parameter np name v d ignore w = (inr value, w') →
    declared w' = <[name := value]> (declared w);
  declared_has name w :
    NodeParameters_has_parameter np name w = bool_decide (is_Some (declared w !! name));
  declare_failed name v d ignore w e w' :
    NodeParameters_declare_parameter np name v d ignore w = (inl e, w') →
    declared w' = declared w;
}.

Section parameters.
  Context {W Param Value Descriptor PType SetResult ListResult T : Type}.
  Context `{!ParameterT T Param Value PType}.
  Context (np : NodeParametersInterface W Param Value Descriptor PType SetResult ListResult).
  Context (descriptor : Descriptor).
  Implicit Types (w : W).

(** ** Declarations *)

Section declared.
  Context (declared : W → gmap string Value) `{!ParametersLaws np declared}.

(** The parameter [name] is declared and has the value [t]. *)
Definition declared_as w (name : string) (t : T) : Prop :=
  ClusterNode_has_parameter np name w = true ∧
  ∃ value, declared w !! name = Some value ∧ ParameterValue_get value = inr t.

Lemma declared_as_intro w name t value :
  declared w !! name = Some value → ParameterValue_get value = inr t → declared_as w name t.
Proof.
  intros Hv Ht. split; [|by exists value]. unfold ClusterNode_has_parameter.
  rewrite (declared_has (declared := declared)), Hv. by apply bool_decide_eq_true.
Qed.

Definition type_error (e : ParameterException) : Prop :=
  ∃ what, e = ParameterTypeException what.

Lemma declare_parameter_spec name v d ignore w :
  let '(r, w') := ClusterNode_declare_parameter np name v d ignore w in
  (∀ other, other ≠ name → declared w' !! other = declared w !! other) ∧
  match r with
  | inr t => declared_as w' name t
  | inl e => ¬ type_error e
  end.
Proof.
  unfold ClusterNode_declare_parameter, ClusterNode_declare_parameter_value.
  destruct (NodeParameters_declare_parameter np name (to_value v) d ignore w) as [[e|value] w'] eqn:E.
  - apply declare_failed in E.
    destruct e; (split; [by rewrite E|]); by intros [? [=]].
  - apply declare_ok in E. destruct (ParameterValue_get value) as [what|t] eqn:Hget;
      (split; [intros other Hne; by rewrite E, lookup_insert_ne|]).
    + by intros [? [=]].
    + apply (declared_as_intro w' name t value); [by rewrite E, lookup_insert_eq|done].
Qed.

(** The elements of a map, each declared under the name [nm] of its key. *)
Lemma transform_declare_spec {A} (nm : A → string) declare (xs : list A) w :
  (∀ x w, let '(r, w') := declare x w in
    (∀ other, other ≠ nm x → declared w' !! other = declared w !! other) ∧
    match r with inr t => declared_as w' (nm x) t | inl e => ¬ type_error e end) →
  NoDup (nm <$> xs) →
  let '(r, w') := transform_declare declare xs w in
  (∀ name, name ∉ nm <$> xs → declared w' !! name = declared w !! name) ∧
  match r with
  | inr ts => Forall2 (λ x t, declared_as w' (nm x) t) xs ts
  | inl e => ¬ type_error e ∧ ∃ before x after, xs = before ++ x :: after ∧
      Forall (λ y, ∃ t, declared_as w' (nm y) t) before ∧
      Forall (λ y, declared w' !! nm y = declared w !! nm y) after
  end.
Proof.
  intros Hd. revert w. induction xs as [|x xs IH]; intros w Hnd; [by split; [|constructor]|].
  rewrite fmap_cons in Hnd. apply NoDup_cons in Hnd as [Hx Hnd]. cbn [transform_declare].
  specialize (Hd x w). destruct (declare x w) as [[e|t] w1].
  { destruct Hd as [Hother He]. split.
    - intros name Hname. apply Hother. set_solver.
    - split; [done|]. exists [], x, xs. split_and!; [done|done|].
      apply Forall_forall. intros y Hy. apply Hother. intros Heq. rewrite <-Heq in Hx.
      by apply Hx, list_elem_of_fmap_2. }
  destruct Hd as [Hother (_ & value & Hv & Hget)]. specialize (IH w1 Hnd).
  destruct (transform_declare declare xs w1) as [r w2]. destruct IH as [Hother2 IH].
  assert (declared_as w2 (nm x) t) as Hx2 by (apply (declared_as_intro w2 _ _ value); [by rewrite Hother2|done]).
  split.
  - intros name Hname. rewrite Hother2 by set_solver. apply Hother. set_solver.
  - destruct r as [e|ts]; [|by constructor].
    destruct IH as (He & before & y & after & -> & Hb & Ha). split; [done|].
    exists (x :: before), y, after. split_and!; [done|by constructor; [exists t|]|].
    apply Forall_forall. intros z Hz. rewrite Forall_forall in Ha. rewrite (Ha z Hz).
    apply Hother. intros Heq. rewrite <-Heq in Hx. apply Hx, list_elem_of_fmap_2. set_solver.
Qed.

(** C32: declaring the parameters of a map.  With distinct keys,
    [declare_parameters] touches only the names of its keys in the namespace,
    which is the key itself when the namespace is empty; when it returns, each of
    them is declared with the returned value, in the order of the map; when it
    throws, the keys before some key are declared, those after it are as before,
    and the exception is never a bare type error. *)
Theorem declare_parameters_spec ns (ps : list (string * T)) ignore w :
  NoDup ps.*1 →
  let nm k := (if String.eqb ns "" then "" else ns +:+ ".") +:+ k in
  let '(r, w') := ClusterNode_declare_parameters np descriptor ns ps ignore w in
  (∀ name, (∀ k, k ∈ ps.*1 → name ≠ nm k) → declared w' !! name = declared w !! name) ∧
  match r with
  | inr ts => Forall2 (λ p t, declared_as w' (nm p.1) t) ps ts
  | inl e => ¬ type_error e ∧ ∃ before p after, ps = before ++ p :: after ∧
      Forall (λ q, ∃ t, declared_as w' (nm q.1) t) before ∧
      Forall (λ q, declared w' !! nm q.1 = declared w !! nm q.1) after
  end.
Proof.
  intros Hnd nm. unfold ClusterNode_declare_parameters.
  pose proof (transform_declare_spec (λ p : string * T, nm p.1)
    (λ element, ClusterNode_declare_parameter np (nm element.1) element.2 descriptor ignore)
    ps w) as Hs.
  change (λ element : string * T, ClusterNode_declare_parameter np
    (normalized_namespace ns +:+ element.1) element.2 descriptor ignore) with
    (λ element : string * T, ClusterNode_declare_parameter np (nm element.1) element.2
      descriptor ignore).
  destruct (transform_declare _ ps w) as [r w']. destruct Hs as [Hother Hr].
  { intros x w0. apply declare_parameter_spec. }
  { change (NoDup ((nm ∘ fst) <$> ps)). rewrite list_fmap_compose. apply NoDup_fmap_2; [|done].
    intros k1 k2. apply (inj (String.append _)). }
  split; [|exact Hr]. intros name Hname. apply Hother. intros Hin.
  apply list_elem_of_fmap in Hin as (p & -> & Hp). apply (Hname p.1); [|done].
  by apply list_elem_of_fmap_2.
Qed.

End declared.

(** ** Lookups *)

Lemma assign_values_spec (params : list (string * Param)) (values : gmap string T) :
  NoDup params.*1 →
  let '(r, values') := assign_values params values in
  (∀ name, name ∉ params.*1 → values' !! name = values !! name) ∧
  (r = inr true →
    ∀ name p, (name, p) ∈ params → ∃ t, Parameter_get_value p = inr t ∧ values' !! name = Some t).
Proof.
  revert values. induction params as [|[name p] params IH]; intros values Hnd; simpl.
  { split; [done|]. intros _ name p Hp. set_solver. }
  rewrite fmap_cons in Hnd. apply NoDup_cons in Hnd as [Hname Hnd].
  destruct (Parameter_get_value p) as [what|t] eqn:Hp; [by split|].
  specialize (IH (<[name:=t]> values) Hnd).
  destruct (assign_values params (<[name:=t]> values)) as [r values']. destruct IH as [Ho Hi].
  split.
  - intros other Hother. rewrite Ho by set_solver. apply lookup_insert_ne. set_solver.
  - intros Hr other q [[= -> ->]|Hin]%elem_of_cons; [|by apply Hi].
    exists t. split; [done|]. rewrite Ho by done. by rewrite lookup_insert_eq.
Qed.

(** Looking parameters up: [get_parameter_or] gives the value found or else
    the alternative, and says which; [get_parameters] gives a prefix without
    parameters the answer false and leaves the map alone, and otherwise assigns
    the keys found and no others, all of them with their values when it returns
    true. *)
Lemma parameter_lookups name prefix (parameter alternative : T) (values : gmap string T) w :
  (match NodeParameters_get_parameter np name w with
   | None => ClusterNode_get_parameter_or np name parameter alternative w =
       (inr false, alternative)
   | Some p => ∀ t, Parameter_get_value p = inr t →
       ClusterNode_get_parameter_or np name parameter alternative w = (inr true, t)
   end) ∧
  let '(r, values') := ClusterNode_get_parameters np prefix values w in
  match NodeParameters_get_parameters_by_prefix np prefix w with
  | None => r = inr false ∧ values' = values
  | Some params => NoDup params.*1 →
      (∀ key, key ∉ params.*1 → values' !! key = values !! key) ∧
      (r = inr true →
        ∀ key p, (key, p) ∈ params → ∃ t, Parameter_get_value p = inr t ∧ values' !! key = Some t)
  end.
Proof.
  unfold ClusterNode_get_parameter_or, ClusterNode_get_parameter, ClusterNode_get_parameters,
    ClusterNode_find_parameter.
  split.
  - destruct (NodeParameters_get_parameter np name w) as [p|]; [|done]. by intros t ->.
  - destruct (NodeParameters_get_parameters_by_prefix np prefix w) as [params|]; [|done].
    pose proof (assign_values_spec params values) as Hs.
    by destruct (assign_values params values).
Qed.

End parameters.

(** ** Witnesses

    Parameters in memory: a value is a number or a text, and declaring a name
    twice throws. *)

Definition memory_parameters :
    NodeParametersInterface (gmap string (N + string)) (N + string) (N + string) () bool bool
      (list string) := {|
  NodeParameters_declare_parameter name v _ _ w :=
    match w !! name with
    | Some _ => (inl (OtherException "already declared"), w)
    | None => (inr v, <[name := v]> w)
    end;
  NodeParameters_declare_typed name _ _ _ w := (inl (OtherException "no override"), w);
  NodeParameters_undeclare_parameter name w := (None, delete name w);
  NodeParameters_has_parameter name w := bool_decide (is_Some (w !! name));
  NodeParameters_set_parameters l w := (inr ((λ _, true) <$> l), w);
  NodeParameters_set_parameters_atomically _ w := (inr true, w);
  NodeParameters_get_parameter_or_throw name w :=
    match w !! name with Some p => inr p | None => inl (ParameterNotDeclaredException name) end;
  NodeParameters_get_parameters _ w := inr (map_to_list w).*2;
  NodeParameters_get_parameter_types names w := inr ((λ _, 2%N) <$> names);
  NodeParameters_list_parameters _ _ w := (map_to_list w).*1;
  NodeParameters_get_parameter name w := w !! name;
  NodeParameters_describe_parameters names w := inr ((λ _, ()) <$> names);
  NodeParameters_get_parameters_by_prefix _ w := Some (map_to_list w);
|}.

#[export] Instance number_parameter : ParameterT N (N + string) (N + string) bool := {|
  to_value := inl;
  value_type := true;
  ParameterValue_get v := match v with inl n => inr n | inr _ => inl "not a number"%string end;
  Parameter_get_value v := match v with inl n => inr n | inr _ => inl "not a number"%string end;
|}.

#[export] Instance memory_parameters_laws : ParametersLaws memory_parameters id.
Proof.
  split; simpl; [|done|]; intros name v d ignore w; destruct (w !! name); naive_solver.
Qed.

Lemma declare_parameters_spec_witness :
  let '(r, w') := ClusterNode_declare_parameters memory_parameters () "ns"
    [("a"%string, 1%N); ("b"%string, 2%N)] false ∅ in
  (∀ name, (∀ k, k ∈ ["a"; "b"]%string → name ≠ "ns." +:+ k) → w' !! name = None) ∧
  match r with
  | inr ts => Forall2 (λ p t, declared_as memory_parameters id w' ("ns." +:+ p.1) t)
      [("a"%string, 1%N); ("b"%string, 2%N)] ts
  | inl _ => False
  end.
Proof.
  pose proof (declare_parameters_spec memory_parameters () id "ns"
    [("a"%string, 1%N); ("b"%string, 2%N)] false ∅) as Hs.
  assert (NoDup ["a"; "b"]%string) as Hnd by by apply (bool_decide_unpack _).
  specialize (Hs Hnd). exact Hs.
Defined.

Lemma parameter_lookups_witness :
  ClusterNode_get_parameter_or memory_parameters "a" 0%N 7%N ∅ = (inr false, 7%N).
Proof.
  destruct (parameter_lookups memory_parameters "a" "" 0%N 7%N ∅ ∅) as [Hl _]. exact Hl.
Defined.
