(* ===== verification/Campaign.v ===== *)
(** * Winning an election

    A node whose election timer fires asks its peers for their votes; when enough
    of them are reachable, in older terms and without entries that the candidate
    misses, their answers make it the leader of the next term. *)

From S2P Require Import Prelude Codec Platform LogEntry ContextStore ContextStoreFacts.
From S2P Require Import StoreTheorems NodeUtil RaftTypes OtherNode StateMachine Lifecycle Node.
From S2P Require Import StateMachineInterface RaftContext RaftContextFacts Election VoteFacts.
From S2P Require Import RaftStateMachine RaftStateMachineFacts ClusterNodeImpl.
From S2P Require Import ElectionRefinement NodeInvariant AppendEntries PeerFacts Demo.

Local Open Scope N_scope.

Section campaign.
  Context `{PlatformSpec}.
  Implicit Types (n : Node).

(** ** The requests of a candidate *)

Definition ballot n (id : N) : option Output :=
  o ← other_nodes_ (context_ n) !! id;
  SendRequestVote id <$> OtherNode.request_vote (get_term n) (node_id_ (context_ n))
    (last_log (store n)) o.

Lemma request_votes_outputs n ids :
  foldl request_vote_to n ids = set_outputs (outputs_ n ++ omap (ballot n) ids) n.
Proof.
  apply foldl_outputs. intros outs id. unfold request_vote_to, ballot. simpl.
  destruct (other_nodes_ (context_ n) !! id) as [o|]; [|done]. simpl.
  change (store (set_outputs outs n)) with (store n).
  unfold OtherNode.request_vote. by destruct (request_vote_ready o).
Qed.

(** A follower becomes a candidate unnoticed: its lifecycle state is the same. *)
Lemma depart_candidate n : machines_ok n → raft_state n = kFollower →
  depart kCandidate n = set_raft_fsm (set_current_state kCandidate (raft_fsm_ n)) n.
Proof.
  intros [H1 H2 H3 H4 H5 H6] Hst. rewrite Hst in H6. unfold depart.
  rewrite Hst. cbn [state_exit follower_exit].
  change (current_state_notifier_ _) with (current_state_notifier_ (raft_fsm_ n)).
  rewrite H3. set (n1 := set_raft_fsm _ n).
  change (lifecycle_handle Event.kStandby n1 = n1).
  rewrite lifecycle_handle_unfold. cbv zeta. change (lifecycle_fsm_ n1) with (lifecycle_fsm_ n).
  rewrite H6, find_target, H4 by (by apply (bool_decide_unpack _)).
  by rewrite decide_True by apply kUnknown_not_state.
Qed.

(** What an election leaves when more votes than the node's own are needed. *)
Record candidate_of (n n' : Node) : Prop := {
  candidate_store : ∃ d, store n' =
    mkContextStore d (get_term n + 1) (node_id_ (context_ n)) true 1 (logs_ (store n));
  candidate_peers : other_nodes_ (context_ n') = other_nodes_ (context_ n);
  candidate_id : node_id_ (context_ n') = node_id_ (context_ n);
  candidate_majority : majority_ (context_ n') = majority_ (context_ n);
  candidate_state : raft_state n' = kCandidate;
  candidate_states : states_ (raft_fsm_ n') = states_ (raft_fsm_ n);
  candidate_outputs : outputs_ n' =
    outputs_ n ++ omap (ballot n') (map_ids (other_nodes_ (context_ n)));
}.

Lemma reset_election_timer_eq n : ∃ t g, reset_election_timer n =
  on_context (λ c, set_election_timer t (set_random_generator g c)) n.
Proof.
  unfold reset_election_timer, start_election_timer. split_call. by eexists _, _.
Qed.

(** The term after an increase: the last one is not left. *)
Definition next_term (t : N) : N := if t + 1 <? u64_size then t + 1 else t.

(** An election up to the requests: the next term, and the vote for itself. *)
Lemma start_election_eq `{!StateMachineInterface} n : ∃ d t g,
  start_election n = request_vote
    (on_context (λ c, set_election_timer t (set_random_generator g c))
      (on_store (λ s, mkContextStore d (next_term (current_term_ s)) (node_id_ (context_ n))
        true 1 (logs_ s)) n)).
Proof.
  unfold start_election.
  assert (∃ d, reset_vote (increase_term n) = on_store (λ s, mkContextStore d
    (next_term (current_term_ s)) 0 false 0 (logs_ s)) n) as [d1 ->].
  { pose proof (increase_term_eq n) as E. cbv zeta in E. unfold next_term.
    set (t := current_term_ (store n)) in *.
    assert (∀ d, in_new_term d (wrap64 (t + 1)) n = on_store (λ s, mkContextStore d
      (wrap64 (t + 1)) 0 false 0 (logs_ s)) n) as En by done.
    destruct E as [[Hle ->]|[Hlt [d0 ->]]].
    - destruct (reset_vote_eq n) as [d ->]. exists d. apply on_store_ext. fold t.
      case_test; [|done]. rewrite wrap64_small in Hle by done. lia.
    - rewrite En. destruct (reset_vote_eq (on_store (λ s, mkContextStore d0
        (wrap64 (t + 1)) 0 false 0 (logs_ s)) n)) as [d ->].
      exists d. rewrite on_store_comp. apply on_store_ext. simpl. fold t. case_test.
      + by rewrite wrap64_small.
      + pose proof (N.mod_lt (t + 1) u64_size ltac:(done)) as Hmod. unfold wrap64 in *.
        assert (t + 1 = u64_size) as Et by lia. rewrite Et, N.Div0.mod_same in Hlt. lia. }
  match goal with |- context [vote_for_me ?n] => destruct (vote_for_me_eq n) as [d2 ->] end.
  rewrite on_store_comp.
  match goal with |- context [reset_election_timer ?n] =>
    destruct (reset_election_timer_eq n) as (t & g & ->) end.
  by exists d2, t, g.
Qed.

Lemma start_election_candidate `{!StateMachineInterface} `{!StateMachineContract} n :
  raft_state n = kCandidate → get_term n + 1 < u64_size → 1 < majority_ (context_ n) →
  candidate_of n (start_election n).
Proof.
  intros Hst Hlt Hm. destruct (start_election_eq n) as (d & t & g & ->).
  assert (next_term (current_term_ (store n)) = get_term n + 1) as Ht.
  { unfold next_term. change (current_term_ (store n)) with (get_term n).
    case_test; [done|lia]. }
  unfold request_vote. rewrite request_votes_outputs. unfold check_elected.
  match goal with |- context [if ?b then _ else _] => assert (b = true) as -> end.
  { apply N.ltb_lt. exact Hm. }
  split; try done. exists d. rewrite <-Ht. reflexivity.
Qed.

(** The election timer of a node that has not heard of a leader. *)
Lemma election_timer_candidate n :
  reachable n → raft_state n = kFollower ∨ raft_state n = kCandidate →
  broadcast_received_ (context_ n) = false →
  get_term n + 1 < u64_size → 1 < majority_ (context_ n) →
  candidate_of n (run_input ElectionTimer n).
Proof.
  intros Hr%reachable_ok Hst Hb Hlt Hm. pose proof (node_machines _ Hr) as Hok.
  pose proof (ok_states _ Hok) as Hs.
  pose proof (ok_election_timer _ (node_timers _ Hr)) as Ht. unfold run_input.
  destruct (election_timer_ (context_ n)); [|destruct Hst; congruence].
  unfold on_election_timer. rewrite Hb.
  change (StateMachineInterface.on_election_timedout n) with (raft_handle (S 1) kTimedout n).
  pose proof (mk_interface_contract 0) as Hcontract.
  rewrite raft_handle_S. unfold state_handle. destruct Hst as [Hst|Hst]; rewrite Hst; simpl.
  - rewrite Hs, decide_True by by apply (bool_decide_unpack _).
    unfold goto. rewrite depart_candidate by done.
    destruct (@start_election_candidate _ Hcontract
      (set_raft_fsm (set_current_state kCandidate (raft_fsm_ n)) n)); done.
  - unfold candidate_on_timedout.
    pose proof (@start_election_candidate _ Hcontract n Hst Hlt Hm) as Hc.
    rewrite (candidate_states _ _ Hc), Hs. by rewrite decide_False by apply kStay_not_state.
Qed.

(** ** The votes *)

Definition vote_sent_to (j : N) (o : Output) : option RequestVoteRequest :=
  match o with SendRequestVote id r => if id =? j then Some r else None | _ => None end.

(** The identifier of the last entry, as a candidate announces it. *)
Definition last_index n : N := match last_log (store n) with Some e => id_ e | None => 0 end.

(** A peer whose service candidate [n] reaches, that knows it, is in no newer term and
    whose log is empty or ends at or before the position that [n] announces: that of
    its last entry, 0 for an empty log. *)
Definition willing n (voter : N * Node) : Prop :=
  (∃ o, other_nodes_ (context_ n) !! voter.1 = Some o ∧ request_vote_ready o = true) ∧
  is_valid_node (node_id_ (context_ n)) voter.2 = true ∧
  get_term voter.2 ≤ get_term n ∧
  log_allows (last_index n) (store voter.2) = true.

(** The request that the candidate sent to the voter, answered, if there is one. *)
Definition answer_ballot (sent : list Output) (n : Node) (voter : N * Node) : Node :=
  match last (omap (vote_sent_to voter.1) sent) with
  | Some r => run_input (RequestVoteAnswer (on_request_vote_requested r voter.2).1) n
  | None => n
  end.

(** The election timer fires, and the answers of the voters arrive. *)
Definition campaign n (voters : list (N * Node)) : Node :=
  let n' := run_input ElectionTimer n in
  foldl (answer_ballot (outputs_since n n')) n' voters.

Lemma ballot_sent n n' j o : candidate_of n n' →
  other_nodes_ (context_ n) !! j = Some o → request_vote_ready o = true →
  ∃ t, last (omap (vote_sent_to j) (outputs_since n n')) =
    Some (mkRequestVoteRequest (get_term n + 1) (node_id_ (context_ n)) (last_index n) t).
Proof.
  intros [[d Hs] Hpeers Hid _ _ _ Hout] Ho Hready.
  exists (match last_log (store n) with Some e => term_ e | None => 0 end).
  unfold outputs_since. rewrite Hout, drop_app_length. apply last_message with j.
  - apply elem_of_map_ids. by exists o.
  - unfold ballot. rewrite Hpeers, Ho. simpl. unfold OtherNode.request_vote.
    rewrite Hready. simpl. rewrite N.eqb_refl. unfold get_term, current_term. rewrite Hs, Hid.
    done.
  - intros id y Hy. unfold ballot in Hy. destruct (other_nodes_ _ !! id) as [o'|]; [|done].
    simpl in Hy. destruct (OtherNode.request_vote _ _ _ _); [|done]. simpl in Hy.
    by case_test_in Hy.
Qed.

(** A vote is granted in a newer term if the log allows it. *)
Lemma vote_granted r v : is_valid_node (rv_candidate_id r) v = true →
  get_term v < rv_term r → log_allows (rv_last_data_index r) (store v) = true →
  (on_request_vote_requested r v).1 = mkRequestVoteResponse (rv_term r) true.
Proof.
  intros Hv Hlt Hlog. unfold on_request_vote_requested. rewrite Hv. cbn [negb].
  destruct (update_term_new (rv_term r) false v) as [d ->]; [done|]. cbv iota beta.
  match goal with |- context [vote _ _ _ _ ?n] => set (n1 := n) end.
  assert (store n1 = mkContextStore d (rv_term r) 0 false 0 (logs_ (store v))) as Hs
    by (subst n1; by rewrite (state_change_store _ _ (on_new_term_received_change _))).
  pose proof (vote_eq (rv_term r) (rv_candidate_id r) (rv_last_data_index r)
    (rv_loat_data_term r) n1) as E.
  cbv zeta in E. rewrite Hs in E. simpl in E. rewrite N.leb_refl in E.
  change (log_allows (rv_last_data_index r) (mkContextStore d (rv_term r) 0 false 0
    (logs_ (store v)))) with (log_allows (rv_last_data_index r) (store v)) in E.
  rewrite Hlog in E. destruct E as [d' ->]. done.
Qed.

(** After [k] votes of term [term], its own included. *)
Record counting (majority term k : N) n : Prop := {
  counting_states : states_ (raft_fsm_ n) = raft_states;
  counting_majority : majority_ (context_ n) = majority;
  counting_term : get_term n = term;
  counting_votes : vote_received (store n) = k;
  counting_state : raft_state n = if k <? majority then kCandidate else kLeader;
}.

Lemma counting_vote majority term k n : k + 1 < u32_size → counting majority term k n →
  counting majority term (k + 1)
    (run_input (RequestVoteAnswer (mkRequestVoteResponse term true)) n).
Proof.
  intros Hk [Hs Hm Ht Hr Hst]. unfold get_term, current_term, vote_received in *.
  unfold run_input, on_request_vote_response, current_term. simpl.
  rewrite Ht, N.ltb_irrefl, update_term_old by lia. cbn [negb].
  match goal with |- context [check_elected ?n] => set (n1 := n) end.
  destruct (check_elected_view n1 Hs) as (Hv & _ & Hm' & Hs').
  assert (vote_received_ (store n1) = k + 1) as Hr1.
  { change (wrap32 (vote_received_ (store n) + 1) = k + 1). rewrite Hr. by apply wrap32_small. }
  rewrite Hr1 in Hv. change (majority_ (context_ n1)) with (majority_ (context_ n)) in Hv, Hm'.
  rewrite Hm in Hv. split; [by rewrite Hs'|by rewrite Hm'|..].
  - change (view_term (view_of (check_elected n1)) = term). rewrite Hv. by case_test.
  - change (view_received (view_of (check_elected n1)) = k + 1). rewrite Hv. by case_test.
  - change (view_state (view_of (check_elected n1)) = if k + 1 <? majority then kCandidate else kLeader).
    rewrite Hv. change (raft_state n1) with (raft_state n). case_test; simpl.
    + change (raft_state n1) with (raft_state n). rewrite Hst. case_test; [done|lia].
    + rewrite Hst. by case_test.
Qed.

Lemma counting_voters n n' k voters m :
  candidate_of n n' → Forall (willing n) voters →
  k + N.of_nat (length voters) < u32_size →
  counting (majority_ (context_ n)) (get_term n + 1) k m →
  counting (majority_ (context_ n)) (get_term n + 1) (k + N.of_nat (length voters))
    (foldl (answer_ballot (outputs_since n n')) m voters).
Proof.
  intros Hn Hw. revert k m. induction Hw as [|[j v] voters [(o & Ho & Hready) (Hv & Ht & Hlog)] _ IH];
    intros k m Hk Hm; cbn [fst snd] in *; [by rewrite N.add_0_r|].
  cbn [length foldl] in *. rewrite Nat2N.inj_succ in *.
  replace (k + N.succ (N.of_nat (length voters))) with (k + 1 + N.of_nat (length voters)) by lia.
  apply IH; [lia|]. unfold answer_ballot. simpl.
  destruct (ballot_sent n n' j o Hn Ho Hready) as [t ->].
  rewrite vote_granted by (simpl; done || lia). apply counting_vote; [lia|done].
Qed.

Lemma campaign_reachable n voters : reachable n → reachable (campaign n voters).
Proof.
  intros Hr. unfold campaign. generalize (outputs_since n (run_input ElectionTimer n)).
  apply (reachable_run [ElectionTimer]) in Hr. cbn [run_inputs foldl] in Hr.
  intros sent. revert Hr. generalize (run_input ElectionTimer n).
  induction voters as [|v voters IH]; intros m Hr; [done|]. apply IH.
  unfold answer_ballot. destruct (last _) as [r|]; [|done].
  exact (reachable_run [RequestVoteAnswer _] m Hr).
Qed.

(** C16: winning an election.  Take a follower or a candidate in a reachable state
    that has not heard of a leader, is not in the last 64-bit term and needs more than
    one vote.  Let its election timer fire, and let fewer than [2 ^ 32 - 1] peers answer
    its requests: peers that it reaches, that know it and are in no newer term, and
    whose log is empty or ends at or before the position that the node announces, that
    of its last entry or 0 for an empty log.  If these answers and the node's own vote
    are a majority, the node leads the next term and is active, however the majority
    is made up and in whichever order the answers come. *)
Theorem election_won n voters :
  reachable n → raft_state n = kFollower ∨ raft_state n = kCandidate →
  broadcast_received_ (context_ n) = false → get_term n + 1 < u64_size →
  1 < majority_ (context_ n) → Forall (willing n) voters →
  majority_ (context_ n) ≤ N.of_nat (length voters) + 1 →
  N.of_nat (length voters) + 1 < u32_size →
  raft_state (campaign n voters) = kLeader ∧ get_term (campaign n voters) = get_term n + 1 ∧
  ClusterNode_is_activated (campaign n voters) = true.
Proof.
  intros Hr Hst Hb Hlt Hm Hw Hmaj Hlen.
  pose proof (election_timer_candidate n Hr Hst Hb Hlt Hm) as Hc.
  destruct (counting_voters n _ 1 voters (run_input ElectionTimer n) Hc Hw) as [_ _ Ht _ Hlead].
  { lia. }
  { destruct Hc as [[d Hs] _ _ Hm' Hst' Hs' _]. unfold get_term, current_term in *.
    split; unfold get_term, current_term, vote_received; rewrite ?Hs, ?Hs', ?Hst'; try done.
    - by apply reachable_states.
    - by rewrite (proj2 (N.ltb_lt _ _) Hm). }
  rewrite (proj2 (N.ltb_ge _ _)) in Hlead by lia.
  split_and!; [exact Hlead|exact Ht|].
  rewrite activated_leader by by apply campaign_reachable.
  by apply bool_decide_eq_true.
Qed.

End campaign.

(** ** Witness

    Node 1 of three, with one entry, reaches nodes 2 and 3; node 3 answers. *)

Definition demo_challenger : Node (H := mem_platform) :=
  run_inputs [AppendEntries demo_request; ServiceDiscovery 2 true true;
    ServiceDiscovery 3 true true; ElectionTimer] (demo_node [1; 2; 3] 1).

Lemma election_won_witness :
  get_term demo_challenger = 1 ∧
  let n := campaign demo_challenger [(3, demo_node [1; 2; 3] 3)] in
  raft_state n = kLeader ∧ get_term n = 2 ∧ ClusterNode_is_activated n = true.
Proof.
  split; [vm_compute; reflexivity|].
  apply (election_won demo_challenger [(3, demo_node [1; 2; 3] 3)]).
  - apply demo_reachable.
  - left. vm_compute. reflexivity.
  - vm_compute. reflexivity.
  - vm_compute. reflexivity.
  - vm_compute. reflexivity.
  - constructor; [|constructor]. split; [eexists; split; vm_compute; reflexivity|].
    split; [vm_compute; reflexivity|]. split; [vm_compute; discriminate|].
    vm_compute. reflexivity.
  - vm_compute. discriminate.
  - vm_compute. reflexivity.
Defined.
