(* ===== verification/Alone.v ===== *)
(** * A node alone in its cluster

    The only node of a cluster leads at its first election timeout, without a
    message, and stays the leader while nothing but its timers calls into it. *)

From S2P Require Import Prelude Codec Platform LogEntry ContextStore ContextStoreFacts.
From S2P Require Import NodeUtil RaftTypes OtherNode StateMachine Lifecycle Node.
From S2P Require Import StateMachineInterface RaftContext RaftContextFacts Election VoteFacts.
From S2P Require Import RaftStateMachine RaftStateMachineFacts ClusterNodeOptions ClusterNodeImpl.
From S2P Require Import ElectionRefinement NodeInvariant Demo Campaign.

Local Open Scope N_scope.

Abbreviation registrations := [RegisterOnActivated; RegisterOnStandby; RegisterOnDeactivated].

Section alone.
  Context `{PlatformSpec}.
  Implicit Types (n : Node).

Record alone n : Prop := {
  alone_ok : node_ok n;
  alone_peers : other_nodes_ (context_ n) = ∅;
  alone_majority : majority_ (context_ n) = 1;
  alone_pending : pending_commit_ (context_ n) = None;
  alone_unheard : broadcast_received_ (context_ n) = false;
  alone_callback : activated_callback_ n = true;
}.

(** A candidate without peers is elected by its own vote. *)
Lemma request_vote_alone `{!StateMachineInterface} n :
  other_nodes_ (context_ n) = ∅ → vote_received (store n) = 1 → majority_ (context_ n) = 1 →
  request_vote n =
    StateMachineInterface.on_elected (on_context (λ c, set_other_nodes ∅ c) n).
Proof.
  intros Hp Hv Hm. unfold request_vote. rewrite Hp.
  change (foldl request_vote_to n (map_ids ∅)) with n.
  unfold check_elected. rewrite Hv, Hm. change (1 <? 1) with false. cbv iota.
  f_equal. unfold on_context. by rewrite Hp, fmap_empty.
Qed.

(** A candidate becomes a leader: the node is activated. *)
Lemma depart_leader n : machines_ok n → raft_state n = kCandidate → activated_callback_ n = true →
  outputs_ (depart kLeader n) = outputs_ n ++ [ActivatedCallback] ∧
  activated_callback_ (depart kLeader n) = true.
Proof.
  intros [H1 H2 H3 H4 H5 H6] Hst Hcb. rewrite Hst in H6. unfold depart.
  rewrite Hst. cbn [state_exit]. change (candidate_exit n) with n.
  set (n1 := set_raft_fsm _ n).
  change (raft_fsm_ n1) with (set_current_state kLeader (raft_fsm_ n)).
  cbn [set_current_state current_state_notifier_]. rewrite H3.
  change (notify observe_state [cluster_node_address] kLeader n1)
    with (lifecycle_handle Event.kActivate n1).
  rewrite lifecycle_handle_unfold. cbv zeta. change (lifecycle_fsm_ n1) with (lifecycle_fsm_ n).
  rewrite H6, find_target, H4, H5 by (by apply (bool_decide_unpack _)).
  rewrite decide_False by (by intros E; apply E, (bool_decide_unpack _)).
  change (if decide (lifecycle_of kCandidate = target Event.kActivate) then Lifecycle.kUnknown
    else target Event.kActivate) with kActive.
  set (n2 := set_lifecycle_fsm _ n1).
  change (notify observe_lifecycle _ kActive n2)
    with (if activated_callback_ n then output ActivatedCallback n2 else n2).
  by rewrite Hcb.
Qed.

(** The first timeout. *)
Lemma alone_timeout n : alone n → raft_state n = kFollower →
  let n' := run_input ElectionTimer n in
  alone n' ∧ raft_state n' = kLeader ∧ outputs_ n' = outputs_ n ++ [ActivatedCallback] ∧
  logs_ (store n') = logs_ (store n) ∧ get_term n' = next_term (get_term n).
Proof.
  intros [Hok Hp Hm Hpc Hb Hcb] Hst. cbv zeta.
  pose proof (run_input_ok ElectionTimer n Hok) as Hok'. revert Hok'.
  pose proof (node_machines _ Hok) as Hmach. pose proof (ok_states _ Hmach) as Hs.
  pose proof (ok_election_timer _ (node_timers _ Hok)) as Ht. unfold run_input.
  destruct (election_timer_ (context_ n)); [|congruence].
  unfold on_election_timer. rewrite Hb.
  change (StateMachineInterface.on_election_timedout n) with (raft_handle (S 1) kTimedout n).
  rewrite raft_handle_S. unfold state_handle. rewrite Hst. simpl.
  rewrite Hs, decide_True by by apply (bool_decide_unpack _).
  unfold goto. pose proof (depart_machines kCandidate n Hmach) as Hmach1.
  rewrite depart_candidate in * by done. specialize (Hmach1 ltac:(by apply (bool_decide_unpack _))).
  set (n1 := set_raft_fsm _ n) in *. cbn [state_entry]. unfold candidate_entry.
  destruct (start_election_eq (H1 := mk_interface (raft_handle 1)) n1) as (d & t & g & ->).
  match goal with |- context [request_vote ?n] => set (n2 := n) end.
  rewrite (request_vote_alone n2) by done.
  set (n3 := on_context (λ c, set_other_nodes ∅ c) n2).
  change (StateMachineInterface.on_elected n3) with (raft_handle 1 kElected n3).
  assert (machines_ok n3) as Hmach3 by (destruct Hmach1; by split).
  destruct (depart_leader n3 Hmach3 eq_refl Hcb) as [Hout Hcb3].
  rewrite raft_handle_simple by done. change (raft_state n3) with kCandidate. simpl.
  rewrite Hs, decide_True by by apply (bool_decide_unpack _).
  unfold leader_entry. pose proof (depart_context kLeader n3) as Hctx.
  change (context_ (depart kLeader n3) = context_ n3) in Hctx.
  set (n4 := depart kLeader n3) in *. intros Hok'.
  assert (raft_state n4 = kLeader) as Hst4 by apply raft_state_depart. clearbody n4.
  assert (store (start_broadcast_timer n4) = store n3) as Hstore.
  { change (store_ (context_ n4) = store n3). by rewrite Hctx. }
  split_and!.
  - split; [exact Hok'|change (other_nodes_ (context_ n4) = ∅)
      |change (majority_ (context_ n4) = 1)|change (pending_commit_ (context_ n4) = None)
      |change (broadcast_received_ (context_ n4) = false)
      |exact Hcb3]; by rewrite Hctx.
  - exact Hst4.
  - exact Hout.
  - by rewrite Hstore.
  - unfold get_term. by rewrite Hstore.
Qed.

(** A leader without peers has nothing to send and nothing to wait for. *)
Lemma alone_leader_timer n timer : alone n → raft_state n = kLeader →
  timer = ElectionTimer ∨ timer = BroadcastTimer → run_input timer n = n.
Proof.
  intros [Hok Hp Hm Hpc Hb Hcb] Hst Htimer.
  pose proof (ok_states _ (node_machines _ Hok)) as Hs.
  assert (broadcast n = n) as Hbr.
  { unfold broadcast, get_pending_commit. by rewrite Hpc, Hp. }
  destruct Htimer as [-> | ->]; unfold run_input.
  - destruct (election_timer_ (context_ n)); [|done]. unfold on_election_timer. rewrite Hb.
    change (StateMachineInterface.on_election_timedout n) with (raft_handle (S 1) kTimedout n).
    rewrite raft_handle_S. unfold state_handle. rewrite Hst. simpl.
    rewrite Hs, decide_False; [done|apply kStay_not_state].
  - destruct (broadcast_timer_ (context_ n)); [|done].
    change (on_broadcast_timer n) with (raft_handle (S 1) kBroadcastTimedout n).
    rewrite raft_handle_S. unfold state_handle. rewrite Hst. simpl.
    unfold leader_on_broadcast_timedout. rewrite Hbr, Hs, decide_False; [done|apply kStay_not_state].
Qed.

Definition is_timer (input : NodeInput) : Prop := input = ElectionTimer ∨ input = BroadcastTimer.

Definition is_election_timer (input : NodeInput) : bool :=
  match input with ElectionTimer => true | _ => false end.

Lemma alone_timers n timers : alone n → raft_state n = kFollower → Forall is_timer timers →
  run_inputs timers n =
    if existsb is_election_timer timers then run_input ElectionTimer n else n.
Proof.
  intros Ha Hst. induction 1 as [|t timers [-> | ->] Htimers IH]; [done|..];
    cbn [run_inputs foldl existsb is_election_timer orb].
  - destruct (alone_timeout n Ha Hst) as (Ha' & Hst' & _). revert Ha' Hst'.
    generalize (run_input ElectionTimer n). clear IH Ha Hst n.
    induction Htimers as [|t timers Ht _ IH]; intros n Ha Hst; [done|]. cbn [foldl].
    rewrite alone_leader_timer by done. by apply IH.
  - assert (run_input BroadcastTimer n = n) as ->; [|exact IH].
    pose proof (ok_broadcast_timer _ (node_timers _ (alone_ok _ Ha))) as Hb.
    rewrite Hst, decide_False in Hb by done. unfold run_input. by rewrite Hb.
Qed.

(** The owner of a node that has just started registers its callbacks. *)
Lemma registered_alone n :
  node_ok n → raft_state n = kFollower → other_nodes_ (context_ n) = ∅ →
  majority_ (context_ n) = 1 → broadcast_received_ (context_ n) = false → outputs_ n = [] →
  let n' := run_inputs registrations n in
  alone n' ∧ raft_state n' = kFollower ∧ outputs_ n' = [] ∧
  ClusterNode_is_activated n' = false.
Proof.
  intros Hok Hst Hp Hm Hb Hout n'. split_and!; [|exact Hst|exact Hout|].
  - split; [by apply run_inputs_ok|done|done| |done|done].
    change (pending_commit_ (context_ n) = None).
    destruct (pending_commit_ (context_ n)) as [p|] eqn:Hpc; [|done].
    destruct (pending_leads _ p Hok Hpc) as [Hl _]. congruence.
  - apply bool_decide_eq_false. change (current_state_ (lifecycle_fsm_ n) ≠ kActive).
    by rewrite (ok_lifecycle _ (node_machines _ Hok)), Hst.
Qed.

(** A new node that is alone. *)
Lemma new_node_alone cluster_name id options open_db g :
  election_timeout_min options ≤ election_timeout_max options →
  let n := run_inputs registrations (new_ClusterNode cluster_name id [id] options open_db g) in
  alone n ∧ raft_state n = kFollower ∧ outputs_ n = [] ∧ ClusterNode_is_activated n = false.
Proof.
  intros Hle.
  destruct (new_ClusterNode_facts cluster_name id [id] options open_db g)
    as (_ & _ & Hmaj & _ & Hst).
  pose proof (new_ClusterNode_ok cluster_name id [id] options open_db g Hle) as Hok.
  set (c := constructed cluster_name id [id] options open_db g).
  assert (new_ClusterNode cluster_name id [id] options open_db g =
    raft_handle (S 1) kStarted c) as E by reflexivity. rewrite E in *. clear E.
  destruct (raft_handle_simple_change 1 kStarted c) as [_ Hpeers _ _ _ Hbr _ _ _ _]; [done..|].
  apply registered_alone; [exact Hok|exact Hst| |exact Hmaj| |].
  - rewrite Hpeers. apply map_eq. intros j. subst c.
    rewrite constructed_peers, lookup_empty, decide_False; [done|set_solver].
  - rewrite Hbr. subst c.
    by destruct (constructed_context cluster_name id [id] options open_db g) as [peers ->].
  - rewrite raft_handle_simple by done.
    change (outputs_ (start_election_timer (depart kFollower c)) = []).
    unfold start_election_timer. split_call. reflexivity.
Qed.

(** C17: a node alone in its cluster.  On any database, whatever its timers do, the
    only node of a cluster leads exactly from the first timeout of its election
    timer on: it is active from then on, its owner is told so once and nothing
    else, its term is the next one unless it is the last that 64 bits hold, and
    its log is untouched. *)
Theorem alone_node_leads cluster_name id options open_db g timers :
  election_timeout_min options ≤ election_timeout_max options → Forall is_timer timers →
  let n := run_inputs registrations (new_ClusterNode cluster_name id [id] options open_db g) in
  let n' := run_inputs timers n in
  let led := existsb is_election_timer timers in
  is_leader n' = led ∧ ClusterNode_is_activated n' = led ∧
  outputs_ n' = (if led then [ActivatedCallback] else []) ∧
  logs_ (store n') = logs_ (store n) ∧
  get_term n' = if led then next_term (get_term n) else get_term n.
Proof.
  intros Hle Htimers n n' led.
  destruct (new_node_alone cluster_name id options open_db g Hle) as (Ha & Hst & Hout & Hact).
  change (run_inputs registrations _) with n in Ha, Hst, Hout, Hact.
  assert (n' = if led then run_input ElectionTimer n else n) as En
    by by apply alone_timers.
  assert (ClusterNode_is_activated n' = is_leader n') as ->.
  { apply activated_leader. exists cluster_name, id, [id], options, open_db, g,
      (registrations ++ timers).
    split; [done|]. unfold run_inputs. by rewrite foldl_app. }
  clearbody n' n. destruct (alone_timeout n Ha Hst) as (_ & Hst' & Hout' & Hlog' & Ht').
  assert (is_leader n' = led) as El.
  { change (bool_decide (raft_state n' = kLeader) = led). rewrite En. destruct led.
    - by rewrite Hst'.
    - by rewrite Hst. }
  rewrite El, En. destruct led; rewrite ?Hout', ?Hout; done.
Qed.

End alone.

(** ** Witness *)

(** The database of a node that has led before and has an entry. *)
Definition demo_old_db : @DB mem_platform := default empty_db (db_ (store demo_single)).

Lemma alone_node_leads_witness :
  let n' := run_inputs [BroadcastTimer; ElectionTimer; BroadcastTimer; ElectionTimer]
    (run_inputs registrations
      (new_ClusterNode (H := mem_platform) "demo" 1 [1] demo_options (λ _, Some demo_old_db) 5)) in
  is_leader n' = true ∧ outputs_ n' = [ActivatedCallback] ∧ get_term n' = 2.
Proof.
  destruct (alone_node_leads (H := mem_platform) "demo" 1 demo_options (λ _, Some demo_old_db) 5
    [BroadcastTimer; ElectionTimer; BroadcastTimer; ElectionTimer]) as (Hl & _ & Ho & _ & Ht).
  - vm_compute. discriminate.
  - repeat constructor; (by left) || (by right).
  - split; [exact Hl|]. split; [exact Ho|]. rewrite Ht. vm_compute. reflexivity.
Defined.
