(* ===== verification/TestSuites.v ===== *)
(** * The test suites

    [foros/test]: the GoogleTest programs of the repository, run on the model.
    A test is a computation on the state of its fixture that collects the
    outcome of every expectation; [TestTheorems.suites_pass] says that they hold.

    Left out are the tests of what rclcpp alone does: the names it rejects, its
    namespaces, parameters and loggers, and the pointers to its interfaces. *)

From S2P Require Import Prelude Codec Platform LogEntry ContextStore NodeUtil RaftTypes OtherNode.
From S2P Require Import StateMachine Lifecycle Node StateMachineInterface RaftContext.
From S2P Require Import RaftStateMachine ClusterNodeOptions ClusterNodeImpl ClusterNode.

Local Open Scope N_scope.

(** ** Tests *)

Definition Test (S A : Type) : Type := S → A * S * list bool.

#[export] Instance Test_ret S : MRet (Test S) := λ A a s, (a, s, []).

#[export] Instance Test_bind S : MBind (Test S) := λ A B f t s,
  let '(a, s, before) := t s in
  let '(b, s, after) := f a s in
  (b, s, before ++ after).

(** Reading the fixture, calling a method of it. *)
Definition get {S A} (f : S → A) : Test S A := λ s, (f s, s, []).
Definition call {S A} (f : S → A * S) : Test S A := λ s, (f s, []).
Definition do_ {S} (f : S → S) : Test S () := λ s, ((), f s, []).

Definition EXPECT_TRUE {S} (b : bool) : Test S () := λ s, ((), s, [b]).
Definition EXPECT_EQ {S A} `{EqDecision A} (a b : A) : Test S () :=
  EXPECT_TRUE (bool_decide (a = b)).
Definition EXPECT_NE {S A} `{EqDecision A} (a b : A) : Test S () :=
  EXPECT_TRUE (negb (bool_decide (a = b))).

(** The two most frequent forms: [EXPECT_EQ(s.f(), a)]. *)
Definition EXPECT_GET {S A} `{EqDecision A} (f : S → A) (a : A) : Test S () :=
  x ← get f; EXPECT_EQ x a.
Definition EXPECT_CALL_RETURNS {S A} `{EqDecision A} (f : S → A * S) (a : A) : Test S () :=
  x ← call f; EXPECT_EQ x a.

(** [for (i = first; i < first + count; i++)] *)
Fixpoint for_loop {S} (first : N) (count : nat) (body : N → Test S ()) : Test S () :=
  match count with
  | O => mret ()
  | S count => body first;; for_loop (first + 1) count body
  end.

Definition passed {S A} (t : Test S A) (s : S) : bool := forallb id (t s).2.
Definition left_by {S A} (t : Test S A) (s : S) : S := (t s).1.2.

(** ** [test_lifecycle_state_machine.cpp]

    The fixture is a lifecycle state machine of its own, which nobody observes. *)

Section lifecycle.
  Abbreviation LifecycleMachine := (StateMachine Lifecycle.StateType).

Definition machine_itself : Embedding LifecycleMachine LifecycleMachine :=
  mkEmbedding id (λ m _, m).

Definition lifecycle_SetUp : LifecycleMachine :=
  new_StateMachine lifecycle_methods machine_itself lifecycle_fsm_address kInactive
    lifecycle_states (mkStateMachine [] kInactive [] []).

Definition expect_state (st : Lifecycle.StateType) : Test LifecycleMachine () :=
  EXPECT_GET (get_current_state_type machine_itself) st.

Definition handle_lifecycle (event : Event.Event) : Test LifecycleMachine () :=
  do_ (StateMachine.handle lifecycle_methods machine_itself (λ _ _ m, m) event).

Definition TestInactiveStateInit : Test LifecycleMachine () := expect_state kInactive.

Definition TestInactiveStateActivateEvent : Test LifecycleMachine () :=
  expect_state kInactive;;
  handle_lifecycle Event.kActivate;; expect_state kActive.

Definition TestInactiveStateDeactivateEvent : Test LifecycleMachine () :=
  expect_state kInactive;;
  handle_lifecycle Event.kDeactivate;; expect_state kInactive.

Definition TestInactiveStateStandbyEvent : Test LifecycleMachine () :=
  expect_state kInactive;;
  handle_lifecycle Event.kStandby;; expect_state Lifecycle.kStandby.

Definition TestActiveStateActivateEvent : Test LifecycleMachine () :=
  expect_state kInactive;;
  handle_lifecycle Event.kActivate;; expect_state kActive;;
  handle_lifecycle Event.kActivate;; expect_state kActive.

Definition TestActiveStateDeactivateEvent : Test LifecycleMachine () :=
  expect_state kInactive;;
  handle_lifecycle Event.kActivate;; expect_state kActive;;
  handle_lifecycle Event.kDeactivate;; expect_state kInactive.

Definition TestActiveStateStandbyEvent : Test LifecycleMachine () :=
  expect_state kInactive;;
  handle_lifecycle Event.kActivate;; expect_state kActive;;
  handle_lifecycle Event.kStandby;; expect_state Lifecycle.kStandby.

Definition TestStandbyStateActivateEvent : Test LifecycleMachine () :=
  expect_state kInactive;;
  handle_lifecycle Event.kStandby;; expect_state Lifecycle.kStandby;;
  handle_lifecycle Event.kActivate;; expect_state kActive.

Definition TestStandbyStateDeactivateEvent : Test LifecycleMachine () :=
  expect_state kInactive;;
  handle_lifecycle Event.kStandby;; expect_state Lifecycle.kStandby;;
  handle_lifecycle Event.kDeactivate;; expect_state kInactive.

Definition TestStandbyStateStandbyEvent : Test LifecycleMachine () :=
  expect_state kInactive;;
  handle_lifecycle Event.kStandby;; expect_state Lifecycle.kStandby;;
  handle_lifecycle Event.kStandby;; expect_state Lifecycle.kStandby.

Definition lifecycle_tests : list (Test LifecycleMachine ()) :=
  [TestInactiveStateInit; TestInactiveStateActivateEvent; TestInactiveStateDeactivateEvent;
   TestInactiveStateStandbyEvent; TestActiveStateActivateEvent; TestActiveStateDeactivateEvent;
   TestActiveStateStandbyEvent; TestStandbyStateActivateEvent; TestStandbyStateDeactivateEvent;
   TestStandbyStateStandbyEvent].

End lifecycle.

(** ** [test_raft.hpp] *)

Definition kTempPath : string := "/tmp".
Definition kStorePath : string := "/tmp/foros_test_cluster0".
Definition kInvalidStorePath : string := "@/3kj1;tmp/abc/def/adf01-_".
Definition kClusterName : string := "test_cluster".
Definition kNodeId : N := 0.
Definition kOtherNodeId : N := 1.
Definition kClusterIds : list N := [0].
Definition kClusterIds2 : list N := [0; 1].
Definition kTestData : byte := x61.
Definition kCurrentTerm : N := 10.
Definition kVotedFor : N := 1.
Definition kMaxCommitSize : N := 3.
Definition kElectionTimeoutMin : N := 15000.
Definition kElectionTimeoutMax : N := 20000.

(** The file system holds one database, at [kStorePath]; no other directory can
    be opened.  The random generator is in any state. *)
Section raft.
  Context `{Platform} (random_generator : RNG).
  Implicit Types (disk : DB).

Definition open_at disk (path : string) : option DB :=
  if String.eqb path kStorePath then Some disk else None.

Definition command : Command := mkCommand [kTestData].

(** [log->command_->data()] *)
Definition log_data (log : option LogEntry) : option (list byte) :=
  l ← log; c ← command_ l; Some (data c).

(** [command->data()[0]] *)
Definition command_byte (c : option Command) : option byte :=
  c ← c; head (data c).

Definition TestContextStore : Test ContextStore () :=
  EXPECT_GET current_term 0;;
  EXPECT_CALL_RETURNS (set_current_term kCurrentTerm) true;;
  EXPECT_GET current_term kCurrentTerm;;
  EXPECT_GET voted false;;
  EXPECT_CALL_RETURNS (set_voted true) true;;
  EXPECT_GET voted true;;
  EXPECT_GET voted_for 0;;
  EXPECT_CALL_RETURNS (set_voted_for kVotedFor) true;;
  EXPECT_GET voted_for kVotedFor;;
  EXPECT_GET logs_size 0;;
  EXPECT_CALL_RETURNS (push_log (Some (mkLogEntry 0 kCurrentTerm (Some command)))) true;;
  EXPECT_GET logs_size 1;;
  l ← get (log 0);
  EXPECT_GET last_log l;;
  EXPECT_EQ (id_ <$> l) (Some 0);;
  EXPECT_EQ (term_ <$> l) (Some 10);;
  EXPECT_EQ (log_data l ≫= head) (Some kTestData);;
  EXPECT_EQ (length <$> log_data l) (Some 1%nat);;
  EXPECT_CALL_RETURNS (revert_log 1) false;;
  EXPECT_CALL_RETURNS (revert_log 0) true;;
  EXPECT_GET logs_size 0;;
  for_loop 0 (N.to_nat kMaxCommitSize) (λ i,
    EXPECT_CALL_RETURNS (push_log (Some (mkLogEntry i kCurrentTerm (Some command)))) true);;
  EXPECT_CALL_RETURNS
    (push_log (Some (mkLogEntry (kMaxCommitSize + 1) kCurrentTerm (Some command)))) false.

Definition TestContextStoreWithInitialData : Test ContextStore () :=
  EXPECT_GET current_term kCurrentTerm;;
  EXPECT_GET voted true;;
  EXPECT_GET voted_for kVotedFor;;
  EXPECT_GET logs_size kMaxCommitSize;;
  l ← get (log (kMaxCommitSize - 1));
  EXPECT_GET last_log l;;
  EXPECT_EQ (id_ <$> l) (Some (kMaxCommitSize - 1));;
  EXPECT_EQ (term_ <$> l) (Some kCurrentTerm);;
  EXPECT_EQ (log_data l ≫= head) (Some kTestData);;
  EXPECT_EQ (length <$> log_data l) (Some 1%nat).

Definition TestContextStoreWithInvalidPath : Test ContextStore () :=
  EXPECT_GET current_term 0;;
  EXPECT_CALL_RETURNS (set_current_term kCurrentTerm) false;;
  EXPECT_GET current_term kCurrentTerm;;
  EXPECT_GET voted false;;
  EXPECT_CALL_RETURNS (set_voted true) false;;
  EXPECT_GET voted true;;
  EXPECT_GET voted_for 0;;
  EXPECT_CALL_RETURNS (set_voted_for kVotedFor) false;;
  EXPECT_GET voted_for kVotedFor.

(** *** The mock of the state machine

    The context under test is on its own: a call of [on_leader_discovered] is
    recorded as [ActivatedCallback], which no context makes, and the calls that
    the tests do not count are not recorded. *)

Definition MockStateMachineInterface (leader : bool) : StateMachineInterface := {|
  StateMachineInterface.on_election_timedout n := n;
  StateMachineInterface.on_new_term_received n := n;
  StateMachineInterface.on_elected n := n;
  StateMachineInterface.on_broadcast_timedout n := n;
  StateMachineInterface.on_leader_discovered n := output ActivatedCallback n;
  StateMachineInterface.is_leader _ := leader;
  StateMachineInterface.get_current_state _ := RaftTypes.kStandby;
|}.

(** The context of the node, in a node whose other members are not used. *)
Definition TestContext disk : Node :=
  unconstructed (new_Context kClusterName kNodeId (kClusterName +:+ pretty kNodeId)
    kElectionTimeoutMin kElectionTimeoutMax kTempPath (open_at disk) random_generator).

(** The calls of the mocked callbacks, with the arguments that the tests expect. *)
Definition committed_calls (n : Node) : list N :=
  omap (λ o, match o with CommitCallback id _ => Some id | _ => None end) (outputs_ n).
Definition reverted_calls (n : Node) : list N :=
  omap (λ o, match o with RevertCallback id => Some id | _ => None end) (outputs_ n).
Definition response_calls (n : Node) : list N :=
  omap (λ o, match o with CommitResponseCallback promise => Some promise | _ => None end)
    (outputs_ n).
Definition leader_discovered_calls (n : Node) : list () :=
  omap (λ o, match o with ActivatedCallback => Some () | _ => None end) (outputs_ n).

(** The request passes through the service of the node itself, which handles it
    while the node spins. *)
Definition send_append_entries_to_me (leader : bool)
    (term leader_id leader_commit prev_log_index prev_log_term : N) (entries : list byte) :
    Test Node () :=
  do_ (λ n, (@on_append_entries_requested _ (MockStateMachineInterface leader)
    (mkAppendEntriesRequest term leader_id prev_log_index prev_log_term entries leader_commit)
    n).2).

Definition TestContextTermMethods : Test Node () :=
  do_ (on_context (initialize kClusterIds));;
  EXPECT_GET RaftContext.get_node_name (kClusterName +:+ pretty kNodeId);;
  term ← get get_term;
  do_ (@increase_term _ (MockStateMachineInterface true));;
  EXPECT_GET get_term (term + 1).

(** The three tests of [commit_command] have the same steps: [leader] is what the
    mock answers, [size] the number of commands at the end, [committed] and
    [responses] the calls that are expected. *)
Definition commit_test (leader : bool) (ids : list N) (size : N) (committed : list N)
    (responses : nat) : Test Node () :=
  do_ (on_context (initialize ids));;
  next_id ← get get_commands_size;
  EXPECT_EQ next_id 0;;
  do_ register_on_committed;;
  do_ register_on_reverted;;
  EXPECT_GET get_commands_size 0;;
  call (@commit_command _ (MockStateMachineInterface leader) (Some command) true);;
  EXPECT_GET get_commands_size size;;
  EXPECT_GET (length ∘ response_calls) responses;;
  EXPECT_GET committed_calls committed;;
  EXPECT_GET reverted_calls [].

Definition TestContextLeaderCommandCommit : Test Node () :=
  commit_test true kClusterIds 1 [0] 1;;
  c ← get (get_command 0);
  EXPECT_NE c None;;
  EXPECT_EQ (command_byte c) (Some kTestData).

Definition TestContextNonLeaderCommandCommit : Test Node () :=
  commit_test false kClusterIds 0 [] 1.

Definition TestContextCommandCommitPending : Test Node () :=
  commit_test true kClusterIds2 0 [] 0.

Definition TestContextAppendEntriesReceived : Test Node () :=
  do_ (on_context (initialize kClusterIds2));;
  for_loop 0 3 (λ i,
    let prev_index := N.pred i in
    send_append_entries_to_me true kCurrentTerm kOtherNodeId i prev_index kCurrentTerm
      [kTestData];;
    EXPECT_GET get_commands_size (i + 1);;
    c ← get (get_command i);
    EXPECT_NE c None;;
    EXPECT_EQ (command_byte c) (Some kTestData));;
  EXPECT_GET (length ∘ leader_discovered_calls) 3%nat.

Definition TestContextInvalidAppendEntriesReceived : Test Node () :=
  do_ (on_context (initialize kClusterIds2));;
  for_loop 1 3 (λ i,
    let prev_index := i - 1 in
    send_append_entries_to_me true kCurrentTerm kOtherNodeId i prev_index kCurrentTerm
      [kTestData];;
    EXPECT_GET get_commands_size 0;;
    EXPECT_GET (get_command i) None);;
  EXPECT_GET (length ∘ leader_discovered_calls) 3%nat.

Definition TestContextAppendEntriesReceivedForRollback : Test Node () :=
  do_ (on_context (initialize kClusterIds2));;
  send_append_entries_to_me true kCurrentTerm kOtherNodeId 0 0 kCurrentTerm [kTestData];;
  EXPECT_GET get_commands_size 1;;
  c ← get (get_command 0);
  EXPECT_NE c None;;
  EXPECT_EQ (command_byte c) (Some kTestData);;
  send_append_entries_to_me true kCurrentTerm kOtherNodeId 1 0 (kCurrentTerm + 1) [kTestData];;
  size ← get get_commands_size;
  EXPECT_NE size 2;;
  EXPECT_GET (get_command 1) None;;
  EXPECT_GET (length ∘ leader_discovered_calls) 2%nat.

(** *** The RAFT state machine

    Built on the context, with nobody to observe its states. *)

#[local] Instance no_observer : StateObserver := {| observe_state _ _ n := n |}.

Definition fsm_expect (st : RaftTypes.StateType) : Test Node () :=
  EXPECT_GET (get_current_state_type raft_fsm_of) st.

Definition fsm_handle (event : RaftTypes.Event) (st : RaftTypes.StateType) : Test Node () :=
  do_ (handle_event event);; fsm_expect st.

Definition TestStateMachine : Test Node () :=
  do_ (on_context (initialize kClusterIds2));;
  do_ (new_raft_StateMachine raft_fsm_address kClusterIds2);;
  fsm_expect RaftTypes.kStandby;;
  fsm_handle kStarted kFollower;;
  fsm_handle kTerminated RaftTypes.kStandby;;

  fsm_handle kStarted kFollower;;
  fsm_handle kTimedout kCandidate;;
  fsm_handle kTerminated RaftTypes.kStandby;;

  fsm_handle kStarted kFollower;;
  fsm_handle kTimedout kCandidate;;
  fsm_handle kTimedout kCandidate;;
  fsm_handle kTerminated RaftTypes.kStandby;;

  fsm_handle kStarted kFollower;;
  fsm_handle kTimedout kCandidate;;
  fsm_handle kNewTermReceived kFollower;;
  fsm_handle kTerminated RaftTypes.kStandby;;

  fsm_handle kStarted kFollower;;
  fsm_handle kTimedout kCandidate;;
  fsm_handle kLeaderDiscovered kFollower;;
  fsm_handle kTerminated RaftTypes.kStandby;;

  fsm_handle kStarted kFollower;;
  fsm_handle kTimedout kCandidate;;
  fsm_handle kElected kLeader;;
  fsm_handle kTerminated RaftTypes.kStandby;;

  fsm_handle kStarted kFollower;;
  fsm_handle kTimedout kCandidate;;
  fsm_handle kElected kLeader;;
  fsm_handle kLeaderDiscovered kFollower;;
  fsm_handle kTerminated RaftTypes.kStandby;;

  fsm_handle kStarted kFollower;;
  fsm_handle kTimedout kCandidate;;
  fsm_handle kElected kLeader;;
  fsm_handle kNewTermReceived kFollower;;
  fsm_handle kTerminated RaftTypes.kStandby.

(** What the suite finds on a disk: the first test clears it, the second opens what
    the first has left, and every other test clears it again. *)
Definition store_tests_pass disk : bool :=
  let fresh := new_ContextStore (open_at disk kStorePath) in
  let reopened := new_ContextStore (db_ (left_by TestContextStore fresh)) in
  passed TestContextStore fresh &&
  passed TestContextStoreWithInitialData reopened &&
  passed TestContextStoreWithInvalidPath (new_ContextStore (open_at disk kInvalidStorePath)).

Definition context_tests : list (Test Node ()) :=
  [TestContextTermMethods; TestContextLeaderCommandCommit; TestContextNonLeaderCommandCommit;
   TestContextCommandCommitPending; TestContextAppendEntriesReceived;
   TestContextInvalidAppendEntriesReceived; TestContextAppendEntriesReceivedForRollback;
   TestStateMachine].

End raft.

(** ** [test_cluster_node.cpp] *)

Section cluster_node.
  Context `{Platform} (random_generator : RNG).
  Implicit Types (disk : DB).

(** The default options: the temporary directory of the system is [kTempPath]. *)
Definition TestClusterNodeOptions : Test ClusterNodeOptions () :=
  do_ (set_election_timeout_max 2000);;
  EXPECT_GET election_timeout_max 2000;;
  do_ (set_election_timeout_min 1000);;
  EXPECT_GET election_timeout_min 1000;;
  do_ (set_temp_directory "/tmp");;
  EXPECT_GET temp_directory "/tmp"%string.

Definition cluster_node (ids : list N) disk : Node :=
  new_ClusterNode kClusterName kNodeId ids (new_ClusterNodeOptions kTempPath)
    (open_at disk) random_generator.

Definition TestGetNodeInfo : Test Node () :=
  EXPECT_GET ClusterNode_get_name (kClusterName +:+ pretty kNodeId).

(** The node spins: its timers fire. *)
Definition spin_node (timers : list NodeInput) : Test Node () := do_ (run_inputs timers).

Definition lifecycle_calls (n : Node) : list Lifecycle.StateType :=
  omap (λ o, match o with
    | ActivatedCallback => Some kActive
    | StandbyCallback => Some Lifecycle.kStandby
    | DeactivatedCallback => Some kInactive
    | _ => None
    end) (outputs_ n).

(** The election timer is due within 300 milliseconds of the second that the node
    spins; the broadcast timer then fires every 15. *)
Definition TestLifecycleCallbacks (timers : list NodeInput) : Test Node () :=
  do_ (ClusterNode_register_on_activated true);;
  do_ (ClusterNode_register_on_standby true);;
  do_ (ClusterNode_register_on_deactivated true);;
  EXPECT_GET ClusterNode_is_activated false;;
  spin_node timers;;
  EXPECT_GET ClusterNode_is_activated true;;
  EXPECT_GET lifecycle_calls [kActive].

(** [future.get()] *)
Definition future_get (future : N) (n : Node) : option CommandCommitResponse :=
  mjoin (promises_ (context_ n) !! N.to_nat future).

(** The loop that spins the node until it is active ends with the first timeout of
    the election timer. *)
Definition TestCommandCommit : Test Node () :=
  EXPECT_GET ClusterNode_get_commands_size 0;;
  do_ ClusterNode_register_on_committed;;
  do_ ClusterNode_register_on_reverted;;
  spin_node [ElectionTimer];;
  EXPECT_GET ClusterNode_is_activated true;;
  future ← call (ClusterNode_commit_command (Some command) true);
  response ← get (future_get future);
  EXPECT_EQ (response_id_ <$> response) (Some 0);;
  EXPECT_EQ (response_result_ <$> response) (Some true);;
  EXPECT_EQ (response ≫= λ r, command_byte (response_command_ r)) (Some kTestData);;
  c ← get (ClusterNode_get_command 0);
  EXPECT_NE c None;;
  EXPECT_GET ClusterNode_get_commands_size 1;;
  EXPECT_GET (length ∘ response_calls) 1%nat;;
  EXPECT_GET committed_calls [0];;
  EXPECT_GET reverted_calls [].

End cluster_node.
