(* ===== verification/TestTheorems.v ===== *)
(** * The test suites pass *)

From S2P Require Import Prelude Codec Platform LogEntry ContextStore NodeUtil RaftTypes OtherNode.
From S2P Require Import StateMachine Lifecycle Node StateMachineInterface RaftContext.
From S2P Require Import RaftStateMachine ClusterNodeOptions ClusterNodeImpl ClusterNode.
From S2P Require Import NodeInvariant Campaign Alone TestSuites.

Local Open Scope N_scope.

Lemma passed_do {S A} (f : S → S) (t : Test S A) s : passed (do_ f;; t) s = passed t (f s).
Proof. unfold passed, mbind, Test_bind, do_. by destruct (t (f s)) as [[a s'] l]. Qed.

Lemma passed_get {S A B} `{EqDecision B} (f : S → B) b (t : Test S A) s :
  passed (EXPECT_GET f b;; t) s = bool_decide (f s = b) && passed t s.
Proof.
  unfold passed, EXPECT_GET, mbind, Test_bind, get, EXPECT_EQ, EXPECT_TRUE.
  by destruct (t s) as [[a s'] l].
Qed.

Lemma passed_last {S B} `{EqDecision B} (f : S → B) b s :
  passed (EXPECT_GET f b) s = bool_decide (f s = b).
Proof. apply andb_true_r. Qed.

(** The database that earlier tests left is of no importance, nor is what else
    fires in the second that the node spins. *)
Lemma lifecycle_callbacks_pass `{PlatformSpec} g disk timers :
  Forall is_timer timers → existsb is_election_timer timers = true →
  passed (TestLifecycleCallbacks timers) (cluster_node g kClusterIds disk) = true.
Proof.
  intros Htimers He.
  destruct (new_node_alone kClusterName kNodeId (new_ClusterNodeOptions kTempPath)
    (open_at disk) g) as (Ha & Hst & Hout & Hact); [by vm_compute|].
  fold (cluster_node g kClusterIds disk) in *. 
  set (n := run_inputs _ _) in *.
  destruct (alone_timeout n Ha Hst) as (Ha' & Hst' & Hout' & _).
  pose proof (alone_timers n timers Ha Hst Htimers) as Hrun. rewrite He in Hrun.
  pose proof (ok_lifecycle _ (node_machines _ (alone_ok _ Ha'))) as Hl. rewrite Hst' in Hl.
  assert (passed (TestLifecycleCallbacks timers) (cluster_node g kClusterIds disk) =
    bool_decide (ClusterNode_is_activated n = false) &&
    (bool_decide (ClusterNode_is_activated (run_inputs timers n) = true) &&
     bool_decide (lifecycle_calls (run_inputs timers n) = [kActive]))) as ->.
  { unfold TestLifecycleCallbacks, spin_node.
    by rewrite !passed_do, passed_get, passed_do, passed_get, passed_last. }
  rewrite Hact, Hrun. unfold lifecycle_calls. rewrite Hout', Hout.
  assert (ClusterNode_is_activated (run_input ElectionTimer n) = true) as ->; [|done].
  apply bool_decide_eq_true. exact Hl.
Qed.

(** The tests of the repository pass on the model: those of the lifecycle state
    machine; those of the store, one after the other on the same database, which
    the first clears; those of the context and of the RAFT state machine; and
    those of the options, the commits and the callbacks of a clustered node, the
    last whatever the earlier tests have left in the database and whatever else
    fires while the node spins. *)
Theorem suites_pass (g : N) :
  Forall (λ t, passed t lifecycle_SetUp = true) lifecycle_tests ∧
  store_tests_pass (H := mem_platform) empty_db = true ∧
  Forall (λ t, passed t (TestContext g empty_db) = true) context_tests ∧
  passed TestClusterNodeOptions (new_ClusterNodeOptions kTempPath) = true ∧
  passed TestGetNodeInfo (cluster_node g kClusterIds2 empty_db) = true ∧
  passed TestCommandCommit (cluster_node g kClusterIds empty_db) = true ∧
  (∀ disk timers, Forall is_timer timers → existsb is_election_timer timers = true →
    passed (TestLifecycleCallbacks timers) (cluster_node g kClusterIds disk) = true).
Proof.
  split_and!; [| | | | | |intros disk timers; apply lifecycle_callbacks_pass];
    repeat constructor; vm_compute; reflexivity.
Qed.

(** ** Witness *)

Lemma suites_pass_witness :
  passed (TestLifecycleCallbacks [BroadcastTimer; ElectionTimer; BroadcastTimer])
    (cluster_node (H := mem_platform) 3 kClusterIds empty_db) = true.
Proof.
  apply (suites_pass 3); [|reflexivity]. repeat constructor; (by left) || (by right).
Defined.
