(* ===== verification/Double.v ===== *)
(** * Double precision arithmetic of the two inspectors

    [double] is IEEE 754 binary64, as the Standard Library's [SpecFloat] defines
    it on integers; [duration_cast] and the output of a number with
    [std::fixed << std::setprecision(2)] are written out on it. *)

From S2P Require Import Prelude.
From stdpp Require Export pretty.
From Stdlib Require Export SpecFloat.

Local Open Scope Z_scope.

Abbreviation double := spec_float.

Definition double_of_Z (z : Z) : double := binary_normalize 53 1024 z 0 false.
Definition double_mul (x y : double) : double := SFmul 53 1024 x y.
Definition double_div (x y : double) : double := SFdiv 53 1024 x y.
Definition double_le (x y : double) : bool := SFleb x y.

Definition double_1_0 : double := double_of_Z 1.
Definition double_1_5 : double := double_div (double_of_Z 3) (double_of_Z 2).

(** The integer part, for [static_cast<int64_t>]; the cast of a number outside
    the range of the type is undefined, which [None] stands for. *)
Definition double_trunc (x : double) : option Z :=
  match x with
  | S754_zero _ => Some 0
  | S754_finite s m e =>
      let q := Z.shiftl (Zpos m) e in
      let z := if s then - q else q in
      if (- 2 ^ 63 <=? z) && (z <? 2 ^ 63) then Some z else None
  | _ => None
  end.

(** [std::chrono::duration_cast] of a [duration<double>] in seconds to the unit of
    which a second has [per_second]. *)
Definition duration_cast (per_second : Z) (seconds : double) : option Z :=
  double_trunc (double_mul seconds (double_of_Z per_second)).

(** Nanoseconds as seconds, [rclcpp::Duration::seconds()]. *)
Definition seconds (nanoseconds : Z) : double :=
  double_div (double_of_Z nanoseconds) (double_of_Z 1000000000).

(** The hundredths of [m * 2 ^ e], rounded to nearest, ties to even. *)
Definition round_hundredths (m : positive) (e : Z) : N :=
  match e with
  | Zneg k =>
      let d := (2 ^ Npos k)%N in
      let n := (100 * Npos m)%N in
      let q := (n / d)%N in
      let r := (n mod d)%N in
      match (2 * r ?= d)%N with
      | Lt => q
      | Gt => q + 1
      | Eq => if N.even q then q else q + 1
      end%N
  | _ => (100 * Z.to_N (Z.shiftl (Zpos m) e))%N
  end.

(** [std::fixed << std::setprecision(2) << x]. *)
Definition fixed2 (x : double) : string :=
  let unsigned h :=
    pretty (h / 100)%N +:+ "." +:+ pretty (h / 10 mod 10)%N +:+ pretty (h mod 10)%N in
  let sign (s : bool) : string := if s then "-" else "" in
  match x with
  | S754_zero s => sign s +:+ "0.00"
  | S754_infinity s => sign s +:+ "inf"
  | S754_nan => "nan"
  | S754_finite s m e => sign s +:+ unsigned (round_hundredths m e)
  end.

Example duration_cast_period :
  duration_cast 1000 (double_mul double_1_0 double_1_5) = Some 1500.
Proof. vm_compute. reflexivity. Qed.

Example fixed2_seconds : fixed2 (seconds 1234567890) = "1.23".
Proof. vm_compute. reflexivity. Qed.
