(* ===== verification/RaftInspector.v ===== *)
(** * The inspector of a node

    [src/raft/inspector.cpp] and [Context::inspector_message_requested]: when the
    environment asks for it, a timer of the node publishes the node's state on a
    topic, which [foros_inspector] displays. *)

From S2P Require Import Prelude Codec Platform LogEntry ContextStore RaftTypes.
From S2P Require Import OtherNode StateMachine Lifecycle Node StateMachineInterface.
From S2P Require Import Double.

(** ** [foros_msgs/msg/Inspector.msg] *)

(** A time stamp is its number of nanoseconds. *)
Abbreviation Time := Z (only parsing).

Record InspectorMsg := mkInspectorMsg {
  msg_stamp : Time;
  msg_cluster_name : string;
  msg_cluster_size : N;
  msg_id : N;
  msg_state : N;
  msg_term : N;
  msg_data_size : N;
  msg_voted_for : N;
}.

Definition UNKNOWN : N := 0.
Definition STANDBY : N := 1.
Definition FOLLOWER : N := 2.
Definition CANDIDATE : N := 3.
Definition LEADER : N := 4.
Definition TOPIC_NAME : string := "foros/inspector".

Definition env_var_period_ : string := "FOROS_INSPECTOR_PERIOD".
Definition env_var_enable_ : string := "FOROS_INSPECTOR".
Definition default_period_ : double := double_1_0.

(** ** The environment of the process *)

Class Environment := {
  (** [std::getenv]. *)
  getenv : string → option string;
  (** [std::atof]. *)
  atof : string → double;
}.

Section inspector.
  Context `{Environment}.

Definition is_enabled : bool :=
  match getenv env_var_enable_ with
  | None => false
  | Some value => String.eqb value "1"
  end.

Definition get_period : double :=
  match getenv env_var_period_ with
  | None => double_of_Z 0
  | Some value => atof value
  end.

(** The constructor creates a timer, of a period in nanoseconds, and the
    publisher together, or neither.  [None] stands for the undefined cast of a
    period out of range. *)
Record Inspector := mkInspector {
  timer_ : option (option Z);
  inspector_publisher_ : option string;
}.

Definition initialize_publisher (i : Inspector) : Inspector :=
  mkInspector (timer_ i) (Some TOPIC_NAME).

Definition new_Inspector (message_request_callback : bool) : Inspector :=
  let i := mkInspector None None in
  if negb message_request_callback || negb is_enabled then i else
  let period := get_period in
  let period := if double_le period (double_of_Z 0) then default_period_ else period in
  initialize_publisher
    (mkInspector (Some (duration_cast 1000000000 period)) (inspector_publisher_ i)).

End inspector.

(** ** The message *)

Definition inspector_message_requested `{StateMachineInterface} (now : Time) (n : Node) :
    InspectorMsg :=
  let c := context_ n in
  {| msg_stamp := now;
     msg_cluster_name := cluster_name_ c;
     msg_cluster_size := cluster_size_ c;
     msg_id := node_id_ c;
     msg_term := current_term (store n);
     msg_data_size := logs_size (store n);
     msg_voted_for := voted_for (store n);
     msg_state :=
       match get_current_state n with
       | RaftTypes.kStandby => STANDBY
       | kFollower => FOLLOWER
       | kCandidate => CANDIDATE
       | kLeader => LEADER
       | kStay => UNKNOWN
       end |}.
