(* ===== verification/Monitor.v ===== *)
(** * The monitor [foros_inspector]

    [foros_inspector/src]: a node that subscribes to the messages of the
    inspectors and shows, per cluster and per node, what they last said.

    [std::map] and [std::unordered_map] are [gmap]s; the second is traversed in
    the order that [iteration_order] gives, which the language leaves open.  The
    shared pointers of [clusters_] and [nodes_] are never copied out of a
    function, so a change through one is written back under its key.  What is
    written on the window is a list of [Draw]s. *)

From S2P Require Import Prelude Double RaftInspector.

Local Open Scope N_scope.

(** ** Data *)

Inductive Colors := kGreenOnBlack | kRedOnBlack | kCyanOnBlack | kYellowOnBlack.

Definition color_pair (c : Colors) : N :=
  match c with
  | kGreenOnBlack => 1 | kRedOnBlack => 2 | kCyanOnBlack => 3 | kYellowOnBlack => 4
  end.

Record NodeInfo := mkNodeInfo {
  node_id : N;
  node_size : N;
  node_state : N;
  node_term : N;
  node_data_size : N;
  node_voted_for : N;
  node_last_updated : Time;
}.

Definition new_NodeInfo (id : N) : NodeInfo := mkNodeInfo id 0 0 0 0 0 0.

Record ClusterInfo := mkClusterInfo {
  cluster_name : string;
  cluster_size : N;
  cluster_term : N;
  cluster_leader : N;
  cluster_leader_exist : bool;
  cluster_size_mismatched : bool;
  cluster_nodes : gmap N NodeInfo;
  cluster_last_updated : Time;
}.

Definition new_ClusterInfo (name : string) : ClusterInfo :=
  mkClusterInfo name 0 0 0 false false ∅ 0.

Definition set_size (v : N) (c : ClusterInfo) : ClusterInfo :=
  mkClusterInfo (cluster_name c) v (cluster_term c) (cluster_leader c)
    (cluster_leader_exist c) (cluster_size_mismatched c) (cluster_nodes c)
    (cluster_last_updated c).
Definition set_term (v : N) (c : ClusterInfo) : ClusterInfo :=
  mkClusterInfo (cluster_name c) (cluster_size c) v (cluster_leader c)
    (cluster_leader_exist c) (cluster_size_mismatched c) (cluster_nodes c)
    (cluster_last_updated c).
Definition set_leader (v : N) (c : ClusterInfo) : ClusterInfo :=
  mkClusterInfo (cluster_name c) (cluster_size c) (cluster_term c) v
    (cluster_leader_exist c) (cluster_size_mismatched c) (cluster_nodes c)
    (cluster_last_updated c).
Definition set_leader_exist (v : bool) (c : ClusterInfo) : ClusterInfo :=
  mkClusterInfo (cluster_name c) (cluster_size c) (cluster_term c) (cluster_leader c)
    v (cluster_size_mismatched c) (cluster_nodes c) (cluster_last_updated c).
Definition set_size_mismatched (v : bool) (c : ClusterInfo) : ClusterInfo :=
  mkClusterInfo (cluster_name c) (cluster_size c) (cluster_term c) (cluster_leader c)
    (cluster_leader_exist c) v (cluster_nodes c) (cluster_last_updated c).
Definition set_nodes (v : gmap N NodeInfo) (c : ClusterInfo) : ClusterInfo :=
  mkClusterInfo (cluster_name c) (cluster_size c) (cluster_term c) (cluster_leader c)
    (cluster_leader_exist c) (cluster_size_mismatched c) v (cluster_last_updated c).
Definition set_last_updated (v : Time) (c : ClusterInfo) : ClusterInfo :=
  mkClusterInfo (cluster_name c) (cluster_size c) (cluster_term c) (cluster_leader c)
    (cluster_leader_exist c) (cluster_size_mismatched c) (cluster_nodes c) v.

(** ** The window *)

Inductive Attribute := A_BOLD | A_ITALIC | A_UNDERLINE | COLOR_PAIR (pair : N).

Inductive Draw :=
  | wattron (attributes : list Attribute)
  | wattroff (attributes : list Attribute)
  | wprintw (text : string)
  | wclrtobot
  | prefresh
  | wmove.

(** The conversions ["%*.*s"] and ["%*u"]. *)
Fixpoint spaces (n : nat) : string :=
  match n with
  | O => ""
  | S n => String (Ascii.ascii_of_nat 32) (spaces n)
  end.

Definition pad (size : N) (text : string) : string :=
  spaces (N.to_nat size - String.length text) +:+ text.

Definition pad_truncate (size : N) (text : string) : string :=
  pad size (String.substring 0 (N.to_nat size) text).

(** ["\n"] *)
Definition newline : string := String (Ascii.ascii_of_nat 10) "".

Definition divider_ : string :=
  "------------------------------------------------------------------------" +:+
  "-----------------------------------------------------------------------".
Definition xlarge_column_ : N := 20.
Definition large_column_ : N := 15.
Definition medium_column_ : N := 10.
Definition small_column_ : N := 5.

Definition with_attributes (attributes : list Attribute) (text : string) : list Draw :=
  [wattron attributes; wprintw text; wattroff attributes].

Definition add_title (str : string) : list Draw :=
  with_attributes [A_BOLD; A_ITALIC] (str +:+ newline +:+ newline).
Definition add_subtitle (str : string) : list Draw :=
  with_attributes [A_BOLD; A_UNDERLINE] (str +:+ newline +:+ newline).
Definition add_string (str : string) (size : N) : list Draw :=
  [wprintw (pad_truncate size str)].
Definition add_color_string (str : string) (size : N) (color : Colors) : list Draw :=
  with_attributes [COLOR_PAIR (color_pair color)] (pad_truncate size str).
Definition add_bold_string (str : string) (size : N) (color : Colors) : list Draw :=
  with_attributes [A_BOLD; COLOR_PAIR (color_pair color)] (pad_truncate size str).
Definition add_number (num : N) (size : N) : list Draw := [wprintw (pad size (pretty num))].
Definition add_separater : list Draw := [wprintw " |"].
Definition add_error (str : string) (size : N) : list Draw :=
  with_attributes [COLOR_PAIR (color_pair kRedOnBlack)] (pad_truncate size str).
Definition add_newline : list Draw := [wprintw newline].

Definition add_state_name (state : N) : list Draw :=
  if state =? STANDBY then add_string "Standby" medium_column_
  else if state =? FOLLOWER then add_string "Follower" medium_column_
  else if state =? CANDIDATE then add_color_string "Candidate" medium_column_ kYellowOnBlack
  else if state =? LEADER then add_bold_string "Leader" medium_column_ kGreenOnBlack
  else add_color_string "Unknown" medium_column_ kRedOnBlack.

Definition refresh_screen : list Draw := [wclrtobot; prefresh; wmove].

(** ** The monitor *)

(** The order in which a hash table is traversed. *)
Class HashOrder := { iteration_order : gmap string ClusterInfo → list string }.

Class HashOrderSpec `{HashOrder} := {
  iteration_order_perm m : iteration_order m ≡ₚ (map_to_list m).*1;
}.

(** [name_column_] is indeterminate until the first [update_cluster_info], which
    precedes every use; the refresh timer is the number of times it was armed. *)
Record Inspector := mkInspector {
  name_column_ : N;
  period_ : double;
  clusters_ : gmap string ClusterInfo;
  refresh_timer_ : N;
  window_ : list Draw;
}.

Definition set_name_column (v : N) (s : Inspector) : Inspector :=
  mkInspector v (period_ s) (clusters_ s) (refresh_timer_ s) (window_ s).
Definition set_clusters (v : gmap string ClusterInfo) (s : Inspector) : Inspector :=
  mkInspector (name_column_ s) (period_ s) v (refresh_timer_ s) (window_ s).
Definition draw (d : list Draw) (s : Inspector) : Inspector :=
  mkInspector (name_column_ s) (period_ s) (clusters_ s) (refresh_timer_ s) (window_ s ++ d).
Definition reset_refresh_timer (s : Inspector) : Inspector :=
  mkInspector (name_column_ s) (period_ s) (clusters_ s) (refresh_timer_ s + 1) (window_ s).

Definition get_period `{Environment} : double :=
  match getenv env_var_period_ with
  | None => default_period_
  | Some value =>
      let period := atof value in
      if double_le period (double_of_Z 0) then default_period_ else period
  end.

Definition new_Inspector `{Environment} (indeterminate : N) : Inspector :=
  mkInspector indeterminate get_period ∅ 1 [].

Local Open Scope Z_scope.

(** The age from which something is outdated under [period_], in nanoseconds: a
    [duration_cast] to milliseconds.  An out of range period makes the cast undefined; the model
    then takes the largest duration. *)
Definition timeout (period : double) : Z :=
  match duration_cast 1000 (double_mul period double_1_5) with
  | Some milliseconds => 1000000 * milliseconds
  | None => 2 ^ 63 - 1
  end.

Definition is_outdated (period : double) (now time : Time) : bool :=
  let diff := now - time in
  if diff <? timeout period then false else true.

Local Open Scope N_scope.

(** One iteration over the nodes of a cluster. *)
Definition update_node (period : double) (now : Time) (acc : ClusterInfo * N * N) (id : N) :
    ClusterInfo * N * N :=
  let '(cluster, name_column, size) := acc in
  match cluster_nodes cluster !! id with
  | None => acc
  | Some node =>
      if is_outdated period now (node_last_updated node) then
        let cluster :=
          if cluster_leader cluster =? node_id node
          then set_leader_exist false cluster else cluster in
        (set_nodes (delete id (cluster_nodes cluster)) cluster, name_column, size)
      else
        let cluster :=
          if negb (size =? 0) && negb (cluster_size cluster =? node_size node)
          then set_size_mismatched true cluster else cluster in
        let name_column :=
          if large_column_ <? N.of_nat (String.length (cluster_name cluster))
          then xlarge_column_ else name_column in
        (cluster, name_column, node_size node)
  end.

(** One iteration over the clusters. *)
Definition update_cluster (now : Time) (s : Inspector) (name : string) : Inspector :=
  match clusters_ s !! name with
  | None => s
  | Some cluster =>
      let cluster := set_size_mismatched false cluster in
      if is_outdated (period_ s) now (cluster_last_updated cluster) then
        set_clusters (delete name (clusters_ s)) s
      else
        let '(cluster, name_column, size) :=
          foldl (update_node (period_ s) now) (cluster, name_column_ s, 0)
            (map_ids (cluster_nodes cluster)) in
        set_name_column name_column
          (set_clusters (<[name := set_size size cluster]> (clusters_ s)) s)
  end.

Section monitor.
  Context `{HashOrder}.

Definition update_cluster_info (now : Time) (s : Inspector) : Inspector :=
  let s := set_name_column large_column_ s in
  foldl (update_cluster now) s (iteration_order (clusters_ s)).

(** ** Rendering *)

Definition updated_time (now time : Time) : string :=
  fixed2 (seconds (now - time)%Z) +:+ "s ago".

Definition active_nodes (cluster : ClusterInfo) : string :=
  foldl (λ active id,
    match cluster_nodes cluster !! id with
    | None => active
    | Some node =>
        (if String.eqb active "" then active else active +:+ ", ") +:+ pretty (node_id node)
    end) "" (map_ids (cluster_nodes cluster)).

Definition add_cluster_item (now : Time) (name_column : N) (cluster : ClusterInfo) :
    list Draw :=
  add_string (cluster_name cluster) name_column ++ add_separater ++
  (if cluster_size_mismatched cluster then add_error "mis." small_column_
   else add_number (cluster_size cluster) small_column_) ++ add_separater ++
  add_number (cluster_term cluster) small_column_ ++ add_separater ++
  add_string (active_nodes cluster) large_column_ ++ add_separater ++
  (if cluster_leader_exist cluster then add_number (cluster_leader cluster) medium_column_
   else add_string "N/A" medium_column_) ++ add_separater ++
  add_string (updated_time now (cluster_last_updated cluster)) large_column_ ++
  add_newline.

Definition add_summary (now : Time) (s : Inspector) : list Draw :=
  add_subtitle "Summary" ++
  add_string "Name" (name_column_ s) ++ add_separater ++
  add_string "Size" small_column_ ++ add_separater ++
  add_string "Term" small_column_ ++ add_separater ++
  add_string "Active" large_column_ ++ add_separater ++
  add_string "Leader" medium_column_ ++ add_separater ++
  add_string "Updated Time" large_column_ ++ add_newline ++
  add_string divider_
    (name_column_ s + large_column_ * 2 + medium_column_ + small_column_ * 2 + 10) ++
  add_newline ++
  flat_map (λ name, match clusters_ s !! name with
                    | Some cluster => add_cluster_item now (name_column_ s) cluster
                    | None => []
                    end) (iteration_order (clusters_ s)).

Definition add_node_item (now : Time) (node : NodeInfo) : list Draw :=
  add_number (node_id node) medium_column_ ++ add_separater ++
  add_state_name (node_state node) ++ add_separater ++
  add_number (node_term node) small_column_ ++ add_separater ++
  add_number (node_voted_for node) medium_column_ ++ add_separater ++
  add_number (node_data_size node) medium_column_ ++ add_separater ++
  add_number (node_size node) small_column_ ++ add_separater ++
  add_string (updated_time now (node_last_updated node)) large_column_ ++
  add_newline.

Definition add_details (now : Time) (cluster : ClusterInfo) : list Draw :=
  add_subtitle ("Details: " +:+ cluster_name cluster) ++
  add_string "Node ID" medium_column_ ++ add_separater ++
  add_string "State" medium_column_ ++ add_separater ++
  add_string "Term" small_column_ ++ add_separater ++
  add_string "Voted For" medium_column_ ++ add_separater ++
  add_string "Data Size" medium_column_ ++ add_separater ++
  add_string "Size" small_column_ ++ add_separater ++
  add_string "Updated Time" large_column_ ++ add_newline ++
  add_string divider_
    (large_column_ * 1 + medium_column_ * 4 + small_column_ * 2 + 12) ++
  add_newline ++
  flat_map (λ id, match cluster_nodes cluster !! id with
                  | Some node => add_node_item now node
                  | None => []
                  end) (map_ids (cluster_nodes cluster)).

Definition update_screen (now : Time) (s : Inspector) : Inspector :=
  let s := update_cluster_info now s in
  let s := draw (add_title "FOROS INSPECTOR") s in
  let s := draw (add_summary now s ++ add_newline) s in
  let s := foldl (λ s name,
    match clusters_ s !! name with
    | Some cluster => draw (add_newline ++ add_details now cluster) s
    | None => s
    end) s (iteration_order (clusters_ s)) in
  draw refresh_screen s.

(** ** Messages *)

Definition get_cluster_info (now : Time) (name : string) (s : Inspector) :
    ClusterInfo * Inspector :=
  let create :=
    let cluster := new_ClusterInfo name in
    (cluster, set_clusters (<[name := cluster]> (clusters_ s)) s) in
  match clusters_ s !! name with
  | None => create
  | Some cluster =>
      if is_outdated (period_ s) now (cluster_last_updated cluster) then create else (cluster, s)
  end.

Definition get_node_info (cluster : ClusterInfo) (id : N) : NodeInfo * ClusterInfo :=
  match cluster_nodes cluster !! id with
  | None =>
      let node := new_NodeInfo id in
      (node, set_nodes (<[id := node]> (cluster_nodes cluster)) cluster)
  | Some node => (node, cluster)
  end.

(** The assignments of [inspector_message_received] to the node and the cluster. *)
Definition message_node (msg : InspectorMsg) (node : NodeInfo) : NodeInfo :=
  {| node_id := node_id node;
     node_size := msg_cluster_size msg;
     node_state := msg_state msg;
     node_term := msg_term msg;
     node_data_size := msg_data_size msg;
     node_voted_for := msg_voted_for msg;
     node_last_updated := msg_stamp msg |}.

Definition message_cluster (node : NodeInfo) (cluster : ClusterInfo) : ClusterInfo :=
  let cluster :=
    if (cluster_last_updated cluster <? node_last_updated node)%Z
    then set_last_updated (node_last_updated node) cluster else cluster in
  if cluster_term cluster <=? node_term node then
    let cluster := set_term (node_term node) cluster in
    if node_state node =? LEADER
    then set_leader_exist true (set_leader (node_id node) cluster) else cluster
  else cluster.

(** [now] is read once; [set_cluster] writes the object behind the pointer. *)
Definition inspector_message_received (now : Time) (msg : InspectorMsg) (s : Inspector) :
    Inspector :=
  let set_cluster cluster s :=
    set_clusters (<[msg_cluster_name msg := cluster]> (clusters_ s)) s in
  if is_outdated (period_ s) now (msg_stamp msg) then s else
  let '(cluster, s) := get_cluster_info now (msg_cluster_name msg) s in
  let '(node, cluster) := get_node_info cluster (msg_id msg) in
  if (msg_stamp msg <? node_last_updated node)%Z then set_cluster cluster s else
  let node := message_node msg node in
  let cluster := set_nodes (<[msg_id msg := node]> (cluster_nodes cluster)) cluster in
  let cluster := message_cluster node cluster in
  update_screen now (reset_refresh_timer (set_cluster cluster s)).

End monitor.
