(* ===== verification/MonitorProcess.v ===== *)
(** * The process of the monitor

    [foros_inspector/src/main.cpp] and what [inspector.cpp] does to the terminal
    when the monitor is made and released. *)

From S2P Require Import Prelude Double RaftInspector Monitor.

Local Open Scope N_scope.

(** ** The terminal *)

Inductive BaseColor := COLOR_BLACK | COLOR_RED | COLOR_GREEN | COLOR_YELLOW | COLOR_CYAN.

#[export] Instance BaseColor_eq_dec : EqDecision BaseColor.
Proof. solve_decision. Defined.

(** The calls of ncurses outside the window. *)
Inductive ScreenCall :=
  | initscr
  | curs_set (visibility : N)
  | start_color
  | init_pair (pair : N) (foreground background : BaseColor)
  | newpad (lines columns : N)
  | keypad (enabled : bool)
  | nodelay (enabled : bool)
  | endwin.

Definition intialize_screen : list ScreenCall :=
  [initscr; curs_set 0; start_color;
   init_pair (color_pair kGreenOnBlack) COLOR_GREEN COLOR_BLACK;
   init_pair (color_pair kRedOnBlack) COLOR_RED COLOR_BLACK;
   init_pair (color_pair kCyanOnBlack) COLOR_CYAN COLOR_BLACK;
   init_pair (color_pair kYellowOnBlack) COLOR_YELLOW COLOR_BLACK;
   newpad 1000 1000; keypad true; nodelay true].

Definition terminate_screen : list ScreenCall := [endwin].

(** The colours that the drawing uses are set up, each under a pair of its own. *)
Lemma colors_initialized c :
  ∃ foreground, init_pair (color_pair c) foreground COLOR_BLACK ∈ intialize_screen.
Proof. destruct c; eexists; repeat (apply list_elem_of_here || apply list_elem_of_further). Qed.

Lemma color_pair_inj c c' : color_pair c = color_pair c' → c = c'.
Proof. by destruct c, c'. Qed.

(** ** [main] *)

Section main.
  Context {W : Type}.

(** The calls of [main], each of which may throw ([false]), and the end of the
    monitor's life, which closes the screen. *)
Context (rclcpp_init make_inspector rclcpp_spin rclcpp_shutdown : W → bool * W).
Context (delete_inspector : W → W).

(** The exit status, and the state that is left.  The monitor goes at the end of
    the [try] block, whether it was left by an exception or not. *)
Definition main (w : W) : N * W :=
  let '(ok, w) := rclcpp_init w in
  if negb ok then (0, w) else
  let '(ok, w) := make_inspector w in
  if negb ok then (0, w) else
  let '(ok, w) := rclcpp_spin w in
  if negb ok then (0, delete_inspector w) else
  let '(_, w) := rclcpp_shutdown w in
  (0, delete_inspector w).

(** No exception leaves the process, and its status never tells of one. *)
Lemma main_status w : (main w).1 = 0.
Proof. unfold main. repeat (case_match; simplify_eq/=; try done). Qed.

End main.

(** The screen is closed if the monitor was made: the terminal after a run whose
    calls succeed or throw as [oks] says. *)
Definition terminal_calls (oks : bool * bool * bool * bool) : list ScreenCall :=
  let '(o1, o2, o3, o4) := oks in
  let call (ok : bool) (calls : list ScreenCall) (w : list ScreenCall) :=
    (ok, if ok then w ++ calls else w) in
  (main (call o1 []) (call o2 intialize_screen) (call o3 []) (call o4 [])
    (λ w, w ++ terminate_screen) []).2.

Lemma screen_closed o1 o2 o3 o4 :
  terminal_calls (o1, o2, o3, o4) =
    if o1 && o2 then intialize_screen ++ terminate_screen else [].
Proof. by destruct o1, o2, o3, o4. Qed.
