(* ===== verification/MonitorFacts.v ===== *)
(** * Facts about the monitor

    What a refresh leaves of the clusters, as a definition that does not iterate
    ([refreshed], [refreshed_cluster]) and the proof that the loops of
    [update_cluster_info] compute it; and the invariant of the monitor's data. *)

From S2P Require Import Prelude Double RaftInspector Monitor.

Local Open Scope N_scope.

(** ** Specification of a refresh *)

Section refresh.
  Context (period : double) (now : Time).

(** The nodes among [ids] that are not outdated, in that order. *)
Definition live (nodes : gmap N NodeInfo) (ids : list N) : list NodeInfo :=
  omap (λ id, node ← nodes !! id;
              if is_outdated period now (node_last_updated node) then None else Some node) ids.

Definition live_nodes (c : ClusterInfo) : list NodeInfo :=
  live (cluster_nodes c) (map_ids (cluster_nodes c)).

(** Whether a node after the first, whose predecessor's size is [size], disagrees
    with the size the cluster had before the refresh. *)
Fixpoint mismatched (known size : N) (nodes : list NodeInfo) : bool :=
  match nodes with
  | [] => false
  | node :: nodes =>
      (negb (size =? 0) && negb (known =? node_size node)) ||
      mismatched known (node_size node) nodes
  end.

Definition last_size (size : N) (nodes : list NodeInfo) : N :=
  default size (node_size <$> last nodes).

Definition keeps (id_node : N * NodeInfo) : Prop :=
  is_outdated period now (node_last_updated id_node.2) = false.

#[export] Instance keeps_dec x : Decision (keeps x).
Proof. unfold keeps. apply _. Defined.

(** The leader is forgotten when its node is outdated. *)
Definition leader_lost (c : ClusterInfo) (ids : list N) : bool :=
  existsb (λ id, match cluster_nodes c !! id with
                 | Some node => is_outdated period now (node_last_updated node) &&
                                (cluster_leader c =? node_id node)
                 | None => false
                 end) ids.

Definition refreshed (c : ClusterInfo) : ClusterInfo :=
  {| cluster_name := cluster_name c;
     cluster_size := last_size 0 (live_nodes c);
     cluster_term := cluster_term c;
     cluster_leader := cluster_leader c;
     cluster_leader_exist :=
       cluster_leader_exist c && negb (leader_lost c (map_ids (cluster_nodes c)));
     cluster_size_mismatched := mismatched (cluster_size c) 0 (live_nodes c);
     cluster_nodes := filter keeps (cluster_nodes c);
     cluster_last_updated := cluster_last_updated c |}.

Definition refreshed_cluster (c : ClusterInfo) : option ClusterInfo :=
  if is_outdated period now (cluster_last_updated c) then None else Some (refreshed c).

(** A live node in a live cluster with a long name widens the first column. *)
Definition wide (c : ClusterInfo) (nodes : list NodeInfo) : bool :=
  (large_column_ <? N.of_nat (String.length (cluster_name c))) &&
  negb (bool_decide (nodes = [])).

(** ** The loop over the nodes *)

Definition drop_outdated (nodes : gmap N NodeInfo) (ids : list N) : gmap N NodeInfo :=
  filter (λ x, x.1 ∉ ids ∨ keeps x) nodes.

Lemma live_delete nodes id ids : id ∉ ids → live (delete id nodes) ids = live nodes ids.
Proof.
  intros Hid. induction ids as [|j ids IH]; [done|].
  apply not_elem_of_cons in Hid as [Hj Hid]. cbn [live omap list_omap].
  rewrite lookup_delete_ne by done. unfold live in IH. cbn in IH. by rewrite IH.
Qed.

Lemma last_size_cons size node nodes :
  last_size size (node :: nodes) = last_size (node_size node) nodes.
Proof.
  unfold last_size. destruct nodes as [|node' nodes]; [done|].
  change (last (node :: node' :: nodes)) with (last (node' :: nodes)).
  destruct (last (node' :: nodes)) eqn:E; [done|]. by apply last_None in E.
Qed.

Lemma drop_outdated_cons_kept nodes id ids node :
  nodes !! id = Some node → is_outdated period now (node_last_updated node) = false →
  drop_outdated nodes (id :: ids) = drop_outdated nodes ids.
Proof.
  intros Hn Hk. apply map_filter_ext. intros j node' Hj. simpl. rewrite elem_of_cons.
  destruct (decide (j = id)) as [->|]; [|naive_solver].
  simplify_eq. unfold keeps. naive_solver.
Qed.

Lemma drop_outdated_cons_dropped nodes id ids node :
  nodes !! id = Some node → is_outdated period now (node_last_updated node) = true → id ∉ ids →
  drop_outdated nodes (id :: ids) = drop_outdated (delete id nodes) ids.
Proof.
  intros Hn Hk Hid. apply map_eq. intros j. unfold drop_outdated.
  apply option_eq. intros node'. rewrite !map_lookup_filter_Some, lookup_delete_Some.
  simpl. rewrite elem_of_cons. unfold keeps; simpl.
  destruct (decide (j = id)) as [->|]; [|naive_solver].
  split; [|naive_solver]. intros [? [[]|]]; simplify_eq; [|congruence]. naive_solver.
Qed.

Lemma drop_outdated_cons_absent nodes id ids :
  nodes !! id = None → drop_outdated nodes (id :: ids) = drop_outdated nodes ids.
Proof.
  intros Hn. apply map_filter_ext. intros j node' Hj. simpl. rewrite elem_of_cons.
  destruct (decide (j = id)) as [->|]; [congruence|naive_solver].
Qed.

(** The state of the loop after the nodes [ids]. *)
Definition after_nodes (c : ClusterInfo) (name_column size : N) (ids : list N) :
    ClusterInfo * N * N :=
  let nodes := live (cluster_nodes c) ids in
  (set_leader_exist (cluster_leader_exist c && negb (leader_lost c ids))
    (set_size_mismatched (cluster_size_mismatched c || mismatched (cluster_size c) size nodes)
      (set_nodes (drop_outdated (cluster_nodes c) ids) c)),
   (if wide c nodes then xlarge_column_ else name_column),
   last_size size nodes).

(** The loop only looks at the leader and the nodes it has yet to visit. *)
Lemma leader_lost_ext c c' ids :
  cluster_leader c = cluster_leader c' →
  (∀ id, id ∈ ids → cluster_nodes c !! id = cluster_nodes c' !! id) →
  leader_lost c ids = leader_lost c' ids.
Proof.
  intros Hl. unfold leader_lost. induction ids as [|j ids IH]; intros Hn; [done|]. simpl.
  rewrite IH, Hl, (Hn j) by set_solver. done.
Qed.

Lemma after_nodes_eq c1 nc1 size1 ids1 c2 nc2 size2 ids2 :
  let nodes1 := live (cluster_nodes c1) ids1 in
  let nodes2 := live (cluster_nodes c2) ids2 in
  cluster_name c1 = cluster_name c2 → cluster_size c1 = cluster_size c2 →
  cluster_term c1 = cluster_term c2 → cluster_leader c1 = cluster_leader c2 →
  cluster_last_updated c1 = cluster_last_updated c2 →
  (cluster_leader_exist c1 && negb (leader_lost c1 ids1))
    = (cluster_leader_exist c2 && negb (leader_lost c2 ids2)) →
  (cluster_size_mismatched c1 || mismatched (cluster_size c1) size1 nodes1)
    = (cluster_size_mismatched c2 || mismatched (cluster_size c2) size2 nodes2) →
  drop_outdated (cluster_nodes c1) ids1 = drop_outdated (cluster_nodes c2) ids2 →
  (if wide c1 nodes1 then xlarge_column_ else nc1)
    = (if wide c2 nodes2 then xlarge_column_ else nc2) →
  last_size size1 nodes1 = last_size size2 nodes2 →
  after_nodes c1 nc1 size1 ids1 = after_nodes c2 nc2 size2 ids2.
Proof.
  destruct c1, c2. unfold after_nodes, set_leader_exist, set_size_mismatched, set_nodes. simpl.
  intros. congruence.
Qed.

Lemma live_cons nodes id ids :
  live nodes (id :: ids) =
    match nodes !! id with
    | Some node =>
        if is_outdated period now (node_last_updated node) then live nodes ids
        else node :: live nodes ids
    | None => live nodes ids
    end.
Proof.
  unfold live. cbn [omap list_omap].
  destruct (nodes !! id) as [node|]; simpl; [|done]. by destruct (is_outdated _ _ _).
Qed.

Lemma leader_lost_cons c id ids :
  leader_lost c (id :: ids) =
    match cluster_nodes c !! id with
    | Some node => is_outdated period now (node_last_updated node) &&
                   (cluster_leader c =? node_id node)
    | None => false
    end || leader_lost c ids.
Proof. done. Qed.

Lemma wide_cons c node nodes :
  wide c (node :: nodes) = (large_column_ <? N.of_nat (String.length (cluster_name c))).
Proof. unfold wide. by rewrite andb_true_r. Qed.

(** One iteration moves [id] from the nodes to visit to the visited ones. *)
Lemma after_nodes_step c nc size id ids : id ∉ ids →
  (let '(c', nc', size') := update_node period now (c, nc, size) id in
   after_nodes c' nc' size' ids) = after_nodes c nc size (id :: ids).
Proof.
  intros Hid. unfold update_node.
  destruct (cluster_nodes c !! id) as [node|] eqn:En.
  2:{ apply after_nodes_eq; rewrite ?live_cons, ?leader_lost_cons, ?En; try done.
      symmetry. by apply drop_outdated_cons_absent. }
  destruct (is_outdated period now (node_last_updated node)) eqn:Eo.
  - assert (Hext : ∀ id0, id0 ∈ ids →
      delete id (cluster_nodes c) !! id0 = cluster_nodes c !! id0).
    { intros id0 Hid0. apply lookup_delete_ne. by intros ->. }
    destruct (N.eqb_spec (cluster_leader c) (node_id node)) as [El|El].
    + apply after_nodes_eq; try done;
        rewrite ?live_cons, ?leader_lost_cons, ?En, ?Eo; simpl; rewrite ?live_delete by done;
        try done.
      * rewrite El, N.eqb_refl. simpl. by rewrite andb_false_r.
      * by erewrite (drop_outdated_cons_dropped _ id).
    + apply after_nodes_eq; try done;
        rewrite ?live_cons, ?leader_lost_cons, ?En, ?Eo; simpl; rewrite ?live_delete by done;
        try done.
      * rewrite (proj2 (N.eqb_neq _ _) El). simpl. f_equal. f_equal. by apply leader_lost_ext.
      * by erewrite (drop_outdated_cons_dropped _ id).
  - destruct (negb (size =? 0) && negb (cluster_size c =? node_size node)) eqn:Em.
    all: apply after_nodes_eq; try done;
      rewrite ?live_cons, ?leader_lost_cons, ?En, ?Eo; simpl; rewrite ?wide_cons, ?last_size_cons;
      try done.
    all: try by erewrite drop_outdated_cons_kept.
    all: try by rewrite Em, ?orb_true_r.
    all: unfold wide; cbn [cluster_name set_size_mismatched];
      destruct (large_column_ <? _); simpl; by try case_match.
Qed.

Lemma update_nodes_eq ids c nc size : NoDup ids →
  foldl (update_node period now) (c, nc, size) ids = after_nodes c nc size ids.
Proof.
  intros Hids. revert c nc size. induction Hids as [|id ids Hid _ IH]; intros c nc size.
  - unfold after_nodes, leader_lost, wide, drop_outdated. simpl.
    rewrite andb_true_r, orb_false_r, andb_false_r. destruct c; simpl.
    rewrite map_filter_id; [done|]. intros. left. apply not_elem_of_nil.
  - cbn [foldl]. rewrite <- after_nodes_step by done.
    destruct (update_node period now (c, nc, size) id) as [[c' nc'] size']. apply IH.
Qed.

(** The loop over all the nodes computes [refreshed]. *)
Lemma update_nodes_refreshed c nc :
  let '(c', nc', size) :=
    foldl (update_node period now) (set_size_mismatched false c, nc, 0)
      (map_ids (cluster_nodes c)) in
  set_size size c' = refreshed c ∧
  nc' = if wide c (live_nodes c) then xlarge_column_ else nc.
Proof.
  rewrite update_nodes_eq by apply map_ids_NoDup. split; [|done].
  assert (drop_outdated (cluster_nodes c) (map_ids (cluster_nodes c))
          = filter keeps (cluster_nodes c)) as Hd.
  { apply map_filter_ext. intros id node Hn. simpl. rewrite elem_of_map_ids, Hn. naive_solver. }
  unfold refreshed. by rewrite <- Hd.
Qed.

End refresh.

(** ** The loop over the clusters *)

Section clusters.
  Context (now : Time).

(** Whether the cluster of that name widens the first column. *)
Definition widens (period : double) (m : gmap string ClusterInfo) (name : string) : bool :=
  match m !! name with
  | Some c => negb (is_outdated period now (cluster_last_updated c)) &&
              wide c (live_nodes period now c)
  | None => false
  end.

Lemma widens_ext period m m' names :
  (∀ name, name ∈ names → m !! name = m' !! name) →
  existsb (widens period m) names = existsb (widens period m') names.
Proof.
  intros Hm. induction names as [|name names IH]; [done|]. simpl. unfold widens at 1 3.
  rewrite IH, (Hm name) by set_solver. done.
Qed.

Lemma update_cluster_eq s name :
  update_cluster now s name =
    match clusters_ s !! name with
    | None => s
    | Some c =>
        set_name_column
          (if widens (period_ s) (clusters_ s) name then xlarge_column_ else name_column_ s)
          (set_clusters (partial_alter (λ _, refreshed_cluster (period_ s) now c) name
                           (clusters_ s)) s)
    end.
Proof.
  unfold update_cluster, widens. destruct (clusters_ s !! name) as [c|]; [|done].
  unfold refreshed_cluster. simpl.
  destruct (is_outdated (period_ s) now (cluster_last_updated c)); [by destruct s|].
  pose proof (update_nodes_refreshed (period_ s) now c (name_column_ s)) as Hu.
  destruct (foldl _ _ _) as [[c' nc'] size]. destruct Hu as [-> ->]. done.
Qed.

(** What the refresh makes of the clusters among [names]. *)
Lemma update_clusters_eq names s : NoDup names →
  let s' := foldl (update_cluster now) s names in
  period_ s' = period_ s ∧ window_ s' = window_ s ∧ refresh_timer_ s' = refresh_timer_ s ∧
  (∀ name, clusters_ s' !! name =
    c ← clusters_ s !! name;
    if decide (name ∈ names) then refreshed_cluster (period_ s) now c else Some c) ∧
  name_column_ s' =
    if existsb (widens (period_ s) (clusters_ s)) names
    then xlarge_column_ else name_column_ s.
Proof.
  intros Hn. revert s. induction Hn as [|name names Hname Hn IH]; intros s; cbn zeta.
  - cbn [foldl]. split_and!; try done. intros name. by destruct (clusters_ s !! name).
  - cbn [foldl existsb]. destruct (IH (update_cluster now s name)) as (-> & -> & -> & Hc & Hw).
    rewrite update_cluster_eq in *.
    destruct (clusters_ s !! name) as [c|] eqn:Ec; simpl in *.
    + split_and!; try done.
      * intros name'. rewrite Hc. destruct (decide (name' = name)) as [->|Hne].
        -- rewrite lookup_partial_alter_eq, Ec. simpl. destruct (refreshed_cluster _ _ c); simpl;
             repeat case_decide; try done; exfalso; set_solver.
        -- rewrite lookup_partial_alter_ne by done. destruct (clusters_ s !! name'); [|done].
           simpl. repeat case_decide; try done; exfalso; set_solver.
      * rewrite Hw. erewrite widens_ext.
        2:{ intros name' Hin. apply lookup_partial_alter_ne. set_solver. }
        by repeat case_match.
    + split_and!; try done.
      2:{ assert (widens (period_ s) (clusters_ s) name = false) as -> by (by unfold widens; rewrite Ec).
          done. }
      intros name'. rewrite Hc.
      destruct (clusters_ s !! name') as [c'|] eqn:Ec'; [|done]. simpl.
      repeat case_decide; try done; exfalso; set_solver.
Qed.

End clusters.
