(* ===== verification/MonitorTheorems.v ===== *)
(** * Theorems about the monitor

    A refresh shows exactly what is not outdated; the data of the monitor stays
    consistent; a fresh message of a node is shown as it was sent. *)

From S2P Require Import Prelude Codec Platform LogEntry ContextStore RaftTypes.
From S2P Require Import OtherNode StateMachine Lifecycle Node StateMachineInterface.
From S2P Require Import Double RaftInspector RaftContext RaftStateMachine ClusterNodeImpl.
From S2P Require Import Demo Monitor MonitorFacts.

Local Open Scope N_scope.

Section monitor.
  Context `{HO : HashOrder} `{!HashOrderSpec}.

Lemma iteration_order_NoDup m : NoDup (iteration_order m).
Proof. rewrite iteration_order_perm. apply NoDup_fst_map_to_list. Qed.

Lemma elem_of_iteration_order m name : name ∈ iteration_order m ↔ is_Some (m !! name).
Proof.
  rewrite iteration_order_perm, list_elem_of_fmap. split.
  - intros ([name' c] & -> & Hc). exists c. by apply elem_of_map_to_list in Hc.
  - intros [c Hc]. exists (name, c). split; [done|]. by apply elem_of_map_to_list.
Qed.

(** The loops of a refresh compute [refreshed_cluster] and the column width. *)
Lemma update_cluster_info_eq now s :
  let s' := update_cluster_info now s in
  period_ s' = period_ s ∧ window_ s' = window_ s ∧
  (∀ name, clusters_ s' !! name =
     c ← clusters_ s !! name; refreshed_cluster (period_ s) now c) ∧
  name_column_ s' =
    if existsb (widens now (period_ s) (clusters_ s)) (iteration_order (clusters_ s))
    then xlarge_column_ else large_column_.
Proof.
  destruct (update_clusters_eq now _ (set_name_column large_column_ s)
    (iteration_order_NoDup (clusters_ s))) as (Hp & Hw & _ & Hc & Hn).
  split_and!; [exact Hp|exact Hw| |exact Hn].
  intros name. etransitivity; [apply Hc|]. simpl.
  destruct (clusters_ s !! name) eqn:En; [|done]. simpl.
  by rewrite decide_True by (apply elem_of_iteration_order; rewrite En; eauto).
Qed.

(** Drawing leaves the data alone. *)
Lemma draw_clusters_data (f : ClusterInfo → list Draw) names s :
  let s' := foldl (λ s name, match clusters_ s !! name with
                             | Some c => draw (f c) s
                             | None => s
                             end) s names in
  clusters_ s' = clusters_ s ∧ period_ s' = period_ s.
Proof.
  revert s. induction names as [|name names IH]; intros s; [done|]. cbn [foldl].
  destruct (clusters_ s !! name) as [c|]; [|apply IH]. apply (IH (draw (f c) s)).
Qed.

Lemma update_screen_data now s :
  clusters_ (update_screen now s) = clusters_ (update_cluster_info now s) ∧
  period_ (update_screen now s) = period_ s.
Proof.
  rewrite <- (proj1 (update_cluster_info_eq now s)).
  apply (draw_clusters_data (λ c, add_newline ++ add_details now c) _ (draw _ (draw _ _))).
Qed.

(** ** The invariant *)

Record node_info_ok (c : ClusterInfo) (id : N) (node : NodeInfo) : Prop := {
  node_info_id : node_id node = id;
  node_info_term : node_term node <= cluster_term c;
  node_info_time : (node_last_updated node <= cluster_last_updated c)%Z;
}.

Record cluster_info_ok (name : string) (c : ClusterInfo) : Prop := {
  cluster_info_name : cluster_name c = name;
  cluster_info_time : (0 <= cluster_last_updated c)%Z;
  cluster_info_nodes : map_Forall (node_info_ok c) (cluster_nodes c);
  cluster_info_leader : cluster_leader_exist c = true →
    is_Some (cluster_nodes c !! cluster_leader c);
}.

Definition monitor_ok (s : Inspector) : Prop := map_Forall cluster_info_ok (clusters_ s).

Lemma refreshed_ok period now name c :
  cluster_info_ok name c → cluster_info_ok name (refreshed period now c).
Proof.
  intros [Hname Htime Hnodes Hleader]. split; simpl; [done..| |].
  - intros id node [Hn _]%map_lookup_filter_Some. destruct (Hnodes id node Hn). by split.
  - intros [[node Hn]%Hleader Hl]%andb_true_iff. exists node.
    apply map_lookup_filter_Some. split; [done|]. unfold keeps. simpl.
    destruct (is_outdated period now (node_last_updated node)) eqn:Eo; [|done].
    apply negb_true_iff in Hl. exfalso. revert Hl. apply not_false_iff_true.
    apply existsb_exists. exists (cluster_leader c). split.
    + apply list_elem_of_In, elem_of_map_ids. by rewrite Hn.
    + rewrite Hn, Eo, (node_info_id _ _ _ (Hnodes _ _ Hn)). apply N.eqb_refl.
Qed.

Lemma update_cluster_info_ok now s : monitor_ok s → monitor_ok (update_cluster_info now s).
Proof.
  intros Hs name c. rewrite (proj1 (proj2 (proj2 (update_cluster_info_eq now s)))), bind_Some.
  intros (c0 & Hc0 & Hc). unfold refreshed_cluster in Hc. case_match; simplify_eq.
  by apply refreshed_ok, Hs.
Qed.

Lemma update_screen_ok now s : monitor_ok s → monitor_ok (update_screen now s).
Proof.
  intros Hs. unfold monitor_ok. destruct (update_screen_data now s) as [-> _].
  by apply update_cluster_info_ok.
Qed.

Lemma new_ClusterInfo_ok name : cluster_info_ok name (new_ClusterInfo name).
Proof. split; simpl; [done..| |done]. apply map_Forall_empty. Qed.

Lemma get_cluster_info_ok now name s c s' : monitor_ok s →
  get_cluster_info now name s = (c, s') →
  cluster_info_ok name c ∧ monitor_ok s' ∧ period_ s' = period_ s.
Proof.
  intros Hs. unfold get_cluster_info. pose proof (new_ClusterInfo_ok name).
  assert (monitor_ok (set_clusters (<[name:=new_ClusterInfo name]> (clusters_ s)) s))
    by by apply map_Forall_insert_2.
  destruct (clusters_ s !! name) as [c0|] eqn:Ec; [case_match|];
    intros ?; simplify_eq; split_and!; try done. by apply Hs.
Qed.

Lemma get_node_info_ok name c id node c' : cluster_info_ok name c →
  get_node_info c id = (node, c') →
  cluster_info_ok name c' ∧ node_id node = id ∧ cluster_nodes c' !! id = Some node.
Proof.
  intros Hc. unfold get_node_info. destruct (cluster_nodes c !! id) as [node0|] eqn:En;
    intros ?; simplify_eq.
  { split_and!; [done| |done]. by apply (cluster_info_nodes _ _ Hc). }
  destruct Hc as [Hname Htime Hnodes Hleader]. split_and!; [|done|apply lookup_insert_eq].
  split; simpl; [done..| |].
  - apply map_Forall_insert_2; [by split; simpl; lia|].
    intros id' node' Hn. by destruct (Hnodes id' node' Hn).
  - intros Hl. destruct (decide (cluster_leader c = id)) as [->|Hne].
    + by rewrite lookup_insert_eq.
    + rewrite lookup_insert_ne by done. auto.
Qed.

(** ** Messages *)

(** A message keeps the consistency of its cluster: the term of the node enters
    the term of the cluster, its stamp the time of the last update. *)
Lemma message_cluster_ok name c id node : cluster_info_ok name c → node_id node = id →
  is_Some (cluster_nodes c !! id) →
  cluster_info_ok name
    (message_cluster node (set_nodes (<[id := node]> (cluster_nodes c)) c)).
Proof.
  intros [Hname Htime Hnodes Hleader] Hid Hin.
  assert (∀ l, is_Some (cluster_nodes c !! l) ∨ l = id →
    is_Some (<[id:=node]> (cluster_nodes c) !! l)) as Hins.
  { intros l Hl. destruct (decide (id = l)) as [->|]; [by rewrite lookup_insert_eq|].
    rewrite lookup_insert_ne by done. naive_solver. }
  unfold message_cluster. simpl.
  assert (∀ c' : ClusterInfo,
    cluster_name c' = name → cluster_nodes c' = <[id:=node]> (cluster_nodes c) →
    cluster_term c <= cluster_term c' → node_term node <= cluster_term c' →
    (cluster_last_updated c <= cluster_last_updated c')%Z →
    (node_last_updated node <= cluster_last_updated c')%Z →
    (cluster_leader_exist c' = true →
      cluster_leader c' = id ∨ is_Some (cluster_nodes c !! cluster_leader c')) →
    cluster_info_ok name c') as Hok.
  { intros c' ? Hn ???? Hl. split; [done|lia| |].
    - rewrite Hn. apply map_Forall_insert_2; [by split|].
      intros id' node' Hn'. destruct (Hnodes _ _ Hn') as [? ? ?]. split; [done|lia..].
    - intros Hl'. rewrite Hn. apply Hins. destruct (Hl Hl') as [->|]; auto. }
  destruct (Z.ltb_spec (cluster_last_updated c) (node_last_updated node)); simpl;
    (destruct (N.leb_spec (cluster_term c) (node_term node));
      [destruct (node_state node =? LEADER)|]);
    apply Hok; simpl; try done; try lia; auto.
Qed.

Lemma inspector_message_received_ok now msg s : monitor_ok s →
  monitor_ok (inspector_message_received now msg s) ∧
  period_ (inspector_message_received now msg s) = period_ s.
Proof.
  intros Hs. unfold inspector_message_received. case_match; [done|].
  destruct (get_cluster_info now (msg_cluster_name msg) s) as [c s1] eqn:Ec.
  destruct (get_cluster_info_ok _ _ _ _ _ Hs Ec) as (Hc & Hs1 & <-).
  destruct (get_node_info c (msg_id msg)) as [node c1] eqn:En.
  destruct (get_node_info_ok _ _ _ _ _ Hc En) as (Hc1 & Hid & Hin).
  case_match; [by split; [apply map_Forall_insert_2|]|]. split.
  - apply update_screen_ok, map_Forall_insert_2; [|done].
    apply message_cluster_ok; [done|done|]. by rewrite Hin.
  - etransitivity; [apply (proj2 (update_screen_data _ _))|done].
Qed.

(** The states of the monitor: it starts empty, receives messages and refreshes
    its screen, at any times. *)
Inductive monitored `{Environment} : Inspector → Prop :=
  | monitored_new indeterminate : monitored (new_Inspector indeterminate)
  | monitored_message now msg s :
      monitored s → monitored (inspector_message_received now msg s)
  | monitored_refresh now s : monitored s → monitored (update_screen now s).

Lemma monitored_monitor_ok `{Environment} s : monitored s → monitor_ok s.
Proof.
  induction 1; [apply map_Forall_empty| |by apply update_screen_ok].
  by apply inspector_message_received_ok.
Qed.

(** ** The shown state *)

(** C34: a refresh of the monitor at [now] keeps exactly the clusters that are not
    outdated, in each of them exactly the nodes that are not, forgets a leader
    whose node it drops, takes the size that the last node reports, and widens
    the name column exactly when a shown cluster that has a node has a name of
    more than 15 characters. *)
Theorem refresh_spec now s :
  let s' := update_cluster_info now s in
  (∀ name, clusters_ s' !! name =
     c ← clusters_ s !! name; refreshed_cluster (period_ s) now c) ∧
  (name_column_ s' = xlarge_column_ ↔
     ∃ name c id node, clusters_ s !! name = Some c ∧
       is_outdated (period_ s) now (cluster_last_updated c) = false ∧
       cluster_nodes c !! id = Some node ∧
       is_outdated (period_ s) now (node_last_updated node) = false ∧
       large_column_ < N.of_nat (String.length (cluster_name c))) ∧
  (name_column_ s' = large_column_ ∨ name_column_ s' = xlarge_column_) ∧
  period_ s' = period_ s ∧ window_ s' = window_ s.
Proof.
  destruct (update_cluster_info_eq now s) as (Hp & Hw & Hc & Hn). cbn zeta.
  rewrite Hp, Hw, Hn. split; [done|]. split; [|by split; [case_match; auto|]].
  transitivity (existsb (widens now (period_ s) (clusters_ s))
                  (iteration_order (clusters_ s)) = true); [by case_match|].
  rewrite existsb_exists. split.
  - intros (name & _ & Hwide). unfold widens in Hwide.
    destruct (clusters_ s !! name) as [c|] eqn:Ec; [|done].
    apply andb_true_iff in Hwide as [Ho%negb_true_iff [Hl Hne]%andb_true_iff].
    destruct (live_nodes (period_ s) now c) as [|node nodes] eqn:Elive; [done|].
    assert (node ∈ live_nodes (period_ s) now c) as Hnode by (rewrite Elive; left).
    apply list_elem_of_omap in Hnode as (id & _ & Hid). apply bind_Some in Hid as (node' & ? & Hk).
    exists name, c, id, node'. case_match; [done|]. split_and!; try done. by apply N.ltb_lt.
  - intros (name & c & id & node & Ec & Ho & Hid & Hk & Hl). exists name. split.
    { apply list_elem_of_In, elem_of_iteration_order. by rewrite Ec. }
    unfold widens. rewrite Ec, Ho. unfold wide. rewrite (proj2 (N.ltb_lt _ _) Hl). simpl.
    apply negb_true_iff, bool_decide_eq_false. intros Elive.
    assert (node ∈ live_nodes (period_ s) now c) as Hnode.
    { apply list_elem_of_omap. exists id. rewrite elem_of_map_ids, Hid. split; [done|].
      simpl. by rewrite Hk. }
    rewrite Elive in Hnode. by apply not_elem_of_nil in Hnode.
Qed.

(** C33: in every state that the monitor reaches, each cluster is filed under its
    name and each node under its identifier, no node is ahead of its cluster in
    term or time, and the leader that is shown is one of the cluster's nodes. *)
Theorem monitor_consistent `{Environment} s name c :
  monitored s → clusters_ s !! name = Some c →
  cluster_name c = name ∧
  (∀ id node, cluster_nodes c !! id = Some node →
     node_id node = id ∧ node_term node <= cluster_term c ∧
     (node_last_updated node <= cluster_last_updated c)%Z) ∧
  (cluster_leader_exist c = true → is_Some (cluster_nodes c !! cluster_leader c)).
Proof.
  intros Hs Hc. destruct (monitored_monitor_ok s Hs name c Hc) as [Hname _ Hnodes Hleader].
  split_and!; [done| |done]. intros id node Hn. by destruct (Hnodes id node Hn).
Qed.

(** The state code of a message. *)
Definition state_code (state : RaftTypes.StateType) : N :=
  match state with
  | RaftTypes.kStandby => STANDBY
  | kFollower => FOLLOWER
  | kCandidate => CANDIDATE
  | kLeader => LEADER
  | kStay => UNKNOWN
  end.

Lemma live_kept period now c id node : cluster_nodes c !! id = Some node →
  is_outdated period now (node_last_updated node) = false →
  cluster_nodes (refreshed period now c) !! id = Some node.
Proof. intros. by apply map_lookup_filter_Some. Qed.

Lemma leader_kept period now c : cluster_leader_exist c = true →
  (∀ id node, cluster_nodes c !! id = Some node → node_id node = id) →
  (∃ node, cluster_nodes c !! cluster_leader c = Some node ∧
     is_outdated period now (node_last_updated node) = false) →
  cluster_leader_exist (refreshed period now c) = true.
Proof.
  intros Hl Hid (leader & Hleader & Ho). simpl. rewrite Hl. simpl.
  apply negb_true_iff, not_true_iff_false. intros (id & _ & Hlost)%existsb_exists.
  destruct (cluster_nodes c !! id) as [node|] eqn:En; [|done].
  apply andb_true_iff in Hlost as [Hlost Heq%N.eqb_eq].
  rewrite (Hid _ _ En) in Heq. congruence.
Qed.

Lemma message_cluster_leader node c :
  node_state node = LEADER → cluster_term c <= node_term node →
  cluster_term (message_cluster node c) = node_term node ∧
  cluster_leader (message_cluster node c) = node_id node ∧
  cluster_leader_exist (message_cluster node c) = true.
Proof.
  intros Hst Hle. unfold message_cluster.
  destruct (cluster_last_updated c <? node_last_updated node)%Z; simpl;
    by rewrite (proj2 (N.leb_le _ _) Hle), Hst.
Qed.

Lemma is_outdated_newer period now t1 t2 : (t1 <= t2)%Z →
  is_outdated period now t1 = false → is_outdated period now t2 = false.
Proof. unfold is_outdated. intros Ht. repeat case_match; try done; lia. Qed.

(** What an accepted message makes of its cluster, before the refresh. *)
Lemma message_received_cluster now msg s :
  let s' := inspector_message_received now msg s in
  let node := message_node msg (new_NodeInfo (msg_id msg)) in
  monitor_ok s → is_outdated (period_ s) now (msg_stamp msg) = false →
  (0 <= msg_stamp msg)%Z →
  (∀ c node, clusters_ s !! msg_cluster_name msg = Some c →
     cluster_nodes c !! msg_id msg = Some node → (node_last_updated node <= msg_stamp msg)%Z) →
  ∃ c, clusters_ s' !! msg_cluster_name msg = refreshed_cluster (period_ s) now c ∧
    cluster_info_ok (msg_cluster_name msg) c ∧ cluster_nodes c !! msg_id msg = Some node ∧
    (msg_state msg = LEADER →
     (∀ c0, clusters_ s !! msg_cluster_name msg = Some c0 → cluster_term c0 <= msg_term msg) →
     cluster_term c = msg_term msg ∧ cluster_leader c = msg_id msg ∧
     cluster_leader_exist c = true).
Proof.
  intros s' node' Hs Ho Hstamp Hnew. unfold s', inspector_message_received. rewrite Ho.
  destruct (get_cluster_info now (msg_cluster_name msg) s) as [c s1] eqn:Ec.
  destruct (get_cluster_info_ok _ _ _ _ _ Hs Ec) as (Hc & Hs1 & Hp).
  assert (c = new_ClusterInfo (msg_cluster_name msg) ∨
          clusters_ s !! msg_cluster_name msg = Some c) as Hor.
  { unfold get_cluster_info in Ec. repeat case_match; simplify_eq; auto. }
  destruct (get_node_info c (msg_id msg)) as [node c1] eqn:En.
  destruct (get_node_info_ok _ _ _ _ _ Hc En) as (Hc1 & Hid & Hin).
  assert ((node_last_updated node <= msg_stamp msg)%Z ∧ cluster_term c1 = cluster_term c)
    as [Hle Hterm].
  { unfold get_node_info in En. destruct (cluster_nodes c !! msg_id msg) eqn:Enode;
      simplify_eq; split; try done. destruct Hor as [->|]; [done|eauto]. }
  rewrite (proj2 (Z.ltb_ge _ _) Hle).
  assert (message_node msg node = node') as -> by (by unfold message_node; rewrite Hid).
  exists (message_cluster node' (set_nodes (<[msg_id msg := node']> (cluster_nodes c1)) c1)).
  split_and!.
  - rewrite (proj1 (update_screen_data _ _)).
    rewrite (proj1 (proj2 (proj2 (update_cluster_info_eq _ _)))). simpl.
    rewrite lookup_insert_eq. simpl. by rewrite Hp.
  - apply message_cluster_ok; [done|done|]. by rewrite Hin.
  - unfold message_cluster. repeat case_match; simpl; by rewrite lookup_insert_eq.
  - intros Hleader Hold. apply (message_cluster_leader node'); [done|].
    simpl. rewrite Hterm. destruct Hor as [->|Hor]; [simpl; lia|]. apply (Hold _ Hor).
Qed.

(** A fresh message of a node's inspector is shown: the node is listed in its
    cluster with its size, state, term, log size and vote; the cluster's term is
    at least the node's; and a leader whose term is not older than what is shown
    of its cluster is shown as the leader of that term. *)
Theorem message_shown `{StateMachineInterface} `{Environment} now stamp n s :
  monitored s →
  is_outdated (period_ s) now stamp = false → (0 <= stamp)%Z →
  (∀ c node, clusters_ s !! cluster_name_ (context_ n) = Some c →
     cluster_nodes c !! node_id_ (context_ n) = Some node →
     (node_last_updated node <= stamp)%Z) →
  let s' := inspector_message_received now (inspector_message_requested stamp n) s in
  ∃ c, clusters_ s' !! cluster_name_ (context_ n) = Some c ∧
    cluster_nodes c !! node_id_ (context_ n) = Some {|
      node_id := node_id_ (context_ n);
      node_size := cluster_size_ (context_ n);
      node_state := state_code (get_current_state n);
      node_term := current_term (store n);
      node_data_size := logs_size (store n);
      node_voted_for := voted_for (store n);
      node_last_updated := stamp |} ∧
    current_term (store n) <= cluster_term c ∧
    (get_current_state n = kLeader →
     (∀ c0, clusters_ s !! cluster_name_ (context_ n) = Some c0 →
        cluster_term c0 <= current_term (store n)) →
     cluster_term c = current_term (store n) ∧
     cluster_leader c = node_id_ (context_ n) ∧ cluster_leader_exist c = true).
Proof.
  intros Hs Ho Hstamp Hnew. cbn zeta. apply monitored_monitor_ok in Hs.
  assert (state_code (get_current_state n) = msg_state (inspector_message_requested stamp n))
    as -> by by destruct (get_current_state n) eqn:E; simpl; rewrite E.
  destruct (message_received_cluster now (inspector_message_requested stamp n) s Hs)
    as (c & Hc & Hok & Hn & Hl); [done..|].
  assert (is_outdated (period_ s) now (cluster_last_updated c) = false) as Ho2.
  { eapply is_outdated_newer, Ho. apply (node_info_time _ _ _ (cluster_info_nodes _ _ Hok _ _ Hn)). }
  unfold refreshed_cluster in Hc. rewrite Ho2 in Hc.
  exists (refreshed (period_ s) now c). split_and!; [exact Hc|by apply live_kept| |].
  - apply (node_info_term _ _ _ (cluster_info_nodes _ _ Hok _ _ Hn)).
  - intros Hleader Hold. destruct Hl as (Ht & Hl & He); [|done|].
    { simpl. by rewrite Hleader. }
    split_and!; [exact Ht|exact Hl|]. apply leader_kept; [done| |].
    + intros id node Hid. apply (node_info_id _ _ _ (cluster_info_nodes _ _ Hok _ _ Hid)).
    + eexists. rewrite Hl. by split.
Qed.

End monitor.

(** ** Concrete monitors *)

(** No variable is set; clusters are traversed in the order of their keys. *)
#[local] Instance demo_environment : Environment := {|
  getenv _ := None;
  atof _ := double_of_Z 0
|}.

#[local] Instance demo_order : HashOrder := {| iteration_order m := (map_to_list m).*1 |}.

#[local] Instance demo_order_spec : HashOrderSpec.
Proof. by split. Qed.

(** Nodes 1 and 2 of one cluster disagree about its size. *)
Definition demo_message (stamp : Time) (id size : N) : InspectorMsg :=
  mkInspectorMsg stamp "demo" size id FOLLOWER 1 0 0.

Definition demo_monitor : Monitor.Inspector :=
  inspector_message_received 30 (demo_message 20 2 3)
    (inspector_message_received 20 (demo_message 10 1 5) (Monitor.new_Inspector 0)).

Lemma demo_monitored : monitored demo_monitor.
Proof. apply monitored_message, monitored_message, monitored_new. Qed.

(** What is shown of the cluster [demo]. *)
Definition shown_size (s : Monitor.Inspector) : option (N * bool) :=
  c ← clusters_ s !! "demo"%string; Some (cluster_size c, cluster_size_mismatched c).

Lemma refresh_spec_witness :
  let s' := update_cluster_info 40 demo_monitor in
  is_Some (clusters_ s' !! "demo"%string) ∧
  clusters_ s' !! "demo"%string =
    (c ← clusters_ demo_monitor !! "demo"%string;
     refreshed_cluster (period_ demo_monitor) 40 c).
Proof.
  split; [|apply (refresh_spec 40 demo_monitor)].
  eexists. vm_compute. reflexivity.
Defined.

Lemma monitor_consistent_witness :
  ∃ c, clusters_ demo_monitor !! "demo"%string = Some c ∧ size (cluster_nodes c) = 2%nat ∧
    cluster_name c = "demo"%string.
Proof.
  destruct (clusters_ demo_monitor !! "demo"%string) as [c|] eqn:Ec; [|by vm_compute in Ec].
  exists c. split; [done|]. split; [by vm_compute in Ec; simplify_eq|].
  apply (monitor_consistent demo_monitor "demo"%string c demo_monitored Ec).
Defined.

Lemma message_shown_witness :
  let s' := inspector_message_received 50 (inspector_message_requested 40 demo_leader)
              demo_monitor in
  ∃ c, clusters_ s' !! "demo"%string = Some c ∧ cluster_leader c = 1 ∧ cluster_term c = 1.
Proof.
  cbv zeta.
  assert (get_current_state demo_leader = kLeader) as Hleader by by vm_compute.
  assert (cluster_name_ (context_ demo_leader) = "demo"%string) as En by by vm_compute.
  assert (node_id_ (context_ demo_leader) = 1) as Ei by by vm_compute.
  assert (current_term (store demo_leader) = 1) as Et by by vm_compute.
  pose proof (message_shown 50 40 demo_leader demo_monitor demo_monitored) as Ht.
  cbv zeta in Ht. rewrite En, Ei, Et in Ht.
  destruct Ht as (c & Hc & _ & _ & Hl); [by vm_compute|lia| |].
  - intros c node Hc Hn. vm_compute in Hc. injection Hc as <-. vm_compute in Hn.
    by injection Hn as <-.
  - exists c. split; [exact Hc|].
    destruct (Hl Hleader) as (Hterm & Hleads & _); [|exact (conj Hleads Hterm)].
    intros c0 Hc0. vm_compute in Hc0. by injection Hc0 as <-.
Defined.

(** Two nodes of one cluster that report the sizes 5 and 3: the disagreement is
    shown once, and no longer after the next refresh, because the sizes are
    compared with the size of the previous refresh and not with each other. *)
Lemma mismatch_shown_once :
  shown_size demo_monitor = Some (3, true) ∧
  shown_size (update_screen 40 demo_monitor) = Some (3, false) ∧
  shown_size (update_screen 50 (update_screen 40 demo_monitor)) = Some (3, false).
Proof. by vm_compute. Qed.
