(* ===== verification/LockSystem.v ===== *)
(** * Threads and mutexes

    A language for what a piece of code does to mutexes and to shared variables,
    the sequences of actions that it may perform, and threads that interleave
    them.  A static check of the code gives that no interleaving deadlocks and
    that guarded variables are not raced.  Locks.v describes the sources in this
    language. *)

From S2P Require Import Prelude.

(** ** Mutexes and shared variables *)

(** The mutexes by the member that holds them; [index_mutex_] is one per peer. *)
Inductive MutexKind :=
  | raft_state_mutex_ | raft_notifier_mutex_
  | lifecycle_state_mutex_ | lifecycle_notifier_mutex_
  | callback_mutex_ | pending_commit_mutex_ | store_mutex_ | index_mutex_.

#[export] Instance MutexKind_eq_dec : EqDecision MutexKind.
Proof. solve_decision. Defined.

Record Mutex := mkMutex { kind : MutexKind; owner : N }.

#[export] Instance Mutex_eq_dec : EqDecision Mutex.
Proof. solve_decision. Defined.

(** [std::recursive_mutex] *)
Definition recursive (k : MutexKind) : bool :=
  match k with
  | raft_state_mutex_ | raft_notifier_mutex_ | lifecycle_state_mutex_
  | lifecycle_notifier_mutex_ | callback_mutex_ => true
  | pending_commit_mutex_ | store_mutex_ | index_mutex_ => false
  end.

(** The mutex of a kind while peer [j] is dealt with. *)
Definition mutex_at (k : MutexKind) (j : N) : Mutex :=
  mkMutex k (match k with index_mutex_ => j | _ => 0%N end).

(** An order in which the mutexes are taken. *)
Definition rank (k : MutexKind) : nat :=
  match k with
  | raft_state_mutex_ => 0 | raft_notifier_mutex_ => 1
  | lifecycle_state_mutex_ => 2 | lifecycle_notifier_mutex_ => 3
  | callback_mutex_ => 4 | pending_commit_mutex_ => 5 | store_mutex_ => 6 | index_mutex_ => 7
  end.

(** What the members of the objects behind a node share between threads. *)
Inductive Var :=
  | raft_current_state_ | raft_observers_ | lifecycle_current_state_ | lifecycle_observers_
  | user_callbacks_
  | election_timer_ | broadcast_timer_ | random_generator_ | broadcast_received_
  | commit_callback_ | revert_callback_ | pending_commit_ | result_map_
  | current_term_ | voted_for_ | voted_ | vote_received_ | logs_ | db_
  | next_index_ | match_index_.

#[export] Instance Var_eq_dec : EqDecision Var.
Proof. solve_decision. Defined.

Record Location := mkLocation { var : Var; location_owner : N }.

#[export] Instance Location_eq_dec : EqDecision Location.
Proof. solve_decision. Defined.

Definition location_at (v : Var) (j : N) : Location :=
  mkLocation v (match v with next_index_ | match_index_ => j | _ => 0%N end).

(** How a variable is protected: by a mutex, by being used in the callbacks of the
    executor only, or not at all. *)
Inductive Protection := GuardedBy (k : MutexKind) | ExecutorOnly | Unprotected.

Definition protection (v : Var) : Protection :=
  match v with
  | raft_current_state_ | lifecycle_current_state_ | user_callbacks_ => Unprotected
  | raft_observers_ => GuardedBy raft_notifier_mutex_
  | lifecycle_observers_ => GuardedBy lifecycle_notifier_mutex_
  | election_timer_ | broadcast_timer_ | random_generator_ | broadcast_received_ => ExecutorOnly
  | commit_callback_ | revert_callback_ => GuardedBy callback_mutex_
  | pending_commit_ | result_map_ => GuardedBy pending_commit_mutex_
  | current_term_ | voted_for_ | voted_ | vote_received_ | logs_ | db_ => GuardedBy store_mutex_
  | next_index_ | match_index_ => GuardedBy index_mutex_
  end.

(** ** Code *)

(** Procedures that are called recursively. *)
Inductive Proc := RaftHandle | UserCode.

Inductive Code :=
  | Skip
  | Access (write : bool) (v : Var)
  | Then (c1 c2 : Code)
  | Either (c1 c2 : Code)
  | Loop (c : Code)
  | ForPeer (c : Code)
  | Guard (k : MutexKind) (c : Code)
  | Call (p : Proc).

Definition Read : Var → Code := Access false.
Definition Write : Var → Code := Access true.
Definition Seq (cs : list Code) : Code := foldr Then Skip cs.
Definition Choose (cs : list Code) : Code := foldr Either Skip cs.
Definition Maybe (cs : list Code) : Code := Either (Seq cs) Skip.

Inductive Action :=
  | Lock (m : Mutex)
  | Unlock (m : Mutex)
  | Touch (write : bool) (l : Location).

(** The actions that a run of some code may perform, while peer [j] is dealt with.
    A guard releases its mutex at the end of its block. *)
Inductive runs (body : Proc → Code) : N → Code → list Action → Prop :=
  | runs_skip j : runs body j Skip []
  | runs_access j w v : runs body j (Access w v) [Touch w (location_at v j)]
  | runs_then j c1 c2 tr1 tr2 :
      runs body j c1 tr1 → runs body j c2 tr2 → runs body j (Then c1 c2) (tr1 ++ tr2)
  | runs_left j c1 c2 tr : runs body j c1 tr → runs body j (Either c1 c2) tr
  | runs_right j c1 c2 tr : runs body j c2 tr → runs body j (Either c1 c2) tr
  | runs_loop_end j c : runs body j (Loop c) []
  | runs_loop j c tr1 tr2 :
      runs body j c tr1 → runs body j (Loop c) tr2 → runs body j (Loop c) (tr1 ++ tr2)
  | runs_peer j j' c tr : runs body j' c tr → runs body j (ForPeer c) tr
  | runs_guard j k c tr :
      runs body j c tr →
      runs body j (Guard k c) (Lock (mutex_at k j) :: tr ++ [Unlock (mutex_at k j)])
  | runs_call j p tr : runs body j (body p) tr → runs body j (Call p) tr.

(** ** Disciplined sequences of actions *)

(** Taking [m] respects the order, or takes a recursive mutex again. *)
Definition may_lock (held : list Mutex) (m : Mutex) : bool :=
  (recursive (kind m) && bool_decide (m ∈ held)) ||
  forallb (λ h, (rank (kind h) <? rank (kind m))%nat) held.

Definition may_touch (held : list Mutex) (l : Location) : bool :=
  match protection (var l) with
  | GuardedBy k => bool_decide (mutex_at k (location_owner l) ∈ held)
  | _ => true
  end.

(** The mutexes held after some actions, if they are disciplined. *)
Fixpoint follow (held : list Mutex) (tr : list Action) : option (list Mutex) :=
  match tr with
  | [] => Some held
  | Lock m :: tr => if may_lock held m then follow (m :: held) tr else None
  | Unlock m :: tr =>
      match held with
      | h :: held => if decide (h = m) then follow held tr else None
      | [] => None
      end
  | Touch _ l :: tr => if may_touch held l then follow held tr else None
  end.

Lemma follow_app held tr1 tr2 :
  follow held (tr1 ++ tr2) = follow held tr1 ≫= λ held, follow held tr2.
Proof.
  revert held. induction tr1 as [|[m|m|w l] tr1 IH]; intros held; [done|..]; simpl.
  - by case_match.
  - destruct held as [|h held]; [done|]. by case_decide.
  - by case_match.
Qed.

(** ** The static check *)

Section check.
  Context (body : Proc → Code) (summary : Proc → list MutexKind).

(** The kinds of mutexes that code may take; [summary] says it of procedures. *)
Fixpoint acquires (c : Code) : list MutexKind :=
  match c with
  | Skip | Access _ _ => []
  | Then c1 c2 | Either c1 c2 => acquires c1 ++ acquires c2
  | Loop c | ForPeer c => acquires c
  | Guard k c => k :: acquires c
  | Call p => summary p
  end.

(** The kinds that must be held for the variables that code uses. *)
Fixpoint needs (c : Code) : list MutexKind :=
  match c with
  | Skip | Call _ => []
  | Access _ v => match protection v with GuardedBy k => [k] | _ => [] end
  | Then c1 c2 | Either c1 c2 => needs c1 ++ needs c2
  | Loop c | ForPeer c => needs c
  | Guard k c => filter (λ k', k' ≠ k) (needs c)
  end.

(** A mutex of kind [k] may be taken while one of kind [h] is held. *)
Definition nests (h k : MutexKind) : bool :=
  (rank h <? rank k)%nat || (recursive k && bool_decide (h = k)).

Fixpoint well_nested (c : Code) : bool :=
  match c with
  | Skip | Access _ _ | Call _ => true
  | Then c1 c2 | Either c1 c2 => well_nested c1 && well_nested c2
  | Loop c => well_nested c
  | ForPeer c => bool_decide (index_mutex_ ∉ needs c) && well_nested c
  | Guard k c => forallb (nests k) (acquires c) && well_nested c
  end.

(** Code that needs no mutex of its caller. *)
Definition checked (c : Code) : bool := well_nested c && bool_decide (needs c = []).

Definition summarized (p : Proc) : bool :=
  checked (body p) && forallb (λ k, bool_decide (k ∈ summary p)) (acquires (body p)).

Hypothesis procs_ok : ∀ p, summarized p = true.

Definition proper (m : Mutex) : Prop := ∃ j, m = mutex_at (kind m) j.

(** The mutexes held when code starts: their order allows what the code takes, and
    they include those it needs. *)
Definition held_ok (j : N) (held : list Mutex) (c : Code) : Prop :=
  Forall proper held ∧
  (∀ h k, h ∈ held → k ∈ acquires c → nests (kind h) k = true) ∧
  (∀ k, k ∈ needs c → mutex_at k j ∈ held).

Lemma mutex_at_kind k j : kind (mutex_at k j) = k.
Proof. done. Qed.

Lemma may_lock_nests held k j : Forall proper held →
  (∀ h, h ∈ held → nests (kind h) k = true) → may_lock held (mutex_at k j) = true.
Proof.
  intros Hp Hn. unfold may_lock. rewrite mutex_at_kind.
  destruct (decide (Exists (λ h, kind h = k) held)) as [Hex|Hnot].
  - apply Exists_exists in Hex as (h & Hin & Hk). pose proof (Hn h Hin) as Hnh.
    unfold nests in Hnh. rewrite Hk, Nat.ltb_irrefl, bool_decide_true, andb_true_r in Hnh by done.
    simpl in Hnh. rewrite Hnh. apply orb_true_iff. left. apply bool_decide_eq_true.
    rewrite Forall_forall in Hp. destruct (Hp h Hin) as [j' Hh].
    assert (mutex_at k j = h) as ->; [|done].
    rewrite Hh, Hk. by destruct k.
  - apply orb_true_iff. right. apply forallb_forall. intros h Hin%list_elem_of_In.
    pose proof (Hn h Hin) as Hnh. unfold nests in Hnh.
    rewrite bool_decide_false, andb_false_r, orb_false_r in Hnh; [done|].
    intros Hk. apply Hnot, Exists_exists. eauto.
Qed.

(** Checked code is disciplined. *)
Lemma runs_follow j c tr : runs body j c tr → well_nested c = true →
  ∀ held, held_ok j held c → follow held tr = Some held.
Proof.
  induction 1 as [j|j w v|j c1 c2 tr1 tr2 _ IH1 _ IH2|j c1 c2 tr _ IH|j c1 c2 tr _ IH
    |j c|j c tr1 tr2 _ IH1 _ IH2|j j' c tr _ IH|j k c tr _ IH|j p tr _ IH];
    intros Hc held (Hp & Ho & Hn); simpl in *.
  - done.
  - unfold may_touch. simpl. destruct (protection v) as [k| |] eqn:Hv; [|done|done].
    rewrite bool_decide_true; [done|].
    specialize (Hn k (list_elem_of_here _ _)). by destruct v; simplify_eq/=.
  - apply andb_true_iff in Hc as [Hc1 Hc2]. rewrite follow_app, IH1; [|done|].
    + simpl. apply IH2; [done|]. split_and!; [done|set_solver..].
    + split_and!; [done|set_solver..].
  - apply andb_true_iff in Hc as [Hc1 _]. apply IH; [done|]. split_and!; [done|set_solver..].
  - apply andb_true_iff in Hc as [_ Hc2]. apply IH; [done|]. split_and!; [done|set_solver..].
  - done.
  - rewrite follow_app, IH1; [simpl; by apply IH2|done|done].
  - apply andb_true_iff in Hc as [Hi%bool_decide_eq_true Hc]. apply IH; [done|].
    split_and!; [done|done|]. intros k Hk. specialize (Hn k Hk).
    by destruct k.
  - apply andb_true_iff in Hc as [Hk Hc]. rewrite forallb_forall in Hk.
    rewrite may_lock_nests; [|done|intros h Hh; apply Ho; [done|by left]].
    rewrite follow_app, IH; [simpl; by rewrite decide_True|done|].
    split_and!.
    + constructor; [by exists j|done].
    + intros h k' [->|Hh]%elem_of_cons Hk'.
      * rewrite mutex_at_kind. by apply Hk, list_elem_of_In.
      * apply Ho; [done|by right].
    + intros k' Hk'. destruct (decide (k' = k)) as [->|Hne]; [by left|].
      right. apply Hn, list_elem_of_filter. done.
  - pose proof (procs_ok p) as Hbody. unfold summarized, checked in Hbody.
    apply andb_true_iff in Hbody as [[Hw Hnil%bool_decide_eq_true]%andb_true_iff Hsub].
    rewrite forallb_forall in Hsub. apply IH; [done|]. split_and!; [done| |rewrite Hnil; set_solver].
    intros h k Hh Hk. apply Ho; [done|]. 
    by apply list_elem_of_In, Hsub, bool_decide_eq_true in Hk.
Qed.

Lemma runs_disciplined j c tr : checked c = true → runs body j c tr → follow [] tr = Some [].
Proof.
  intros [Hw Hn%bool_decide_eq_true]%andb_true_iff Hr. eapply runs_follow; [done..|].
  split_and!; [constructor|set_solver|rewrite Hn; set_solver].
Qed.

End check.

(** ** Code that leaves to the executor what only the executor uses *)

Definition leaves_alone (a : Action) : Prop :=
  match a with Touch _ l => protection (var l) ≠ ExecutorOnly | _ => True end.

(** [own p]: procedure [p] leaves it alone as well. *)
Fixpoint confined (own : Proc → bool) (c : Code) : bool :=
  match c with
  | Skip => true
  | Access _ v => match protection v with ExecutorOnly => false | _ => true end
  | Then c1 c2 | Either c1 c2 => confined own c1 && confined own c2
  | Loop c | ForPeer c | Guard _ c => confined own c
  | Call p => own p
  end.

Lemma runs_confined body own j c tr : (∀ p, own p = true → confined own (body p) = true) →
  runs body j c tr → confined own c = true → Forall leaves_alone tr.
Proof.
  intros Hown. induction 1; simpl; intros Hc; rewrite ?andb_true_iff in Hc; destruct_and?;
    rewrite ?Forall_cons, ?Forall_app; auto.
  - constructor; [|done]. simpl. by destruct v.
  - split_and!; [done|by auto|by constructor].
Qed.

(** ** Running code with given choices *)

(** The actions of one run: each choice says which branch is taken, whether a loop goes
    on, or which peer is dealt with.  The result includes the choices left over. *)
Fixpoint perform (fuel : nat) (body : Proc → Code) (j : N) (c : Code) (choices : list N)
    : option (list Action * list N) :=
  match fuel with
  | O => None
  | S fuel =>
      match c, choices with
      | Skip, _ => Some ([], choices)
      | Access w v, _ => Some ([Touch w (location_at v j)], choices)
      | Then c1 c2, _ =>
          '(tr1, choices) ← perform fuel body j c1 choices;
          '(tr2, choices) ← perform fuel body j c2 choices;
          Some (tr1 ++ tr2, choices)
      | Either c1 c2, n :: choices =>
          perform fuel body j (if (n =? 0)%N then c1 else c2) choices
      | Loop c', n :: choices =>
          if (n =? 0)%N then Some ([], choices)
          else '(tr1, choices) ← perform fuel body j c' choices;
               '(tr2, choices) ← perform fuel body j c choices;
               Some (tr1 ++ tr2, choices)
      | ForPeer c, n :: choices => perform fuel body n c choices
      | Guard k c, _ =>
          '(tr, choices) ← perform fuel body j c choices;
          Some (Lock (mutex_at k j) :: tr ++ [Unlock (mutex_at k j)], choices)
      | Call p, _ => perform fuel body j (body p) choices
      | _, [] => None
      end
  end.

Lemma perform_runs fuel body j c choices tr rest :
  perform fuel body j c choices = Some (tr, rest) → runs body j c tr.
Proof.
  revert j c choices tr rest. induction fuel as [|fuel IH]; intros j c choices tr rest H; [done|].
  simpl in H. destruct c.
  - by destruct choices; simplify_eq; constructor.
  - by destruct choices; simplify_eq; constructor.
  - destruct choices; apply bind_Some in H as ([tr1 ?] & H1 & ([tr2 ?] & H2 & [= <- _])%bind_Some);
      constructor; eauto.
  - destruct choices as [|n choices]; [done|]. case_match; [apply runs_left|apply runs_right]; eauto.
  - destruct choices as [|n choices]; [done|]. case_match; simplify_eq; [constructor|].
    apply bind_Some in H as ([tr1 ?] & H1 & ([tr2 ?] & H2 & [= <- _])%bind_Some).
    constructor; eauto.
  - destruct choices as [|n choices]; [done|]. econstructor; eauto.
  - destruct choices; apply bind_Some in H as ([tr1 ?] & H1 & [= <- _]); constructor; eauto.
  - destruct choices; constructor; eauto.
Qed.
