(* ===== verification/Threads.v ===== *)
(** * Threads that interleave

    Each thread performs the actions of one run of its code (LockSystem.v); a step of
    the system is an action of one thread, and a mutex is taken only while no other
    thread holds it.  If every thread is disciplined then every schedule comes to an
    end with all threads finished, and two threads never use a guarded variable at
    the same time. *)

From S2P Require Import Prelude LockSystem.

Record Thread := mkThread { todo : list Action; held : list Mutex }.
Abbreviation System := (list Thread).

(** Threads about to perform the given actions. *)
Definition launch (traces : list (list Action)) : System := (λ tr, mkThread tr []) <$> traces.

Definition held_by (s : System) (i : nat) : list Mutex := from_option held [] (s !! i).

(** No other thread than [i] holds [m]. *)
Definition available (s : System) (i : nat) (m : Mutex) : bool :=
  forallb (λ i', bool_decide (i' = i) || negb (bool_decide (m ∈ held_by s i')))
    (seq 0 (length s)).

(** Thread [i] performs its next action, if it can: locking waits while another thread
    holds the mutex, and never returns if the thread itself holds one that is not
    recursive. *)
Definition act (s : System) (i : nat) (t : Thread) : option Thread :=
  match todo t with
  | [] => None
  | Lock m :: tr =>
      if available s i m && (recursive (kind m) || negb (bool_decide (m ∈ held t)))
      then Some (mkThread tr (m :: held t)) else None
  | Unlock m :: tr =>
      match held t with
      | h :: rest => if decide (h = m) then Some (mkThread tr rest) else None
      | [] => None
      end
  | Touch _ _ :: tr => Some (mkThread tr (held t))
  end.

Definition advance (s : System) (i : nat) : option System :=
  t ← s !! i; t' ← act s i t; Some (<[i := t']> s).

Definition step (s s' : System) : Prop := ∃ i, advance s i = Some s'.

(** Let the threads act in the given order. *)
Definition schedule (s : System) (order : list nat) : option System :=
  foldl (λ s i, s ≫= λ s, advance s i) (Some s) order.

Definition finished (t : Thread) : Prop := todo t = [].

#[export] Instance finished_dec t : Decision (finished t).
Proof. unfold finished. apply _. Defined.

(** Two threads are about to use [l] at the same time, and one of them writes. *)
Definition race (s : System) (l : Location) : Prop :=
  ∃ i i' w w' tr tr' h h',
    i ≠ i' ∧ s !! i = Some (mkThread (Touch w l :: tr) h) ∧
    s !! i' = Some (mkThread (Touch w' l :: tr') h') ∧ w || w' = true.

(** ** Steps *)

Lemma schedule_snoc s order i :
  schedule s (order ++ [i]) = schedule s order ≫= λ s, advance s i.
Proof. unfold schedule. by rewrite foldl_snoc. Qed.

Lemma schedule_steps s order s' : schedule s order = Some s' → rtc step s s'.
Proof.
  revert s'. induction order as [|i order IH] using rev_ind; intros s'.
  - intros [= ->]. constructor.
  - rewrite schedule_snoc. intros (s1 & H1 & H2)%bind_Some.
    eapply rtc_r; [by apply IH|]. by exists i.
Qed.

Lemma availableP s i m : available s i m = true ↔ ∀ i', i' ≠ i → m ∉ held_by s i'.
Proof.
  unfold available. rewrite forallb_forall. split.
  - intros H i' Hne. destruct (decide (i' < length s)%nat) as [Hlt|Hge].
    + specialize (H i'). rewrite in_seq in H. specialize (H ltac:(lia)).
      apply orb_true_iff in H as [H%bool_decide_eq_true|H]; [done|].
      by apply negb_true_iff, bool_decide_eq_false in H.
    + unfold held_by. rewrite (lookup_ge_None_2 s i') by lia. apply not_elem_of_nil.
  - intros H i' _. apply orb_true_iff. destruct (decide (i' = i)) as [->|Hne].
    + left. by apply bool_decide_eq_true.
    + right. apply negb_true_iff, bool_decide_eq_false, H, Hne.
Qed.

Lemma advance_inv s i s' : advance s i = Some s' →
  ∃ t t', s !! i = Some t ∧ act s i t = Some t' ∧ s' = <[i := t']> s.
Proof.
  unfold advance. intros (t & Ht & (t' & Ha & [= <-])%bind_Some)%bind_Some. eauto.
Qed.

Lemma act_todo s i t t' : act s i t = Some t' → ∃ a, todo t = a :: todo t'.
Proof. unfold act. intros H. repeat case_match; simplify_eq/=; eauto. Qed.

Lemma held_by_lookup s i t : s !! i = Some t → held_by s i = held t.
Proof. unfold held_by. by intros ->. Qed.

Lemma held_by_insert s i t i' : (i < length s)%nat →
  held_by (<[i := t]> s) i' = if decide (i = i') then held t else held_by s i'.
Proof.
  intros Hi. unfold held_by. case_decide as Hd.
  - subst i'. by rewrite list_lookup_insert_eq.
  - by rewrite list_lookup_insert_ne.
Qed.

(** ** Every schedule ends *)

Definition work (s : System) : nat := sum_list_with (λ t, length (todo t)) s.

Lemma work_insert s i t t' : s !! i = Some t →
  (work (<[i := t']> s) + length (todo t) = work s + length (todo t'))%nat.
Proof.
  revert i. induction s as [|t0 s IH]; intros [|i] Hi; simplify_eq/=.
  - unfold work. simpl. lia.
  - specialize (IH i Hi). unfold work in *. simpl. lia.
Qed.

Lemma step_work s s' : step s s' → (work s' < work s)%nat.
Proof.
  intros (i & (t & t' & Ht & Ha & ->)%advance_inv). destruct (act_todo _ _ _ _ Ha) as [a Hd].
  pose proof (work_insert s i t t' Ht) as Hw. rewrite Hd in Hw. simpl in Hw. lia.
Qed.

(** No schedule goes on for ever. *)
Lemma schedules_end s : sn step s.
Proof.
  remember (work s) as n eqn:Hn. revert s Hn.
  induction n as [n IH] using lt_wf_ind. intros s ->. constructor. intros s' Hs.
  eapply IH; [by apply step_work|done].
Qed.

(** ** Disciplined threads *)

(** The rest of a thread is disciplined, and releases what it holds. *)
Definition disciplined (t : Thread) : Prop := follow (held t) (todo t) = Some [].

(** A mutex is held by one thread. *)
Definition exclusive (s : System) : Prop :=
  ∀ i i' m, i ≠ i' → m ∈ held_by s i → m ∉ held_by s i'.

Definition system_ok (s : System) : Prop := Forall disciplined s ∧ exclusive s.

Lemma launch_ok traces : Forall (λ tr, follow [] tr = Some []) traces → system_ok (launch traces).
Proof.
  intros Ht. split; [by apply Forall_fmap|].
  intros i i' m _ Hm. exfalso. unfold held_by, launch in Hm.
  rewrite list_lookup_fmap in Hm. destruct (traces !! i); simpl in Hm; set_solver.
Qed.

Lemma act_disciplined s i t t' : act s i t = Some t' → disciplined t → disciplined t'.
Proof.
  unfold act, disciplined. intros H. destruct (todo t) as [|[m|m|w l] tr]; simpl; [done|..].
  - repeat case_match; simplify_eq/=; done.
  - repeat case_match; simplify_eq/=; done.
  - repeat case_match; simplify_eq/=; done.
Qed.

(** A thread that acts holds afterwards what it held, and mutexes that no other
    thread holds. *)
Lemma act_held s i t t' m : act s i t = Some t' → m ∈ held t' →
  m ∈ held t ∨ available s i m = true.
Proof.
  unfold act. intros H Hm. destruct (todo t) as [|[m'|m'|w l] tr]; [done|..].
  - case_match eqn:Hc; [|done]. apply andb_true_iff in Hc as [Ha _]. simplify_eq/=.
    apply elem_of_cons in Hm as [->|Hm]; auto.
  - destruct (held t) as [|h rest]; [done|]. case_decide; simplify_eq/=. left. by right.
  - simplify_eq/=. auto.
Qed.

Lemma step_ok s s' : step s s' → system_ok s → system_ok s'.
Proof.
  intros (i & (t & t' & Ht & Ha & ->)%advance_inv) [Hd He].
  pose proof (lookup_lt_Some _ _ _ Ht) as Hlt. split.
  - apply Forall_insert; [done|]. eapply act_disciplined; [done|].
    by eapply Forall_lookup_1.
  - assert (∀ i' m, i' ≠ i → m ∈ held t' → m ∉ held_by s i') as Hnew.
    { intros i' m Hne Hm. destruct (act_held _ _ _ _ _ Ha Hm) as [Hm'|Hm'].
      - apply (He i); [done|]. by rewrite (held_by_lookup _ _ _ Ht).
      - by apply (availableP s i m). }
    intros i1 i2 m Hne. rewrite !held_by_insert by done.
    repeat case_decide; subst; try done.
    + by apply Hnew.
    + intros H1 H2. by eapply Hnew.
    + by apply He.
Qed.

Lemma steps_ok s s' : rtc step s s' → system_ok s → system_ok s'.
Proof. induction 1; eauto using step_ok. Qed.

(** ** Progress *)

(** A disciplined thread waits for a mutex only while another thread holds it, and
    holds only mutexes of lower rank. *)
Lemma waits s i t : disciplined t → todo t ≠ [] →
  (∃ t', act s i t = Some t') ∨
  ∃ m tr, todo t = Lock m :: tr ∧ available s i m = false.
Proof.
  unfold disciplined, act. intros Hf Hne.
  destruct (todo t) as [|[m|m|w l] tr]; [done|..]; simpl in Hf.
  - destruct (available s i m) eqn:Ha; [|eauto]. left. simpl.
    destruct (recursive (kind m)) eqn:Hr; simpl; [eauto|].
    rewrite bool_decide_false; [simpl; eauto|]. intros Hin.
    unfold may_lock in Hf. rewrite Hr in Hf. simpl in Hf. case_match eqn:Hl; [|done].
    rewrite forallb_forall in Hl. apply list_elem_of_In, Hl in Hin.
    apply Nat.ltb_lt in Hin. lia.
  - left. destruct (held t) as [|h rest]; [done|]. case_decide; [eauto|done].
  - left. eauto.
Qed.

Lemma waits_ranked t m tr h : disciplined t → todo t = Lock m :: tr → h ∈ held t →
  m ∈ held t ∨ (rank (kind h) < rank (kind m))%nat.
Proof.
  unfold disciplined. intros Hf Ht Hh. rewrite Ht in Hf. simpl in Hf.
  case_match eqn:Hl; [|done]. unfold may_lock in Hl.
  apply orb_true_iff in Hl as [[_ Hb%bool_decide_eq_true]%andb_true_iff|Hl]; [by left|].
  right. rewrite forallb_forall in Hl. by apply list_elem_of_In, Hl, Nat.ltb_lt in Hh.
Qed.

Lemma rank_bound k : (rank k < 8)%nat.
Proof. destruct k; simpl; lia. Qed.

Lemma unavailable s i m : available s i m = false →
  ∃ i' t, i' ≠ i ∧ s !! i' = Some t ∧ m ∈ held t.
Proof.
  unfold available. intros H.
  destruct (decide (Exists (λ i', i' ≠ i ∧ m ∈ held_by s i') (seq 0 (length s)))) as [Hex|Hno].
  - apply Exists_exists in Hex as (i' & _ & Hne & Hm). unfold held_by in Hm.
    destruct (s !! i') as [t|] eqn:Ht; [by eauto 6|]. simpl in Hm. set_solver.
  - exfalso. apply not_true_iff_false in H. apply H, availableP.
    intros i' Hne Hm. apply Hno, Exists_exists. exists i'. split; [|done].
    unfold held_by in Hm. destruct (s !! i') as [t|] eqn:Ht; [|simpl in Hm; set_solver].
    apply list_elem_of_In, in_seq. apply lookup_lt_Some in Ht. lia.
Qed.

(** Follow the mutexes that threads wait for: their ranks increase. *)
Lemma someone_acts s : system_ok s → ∀ n i t m tr,
  (8 - rank (kind m) <= n)%nat → s !! i = Some t → todo t = Lock m :: tr → ∃ s', step s s'.
Proof.
  intros [Hd He]. induction n as [|n IH]; intros i t m tr Hn Ht Htodo.
  - pose proof (rank_bound (kind m)). lia.
  - assert (disciplined t) as Hdt by (by eapply Forall_lookup_1).
    destruct (waits s i t Hdt) as [[t' Ha]|(m0 & tr0 & Heq & Hav)].
    + by rewrite Htodo.
    + exists (<[i := t']> s), i. unfold advance. by rewrite Ht; simpl; rewrite Ha.
    + rewrite Htodo in Heq. simplify_eq.
      apply unavailable in Hav as (i' & t' & Hne & Ht' & Hm).
      assert (disciplined t') as Hdt' by (by eapply Forall_lookup_1).
      destruct (waits s i' t' Hdt') as [[t2 Ha]|(m' & tr' & Heq' & Hav')].
      * intros Hnil. unfold disciplined in Hdt'. rewrite Hnil in Hdt'.
        injection Hdt' as Hdt'. rewrite Hdt' in Hm. set_solver.
      * exists (<[i' := t2]> s), i'. unfold advance. by rewrite Ht'; simpl; rewrite Ha.
      * destruct (waits_ranked _ _ _ m0 Hdt' Heq' Hm) as [Hin|Hlt].
        -- apply unavailable in Hav' as (i2 & t2 & Hne2 & Ht2 & Hm2). exfalso.
           apply (He i' i2 m' (not_eq_sym Hne2));
             [by rewrite (held_by_lookup s i' t')|by rewrite (held_by_lookup s i2 t2)].
        -- eapply (IH i' t' m' tr'); [lia|done..].
Qed.

(** A system of disciplined threads acts until all of them are finished. *)
Lemma progress s : system_ok s → Forall finished s ∨ ∃ s', step s s'.
Proof.
  intros Hok. destruct (decide (Forall finished s)) as [Hf|Hf]; [by left|]. right.
  apply not_Forall_Exists in Hf; [|apply _]. apply Exists_exists in Hf as (t & Hin & Hnf).
  apply list_elem_of_lookup in Hin as [i Ht].
  destruct (waits s i t) as [[t' Ha]|(m & tr & Heq & _)].
  - destruct Hok as [Hd _]. by eapply Forall_lookup_1.
  - done.
  - exists (<[i := t']> s), i. unfold advance. by rewrite Ht; simpl; rewrite Ha.
  - by eapply someone_acts.
Qed.

(** ** Data races *)

Lemma guarded_not_raced s l : system_ok s → race s l →
  match protection (var l) with GuardedBy _ => False | _ => True end.
Proof.
  intros [Hd He] (i & i' & w & w' & tr & tr' & h & h' & Hne & Hi & Hi' & _).
  destruct (protection (var l)) as [k| |] eqn:Hp; [|done|done].
  assert (∀ i w tr h, s !! i = Some (mkThread (Touch w l :: tr) h) →
            mutex_at k (location_owner l) ∈ held_by s i) as Hheld.
  { clear -Hd Hp. intros i w tr h Hi. rewrite (held_by_lookup _ _ _ Hi). simpl.
    pose proof (Forall_lookup_1 _ _ _ _ Hd Hi) as Hf. unfold disciplined in Hf. simpl in Hf.
    case_match eqn:Ht; [|done]. unfold may_touch in Ht. rewrite Hp in Ht.
    by apply bool_decide_eq_true in Ht. }
  eapply (He i i'); eauto.
Qed.

(** Threads other than the first leave what only the executor uses alone. *)
Definition executor_alone (s : System) : Prop :=
  ∀ i t, s !! S i = Some t → Forall leaves_alone (todo t).

Lemma step_executor_alone s s' : step s s' → executor_alone s → executor_alone s'.
Proof.
  intros (i & (t & t' & Ht & Ha & ->)%advance_inv) He i' t0 Hi'.
  apply list_lookup_insert_Some in Hi' as [(-> & -> & _)|[_ Hi']]; [|by eapply He].
  destruct (act_todo _ _ _ _ Ha) as [a Hd]. specialize (He _ _ Ht). rewrite Hd in He.
  by inversion He.
Qed.

Lemma steps_executor_alone s s' : rtc step s s' → executor_alone s → executor_alone s'.
Proof. induction 1; eauto using step_executor_alone. Qed.

Lemma executor_not_raced s l : executor_alone s → race s l →
  protection (var l) ≠ ExecutorOnly.
Proof.
  intros He (i & i' & w & w' & tr & tr' & h & h' & Hne & Hi & Hi' & _).
  destruct i as [|i].
  - destruct i' as [|i']; [done|]. specialize (He _ _ Hi'). by inversion He.
  - specialize (He _ _ Hi). by inversion He.
Qed.
