(* ===== verification/Locks.v ===== *)
(** * Mutexes and shared members of a node

    For each method of raft/context_store.cpp, raft/other_node.cpp, raft/context.cpp,
    raft/state, common/state_machine.hpp, common/observable.hpp and
    cluster_node_impl.cpp: the mutexes that it locks, the members it uses of those that
    threads share, and the methods it calls, in the order of the source, with its
    branches and loops (LockSystem.v).  Members that are set before the node is shared
    ([other_nodes_], [majority_], the maps of states) are left out, as are rclcpp's own
    locks.

    The executor runs the callbacks of a node one at a time (they are in the node's
    default callback group); other threads of the user call the methods of ClusterNode. *)

From S2P Require Import Prelude RaftTypes LockSystem.

(** Arguments of a call are evaluated in either order. *)
Definition Both (c1 c2 : Code) : Code := Either (Then c1 c2) (Then c2 c1).

(** A [for] loop over the peers. *)
Definition EachPeer (cs : list Code) : Code := Loop (ForPeer (Seq cs)).

(** ** raft/context_store.cpp *)

(** A write of leveldb through [db_], where [db_] is not null. *)
Definition Put_locks : Code := Seq [Read db_; Maybe [Write db_]].

Definition set_current_term_locks : Code :=
  Guard store_mutex_ (Seq [Write current_term_; Put_locks]).

Definition current_term_locks : Code := Guard store_mutex_ (Read current_term_).

Definition set_voted_for_locks : Code := Guard store_mutex_ (Seq [Write voted_for_; Put_locks]).

Definition voted_for_locks : Code := Guard store_mutex_ (Read voted_for_).

Definition set_voted_locks : Code := Guard store_mutex_ (Seq [Write voted_; Put_locks]).

Definition voted_locks : Code := Guard store_mutex_ (Read voted_).

Definition vote_received_locks : Code := Guard store_mutex_ (Read vote_received_).

Definition increase_vote_received_locks : Code :=
  Guard store_mutex_ (Seq [Read vote_received_; Write vote_received_]).

Definition reset_vote_received_locks : Code := Guard store_mutex_ (Write vote_received_).

(** [log(id)] *)
Definition log_at_locks : Code := Guard store_mutex_ (Seq [Read logs_; Maybe [Read logs_]]).

(** [log()] *)
Definition log_locks : Code := Guard store_mutex_ (Seq [Read logs_; Maybe [Read logs_]]).

Definition logs_size_locks : Code := Guard store_mutex_ (Read logs_).

Definition store_logs_size_locks : Code := Put_locks.

Definition store_log_term_locks : Code := Put_locks.

Definition store_log_data_locks : Code := Put_locks.

Definition push_log_locks : Code :=
  Guard store_mutex_ (
    Maybe [Read logs_;
    Maybe [store_log_term_locks;
    Maybe [store_log_data_locks;
    Maybe [Read logs_; store_logs_size_locks;
    Maybe [Write logs_]]]]]).

Definition revert_log_locks : Code :=
  Guard store_mutex_ (Seq [Read logs_; Maybe [Write logs_; store_logs_size_locks]]).

(** ** raft/other_node.cpp *)

Definition OtherNode_broadcast_locks (get_log_entry_callback : Code) : Code :=
  Maybe [Guard index_mutex_ (Read next_index_);
         Maybe [Maybe [get_log_entry_callback]; Maybe [get_log_entry_callback]]].

(** The callback of [send_append_entries], which the executor calls. *)
Definition send_append_entries_locks (callback : Code) : Code :=
  Seq [Guard index_mutex_
         (Either (Seq [Write match_index_; Read match_index_; Write next_index_])
                 (Seq [Read next_index_; Maybe [Read next_index_; Write next_index_]]));
       callback].

(** [request_vote] and the callback that it passes on use no shared member. *)
Definition OtherNode_request_vote_locks : Code := Skip.

Definition OtherNode_vote_response_locks (callback : Code) : Code := callback.

Definition set_match_index_locks : Code :=
  Guard index_mutex_ (Seq [Write match_index_; Read match_index_; Write next_index_]).

Definition update_match_index_locks : Code := set_match_index_locks.

(** ** raft/context.cpp: callbacks and pending commits *)

Definition set_commit_callback_locks : Code := Guard callback_mutex_ (Write commit_callback_).

Definition set_revert_callback_locks : Code := Guard callback_mutex_ (Write revert_callback_).

(** The user's callback runs while [callback_mutex_] is held. *)
Definition invoke_commit_callback_locks : Code :=
  Guard callback_mutex_ (Maybe [Read commit_callback_; Maybe [Read commit_callback_; Call UserCode]]).

Definition invoke_revert_callback_locks : Code :=
  Guard callback_mutex_ (Seq [Read revert_callback_; Maybe [Read revert_callback_; Call UserCode]]).

Definition get_pending_commit_locks : Code :=
  Guard pending_commit_mutex_ (Seq [Read pending_commit_;
    Maybe [logs_size_locks; Either (Write pending_commit_) (Read pending_commit_)]]).

Definition set_pending_commit_locks : Code :=
  Seq [logs_size_locks;
    Maybe [Guard pending_commit_mutex_ (Seq [Read pending_commit_;
      Either (Seq [logs_size_locks; Maybe [Write pending_commit_]])
             (Write pending_commit_)])]].

Definition clear_pending_commit_locks : Code :=
  Guard pending_commit_mutex_ (Seq [Read pending_commit_; Write pending_commit_]).

Definition complete_commit_locks (result : bool) : Code :=
  Seq [if result then Seq [push_log_locks; invoke_commit_callback_locks] else Skip;
       Maybe [Call UserCode]].

Definition cancel_commit_locks : Code := Maybe [Call UserCode].

Definition commit_command_locks : Code :=
  Seq [Read raft_current_state_;
    Either (Seq [logs_size_locks; cancel_commit_locks])
      (Seq [Both logs_size_locks current_term_locks;
        Either (complete_commit_locks true)
          (Seq [set_pending_commit_locks; Maybe [cancel_commit_locks]])])].

Definition cancel_pending_commit_locks : Code :=
  Seq [clear_pending_commit_locks; Maybe [complete_commit_locks false]].

(** Returns early in either [if], or clears the commit and completes it. *)
Definition handle_pending_commit_response_locks : Code :=
  let count := Loop (Seq [Read result_map_; Maybe [Read result_map_]]) in
  Choose [
    Guard pending_commit_mutex_ (Read pending_commit_);
    Guard pending_commit_mutex_ (Seq [Read pending_commit_; Write result_map_; count]);
    Seq [Guard pending_commit_mutex_
           (Seq [Read pending_commit_; Write result_map_; count; Write pending_commit_]);
         complete_commit_locks true]].

Definition on_log_get_request_locks : Code :=
  Seq [get_pending_commit_locks; Either Skip log_at_locks].

(** ** raft/context.cpp: terms, votes and entries

    [Call RaftHandle] is a call of [handle] on the RAFT state machine. *)

Definition reset_vote_locks : Code :=
  Seq [set_voted_for_locks; reset_vote_received_locks; set_voted_locks].

Definition vote_for_me_locks : Code :=
  Seq [set_voted_for_locks; set_voted_locks; increase_vote_received_locks].

Definition vote_locks : Code :=
  Seq [log_locks; current_term_locks;
    Maybe [voted_locks; Maybe [set_voted_for_locks; set_voted_locks]]].

Definition update_term_locks (self : bool) : Code :=
  Seq [current_term_locks;
    Maybe [set_current_term_locks; reset_vote_locks; if self then Skip else Call RaftHandle]].

Definition increase_term_locks : Code := Seq [current_term_locks; update_term_locks true].

Definition request_local_commit_locks : Code :=
  Seq [log_locks;
    Either Skip
      (Seq [Maybe [revert_log_locks; invoke_revert_callback_locks];
            push_log_locks; Maybe [invoke_commit_callback_locks]])].

Definition request_local_rollback_locks : Code := revert_log_locks.

Definition on_append_entries_requested_locks : Code :=
  Maybe [current_term_locks;
    Maybe [update_term_locks false; Write broadcast_received_; Call RaftHandle];
    Choose [Skip;
            request_local_commit_locks;
            Seq [log_at_locks;
                 Choose [Skip; request_local_rollback_locks; request_local_commit_locks]]]].

Definition on_request_vote_requested_locks : Code := Maybe [update_term_locks false; vote_locks].

Definition on_broadcast_response_locks : Code :=
  Seq [current_term_locks; Maybe [update_term_locks false];
       handle_pending_commit_response_locks].

Definition broadcast_locks : Code :=
  Seq [get_pending_commit_locks; Maybe [log_locks];
       EachPeer [current_term_locks; OtherNode_broadcast_locks on_log_get_request_locks]].

Definition check_elected_locks : Code :=
  Seq [vote_received_locks;
    Maybe [log_locks; EachPeer [update_match_index_locks]; Call RaftHandle]].

Definition request_vote_locks : Code :=
  Seq [EachPeer [Both current_term_locks log_locks; OtherNode_request_vote_locks];
       check_elected_locks].

Definition on_request_vote_response_locks : Code :=
  Seq [current_term_locks;
    Maybe [update_term_locks false; Maybe [increase_vote_received_locks; check_elected_locks]]].

Definition inspector_message_requested_locks : Code :=
  Seq [current_term_locks; logs_size_locks; voted_for_locks; Read raft_current_state_].

Definition get_commands_size_locks : Code := logs_size_locks.

Definition get_command_locks : Code := log_at_locks.

(** ** raft/context.cpp: timers *)

Definition stop_election_timer_locks : Code :=
  Seq [Read election_timer_; Maybe [Write election_timer_]].

Definition start_election_timer_locks : Code :=
  Seq [Read election_timer_; Maybe [Write election_timer_];
       Write random_generator_; Write election_timer_].

Definition reset_election_timer_locks : Code :=
  Seq [stop_election_timer_locks; start_election_timer_locks].

Definition stop_broadcast_timer_locks : Code :=
  Seq [Read broadcast_timer_; Maybe [Write broadcast_timer_]].

Definition start_broadcast_timer_locks : Code :=
  Seq [Read broadcast_timer_; Maybe [Write broadcast_timer_]; Write broadcast_timer_].

(** The callbacks of the timers. *)
Definition election_timer_locks : Code :=
  Seq [Read broadcast_received_; Either (Write broadcast_received_) (Call RaftHandle)].

Definition broadcast_timer_locks : Code := Call RaftHandle.

(** ** common/observable.hpp and common/state_machine.hpp *)

Definition notify_locks (mutex : MutexKind) (observers : Var) (handle : Code) : Code :=
  Guard mutex (Seq [Read observers; Loop handle]).

(** [handle] of a state machine: the event handlers of its current state, the [exit] of
    that state, the [notify] of the new state and its [entry].  Observers get a
    reference to the current state. *)
Definition handle_locks (mutex : MutexKind) (current_state : Var)
    (state_handle exit notify entry : Code) : Code :=
  Guard mutex (Seq [Read current_state; state_handle;
    Maybe [Read current_state; exit; Write current_state; notify;
           Read current_state; entry]]).

(** ** lifecycle/state_machine.hpp and cluster_node_impl.cpp *)

(** [ClusterNodeImpl::handle] of a lifecycle state *)
Definition handle_lifecycle_state_locks : Code :=
  Seq [Read lifecycle_current_state_;
       Maybe [Read user_callbacks_; Maybe [Read user_callbacks_; Call UserCode]]].

(** The handlers, [entry] and [exit] of lifecycle states do nothing. *)
Definition lifecycle_handle_locks : Code :=
  handle_locks lifecycle_state_mutex_ lifecycle_current_state_ Skip Skip
    (notify_locks lifecycle_notifier_mutex_ lifecycle_observers_ handle_lifecycle_state_locks)
    Skip.

(** [ClusterNodeImpl::handle] of a RAFT state *)
Definition handle_raft_state_locks : Code :=
  Seq [Read raft_current_state_;
       Either lifecycle_handle_locks (Seq [current_term_locks; Read raft_current_state_])].

Definition is_activated_locks : Code := Read lifecycle_current_state_.

Definition set_user_callback_locks : Code := Write user_callbacks_.

(** ** raft/state and raft/state_machine.cpp *)

Definition start_election_locks : Code :=
  Seq [increase_term_locks; reset_vote_locks; vote_for_me_locks; reset_election_timer_locks;
       request_vote_locks].

(** What the event handlers of a state do. *)
Definition state_handle_locks (state : StateType) : Code :=
  match state with
  | kCandidate => Maybe [start_election_locks]
  | kLeader => Maybe [broadcast_locks]
  | _ => Skip
  end.

Definition exit_locks (state : StateType) : Code :=
  match state with
  | kLeader => Seq [stop_broadcast_timer_locks; cancel_pending_commit_locks]
  | _ => Skip
  end.

Definition entry_locks (state : StateType) : Code :=
  match state with
  | kStandby => stop_election_timer_locks
  | kFollower => start_election_timer_locks
  | kCandidate => start_election_locks
  | kLeader => start_broadcast_timer_locks
  | kStay => Skip
  end.

(** The current state is read again before its [exit] and [entry]: handlers may have
    changed it. *)
Definition raft_handle_locks : Code :=
  let states := [kStandby; kFollower; kCandidate; kLeader] in
  handle_locks raft_state_mutex_ raft_current_state_
    (Choose (state_handle_locks <$> states))
    (Choose (exit_locks <$> states))
    (notify_locks raft_notifier_mutex_ raft_observers_ handle_raft_state_locks)
    (Choose (entry_locks <$> states)).

(** ** Threads *)

(** The methods of ClusterNode, its publishers and services that user code calls, also
    from its callbacks.  What else user code does, and the mutexes of its own that it
    may take, are not part of the program. *)
Definition api_locks : Code :=
  Choose [commit_command_locks; get_commands_size_locks; get_command_locks;
          is_activated_locks; set_user_callback_locks; set_commit_callback_locks;
          set_revert_callback_locks].

Definition procs (p : Proc) : Code :=
  match p with
  | RaftHandle => raft_handle_locks
  | UserCode => Loop api_locks
  end.

(** A callback of the node: services, responses, timers, and the user's own. *)
Definition callback_locks : Code :=
  Choose [on_append_entries_requested_locks; on_request_vote_requested_locks;
          ForPeer (send_append_entries_locks on_broadcast_response_locks);
          OtherNode_vote_response_locks on_request_vote_response_locks;
          election_timer_locks; broadcast_timer_locks; inspector_message_requested_locks;
          Call UserCode].

Definition executor_locks : Code := Loop callback_locks.

Definition user_locks : Code := Call UserCode.
