(* ===== verification/LockTheorems.v ===== *)
(** * Deadlocks and data races of a node

    The executor and any number of user threads run the code of Locks.v. *)

From S2P Require Import Prelude RaftTypes LockSystem Threads Locks.

(** The kinds of mutexes that a call of the RAFT state machine, or user code, takes. *)
Definition summary (p : Proc) : list MutexKind :=
  match p with
  | RaftHandle =>
      [raft_state_mutex_; raft_notifier_mutex_; lifecycle_state_mutex_;
       lifecycle_notifier_mutex_; callback_mutex_; pending_commit_mutex_; store_mutex_;
       index_mutex_]
  | UserCode => [callback_mutex_; pending_commit_mutex_; store_mutex_]
  end.

(** The traces of a node's threads: the executor's first. *)
Definition node_traces (traces : list (list Action)) : Prop :=
  match traces with
  | [] => False
  | executor :: users =>
      runs procs 0 executor_locks executor ∧ Forall (runs procs 0 user_locks) users
  end.

(** Carries out [choices] on [c], and schedules threads in [order]. *)
Definition trace_of (c : Code) (choices : list N) : list Action :=
  from_option fst [] (perform 100 procs 0 c choices).

Definition executor_only (p : Proc) : bool := match p with UserCode => true | RaftHandle => false end.

(** ** The node's code is disciplined *)

Lemma procs_summarized p : summarized procs summary p = true.
Proof. by destruct p; vm_compute. Qed.

Lemma executor_disciplined tr : runs procs 0 executor_locks tr → follow [] tr = Some [].
Proof. apply (runs_disciplined procs summary procs_summarized). by vm_compute. Qed.

Lemma user_disciplined tr : runs procs 0 user_locks tr → follow [] tr = Some [].
Proof. apply (runs_disciplined procs summary procs_summarized). by vm_compute. Qed.

Lemma user_confined tr : runs procs 0 user_locks tr → Forall leaves_alone tr.
Proof.
  intros Hr. eapply (runs_confined _ executor_only); [|exact Hr|done].
  intros []; [done|]. by vm_compute.
Qed.

Lemma node_launch_ok traces : node_traces traces → system_ok (launch traces).
Proof.
  destruct traces as [|tr users]; [done|]. intros [He Hu]. apply launch_ok. constructor.
  - by apply executor_disciplined.
  - eapply Forall_impl; [done|]. apply user_disciplined.
Qed.

Lemma node_launch_executor traces : node_traces traces → executor_alone (launch traces).
Proof.
  destruct traces as [|tr users]; [done|]. intros [_ Hu] i t Ht.
  unfold launch in Ht. rewrite list_lookup_fmap in Ht.
  apply fmap_Some in Ht as (tr' & Ht & ->). simpl in Ht |- *.
  apply user_confined. by eapply Forall_lookup_1.
Qed.

(** ** Theorems *)

(** C6: the mutexes of a node do not deadlock.  Whatever the executor and the user's
    threads run, however they interleave, and whatever user callbacks call while
    the node's mutexes are held: no schedule goes on for ever, and as long as a thread
    has something to do, some thread can act. *)
Theorem no_deadlock traces s :
  node_traces traces → rtc step (launch traces) s →
  sn step s ∧ (Forall finished s ∨ ∃ s', step s s').
Proof.
  intros Ht Hs. split; [apply schedules_end|].
  apply progress. eapply steps_ok; [done|]. by apply node_launch_ok.
Qed.

(** C7: at no time are two threads about to use the same shared member with one of them
    writing it, other than the current states of the two state machines and the user's
    lifecycle callbacks. *)
Theorem members_not_raced traces s l :
  node_traces traces → rtc step (launch traces) s → race s l →
  var l ∈ [raft_current_state_; lifecycle_current_state_; user_callbacks_].
Proof.
  intros Ht Hs Hr.
  pose proof (guarded_not_raced s l (steps_ok _ _ Hs (node_launch_ok _ Ht)) Hr) as Hg.
  pose proof (executor_not_raced s l
    (steps_executor_alone _ _ Hs (node_launch_executor _ Ht)) Hr) as He.
  destruct (var l); simpl in *; try done; set_solver.
Qed.

(** ** Runs *)

(** The executor handles an event of the broadcast timer that changes the state and
    calls the user's callback of the new lifecycle state. *)
Definition state_change : list Action :=
  trace_of executor_locks [1; 1;1;1;1;1;0; 0;0;0; 1;0;0;1;0;1;0;0; 0;1; 0]%N.

(** User threads commit a command, ask whether the node is active, register a callback. *)
Definition user_commits : list Action := trace_of user_locks [1; 0; 1;0;1;0;1;1; 0]%N.
Definition user_asks : list Action := trace_of user_locks [1; 1;1;1;0; 0]%N.
Definition user_registers : list Action := trace_of user_locks [1; 1;1;1;1;0; 0]%N.

Lemma trace_of_runs c choices tr rest :
  perform 100 procs 0 c choices = Some (tr, rest) → runs procs 0 c (trace_of c choices).
Proof. intros H. unfold trace_of. rewrite H. by eapply perform_runs. Qed.

(** The node's threads when the executor changes state next to one of the user's. *)
Definition with_user (user : list Action) : list (list Action) := [state_change; user].

(** The state after the executor's first [n] actions. *)
Definition after (n : nat) (user : list Action) : System :=
  from_option id [] (schedule (launch (with_user user)) (replicate n 0%nat)).

Lemma commits_with_executor : node_traces (with_user user_commits).
Proof. split; [|constructor; [|done]]; eapply trace_of_runs; by vm_compute. Qed.

Lemma asks_with_executor : node_traces (with_user user_asks).
Proof. split; [|constructor; [|done]]; eapply trace_of_runs; by vm_compute. Qed.

Lemma registers_with_executor : node_traces (with_user user_registers).
Proof. split; [|constructor; [|done]]; eapply trace_of_runs; by vm_compute. Qed.

Lemma after_steps n user s : schedule (launch (with_user user)) (replicate n 0%nat) = Some s →
  rtc step (launch (with_user user)) (after n user).
Proof. intros H. unfold after. rewrite H. by eapply schedule_steps. Qed.

(** The executor and the user's thread race in a computed state. *)
Ltac show_race := exists 0%nat, 1%nat; do 6 eexists; split_and!; [done|by vm_compute..].

(** Those three are raced.  [is_leader] reads [current_state_] of the RAFT state machine
    in a user's thread while [handle] writes it in the executor's; so does
    [is_activated] with the lifecycle state; and a callback is registered while the
    executor is about to call it. *)
Theorem current_states_raced :
  Forall (λ v, ∃ traces s,
      node_traces traces ∧ rtc step (launch traces) s ∧ race s (mkLocation v 0))
    [raft_current_state_; lifecycle_current_state_; user_callbacks_].
Proof.
  repeat constructor.
  - exists (with_user user_commits), (after 3 user_commits).
    split_and!; [apply commits_with_executor|eapply after_steps; by vm_compute|].
    show_race.
  - exists (with_user user_asks), (after 10 user_asks).
    split_and!; [apply asks_with_executor|eapply after_steps; by vm_compute|].
    show_race.
  - exists (with_user user_registers), (after 14 user_registers).
    split_and!; [apply registers_with_executor|eapply after_steps; by vm_compute|].
    show_race.
Qed.

(** Half-way through the change of state all four of the executor's mutexes are held. *)
Lemma no_deadlock_witness :
  held_by (after 13 user_commits) 0 =
    [mkMutex lifecycle_notifier_mutex_ 0; mkMutex lifecycle_state_mutex_ 0;
     mkMutex raft_notifier_mutex_ 0; mkMutex raft_state_mutex_ 0] ∧
  sn step (after 13 user_commits) ∧
  (Forall finished (after 13 user_commits) ∨ ∃ s', step (after 13 user_commits) s').
Proof.
  split; [by vm_compute|].
  apply (no_deadlock (with_user user_commits)); [apply commits_with_executor|].
  eapply after_steps. by vm_compute.
Defined.

Lemma members_not_raced_witness :
  raft_current_state_ ∈ [raft_current_state_; lifecycle_current_state_; user_callbacks_].
Proof.
  apply (members_not_raced (with_user user_commits) (after 3 user_commits)
           (mkLocation raft_current_state_ 0)).
  - apply commits_with_executor.
  - eapply after_steps. by vm_compute.
  - show_race.
Defined.
